(* ===== verification/_CoqProject ===== *)
-Q . S2P
Prelude.v
GoStrings.v
GoNet.v
Json.v
KubeTypes.v
LbStatus.v
DnsProvider.v
Dyndns.v
DynStubs.v
Dynect.v
WorkQueue.v
DnsUtil.v
IngressDns.v
IngressDnsFacts.v
IngressDnsProcess.v
Handlers.v
Informer.v
DnsRunner.v
Md5.v
ClusterSelector.v
FedInformer.v
Updater.v
Deletion.v
Backoff.v
Deliverer.v
Channels.v
IngressController.v
Federation.v
DnsFeed.v
ConfigMaps.v
Cloud.v
IngressControllerFacts.v
Settling.v
ConfigMapsFacts.v
Wiring.v
Requests.v
Agreement.v
Stalls.v
Forgotten.v
Machine.v
Program.v
DyndnsFacts.v
DyndnsService.v
DynectFacts.v
CommandLine.v
Startup.v
EndToEnd.v
