(* ===== verification/Prelude.v ===== *)
(** * The federated ingress controller

    This library models the federated ingress controller of Kubernetes: the program in
    [src/cmd/ingresscontroller], its packages under [src/pkg], and the parts of the vendored
    federation and client libraries that carry its logic.  A federated ingress is an ingress
    of the federation's API server; the program brings it to the member clusters, publishes
    the load balancers the clusters give it, and makes DNS records for them.

    ** The program and how its parts work together

    Two controllers run in one process.

    The ingress controller ([pkg/controller/ingress/ingress_controller.go]) watches federated
    ingresses, the clusters of the federation, and the ingresses and UID config maps of every
    ready cluster.  An event becomes a request in one of three delaying queues; a handler
    takes the request when it is due, looks at the caches of the informers, and calls the API
    servers.  It creates, updates and deletes the ingress in the clusters, elects a first
    cluster that gets the global static IP, copies that IP and the load balancer status back
    to the federated ingress, gives all clusters one ingress UID, and writes the load
    balancer status of every cluster into the annotation
    [kubernetes.io/ingress.global-ingress-lb-status].

    The DNS controller ([pkg/controller/ingress/dns/dns.go]) watches federated ingresses too.
    A worker takes each from a work queue, reads the annotation, and makes sure that three
    names per cluster (zone, region, federation) hold the addresses of their level, through
    the pluggable DNS provider interface.  One provider, DynDNS, belongs to the repository.

    ** Files and what they model

    Values and libraries of Go:
    - [Prelude.v]: errors, results, panics ([outcome]), stateful code ([M]) with its loops
      and rules, the hint databases [go] and [go_rw], generic lemmas.
    - [GoStrings.v], [GoNet.v], [Json.v], [Md5.v]: [strings] and [strconv], [net.ParseIP],
      [encoding/json], and [md5.Sum] with [getProviderUid] of [ingress_controller.go].
    - [KubeTypes.v]: API objects, [util/meta.go] of the federation, Go maps and the order in
      which they are visited ([GoMapOrder]).

    The annotation between the two controllers:
    - [LbStatus.v]: [BuildGlobalLbStatusAnnotation] and [parseGlobalLbStatusAnnotation].

    DNS:
    - [DnsProvider.v]: [dnsprovider/dns.go] as classes; [ZoneLaws] is the contract of its
      comments, and [MemZone] a zone in memory that satisfies it.
    - [Dyndns.v], [DynStubs.v], [Dynect.v]: the provider of
      [pkg/dnsprovider/providers/dyndns], its test doubles, and its REST client.
    - [DnsUtil.v]: [pkg/controller/util/dns.go].
    - [WorkQueue.v]: [client-go/util/workqueue/queue.go].
    - [Informer.v]: [client-go/tools/cache], the store of an informer and its queue of
      changes ([delta_fifo.go]), as [NewInformer] puts them together.
    - [IngressDns.v]: [dns.go], its operations and its worker; [Handlers.v]: the event
      handlers of [util/handlers.go]; [DnsRunner.v]: [dnsControllerRun], with the informer,
      the queue and the workers as a step relation; [DnsFeed.v]: the same fed by an
      informer.
    - [IngressDnsFacts.v], [IngressDnsProcess.v], [DyndnsFacts.v], [DyndnsService.v],
      [DynectFacts.v]: theorems.

    Ingresses in the clusters:
    - [ClusterSelector.v]: [util/clusterselector], with labels and their syntax.
    - [FedInformer.v], [Updater.v], [Deletion.v], [Backoff.v], [Deliverer.v]: the federated
      informer (the stores; [Federation.v] has the informers too, and refines it), the
      federated updater, the deletion helper and finalizers, the back-off
      manager, and the delaying deliverer with [container/heap]; [Channels.v]: the
      deliverer's goroutine and its bounded channels.
    - [IngressController.v]: the state of the controller, the requests it makes, and
      [reconcileIngress]; [ConfigMaps.v]: UIDs and config maps; [Wiring.v]:
      [NewIngressController] and [Run], events and handlers as a step relation in which a
      handler may run at any time for any request made; [Requests.v]: what code requests;
      [Agreement.v]: along which histories the clusters agree on one UID;
      [Stalls.v]: what follows from a missed deletion of a cluster; [Forgotten.v]: what
      becomes of a cluster whose UID could not be set;
      [Machine.v]: the same program with its goroutines, its channels and its informer on
      federated ingresses, which refines the relation of [Wiring.v]; [Program.v]: with the
      informers on the clusters and their ingresses too ([Federation.v]), which refines the
      machine.
    - [Cloud.v]: API servers in memory, an instance of the class [Kubernetes].
    - [IngressControllerFacts.v], [Settling.v], [ConfigMapsFacts.v]: theorems.

    The whole:
    - [CommandLine.v]: [pflag], which reads the command line, and the flags of [glog];
      [Startup.v]: [main.go], command-line options, the registry of DNS providers, starting
      the controllers; [EndToEnd.v]: from load balancers to DNS records.

    A definition has the name of the function or type it models where it can; a struct is a
    [Record] with the struct's field names, an enumeration or a sum an [Inductive] type, and
    the doc comment of a definition names the Go function when the names differ.

    ** State and errors

    A function that may fail returns [result], or [option error] for a Go function that
    returns only an [error].  A function with effects is in [M St], a state transformer that
    ends in a value or a panic and keeps the writes made before a panic.  Each component's
    operations work on its own [Record]: [federatedInformerImpl] with the cluster store and
    the target informers, [Backoff] with its entries, [delivererHeap] with the heap and the
    positions of the keys, [DelayingDeliverer] with the heap, the channels and the place where
    its goroutine is, [DeltaFIFO] with the deltas and the order of their keys, [Type_] with the
    queue and the sets of dirty and processed items.
    [IngressController] puts them together with [apis], the world behind the API servers,
    which the class [Kubernetes] gives operations on.  What a component relies on is a class:
    [Kubernetes], [FedClusters], [ZoneRrsets], [ProviderZones], [DynDNSAPI], [GoDynectAPI],
    [Resolver], [FederatedUpdater].  Their laws are classes of their own ([ZoneLaws],
    [MemberLaws], [ClusterLaws], [DynLaws], [StableClusters]), assumed only by the theorems that need
    them; each has an instance, on which the witnesses run.

    What Go leaves open is a parameter that the theorems quantify over: the order of [range]
    over a map ([GoMapOrder], [MapOrder], [RangeOrder]), of [sort.Slice] among equals
    ([SliceSort]), of the goroutines of an update and of their answers ([Schedule]), of
    events, handlers and goroutines ([sys_step], [machine_step], [pchoice], [dns_step], [uid_step],
    [moves] of the deliverer).  The
    clock is read through [Now] or is an argument.  Durations are [int64] nanoseconds with
    wrap-around ([wrap64]).

    Objects are values.  The one place where the program writes to a shared object, the
    config map in the informer's cache, is modelled as a write to the cache.

    ** What the theorems show

    - The whole way: [EndToEnd.status_reaches_dns]: the addresses that the ready clusters
      report end up in the DNS names of zone, region and federation.
    - DNS records: one call of [EnsureDNSRrsets] ([EnsureDNSRrsets_correct], [_refines],
      [_idempotent]), one cluster ([ensureDNSRecords_correct], [getHealthyEndpoints_levels],
      [ensureDNSRecords_order_irrelevant], [ensureDNSRecords_deleted]), all clusters of an
      ingress ([process_correct]), all ingresses in any interleaving ([dns_catches_up]);
      from the API server on ([dns_follows_server]);
      termination without a panic ([worker_finishes]); the queue ([queue_exclusive],
      [queue_no_loss]); the choice of the zone ([GetDNSZone_longest]).
    - DynDNS: what its record sets keep ([Rrsets_New_roundtrip]), what is sent and when
      ([Apply_in_order]), what [EnsureDNSRrsets] leaves with any
      service that does what its calls say, also when reads fail
      ([EnsureDNSRrsets_dyndns_addresses], [EnsureDNSRrsets_dyndns_cname]), which record is deleted ([GetRecordID_finds]).
    - Reconciling an ingress: one review brings it to the clusters
      ([reconcileIngress_converges]), it is looked at again ([reconcileIngress_redelivers]),
      the plan is exact and creation waits for the first cluster ([plan_exact]), which
      updates settle ([update_settles]), the reviews that write to the federated ingress end
      ([reviews_settle]), what is published ([status_published]), to which clusters an
      ingress goes ([SendToCluster_means]).
    - Deletion: [deletion_gate], [EnsureFinalizers_ensures].
    - Updates of clusters in any order of goroutines: [Update_applies].
    - UIDs: the clusters agree on one, as long as the cache shows it when one is given
      ([uid_agreement]), [configmap_update], and what failures leave behind
      ([failed_update_forgotten], [unset_uid_forgotten]).
    - The controller as a system: its invariant over every history of events
      ([controller_invariant]), the reviews that a cluster change asks for, and when
      ([cluster_change_reviews]),
      the informers follow the clusters ([informers_follow_clusters]) unless a deletion is
      missed, which stops the controller ([missed_cluster_deletion_stalls]), and what that
      says holds of informers fed by reflectors ([federation_refines]); every request is
      delivered in time ([requests_served], [deliver_exactly_due], [update_keeps_earliest]),
      delays stay within bounds and do not overflow ([backoff_bounded], [backoff_doubles]).
    - Informers: the store catches up with what was read of the server
      ([informer_catches_up]), the handler is told exactly how it came about
      ([handler_told_everything]), and [HasSynced] means that the first list is through
      ([HasSynced_after_list]).
    - Goroutines and channels: the machine refines the system, so that what holds of every
      history of events holds of it ([machine_refines_system]), and the program with its
      informers refines the machine ([program_refines_machine]): a review waits until the
      first lists have been handled ([reviews_wait_for_lists]), and every change of an ingress
      in a cluster leads to a review, ten seconds later ([member_changes_reviewed]); no
      request is lost or handled early ([no_request_lost]); in every run of a deliverer
      everything is served or still under way, the moves are bounded and one is possible while
      anything is under way ([deliverer_live]); but the handlers of the controller also send, and may wait for a
      deliverer that waits for them ([ingress_queue_deadlocks]).
    - Start-up: [startup_dyndns].

    Every theorem with hypotheses has a witness in the [...Examples] module at the end of its
    file: the theorem applied to concrete values.  The examples there also show behaviour
    that is not as intended, such as [stale_address_kept], [lost_cluster_keeps_records],
    [last_cluster_wins], [recreated_overwritten], [unready_master_two_uids],
    [stale_cache_two_masters],
    [nil_data_panics], [missed_deletion_panics], [deletion_missed], [recreated_object_lost]
    and [deleted_object_stays].

    ** Fuel and bounds

    [parse_value] of [Json.v] recurses through brackets with fuel; [parse_fuel_enough] shows that the
    fuel [Unmarshal] gives it (twice the length of the text) never runs out, and [Unmarshal_print]
    that printed values are read back.  The loops [up], [down] and [deliver] of the heap have the size
    of the heap (or one more) as fuel, and [Deliverer.v] shows that they finish with it;
    [None] stands for an index out of range, which the theorems exclude.  [IngressDns.worker]
    is given a number of turns; [worker_finishes] shows that one more than the length of the
    queue is enough.  The capacities of the channels are those of the code, 100 and 1000.
    [deliverer_live] bounds the moves of a run by
    a potential that each of them lowers.  Everything else is structural.

    ** Not modelled

    Generated clients and the calls by which reflectors list and watch the API servers: what
    they bring is the argument of the operations of an informer.  The informers in the clusters
    and on the clusters ([Federation.v]) are part of [Program.v] for ingresses; those for
    config maps are not, since the controller writes into their caches, and their events come
    from any goroutine, in any order.  [clientcmd] and [gcfg],
    whose results are arguments, the flags that linked libraries register (an argument too), and the third-party go-dynect client behind [DynDNSAPI].
    The other DNS providers of the vendored federation code (AWS, Google, CoreDNS), which
    [cmd/ingresscontroller/plugins.go] links in.  Events for users, logging and metrics,
    which do not change what the program does.  Stopping the goroutines, and the interleaving
    inside a handler of the ingress controller: its effects are one step, and its requests are
    sent after it, one by one.  Deep copies, which give equal values, and the error of
    [meta.Accessor], which API objects do not have. *)

From stdpp Require Export base list gmap sets strings sorting.
From Stdlib Require Export ZArith Lia.

#[export] Set Warnings "-clear-no-such-hyp".

(** ** Go values and control flow *)

(** A Go [error]: the message it prints, and for an error of the API server the
    [metav1.StatusReason] that [errors.IsNotFound] and its like look at. *)
Inductive error : Type :=
  | Errorf (msg : string)
  | StatusError (reason msg : string).

#[export] Instance error_eq_dec : EqDecision error.
Proof. solve_decision. Defined.

(** [err.Error()]. *)
Definition error_string (e : error) : string :=
  match e with Errorf m => m | StatusError _ m => m end.

(** [errors.IsNotFound]. *)
Definition IsNotFound (e : error) : bool :=
  match e with Errorf _ => false | StatusError r _ => bool_decide (r = "NotFound") end.

(** A Go pair [(T, error)] of which exactly one half is meaningful. *)
Inductive result (A : Type) : Type :=
  | Ok (a : A)
  | Err (e : error).
Arguments Ok {A} a.
Arguments Err {A} e.

(** How a Go call ends: with a value, or in a run-time panic (a nil pointer, an
    index out of range, an assignment to a nil map). *)
Inductive outcome (A : Type) : Type :=
  | Val (a : A)
  | Panic (msg : string).
Arguments Val {A} a.
Arguments Panic {A} msg.

(** Stateful Go code: it threads a state, which keeps the writes made before a
    panic. *)
Definition M (St A : Type) : Type := St → outcome A * St.

#[export] Instance M_ret St : MRet (M St) := λ A a s, (Val a, s).
#[export] Instance M_bind St : MBind (M St) := λ A B f m s,
  match m s with
  | (Val a, s') => f a s'
  | (Panic msg, s') => (Panic msg, s')
  end.

Definition get {St} : M St St := λ s, (Val s, s).
Definition put {St} (s' : St) : M St unit := λ _, (Val tt, s').
Definition modify {St} (f : St → St) : M St unit := λ s, (Val tt, f s).
Definition gets {St A} (f : St → A) : M St A := λ s, (Val (f s), s).
Definition go_panic {St A} (msg : string) : M St A := λ s, (Panic msg, s).

(** Run code that works on a part of the state. *)
Definition zoom {St Sub A} (view : St → Sub) (upd : Sub → St → St) (m : M Sub A) : M St A :=
  λ s, let '(o, sub) := m (view s) in (o, upd sub s).

(** [for _, x := range l { ... }] with a loop-carried value; the body either goes
    on ([inl]) or makes the enclosing function return ([inr]). *)
Fixpoint for_range {St X Acc R} (l : list X) (acc : Acc)
    (body : Acc → X → M St (Acc + R)) : M St (Acc + R) :=
  match l with
  | [] => mret (inl acc)
  | x :: l' =>
      r ← body acc x;
      match r with
      | inl acc' => for_range l' acc' body
      | inr out => mret (inr out)
      end
  end.

(** A loop whose body is called for its effect and never returns early. *)
Fixpoint for_each {St X} (l : list X) (body : X → M St unit) : M St unit :=
  match l with
  | [] => mret tt
  | x :: l' => body x ≫= λ _, for_each l' body
  end.

(** ** Reasoning about stateful code *)

Create HintDb go.
Create Rewrite HintDb go_rw.

Section monad.
Context {St : Type}.
Implicit Types s : St.

Lemma bind_ret_l {A B} (a : A) (f : A → M St B) : (mret a ≫= f) = f a.
Proof. reflexivity. Qed.

Lemma bind_val {A B} (m : M St A) (f : A → M St B) s a s' :
  m s = (Val a, s') → (m ≫= f) s = f a s'.
Proof. intros E. cbv [mbind M_bind]. by rewrite E. Qed.

Lemma bind_panic {A B} (m : M St A) (f : A → M St B) s e s' :
  m s = (Panic e, s') → (m ≫= f) s = (Panic e, s').
Proof. intros E. cbv [mbind M_bind]. by rewrite E. Qed.

Lemma bind_val_inv {A B} (m : M St A) (f : A → M St B) s b s' :
  (m ≫= f) s = (Val b, s') →
  ∃ a s1, m s = (Val a, s1) ∧ f a s1 = (Val b, s').
Proof. cbv [mbind M_bind]. destruct (m s) as [[a|e] s1]; naive_solver. Qed.

Lemma bind_assoc {A B C} (m : M St A) (f : A → M St B) (g : B → M St C) s :
  ((m ≫= f) ≫= g) s = (m ≫= λ a, f a ≫= g) s.
Proof. cbv [mbind M_bind]. by destruct (m s) as [[a|e] s1]. Qed.

(** What a run may do to the state and the value it ends with: [Q] covers the
    panics too. *)
Definition triple {A} (P : St → Prop) (m : M St A) (Q : outcome A → St → Prop) : Prop :=
  ∀ s, P s → Q (m s).1 (m s).2.

Lemma triple_ret {A} (a : A) (Q : outcome A → St → Prop) :
  triple (Q (Val a)) (mret a) Q.
Proof. by intros s H. Qed.

Lemma triple_bind {A B} P (m : M St A) (f : A → M St B) (Q : outcome A → St → Prop) R :
  triple P m Q →
  (∀ a, triple (Q (Val a)) (f a) R) →
  (∀ e s, Q (Panic e) s → R (Panic e) s) →
  triple P (m ≫= f) R.
Proof.
  intros Hm Hf Hp s HP. specialize (Hm s HP). cbv [mbind M_bind].
  destruct (m s) as [[a|e] s1]; [apply (Hf a s1 Hm)|apply (Hp e s1 Hm)].
Qed.

Lemma triple_conseq {A} (P P' : St → Prop) (m : M St A) (Q Q' : outcome A → St → Prop) :
  triple P' m Q' → (∀ s, P s → P' s) → (∀ o s, Q' o s → Q o s) → triple P m Q.
Proof. intros H HP HQ s Hs. apply HQ, H, HP, Hs. Qed.

(** The loop rule: an invariant of the loop-carried value and the state. *)
Lemma triple_for_range {X Acc R} (l : list X) (acc : Acc)
    (body : Acc → X → M St (Acc + R)) (I : Acc → St → Prop) (Q : R → St → Prop)
    (E : string → St → Prop) :
  (∀ a x, x ∈ l → triple (I a) (body a x)
     (λ o s, match o with Val (inl a') => I a' s | Val (inr r) => Q r s | Panic e => E e s end)) →
  triple (I acc) (for_range l acc body)
     (λ o s, match o with Val (inl a') => I a' s | Val (inr r) => Q r s | Panic e => E e s end).
Proof.
  revert acc. induction l as [|x l IH]; intros acc Hb; simpl.
  - by intros s Hs.
  - eapply triple_bind; [apply Hb; set_solver| |done].
    intros [a'|r]; simpl.
    + apply IH. intros a y Hy. apply Hb. set_solver.
    + by intros s Hs.
Qed.

Lemma for_range_app {X Acc R} (l l' : list X) (acc : Acc) (body : Acc → X → M St (Acc + R)) s :
  for_range (l ++ l') acc body s =
  match for_range l acc body s with
  | (Val (inl acc'), s') => for_range l' acc' body s'
  | other => other
  end.
Proof.
  revert acc s. induction l as [|x l IH]; intros acc s; [done|].
  cbn [for_range app]. cbv [mbind M_bind].
  destruct (body acc x s) as [[[a|r]|e] s1]; [apply IH|done|done].
Qed.
End monad.

#[export] Hint Rewrite @bind_ret_l : go_rw.

(** Unfold one run of stateful code. *)
Ltac go_unfold := cbv [mret M_ret mbind M_bind get put modify gets go_panic zoom] in *.

(** Split every [match] on a stateful call of the goal. *)
Ltac go_cases :=
  repeat (case_match; simplify_eq/=; try done).

(** Turn a successful sequence of steps into its parts. *)
Ltac go_inv :=
  repeat match goal with
  | H : (_ ≫= _) _ = (Val _, _) |- _ =>
      apply bind_val_inv in H; destruct H as (?&?&?&H); simplify_eq/=
  | H : mret _ _ = (Val _, _) |- _ => cbv [mret M_ret] in H; simplify_eq/=
  end.

(** Read off the result of a [mret]. *)
Ltac ret_inv H := cbv [mret M_ret] in H; injection H as <- <-; cbn beta iota.

(** ** Lists *)

Lemma StronglySorted_mono {A} (R R' : relation A) l :
  (∀ a b, R a b → R' a b) → StronglySorted R l → StronglySorted R' l.
Proof.
  intros HR. induction 1 as [|a l _ IH Ha]; constructor; [done|].
  eapply Forall_impl; [exact Ha|apply HR].
Qed.

Lemma elem_of_list_concat {A} (x : A) (ls : list (list A)) :
  x ∈ concat ls ↔ ∃ l, l ∈ ls ∧ x ∈ l.
Proof.
  rewrite list_elem_of_In, in_concat. setoid_rewrite list_elem_of_In. naive_solver.
Qed.

Lemma omap_cons_list {A B} (f : A → option B) (x : A) (l : list A) :
  omap f (x :: l) = option_list (f x) ++ omap f l.
Proof. cbn. by destruct (f x). Qed.
