(* ===== verification/GoStrings.v ===== *)
(** Go's [strings] and [strconv], as far as the controller uses them: suffixes and
    prefixes, [Contains], [Split] on a one-byte separator, [Join], [FormatInt] and
    [ParseInt] in base ten at 64 bits, with the round trips the DNS provider relies
    on.  A Go string is a [string], a list of bytes. *)

From S2P Require Import Prelude.
From Stdlib Require Import Ascii.
From stdpp Require Export pretty.

Implicit Types s t : string.

(** ** [strings] *)

(** [strings.HasSuffix(s, suf)]. *)
Fixpoint HasSuffix (s suf : string) : bool :=
  bool_decide (s = suf) ||
  match s with "" => false | String _ s' => HasSuffix s' suf end.

(** [strings.TrimSuffix(s, suf)]: [s] itself when it does not end in [suf]. *)
Fixpoint TrimSuffix (s suf : string) : string :=
  if bool_decide (s = suf) then ""
  else match s with "" => "" | String c s' => String c (TrimSuffix s' suf) end.

(** What follows the prefix [pre] in [s], if [s] starts with it. *)
Fixpoint strip_prefix (pre s : string) : option string :=
  match pre, s with
  | "", _ => Some s
  | String a pre', String b s' => if bool_decide (a = b) then strip_prefix pre' s' else None
  | String _ _, "" => None
  end.

(** [strings.HasPrefix(s, pre)] and [strings.TrimPrefix(s, pre)]. *)
Definition HasPrefix (s pre : string) : bool :=
  match strip_prefix pre s with Some _ => true | None => false end.
Definition TrimPrefix (s pre : string) : string := default s (strip_prefix pre s).

(** [strings.Contains(s, sub)]. *)
Fixpoint Contains (s sub : string) : bool :=
  HasPrefix s sub || match s with "" => false | String _ s' => Contains s' sub end.

(** [strings.Split(s, sep)] for a separator of one byte: never an empty slice. *)
Fixpoint Split (sep : ascii) (s : string) : list string :=
  match s with
  | "" => [""]
  | String c s' =>
      if bool_decide (c = sep) then "" :: Split sep s'
      else match Split sep s' with
           | [] => [String c ""]
           | w :: ws => String c w :: ws
           end
  end.

(** [strings.Join(l, sep)]. *)
Fixpoint Join (l : list string) (sep : string) : string :=
  match l with
  | [] => ""
  | [w] => w
  | w :: ws => w +:+ sep +:+ Join ws sep
  end.

(** The bytes of a string, and the bytes it avoids. *)
Fixpoint string_forall (P : ascii → bool) (s : string) : bool :=
  match s with "" => true | String c s' => P c && string_forall P s' end.

Definition free_of (sep : ascii) (s : string) : bool :=
  string_forall (λ c, bool_decide (c ≠ sep)) s.

Lemma app_assoc_string s t u : (s +:+ t) +:+ u = s +:+ t +:+ u.
Proof. induction s; simpl; [done|]. unfold String.app in *. simpl. congruence. Qed.

Lemma app_nil_r_string s : s +:+ "" = s.
Proof. induction s; [done|]. unfold String.app in *. simpl. congruence. Qed.

Lemma length_app_string s t :
  String.length (s +:+ t) = (String.length s + String.length t)%nat.
Proof. induction s; [done|]. unfold String.app in *. simpl. congruence. Qed.

#[export] Hint Rewrite app_assoc_string app_nil_r_string length_app_string : go_rw.

Lemma cons_app_string c s t : String c s +:+ t = String c (s +:+ t).
Proof. done. Qed.

Lemma app_eq_self_string s t : s +:+ t = t → s = "".
Proof.
  intros H. apply (f_equal String.length) in H. rewrite length_app_string in H.
  destruct s; [done|simpl in H; lia].
Qed.

Lemma strip_prefix_app p s : strip_prefix p (p +:+ s) = Some s.
Proof.
  induction p as [|c p IH]; [done|]. rewrite cons_app_string. simpl.
  by rewrite bool_decide_eq_true_2.
Qed.

Lemma strip_prefix_spec p s r : strip_prefix p s = Some r ↔ s = p +:+ r.
Proof.
  split; [|by intros ->; apply strip_prefix_app].
  revert s. induction p as [|c p IH]; intros [|b s] H; simplify_eq/=; try done.
  case_bool_decide; [|done]. subst. by rewrite (IH s H).
Qed.

Lemma TrimPrefix_app p s : TrimPrefix (p +:+ s) p = s.
Proof. unfold TrimPrefix. by rewrite strip_prefix_app. Qed.

Lemma HasPrefix_spec s p : HasPrefix s p = true ↔ ∃ r, s = p +:+ r.
Proof.
  unfold HasPrefix. setoid_rewrite <-strip_prefix_spec.
  destruct (strip_prefix p s); naive_solver.
Qed.

Lemma Contains_spec s sub : Contains s sub = true ↔ ∃ l r, s = l +:+ sub +:+ r.
Proof.
  split.
  - induction s as [|c s IH]; simpl; rewrite orb_true_iff, HasPrefix_spec.
    + intros [[r H]|]; [|done]. by exists "", r.
    + intros [[r H]|H]; [by exists "", r|].
      destruct (IH H) as (l&r&->). by exists (String c l), r.
  - intros (l&r&->). induction l as [|c l IH].
    + change ("" +:+ ?x) with x. assert (HasPrefix (sub +:+ r) sub = true) as H
        by (apply HasPrefix_spec; eauto). destruct (sub +:+ r); simpl; by rewrite H.
    + rewrite cons_app_string. simpl. by rewrite IH, orb_true_r.
Qed.

Lemma HasSuffix_refl s : HasSuffix s s = true.
Proof. destruct s; [done|]. simpl. by rewrite bool_decide_eq_true_2. Qed.

Lemma TrimSuffix_refl s : TrimSuffix s s = "".
Proof. destruct s; [done|]. simpl. by rewrite bool_decide_eq_true_2. Qed.

Lemma HasSuffix_spec s suf : HasSuffix s suf = true ↔ ∃ p, s = p +:+ suf.
Proof.
  split.
  - induction s as [|c s IH]; simpl; rewrite orb_true_iff, bool_decide_eq_true.
    + intros [<-|[=]]. by exists "".
    + intros [<-|[p ->]%IH]; [by exists ""|by exists (String c p)].
  - intros [p ->]. induction p as [|c p IH].
    + change ("" +:+ suf) with suf. apply HasSuffix_refl.
    + rewrite cons_app_string. simpl. by rewrite IH, orb_true_r.
Qed.

Lemma TrimSuffix_app p suf : TrimSuffix (p +:+ suf) suf = p.
Proof.
  induction p as [|c p IH].
  - change ("" +:+ suf) with suf. apply TrimSuffix_refl.
  - rewrite cons_app_string. simpl. rewrite IH, bool_decide_eq_false_2; [done|].
    intros H. apply (app_eq_self_string (String c p) suf) in H. done.
Qed.

Lemma TrimSuffix_id s suf : HasSuffix s suf = false → TrimSuffix s suf = s.
Proof.
  induction s as [|c s IH]; simpl; rewrite orb_false_iff; intros [H1 H2].
  - by rewrite H1.
  - by rewrite H1, IH.
Qed.

(** ** Splitting and joining *)

Lemma Split_not_nil sep s : Split sep s ≠ [].
Proof. destruct s; simpl; [done|]. repeat case_match; done. Qed.

Lemma Split_free sep s : free_of sep s = true → Split sep s = [s].
Proof.
  unfold free_of. induction s as [|c s IH]; simpl; [done|].
  rewrite andb_true_iff, bool_decide_eq_true. intros [Hc Hs].
  rewrite bool_decide_eq_false_2 by done. by rewrite IH.
Qed.

Lemma Split_app_sep sep w s :
  free_of sep w = true → Split sep (w +:+ String sep s) = w :: Split sep s.
Proof.
  unfold free_of. induction w as [|c w IH]; intros Hw.
  - change ("" +:+ String sep s) with (String sep s). simpl.
    by rewrite bool_decide_eq_true_2.
  - simpl in Hw. rewrite andb_true_iff, bool_decide_eq_true in Hw. destruct Hw as [Hc Hw].
    rewrite cons_app_string. simpl. rewrite bool_decide_eq_false_2 by done. by rewrite IH.
Qed.

(** Splitting what was joined gives the parts back. *)
Lemma Split_Join sep l :
  l ≠ [] → Forall (λ w, free_of sep w = true) l →
  Split sep (Join l (String sep "")) = l.
Proof.
  induction l as [|w [|w' l] IH]; intros Hne Hf; [done| |].
  - apply Forall_cons_1 in Hf as [Hw _]. by apply Split_free.
  - apply Forall_cons_1 in Hf as [Hw Hl].
    change (Join (w :: w' :: l) (String sep ""))
      with (w +:+ String sep (Join (w' :: l) (String sep ""))).
    rewrite Split_app_sep by done. f_equal. by apply IH.
Qed.

Lemma Join_cons2 w w' l sep : Join (w :: w' :: l) sep = w +:+ sep +:+ Join (w' :: l) sep.
Proof. done. Qed.

(** Joining what was split gives the string back. *)
Lemma Join_Split sep s : Join (Split sep s) (String sep "") = s.
Proof.
  induction s as [|c s IH]; simpl; [done|].
  case_bool_decide as Hc.
  - subst c. destruct (Split sep s) as [|w ws] eqn:E; [by apply Split_not_nil in E|].
    rewrite Join_cons2, IH. done.
  - destruct (Split sep s) as [|w ws] eqn:E; [by apply Split_not_nil in E|].
    destruct ws as [|w' ws]; [simpl in *; by rewrite <-IH|].
    rewrite Join_cons2 in *. by rewrite <-IH.
Qed.

(** What comes before the first separator is determined. *)
Lemma app_sep_inj sep w w' s s' :
  free_of sep w = true → free_of sep w' = true →
  w +:+ String sep s = w' +:+ String sep s' → w = w' ∧ s = s'.
Proof.
  intros Hw Hw' E. apply (f_equal (Split sep)) in E. rewrite !Split_app_sep in E by done.
  injection E as -> E. split; [done|]. by rewrite <-(Join_Split sep s), E, Join_Split.
Qed.

Lemma Split_parts_free sep s w : w ∈ Split sep s → free_of sep w = true.
Proof.
  unfold free_of. revert w. induction s as [|c s IH]; simpl; intros w Hw.
  { apply list_elem_of_singleton in Hw as ->. done. }
  case_bool_decide as Hc.
  - apply elem_of_cons in Hw as [->|Hw]; [done|by apply IH].
  - destruct (Split sep s) as [|w0 ws] eqn:E; [by apply Split_not_nil in E|].
    apply elem_of_cons in Hw as [->|Hw]; [|apply IH; set_solver].
    simpl. rewrite bool_decide_eq_true_2 by done. apply IH. set_solver.
Qed.

(** ** [strconv] *)

Definition int64_min : Z := - 2 ^ 63.
Definition int64_max : Z := 2 ^ 63 - 1.

(** [strconv.FormatInt(n, 10)] and [strconv.Itoa(n)]. *)
Definition FormatInt (n : Z) : string := pretty n.

Definition digit_val (c : ascii) : option Z :=
  let n := Z.of_nat (nat_of_ascii c) in
  if bool_decide (48 ≤ n ≤ 57)%Z then Some (n - 48)%Z else None.

(** The value of a string of decimal digits, on top of [acc]. *)
Fixpoint parse_digits (acc : Z) (s : string) : option Z :=
  match s with
  | "" => Some acc
  | String c s' => d ← digit_val c; parse_digits (acc * 10 + d)%Z s'
  end.

(** An optional sign in front of the digits; there is at least one digit. *)
Definition split_sign (s : string) : bool * string :=
  match s with
  | String c s' =>
      if bool_decide (c = "-"%char) then (true, s')
      else if bool_decide (c = "+"%char) then (false, s')
      else (false, s)
  | "" => (false, "")
  end.

(** [strconv.ParseInt(s, 10, 64)]: [None] is a syntax or range error. *)
Definition ParseInt (s : string) : option Z :=
  let '(neg, ds) := split_sign s in
  if bool_decide (ds = "") then None
  else n ← parse_digits 0 ds;
       let z := if neg then (- n)%Z else n in
       if bool_decide (int64_min ≤ z ≤ int64_max)%Z then Some z else None.

Lemma digit_val_pretty x : (x < 10)%N → digit_val (pretty_N_char x) = Some (Z.of_N x).
Proof.
  intros H. assert (x = 0 ∨ x = 1 ∨ x = 2 ∨ x = 3 ∨ x = 4 ∨ x = 5 ∨ x = 6 ∨ x = 7 ∨ x = 8 ∨ x = 9)%N
    as Hx by lia. repeat destruct Hx as [->|Hx]; try reflexivity. by subst.
Qed.
Lemma pretty_N_go_app x s : pretty_N_go x s = pretty_N_go x "" +:+ s.
Proof.
  revert s. induction (N.lt_wf_0 x) as [x _ IH]; intros s.
  destruct (decide (x = 0)%N) as [->|]; [done|].
  rewrite (pretty_N_go_step x s), (pretty_N_go_step x "") by lia.
  assert (x `div` 10 < x)%N as Hlt by (apply N.div_lt; lia).
  rewrite (IH _ Hlt (String _ s)), (IH _ Hlt (String _ "")).
  by rewrite app_assoc_string.
Qed.
Lemma parse_digits_snoc acc s c : parse_digits acc (s +:+ String c "") =
  (n ← parse_digits acc s; d ← digit_val c; Some (n * 10 + d))%Z.
Proof.
  revert acc. induction s as [|a s IH]; intros acc.
  - change ("" +:+ String c "") with (String c ""). simpl. by destruct (digit_val c).
  - rewrite cons_app_string. simpl. destruct (digit_val a); simpl; [apply IH|done].
Qed.
Lemma parse_digits_pretty_go x : parse_digits 0 (pretty_N_go x "") = Some (Z.of_N x).
Proof.
  induction (N.lt_wf_0 x) as [x _ IH].
  destruct (decide (x = 0)%N) as [->|]; [done|].
  rewrite pretty_N_go_step, pretty_N_go_app by lia.
  rewrite parse_digits_snoc, IH by (apply N.div_lt; lia). simpl.
  rewrite digit_val_pretty by (apply N.mod_lt; lia). simpl. f_equal.
  pose proof (N.div_mod x 10). lia.
Qed.
Lemma parse_digits_pretty (x : N) : parse_digits 0 (pretty x) = Some (Z.of_N x).
Proof.
  unfold pretty, pretty_N. case_decide as H; [by subst|]. apply parse_digits_pretty_go.
Qed.
Lemma pretty_N_head (x : N) : ∃ c s d, pretty x = String c s ∧ digit_val c = Some d.
Proof.
  pose proof (parse_digits_pretty x) as H. destruct (pretty x) as [|c s] eqn:E.
  - exfalso. unfold pretty, pretty_N in E. case_decide; [done|].
    rewrite pretty_N_go_step, pretty_N_go_app in E by lia. by destruct (pretty_N_go (x / 10) "").
  - simpl in H. destruct (digit_val c) as [d|] eqn:Ed; [|done]. eauto.
Qed.
Lemma split_sign_digit c s d : digit_val c = Some d → split_sign (String c s) = (false, String c s).
Proof.
  intros H. simpl. rewrite !bool_decide_eq_false_2; [done| |]; intros ->; vm_compute in H; done.
Qed.
(** Parsing a formatted [int64] gives it back. *)
Lemma ParseInt_FormatInt (n : Z) :
  (int64_min ≤ n ≤ int64_max)%Z → ParseInt (FormatInt n) = Some n.
Proof.
  intros Hn. unfold ParseInt, FormatInt.
  assert (∀ x : N, ParseInt (pretty x) = if bool_decide (int64_min ≤ Z.of_N x ≤ int64_max)%Z then Some (Z.of_N x) else None) as Hpos.
  { intros x. unfold ParseInt. pose proof (parse_digits_pretty x) as Hp.
    destruct (pretty_N_head x) as (c&s&d&E&Hd). rewrite E in *.
    rewrite (split_sign_digit _ _ _ Hd), Hp. done. }
  destruct n as [|p|p].
  - done.
  - change (pretty (Z.pos p)) with (pretty (N.pos p)). 
    specialize (Hpos (N.pos p)). unfold ParseInt in Hpos. rewrite Hpos.
    by rewrite bool_decide_eq_true_2.
  - change (pretty (Z.neg p)) with (String "-" (pretty (N.pos p))). cbn [split_sign].
    rewrite bool_decide_eq_true_2 by done.
    pose proof (parse_digits_pretty (N.pos p)) as Hp.
    destruct (pretty_N_head (N.pos p)) as (c&s&d&E&Hd). rewrite E in *.
    rewrite Hp. simpl. by rewrite bool_decide_eq_true_2.
Qed.

(** ** [sets.String] *)

(** [sets.String.List]: the elements, sorted as [sort.Sort] sorts strings. *)
Definition StringSet_List (X : gset string) : list string :=
  merge_sort String.le (elements X).

Lemma StringSet_List_elem X w : w ∈ StringSet_List X ↔ w ∈ X.
Proof. unfold StringSet_List. by rewrite merge_sort_Permutation, elem_of_elements. Qed.

Lemma StringSet_List_NoDup X : NoDup (StringSet_List X).
Proof. unfold StringSet_List. rewrite merge_sort_Permutation. apply NoDup_elements. Qed.

Lemma StringSet_List_Sorted X : StronglySorted String.le (StringSet_List X).
Proof. apply StronglySorted_merge_sort; apply _. Qed.

Lemma StringSet_List_length X : length (StringSet_List X) = size X.
Proof. unfold StringSet_List. by rewrite merge_sort_Permutation. Qed.

Lemma StringSet_List_nil X : StringSet_List X = [] ↔ X = ∅.
Proof.
  split; [|by intros ->].
  intros H. apply set_eq. intros w. rewrite <-StringSet_List_elem, H. set_solver.
Qed.

#[export] Hint Resolve StringSet_List_NoDup StringSet_List_Sorted : go.
