(* ===== verification/GoNet.v ===== *)
(** Go's [net.ParseIP]: which strings are IP addresses.  The DNS controller only
    asks whether the result is nil, and keeps the string itself as the record's
    data; the bytes are computed as [net/ip.go] computes them. *)

From S2P Require Import Prelude GoStrings.
From Stdlib Require Import Ascii.

Definition big : Z := 0xFFFFFF.

Definition byte_at (c : ascii) : Z := Z.of_nat (nat_of_ascii c).

(** [dtoi]: the decimal number at the head of [s] and what follows it; it stops
    with no result at [big]. *)
Fixpoint dtoi_loop (n : Z) (seen : bool) (s : string) : option (Z * string) :=
  match s with
  | String c s' =>
      match digit_val c with
      | Some d => let n' := (n * 10 + d)%Z in
                  if bool_decide (big ≤ n')%Z then None else dtoi_loop n' true s'
      | None => if seen then Some (n, s) else None
      end
  | "" => if seen then Some (n, "") else None
  end.
Definition dtoi (s : string) : option (Z * string) := dtoi_loop 0 false s.

Definition hex_val (c : ascii) : option Z :=
  let n := byte_at c in
  if bool_decide (48 ≤ n ≤ 57)%Z then Some (n - 48)%Z
  else if bool_decide (97 ≤ n ≤ 102)%Z then Some (n - 97 + 10)%Z
  else if bool_decide (65 ≤ n ≤ 70)%Z then Some (n - 65 + 10)%Z
  else None.

(** [xtoi]: the same in base sixteen. *)
Fixpoint xtoi_loop (n : Z) (seen : bool) (s : string) : option (Z * string) :=
  match s with
  | String c s' =>
      match hex_val c with
      | Some d => let n' := (n * 16 + d)%Z in
                  if bool_decide (big ≤ n')%Z then None else xtoi_loop n' true s'
      | None => if seen then Some (n, s) else None
      end
  | "" => if seen then Some (n, "") else None
  end.
Definition xtoi (s : string) : option (Z * string) := xtoi_loop 0 false s.

(** [parseIPv4]: four octets separated by dots, and nothing after them. *)
Fixpoint parse_octets (k : nat) (first : bool) (s : string) : option (list Z) :=
  match k with
  | O => if bool_decide (s = "") then Some [] else None
  | S k' =>
      s1 ← (if first then Some s
            else match s with
                 | String c s' => if bool_decide (c = "."%char) then Some s' else None
                 | "" => None
                 end);
      '(n, rest) ← dtoi s1;
      if bool_decide (n ≤ 255)%Z
      then ns ← parse_octets k' false rest; Some (n :: ns)
      else None
  end.
Definition parseIPv4 (s : string) : option (list Z) := parse_octets 4 true s.

(** The loop of [parseIPv6]: [i] bytes are written so far, [ellipsis] is where the
    [::] was.  [room] counts the two-byte groups that still fit. *)
Fixpoint parse_groups (room : nat) (ip : list Z) (ellipsis : option nat) (s : string) :
    option (list Z * option nat * string) :=
  match room with
  | O => Some (ip, ellipsis, s)
  | S room' =>
      '(n, rest) ← xtoi s;
      if bool_decide (0xFFFF < n)%Z then None else
      match rest with
      | String "." _ =>
          if bool_decide (ellipsis = None) && bool_decide (length ip ≠ 12) then None
          else if bool_decide (16 < length ip + 4) then None
          else ip4 ← parseIPv4 s; Some (ip ++ ip4, ellipsis, "")
      | _ =>
          let ip' := ip ++ [Z.shiftr n 8; Z.land n 255] in
          match rest with
          | "" => Some (ip', ellipsis, "")
          | String c rest' =>
              if negb (bool_decide (c = ":"%char)) || bool_decide (rest' = "") then None
              else match rest' with
                   | String ":" rest'' =>
                       match ellipsis with
                       | Some _ => None
                       | None =>
                           if bool_decide (rest'' = "") then Some (ip', Some (length ip'), "")
                           else parse_groups room' ip' (Some (length ip')) rest''
                       end
                   | _ => parse_groups room' ip' ellipsis rest'
                   end
          end
      end
  end.

(** [parseIPv6] with [zoneAllowed] false. *)
Definition parseIPv6 (s : string) : option (list Z) :=
  let '(ellipsis, s1) :=
    match s with String ":" (String ":" s') => (Some 0, s') | _ => (None, s) end in
  if bool_decide (ellipsis = Some 0) && bool_decide (s1 = "") then Some (replicate 16 0%Z)
  else
    '(ip, ellipsis', rest) ← parse_groups 8 [] ellipsis s1;
    if negb (bool_decide (rest = "")) then None
    else if bool_decide (length ip < 16)
    then match ellipsis' with
         | None => None
         | Some e => Some (take e ip ++ replicate (16 - length ip) 0%Z ++ drop e ip)
         end
    else match ellipsis' with Some _ => None | None => Some ip end.

(** The first [.] or [:] of the string decides which form is read. *)
Fixpoint parse_ip_scan (whole s : string) : option (list Z) :=
  match s with
  | "" => None
  | String c s' =>
      if bool_decide (c = "."%char) then parseIPv4 whole
      else if bool_decide (c = ":"%char) then parseIPv6 whole
      else parse_ip_scan whole s'
  end.
Definition ParseIP (s : string) : option (list Z) := parse_ip_scan s s.

(** [net.ParseIP(s) != nil]. *)
Definition is_ip (s : string) : bool := bool_decide (is_Some (ParseIP s)).

(** The dotted-quad form of four octets. *)
Definition dotted_quad (a b c d : Z) : string :=
  Join [FormatInt a; FormatInt b; FormatInt c; FormatInt d] ".".

Example ParseIP_v4 : ParseIP "10.2.255.1" = Some [10; 2; 255; 1]%Z.
Proof. vm_compute. reflexivity. Qed.
Example ParseIP_v4_range : ParseIP "10.2.256.1" = None.
Proof. vm_compute. reflexivity. Qed.
Example ParseIP_host : ParseIP "lb.example.com" = None.
Proof. vm_compute. reflexivity. Qed.
Example ParseIP_v6 : ParseIP "2001:db8::1" = Some [32; 1; 13; 184; 0; 0; 0; 0; 0; 0; 0; 0; 0; 0; 0; 1]%Z.
Proof. vm_compute. reflexivity. Qed.
Example ParseIP_v6_mapped : ParseIP "::ffff:1.2.3.4" = Some [0; 0; 0; 0; 0; 0; 0; 0; 0; 0; 255; 255; 1; 2; 3; 4]%Z.
Proof. vm_compute. reflexivity. Qed.
Example ParseIP_v6_bad : ParseIP "1::2::3" = None.
Proof. vm_compute. reflexivity. Qed.

(** ** Dotted quads are addresses *)

Lemma digit_val_range c d : digit_val c = Some d → (0 ≤ d ≤ 9)%Z.
Proof. unfold digit_val. case_bool_decide; intros; simplify_eq; lia. Qed.

Lemma parse_digits_mono s acc n : parse_digits acc s = Some n → (0 ≤ acc)%Z → (acc ≤ n)%Z.
Proof.
  revert acc. induction s as [|c s IH]; simpl; intros acc H Hacc; simplify_eq; [lia|].
  destruct (digit_val c) as [d|] eqn:Hd; simplify_eq/=.
  apply digit_val_range in Hd. apply IH in H; lia.
Qed.

Definition no_digit_head (rest : string) : bool :=
  match rest with String c _ => bool_decide (digit_val c = None) | "" => true end.

Lemma dtoi_loop_digits s rest acc seen n :
  parse_digits acc s = Some n → (0 ≤ acc)%Z → (n < big)%Z → no_digit_head rest = true →
  (s ≠ "" ∨ seen = true) → dtoi_loop acc seen (s +:+ rest) = Some (n, rest).
Proof.
  revert acc seen. induction s as [|c s IH]; intros acc seen Hp Hacc Hn Hr Hs; simpl in Hp.
  - simplify_eq. destruct Hs as [Hs| ->]; [done|]. change ("" +:+ rest) with rest.
    destruct rest as [|c rest]; [done|]. simpl in *. apply bool_decide_eq_true in Hr. by rewrite Hr.
  - destruct (digit_val c) as [d|] eqn:Hd; [|done]. simpl in Hp.
    rewrite cons_app_string. simpl. rewrite Hd.
    pose proof (digit_val_range _ _ Hd). pose proof (parse_digits_mono _ _ _ Hp ltac:(lia)).
    rewrite bool_decide_eq_false_2 by lia. apply IH; eauto with lia.
Qed.

Lemma FormatInt_pos n : (0 ≤ n)%Z → parse_digits 0 (FormatInt n) = Some n ∧ FormatInt n ≠ "".
Proof.
  intros Hn. assert (FormatInt n = pretty (Z.to_N n)) as ->.
  { destruct n as [|p|p]; [done|done|lia]. }
  rewrite parse_digits_pretty. split; [f_equal; lia|].
  destruct (pretty_N_head (Z.to_N n)) as (c&s&d&->&_). done.
Qed.

Lemma dtoi_FormatInt n rest :
  (0 ≤ n < big)%Z → no_digit_head rest = true → dtoi (FormatInt n +:+ rest) = Some (n, rest).
Proof.
  intros Hn Hr. destruct (FormatInt_pos n) as [Hp Hne]; [lia|].
  apply dtoi_loop_digits; auto; lia.
Qed.

Lemma parse_ip_scan_digits whole s rest acc n :
  parse_digits acc s = Some n →
  parse_ip_scan whole (s +:+ String "." rest) = parseIPv4 whole.
Proof.
  revert acc. induction s as [|c s IH]; intros acc H.
  - change ("" +:+ String "." rest) with (String "." rest). done.
  - simpl in H. destruct (digit_val c) as [d|] eqn:Hd; [|done].
    rewrite cons_app_string. simpl. rewrite !bool_decide_eq_false_2;
      [by eapply IH| |]; intros ->; vm_compute in Hd; done.
Qed.

Lemma parseIPv4_dotted_quad a b c d :
  (0 ≤ a ≤ 255)%Z → (0 ≤ b ≤ 255)%Z → (0 ≤ c ≤ 255)%Z → (0 ≤ d ≤ 255)%Z →
  parseIPv4 (dotted_quad a b c d) = Some [a; b; c; d].
Proof.
  intros Ha Hb Hc Hd. unfold parseIPv4, dotted_quad.
  assert (∀ n rest, (0 ≤ n ≤ 255)%Z → no_digit_head rest = true →
    dtoi (FormatInt n +:+ rest) = Some (n, rest)) as Hdt.
  { intros n rest Hn Hr. apply dtoi_FormatInt; [unfold big; lia|done]. }
  assert (dtoi (FormatInt d) = Some (d, "")) as Hlast.
  { rewrite <-(app_nil_r_string (FormatInt d)). by apply Hdt. }
  cbn [Join parse_octets]. simpl (mbind _ (Some _)).
  do 3 (change ("" +:+ ?s) with s; rewrite Hdt by done; simpl;
        rewrite bool_decide_eq_true_2 by lia; simpl).
  change ("" +:+ ?s) with s.
  rewrite Hlast. simpl. rewrite bool_decide_eq_true_2 by lia. done.
Qed.

Lemma ParseIP_dotted_quad a b c d :
  (0 ≤ a ≤ 255)%Z → (0 ≤ b ≤ 255)%Z → (0 ≤ c ≤ 255)%Z → (0 ≤ d ≤ 255)%Z →
  ParseIP (dotted_quad a b c d) = Some [a; b; c; d].
Proof.
  intros Ha Hb Hc Hd. rewrite <-parseIPv4_dotted_quad by done.
  destruct (FormatInt_pos a) as [Hp _]; [lia|]. by eapply parse_ip_scan_digits.
Qed.

Lemma is_ip_dotted_quad a b c d :
  (0 ≤ a ≤ 255)%Z → (0 ≤ b ≤ 255)%Z → (0 ≤ c ≤ 255)%Z → (0 ≤ d ≤ 255)%Z →
  is_ip (dotted_quad a b c d) = true.
Proof. intros. unfold is_ip. rewrite ParseIP_dotted_quad by done. by apply bool_decide_eq_true_2. Qed.
