(* ===== verification/Json.v ===== *)
(** Go's [encoding/json] for the values the controllers exchange through
    annotations: the syntax accepted by [Unmarshal], the compact text written by
    [Marshal] (with its HTML escapes), UTF-8 handling included.  The typed half of
    the package (struct fields, [omitempty]) is in the files that use it.

    [parse_value] has fuel, since it recurses through nested brackets; [parse_fuel_enough]
    shows that the fuel [Unmarshal] gives it never runs out. *)

From S2P Require Import Prelude GoStrings.
From Stdlib Require Import Ascii.

#[warnings="-register-all"]
Inductive json : Type :=
  | JNull
  | JBool (b : bool)
  | JNum (raw : string)
  | JStr (s : string)
  | JArr (vs : list json)
  | JObj (ms : list (string * json)).

(** ** UTF-8 *)

Definition code (c : ascii) : Z := Z.of_nat (nat_of_ascii c).
Definition chr (n : Z) : ascii := ascii_of_nat (Z.to_nat n).
Definition in_rng (lo hi : Z) (c : ascii) : bool := bool_decide (lo ≤ code c ≤ hi)%Z.
Definition cont (c : ascii) : bool := in_rng 0x80 0xBF c.

(** [utf8.DecodeRuneInString]: the width of a well-formed multi-byte sequence at the
    head of [String c s]; 1 when there is none. *)
Definition rune_width (c : ascii) (s : string) : nat :=
  match s with
  | String c1 s1 =>
      if in_rng 0xC2 0xDF c then (if cont c1 then 2 else 1)
      else match s1 with
      | String c2 s2 =>
          if in_rng 0xE0 0xEF c then
            (if cont c2 &&
                (if in_rng 0xE0 0xE0 c then in_rng 0xA0 0xBF c1
                 else if in_rng 0xED 0xED c then in_rng 0x80 0x9F c1 else cont c1)
             then 3 else 1)
          else match s2 with
          | String c3 _ =>
              if in_rng 0xF0 0xF4 c then
                (if cont c2 && cont c3 &&
                    (if in_rng 0xF0 0xF0 c then in_rng 0x90 0xBF c1
                     else if in_rng 0xF4 0xF4 c then in_rng 0x80 0x8F c1 else cont c1)
                 then 4 else 1)
              else 1
          | "" => 1
          end
      | "" => 1
      end
  | "" => 1
  end.

(** [utf8.EncodeRune]. *)
Definition encode_rune (r : Z) : string :=
  if bool_decide (r < 0x80)%Z then String (chr r) ""
  else if bool_decide (r < 0x800)%Z then
    String (chr (0xC0 + Z.shiftr r 6)) (String (chr (0x80 + Z.land r 63)) "")
  else if bool_decide (r < 0x10000)%Z then
    String (chr (0xE0 + Z.shiftr r 12))
      (String (chr (0x80 + Z.land (Z.shiftr r 6) 63)) (String (chr (0x80 + Z.land r 63)) ""))
  else
    String (chr (0xF0 + Z.shiftr r 18))
      (String (chr (0x80 + Z.land (Z.shiftr r 12) 63))
        (String (chr (0x80 + Z.land (Z.shiftr r 6) 63)) (String (chr (0x80 + Z.land r 63)) ""))).

Definition rune_error : string := encode_rune 0xFFFD.

(** ** Strings *)

Definition hex_digit (n : Z) : ascii := if bool_decide (n < 10)%Z then chr (48 + n) else chr (87 + n).

Definition hex_value (c : ascii) : option Z :=
  if in_rng 48 57 c then Some (code c - 48)%Z
  else if in_rng 97 102 c then Some (code c - 87)%Z
  else if in_rng 65 70 c then Some (code c - 55)%Z
  else None.

Definition hex4 (a b c d : ascii) : option Z :=
  x ← hex_value a; y ← hex_value b; z ← hex_value c; w ← hex_value d;
  Some (((x * 16 + y) * 16 + z) * 16 + w)%Z.

Definition is_surrogate (r : Z) : bool := bool_decide (0xD800 ≤ r < 0xE000)%Z.

(** [utf16.DecodeRune]. *)
Definition surrogate_pair (r1 r2 : Z) : option Z :=
  if bool_decide (0xD800 ≤ r1 < 0xDC00)%Z && bool_decide (0xDC00 ≤ r2 < 0xE000)%Z
  then Some (0x10000 + Z.shiftl (r1 - 0xD800) 10 + (r2 - 0xDC00))%Z
  else None.

Definition quote : ascii := ascii_of_nat 34.
Definition backslash : ascii := ascii_of_nat 92.

(** The one-letter escapes a string may contain. *)
Definition simple_escape (e : ascii) : option ascii :=
  if bool_decide (e = quote) then Some quote
  else if bool_decide (e = backslash) then Some backslash
  else if bool_decide (e = "/"%char) then Some "/"%char
  else if bool_decide (e = "b"%char) then Some (chr 8)
  else if bool_decide (e = "f"%char) then Some (chr 12)
  else if bool_decide (e = "n"%char) then Some (chr 10)
  else if bool_decide (e = "r"%char) then Some (chr 13)
  else if bool_decide (e = "t"%char) then Some (chr 9)
  else None.

(** The text after [\u]: four hexadecimal digits, and a second escape when the first
    is half of a surrogate pair.  What is read, and what follows. *)
Definition read_u (s : string) : option (string * string) :=
  match s with
  | String h1 (String h2 (String h3 (String h4 s1))) =>
      r ← hex4 h1 h2 h3 h4;
      if is_surrogate r then
        match s1 with
        | String b (String u (String g1 (String g2 (String g3 (String g4 s2))))) =>
            match (if bool_decide (b = backslash) && bool_decide (u = "u"%char)
                   then r2 ← hex4 g1 g2 g3 g4; surrogate_pair r r2 else None) with
            | Some cp => Some (encode_rune cp, s2)
            | None => Some (rune_error, s1)
            end
        | _ => Some (rune_error, s1)
        end
      else Some (encode_rune r, s1)
  | _ => None
  end.

(** The text after a backslash. *)
Definition read_escape (s : string) : option (string * string) :=
  match s with
  | String e s1 =>
      if bool_decide (e = "u"%char) then read_u s1
      else x ← simple_escape e; Some (String x "", s1)
  | "" => None
  end.

(** A byte from 0x80 on, and what follows it: a well-formed sequence is kept, any
    other byte becomes U+FFFD. *)
Definition read_utf8 (c : ascii) (s : string) : string * string :=
  match rune_width c s, s with
  | 2, String c1 s1 => (String c (String c1 ""), s1)
  | 3, String c1 (String c2 s2) => (String c (String c1 (String c2 "")), s2)
  | 4, String c1 (String c2 (String c3 s3)) =>
      (String c (String c1 (String c2 (String c3 ""))), s3)
  | _, _ => (rune_error, s)
  end.

(** One step through a string literal: the closing quote ([None]) or a character. *)
Definition read_char (s : string) : option (option string * string) :=
  match s with
  | "" => None
  | String c s1 =>
      if bool_decide (c = quote) then Some (None, s1)
      else if bool_decide (c = backslash) then '(p, r) ← read_escape s1; Some (Some p, r)
      else if bool_decide (code c < 32)%Z then None
      else if bool_decide (code c < 128)%Z then Some (Some (String c ""), s1)
      else let '(p, r) := read_utf8 c s1 in Some (Some p, r)
  end.

(** The body of a string literal, up to its closing quote.  Each step consumes a
    byte, so that the length of the text is fuel enough. *)
Fixpoint parse_str_go (n : nat) (s : string) : option (string * string) :=
  match n with
  | O => None
  | S n' =>
      '(o, r) ← read_char s;
      match o with
      | None => Some ("", r)
      | Some p => '(w, rest) ← parse_str_go n' r; Some (p +:+ w, rest)
      end
  end.
Definition parse_str (s : string) : option (string * string) := parse_str_go (String.length s) s.

Definition u_escape (r : Z) : string :=
  String backslash (String "u" (String (hex_digit (Z.shiftr r 12))
    (String (hex_digit (Z.land (Z.shiftr r 8) 15))
      (String (hex_digit (Z.land (Z.shiftr r 4) 15)) (String (hex_digit (Z.land r 15)) ""))))).

(** How [Marshal] writes one byte below 0x80. *)
Definition escape_ascii (c : ascii) : string :=
  if bool_decide (c = quote) || bool_decide (c = backslash) then String backslash (String c "")
  else if bool_decide (code c = 10)%Z then String backslash "n"
  else if bool_decide (code c = 13)%Z then String backslash "r"
  else if bool_decide (code c = 9)%Z then String backslash "t"
  else if bool_decide (code c < 32)%Z || bool_decide (c = "<"%char) ||
          bool_decide (c = ">"%char) || bool_decide (c = "&"%char)
  then u_escape (code c)
  else String c "".

(** U+2028 and U+2029 are escaped too. *)
Definition escape_rune3 (c c1 c2 : ascii) : string :=
  if bool_decide (code c = 0xE2)%Z && bool_decide (code c1 = 0x80)%Z &&
     (bool_decide (code c2 = 0xA8)%Z || bool_decide (code c2 = 0xA9)%Z)
  then u_escape (0x2028 + (code c2 - 0xA8))
  else String c (String c1 (String c2 "")).

(** [encodeState.string] without its quotes. *)
Fixpoint escape (s : string) : string :=
  match s with
  | "" => ""
  | String c s1 =>
      if bool_decide (code c < 128)%Z then escape_ascii c +:+ escape s1
      else match rune_width c s1, s1 with
           | 2, String c1 s2 => String c (String c1 (escape s2))
           | 3, String c1 (String c2 s3) => escape_rune3 c c1 c2 +:+ escape s3
           | 4, String c1 (String c2 (String c3 s4)) =>
               String c (String c1 (String c2 (String c3 (escape s4))))
           | _, _ => u_escape 0xFFFD +:+ escape s1
           end
  end.

Definition quoted (s : string) : string := String quote (escape s +:+ String quote "").

(** ** Values *)

Fixpoint skip_ws (s : string) : string :=
  match s with
  | String c s' =>
      if bool_decide (code c = 32)%Z || bool_decide (code c = 9)%Z ||
         bool_decide (code c = 10)%Z || bool_decide (code c = 13)%Z
      then skip_ws s' else s
  | "" => ""
  end.

Definition is_digit (c : ascii) : bool := in_rng 48 57 c.

(** The digits at the head of a string, and the rest. *)
Fixpoint span_digits (s : string) : string * string :=
  match s with
  | String c s' => if is_digit c then let '(d, r) := span_digits s' in (String c d, r) else ("", s)
  | "" => ("", "")
  end.

Definition digits1 (s : string) : option (string * string) :=
  let '(d, r) := span_digits s in if bool_decide (d = "") then None else Some (d, r).

(** The rest of a string that starts with [c]. *)
Definition eat (c : ascii) (s : string) : option string :=
  match s with
  | String a s' => if bool_decide (a = c) then Some s' else None
  | "" => None
  end.

(** [-? (0 | 1-9 0-9 * ) ( . 0-9 + )? ( [eE] [+-]? 0-9 + )?] *)
Definition parse_number (s : string) : option (string * string) :=
  let '(sign, s0) := match eat "-" s with Some t => ("-", t) | None => ("", s) end in
  '(int, s1) ← match eat "0" s0 with Some t => Some ("0", t) | None => digits1 s0 end;
  '(frac, s2) ← match eat "." s1 with
                 | Some t => '(d, r) ← digits1 t; Some ("." +:+ d, r)
                 | None => Some ("", s1)
                 end;
  '(exp, s3) ← match eat "e" s2, eat "E" s2 with
                | None, None => Some ("", s2)
                | Some t, _ | None, Some t =>
                    let '(sg, t') := match eat "+" t, eat "-" t with
                                     | Some u, _ => ("+", u)
                                     | None, Some u => ("-", u)
                                     | None, None => ("", t)
                                     end in
                    '(d, r) ← digits1 t'; Some ("e" +:+ sg +:+ d, r)
                end;
  Some (sign +:+ int +:+ frac +:+ exp, s3).

(** A literal or a number; [s] has no leading space. *)
Definition parse_atom (s : string) : option (json * string) :=
  match s with
  | String c s' =>
      if bool_decide (c = quote) then '(w, r) ← parse_str s'; Some (JStr w, r)
      else if bool_decide (c = "t"%char) then r ← strip_prefix "true" s; Some (JBool true, r)
      else if bool_decide (c = "f"%char) then r ← strip_prefix "false" s; Some (JBool false, r)
      else if bool_decide (c = "n"%char) then r ← strip_prefix "null" s; Some (JNull, r)
      else '(raw, r) ← parse_number s; Some (JNum raw, r)
  | "" => None
  end.

(** The character after any space. *)
Definition next (s : string) : option (ascii * string) :=
  match skip_ws s with String c s' => Some (c, s') | "" => None end.

Fixpoint parse_value (n : nat) (s : string) {struct n} : option (json * string) :=
  match n with
  | O => None
  | S n' =>
      '(c, s1) ← next s;
      if bool_decide (c = "["%char) then
        '(c2, s2) ← next s1;
        if bool_decide (c2 = "]"%char) then Some (JArr [], s2)
        else '(vs, r) ← parse_elems n' s1; Some (JArr vs, r)
      else if bool_decide (c = "{"%char) then
        '(c2, s2) ← next s1;
        if bool_decide (c2 = "}"%char) then Some (JObj [], s2)
        else '(ms, r) ← parse_members n' s1; Some (JObj ms, r)
      else parse_atom (String c s1)
  end
with parse_elems (n : nat) (s : string) {struct n} : option (list json * string) :=
  match n with
  | O => None
  | S n' =>
      '(v, s1) ← parse_value n' s;
      '(c, s2) ← next s1;
      if bool_decide (c = ","%char) then '(vs, r) ← parse_elems n' s2; Some (v :: vs, r)
      else if bool_decide (c = "]"%char) then Some ([v], s2)
      else None
  end
with parse_members (n : nat) (s : string) {struct n} : option (list (string * json) * string) :=
  match n with
  | O => None
  | S n' =>
      '(q, s1) ← next s;
      if bool_decide (q = quote) then
        '(k, s2) ← parse_str s1;
        '(c, s3) ← next s2;
        if bool_decide (c = ":"%char) then
          '(v, s4) ← parse_value n' s3;
          '(c', s5) ← next s4;
          if bool_decide (c' = ","%char) then '(ms, r) ← parse_members n' s5; Some ((k, v) :: ms, r)
          else if bool_decide (c' = "}"%char) then Some ([(k, v)], s5)
          else None
        else None
      else None
  end.

Definition fuel (s : string) : nat := S (2 * String.length s).

(** The syntax half of [json.Unmarshal]: one value and nothing after it. *)
Definition Unmarshal (s : string) : option json :=
  '(v, r) ← parse_value (fuel s) s;
  if bool_decide (skip_ws r = "") then Some v else None.

(** [json.Marshal] of a value already turned into JSON. *)
Fixpoint print (v : json) : string :=
  match v with
  | JNull => "null"
  | JBool true => "true"
  | JBool false => "false"
  | JNum raw => raw
  | JStr s => quoted s
  | JArr vs => "[" +:+ Join (print <$> vs) "," +:+ "]"
  | JObj ms => "{" +:+ Join ((λ '(k, v), quoted k +:+ ":" +:+ print v) <$> ms) "," +:+ "}"
  end.

(** Test inputs: the text with its single quotes made double. *)
Definition dq (s : string) : string :=
  String.string_of_list_ascii
    (map (λ c, if Ascii.eqb c "'"%char then quote else c) (String.list_ascii_of_string s)).
Example Unmarshal_ex : Unmarshal (dq " {'c1': [ {'ingress':[{'ip':'1.2.3.4'}]}, null], 'c\u0032':[]} ")
  = Some (JObj [("c1", JArr [JObj [("ingress", JArr [JObj [("ip", JStr "1.2.3.4")]])]; JNull]); ("c2", JArr [])]).
Proof. vm_compute. reflexivity. Qed.
Example Unmarshal_bad : Unmarshal (dq "{'a':1,}") = None.
Proof. vm_compute. reflexivity. Qed.
Example print_ex : print (JObj [("a<b", JArr [JNum "1"; JNull])]) = dq "{'a\u003cb':[1,null]}".
Proof. vm_compute. reflexivity. Qed.

(** ** The fuel is enough *)

Lemma skip_ws_len s : String.length (skip_ws s) ≤ String.length s.
Proof.
  induction s as [|a s IH]; [done|]. cbn [skip_ws].
  destruct (_ || _); simpl; lia.
Qed.
Lemma next_len s c r : next s = Some (c, r) → String.length r < String.length s.
Proof.
  unfold next. pose proof (skip_ws_len s). destruct (skip_ws s); simpl in *; naive_solver lia.
Qed.


Lemma read_u_len s p r : read_u s = Some (p, r) → String.length r < String.length s.
Proof.
  unfold read_u. destruct s as [|h1 [|h2 [|h3 [|h4 s1]]]]; try done.
  intros H. apply bind_Some in H as (x&_&H). simpl.
  repeat (case_match; simplify_eq; simpl; try lia).
Qed.
Lemma read_escape_len s p r : read_escape s = Some (p, r) → String.length r < String.length s.
Proof.
  unfold read_escape. destruct s as [|e s1]; [done|]. case_bool_decide; intros H'.
  - apply read_u_len in H'. simpl. lia.
  - apply bind_Some in H' as (x&_&H'). simplify_eq. simpl. lia.
Qed.
Lemma read_utf8_len c s p r : read_utf8 c s = (p, r) → String.length r ≤ String.length s.
Proof. unfold read_utf8. intros H. repeat (case_match; simplify_eq; simpl; try lia). Qed.
Lemma read_char_len s o r : read_char s = Some (o, r) → String.length r < String.length s.
Proof.
  unfold read_char. destruct s as [|c s1]; [done|]. intros H.
  repeat case_bool_decide; simplify_eq; simpl; try lia.
  - apply bind_Some in H as ([p q]&H%read_escape_len&?); simplify_eq; lia.
  - destruct (read_utf8 c s1) as [p q] eqn:E. apply read_utf8_len in E. simplify_eq. lia.
Qed.
Lemma parse_str_go_fuel n s w r : parse_str_go n s = Some (w, r) →
  String.length r < String.length s ∧ ∀ m, String.length s ≤ m → parse_str_go m s = Some (w, r).
Proof.
  revert s w r. induction n as [|n IH]; intros s w r H; [done|].
  simpl in H. apply bind_Some in H as ([o q]&Hq&H). pose proof (read_char_len _ _ _ Hq) as Hl.
  destruct o as [p|]; simplify_eq.
  - apply bind_Some in H as ([w' r']&Hw&?). simplify_eq. apply IH in Hw as [Hr Hm].
    split; [lia|]. intros [|m] Hlen; [lia|]. simpl. rewrite Hq. simpl. rewrite Hm by lia. done.
  - split; [lia|]. intros [|m] Hlen; [lia|]. simpl. by rewrite Hq.
Qed.
Lemma parse_str_len s w r : parse_str s = Some (w, r) → String.length r < String.length s.
Proof. apply parse_str_go_fuel. Qed.
Lemma strip_prefix_len p s r :
  strip_prefix p s = Some r → p ≠ "" → String.length r < String.length s.
Proof.
  intros ->%strip_prefix_spec Hp. rewrite length_app_string. destruct p; [done|simpl; lia].
Qed.
Lemma span_digits_len s d r : span_digits s = (d, r) → String.length r + String.length d = String.length s.
Proof.
  revert d r. induction s as [|c s IH]; simpl; intros d r H; [by simplify_eq|].
  destruct (is_digit c); [|by simplify_eq/=].
  destruct (span_digits s) as [d' r'] eqn:E. simplify_eq/=. specialize (IH _ _ eq_refl). lia.
Qed.
Lemma digits1_len s d r : digits1 s = Some (d, r) → String.length r < String.length s.
Proof.
  unfold digits1. destruct (span_digits s) as [d' r'] eqn:E. apply span_digits_len in E.
  case_bool_decide; [done|]. intros. simplify_eq. destruct d; [done|]. simpl in *. lia.
Qed.
Lemma eat_len c s t : eat c s = Some t → String.length t < String.length s.
Proof. destruct s; simpl; [done|]. case_bool_decide; [|done]. intros. simplify_eq. lia. Qed.
Lemma parse_number_len s w r : parse_number s = Some (w, r) → String.length r < String.length s.
Proof.
  unfold parse_number. intros H.
  destruct (match eat "-" s with Some t => ("-", t) | None => ("", s) end) as [sign s0] eqn:E0.
  assert (String.length s0 ≤ String.length s).
  { destruct (eat "-" s) eqn:E; simplify_eq; [apply eat_len in E|]; lia. }
  apply bind_Some in H as ([int s1]&Hi&H).
  assert (String.length s1 < String.length s0).
  { destruct (eat "0" s0) eqn:E; simplify_eq; [by apply eat_len in E|by apply digits1_len in Hi]. }
  apply bind_Some in H as ([frac s2]&Hf&H).
  assert (String.length s2 ≤ String.length s1).
  { destruct (eat "." s1) eqn:E; simplify_eq; [|done]. apply eat_len in E.
    apply bind_Some in Hf as ([d q]&Hd%digits1_len&?). simplify_eq. lia. }
  apply bind_Some in H as ([exp s3]&He&H). simplify_eq.
  enough (String.length r ≤ String.length s2) by lia.
  assert (∀ t, String.length t < String.length s2 →
    (let '(sg, t') := match eat "+" t, eat "-" t with
                      | Some u, _ => ("+", u) | None, Some u => ("-", u) | None, None => ("", t) end in
     '(d, r) ← digits1 t'; Some ("e" +:+ sg +:+ d, r)) = Some (exp, r) →
    String.length r ≤ String.length s2) as Ht.
  { intros t Hl Ht. destruct (eat "+" t) eqn:Ep; [|destruct (eat "-" t) eqn:Em];
      apply bind_Some in Ht as ([d q]&Hd%digits1_len&?); simplify_eq;
      try apply eat_len in Ep; try apply eat_len in Em; lia. }
  destruct (eat "e" s2) eqn:Ee; [|destruct (eat "E" s2) eqn:EE; [|by simplify_eq]];
    (eapply Ht; [by eapply eat_len|done]).
Qed.
Lemma parse_atom_len s v r : parse_atom s = Some (v, r) → String.length r < String.length s.
Proof.
  unfold parse_atom. destruct s as [|c s']; [done|]. intros H.
  repeat case_bool_decide; apply bind_Some in H as (x&Hx&H); match type of x with prod _ _ => destruct x | _ => idtac end; simplify_eq.
  - apply parse_str_len in Hx. simpl. lia.
  - by apply strip_prefix_len in Hx.
  - by apply strip_prefix_len in Hx.
  - by apply strip_prefix_len in Hx.
  - by apply parse_number_len in Hx.
Qed.

(** Success does not depend on the fuel, and twice the length of the text is enough. *)
Lemma parse_fuel n :
  (∀ s v r, parse_value n s = Some (v, r) → String.length r < String.length s ∧
     ∀ m, 2 * String.length s ≤ m → parse_value m s = Some (v, r)) ∧
  (∀ s v r, parse_elems n s = Some (v, r) → String.length r < String.length s ∧
     ∀ m, 2 * String.length s + 1 ≤ m → parse_elems m s = Some (v, r)) ∧
  (∀ s v r, parse_members n s = Some (v, r) → String.length r < String.length s ∧
     ∀ m, 2 * String.length s ≤ m → parse_members m s = Some (v, r)).
Proof.
  induction n as [|n (IHv&IHe&IHm)]; [done|]. split_and!; intros s v r H; simpl in H.
  - apply bind_Some in H as ([c s1]&Hc&H). pose proof (next_len _ _ _ Hc).
    destruct (bool_decide (c = "["%char)) eqn:B1; [|destruct (bool_decide (c = "{"%char)) eqn:B2].
    + apply bind_Some in H as ([c2 s2]&Hc2&H). pose proof (next_len _ _ _ Hc2).
      case_bool_decide; [simplify_eq|apply bind_Some in H as ([vs r']&Hvs&H); simplify_eq;
        apply IHe in Hvs as [Hl Hf]]; (split; [lia|]); intros [|m] Hm; try lia; simpl; rewrite Hc;
        simpl; rewrite ?B1, ?B2; simpl; rewrite Hc2; simpl; [done|]. rewrite bool_decide_eq_false_2, Hf by (done || lia). done.
    + apply bind_Some in H as ([c2 s2]&Hc2&H). pose proof (next_len _ _ _ Hc2).
      case_bool_decide; [simplify_eq|apply bind_Some in H as ([vs r']&Hvs&H); simplify_eq;
        apply IHm in Hvs as [Hl Hf]]; (split; [lia|]); intros [|m] Hm; try lia; simpl; rewrite Hc;
        simpl; rewrite ?B1, ?B2; simpl; rewrite Hc2; simpl; [done|]. rewrite bool_decide_eq_false_2, Hf by (done || lia). done.
    + assert (String.length (String c s1) ≤ String.length s) by (simpl; lia).
      pose proof (parse_atom_len (String c s1) _ _ H). split; [lia|]. intros [|m] Hm; [lia|].
      simpl. rewrite Hc. simpl. by rewrite B1, B2.
  - apply bind_Some in H as ([w s1]&Hw&H). apply bind_Some in H as ([c s2]&Hc&H).
    apply IHv in Hw as [Hl Hw]. pose proof (next_len _ _ _ Hc).
    repeat case_bool_decide; simplify_eq.
    + apply bind_Some in H as ([vs r']&Hvs&H). simplify_eq. apply IHe in Hvs as [Hl' Hf].
      split; [lia|]. intros [|m] Hm; [lia|]. simpl. rewrite Hw by lia. simpl. rewrite Hc. simpl.
      rewrite Hf by lia. done.
    + split; [lia|]. intros [|m] Hm; [lia|]. simpl. rewrite Hw by lia. simpl. by rewrite Hc.
  - apply bind_Some in H as ([q s1]&Hq&H). pose proof (next_len _ _ _ Hq).
    case_bool_decide as Eq; [|done]. apply bind_Some in H as ([k s2]&Hk&H).
    pose proof (parse_str_len _ _ _ Hk). apply bind_Some in H as ([c s3]&Hc&H).
    pose proof (next_len _ _ _ Hc). case_bool_decide as Ec; [|done].
    apply bind_Some in H as ([w s4]&Hw&H). apply IHv in Hw as [Hl Hw].
    apply bind_Some in H as ([c' s5]&Hc'&H). pose proof (next_len _ _ _ Hc').
    assert (∀ m, 2 * String.length s ≤ S m → parse_members (S m) s =
      if bool_decide (c' = ","%char) then '(ms, r) ← parse_members m s5; Some ((k, w) :: ms, r)
      else if bool_decide (c' = "}"%char) then Some ([(k, w)], s5) else None) as Hstep.
    { intros m Hm. simpl. rewrite Hq. simpl. rewrite bool_decide_eq_true_2 by done.
      rewrite Hk. simpl. rewrite Hc. simpl. rewrite bool_decide_eq_true_2 by done.
      rewrite Hw by lia. simpl. by rewrite Hc'. }
    repeat case_bool_decide; simplify_eq.
    + apply bind_Some in H as ([ms r']&Hms&H). simplify_eq. apply IHm in Hms as [Hl' Hf].
      split; [lia|]. intros [|m] Hm; [lia|]. rewrite Hstep, Hf by lia. done.
    + split; [lia|]. intros [|m] Hm; [lia|]. rewrite Hstep by lia. done.
Qed.

(** If any amount of fuel parses the text, the amount [Unmarshal] uses does. *)
Lemma parse_fuel_enough n s v r : parse_value n s = Some (v, r) → parse_value (fuel s) s = Some (v, r).
Proof. intros H. apply parse_fuel in H as [_ H]. apply H. unfold fuel. lia. Qed.

(** Induction over a value and its parts. *)
Lemma json_induction (P : json → Prop) :
  P JNull → (∀ b, P (JBool b)) → (∀ raw, P (JNum raw)) → (∀ s, P (JStr s)) →
  (∀ vs, Forall P vs → P (JArr vs)) →
  (∀ ms, Forall (λ kv, P kv.2) ms → P (JObj ms)) →
  ∀ v, P v.
Proof.
  intros Hn Hb Hr Hs Ha Ho. fix IH 1. intros [|b|raw|s|vs|ms].
  - apply Hn.
  - apply Hb.
  - apply Hr.
  - apply Hs.
  - apply Ha. induction vs as [|v vs IHvs]; constructor; [apply IH|apply IHvs].
  - apply Ho. induction ms as [|[k v] ms IHms]; constructor; [apply IH|apply IHms].
Qed.

(** ** Reading back what [Marshal] wrote *)

Definition ascii_string (s : string) : bool := string_forall (λ c, bool_decide (code c < 128)%Z) s.

Lemma read_char_escape c t :
  (code c < 128)%Z → read_char (escape_ascii c +:+ t) = Some (Some (String c ""), t).
Proof.
  destruct c as [[] [] [] [] [] [] [] []]; intros H; first [exfalso; vm_compute in H; done|reflexivity].
Qed.

Lemma parse_str_escape s rest :
  ascii_string s = true → parse_str (escape s +:+ String quote rest) = Some (s, rest).
Proof.
  intros Hs. assert (∃ n, parse_str_go n (escape s +:+ String quote rest) = Some (s, rest)) as [n Hn];
    [|apply parse_str_go_fuel in Hn as [_ Hn]; by apply Hn].
  unfold ascii_string in Hs. induction s as [|c s IH].
  - exists 1. reflexivity.
  - simpl in Hs. apply andb_true_iff in Hs as [Hc Hs]. destruct (IH Hs) as [n Hn].
    exists (S n). simpl (escape (String c s)). rewrite Hc. apply bool_decide_eq_true in Hc.
    rewrite app_assoc_string. cbn [parse_str_go]. rewrite read_char_escape by done. simpl.
    rewrite Hn. simpl. done.
Qed.

(** Values with ASCII strings and no numbers: what the annotations hold. *)
Fixpoint json_plain (v : json) : bool :=
  match v with
  | JNull | JBool _ => true
  | JNum _ => false
  | JStr s => ascii_string s
  | JArr vs => forallb json_plain vs
  | JObj ms => forallb (λ '(k, v), ascii_string k && json_plain v) ms
  end.

Definition token_start (c : ascii) : bool :=
  bool_decide (c ≠ "]"%char) && bool_decide (c ≠ "}"%char) && bool_decide (32 < code c)%Z.

Lemma next_token c s : (32 < code c)%Z → next (String c s) = Some (c, s).
Proof. intros H. unfold next. simpl. by rewrite !bool_decide_eq_false_2 by lia. Qed.

Lemma print_start v : json_plain v = true →
  ∃ c t, print v = String c t ∧ token_start c = true.
Proof.
  destruct v as [|[]|raw|s|vs|ms]; intros H; try done; simpl; unfold quoted; eauto; by repeat eexists.
Qed.

Lemma parse_elems_print vs rest :
  vs ≠ [] → Forall (λ v, ∀ rest, ∃ n, parse_value n (print v +:+ rest) = Some (v, rest)) vs →
  ∃ n, parse_elems n (Join (print <$> vs) "," +:+ String "]" rest) = Some (vs, rest).
Proof.
  induction vs as [|v [|v' vs] IH]; intros Hne Hf; [done| |].
  - apply Forall_cons_1 in Hf as [Hv _]. destruct (Hv (String "]" rest)) as [n Hn].
    exists (S n). simpl in *. by rewrite Hn.
  - apply Forall_cons_1 in Hf as [Hv Hf]. destruct (IH ltac:(done) Hf) as [n Hn].
    change (Join (print <$> v :: v' :: vs) ",") with (print v +:+ "," +:+ Join (print <$> v' :: vs) ",").
    rewrite !app_assoc_string. destruct (Hv ("," +:+ Join (print <$> v' :: vs) "," +:+ String "]" rest)) as [n' Hn'].
    apply (parse_fuel n') in Hn' as [_ Hn']. apply (parse_fuel n) in Hn as [_ Hn].
    set (txt := print v +:+ _) in *. set (txt2 := Join _ _ +:+ _) in *.
    exists (S (2 * String.length txt + 2 * String.length txt2 + 1)). cbn [parse_elems].
    rewrite Hn' by lia. change ("," +:+ ?x) with (String "," x). simpl.
    rewrite Hn by lia. done.
Qed.

Lemma parse_members_print ms rest :
  ms ≠ [] → Forall (λ kv, ascii_string kv.1 = true) ms →
  Forall (λ kv, ∀ rest, ∃ n, parse_value n (print kv.2 +:+ rest) = Some (kv.2, rest)) ms →
  ∃ n, parse_members n
    (Join ((λ '(k, v), quoted k +:+ ":" +:+ print v) <$> ms) "," +:+ String "}" rest) = Some (ms, rest).
Proof.
  set (pm := λ '(k, v), quoted k +:+ ":" +:+ print v).
  assert (∀ k v tail n, ascii_string k = true →
    parse_members (S n) (pm (k, v) +:+ tail) =
    ('(v, s4) ← parse_value n (print v +:+ tail);
     '(c', s5) ← next s4;
     if bool_decide (c' = ","%char) then '(ms, r) ← parse_members n s5; Some ((k, v) :: ms, r)
     else if bool_decide (c' = "}"%char) then Some ([(k, v)], s5) else None)) as Hstep.
  { intros k v tail n Hk. unfold pm, quoted. rewrite !app_assoc_string.
    change (String quote ?x +:+ ?y) with (String quote (x +:+ y)). rewrite !app_assoc_string.
    change (String quote "" +:+ ?y) with (String quote y). change (":" +:+ ?y) with (String ":" y).
    cbn [parse_members]. rewrite next_token by done. simpl.
    rewrite parse_str_escape by done. done. }
  induction ms as [|[k v] [|kv' ms] IH]; intros Hne Hk Hf; [done| |];
    apply Forall_cons_1 in Hf as [Hv Hf]; apply Forall_cons_1 in Hk as [Hk Hks]; simpl in Hk, Hv.
  - destruct (Hv (String "}" rest)) as [n Hn]. exists (S n).
    change (Join (pm <$> [(k, v)]) ",") with (pm (k, v)). rewrite Hstep by done. by rewrite Hn.
  - destruct (IH ltac:(done) Hks Hf) as [n Hn].
    change (Join (pm <$> (k, v) :: kv' :: ms) ",") with (pm (k, v) +:+ "," +:+ Join (pm <$> kv' :: ms) ",").
    rewrite !app_assoc_string.
    destruct (Hv ("," +:+ Join (pm <$> kv' :: ms) "," +:+ String "}" rest)) as [n' Hn'].
    apply (parse_fuel n') in Hn' as [_ Hn']. apply (parse_fuel n) in Hn as [_ Hn].
    set (tail := "," +:+ _) in *. set (txt2 := Join (pm <$> kv' :: ms) _ +:+ _) in *.
    exists (S (2 * String.length (print v +:+ tail) + 2 * String.length txt2)).
    rewrite Hstep, Hn' by (done || lia). change tail with (String "," txt2). simpl.
    rewrite Hn by lia. done.
Qed.

Lemma parse_print v : json_plain v = true → ∀ rest, ∃ n, parse_value n (print v +:+ rest) = Some (v, rest).
Proof.
  induction v as [|b|raw|s|vs IH|ms IH] using json_induction; intros Hp rest; simpl in Hp; try done.
  - exists 1. change (print JNull) with "null".
    transitivity (r ← strip_prefix "null" ("null" +:+ rest); Some (JNull, r)); [done|].
    by rewrite strip_prefix_app.
  - exists 1. destruct b.
    + transitivity (r ← strip_prefix "true" ("true" +:+ rest); Some (JBool true, r)); [done|].
      by rewrite strip_prefix_app.
    + transitivity (r ← strip_prefix "false" ("false" +:+ rest); Some (JBool false, r)); [done|].
      by rewrite strip_prefix_app.
  - exists 1. unfold print, quoted. change (String quote ?x +:+ ?y) with (String quote (x +:+ y)).
    rewrite app_assoc_string. change (String quote "" +:+ ?y) with (String quote y).
    cbn [parse_value]. rewrite next_token by done. simpl. by rewrite parse_str_escape.
  - destruct vs as [|v vs]; [by exists 1|].
    destruct (print_start v) as (c&t&Hc&Htok); [simpl in Hp; by apply andb_true_iff in Hp as [??]|].
    destruct (parse_elems_print (v :: vs) rest) as [n Hn]; [done| |].
    { apply Forall_forall. intros w Hw. rewrite Forall_forall in IH. apply IH; [done|].
      rewrite forallb_forall in Hp. apply Hp. by apply list_elem_of_In. }
    exists (S n). change (print (JArr (v :: vs))) with ("[" +:+ Join (print <$> v :: vs) "," +:+ "]").
    rewrite !app_assoc_string. change ("]" +:+ rest) with (String "]" rest).
    set (txt := Join _ _ +:+ _) in *. change ("[" +:+ txt) with (String "[" txt).
    cbn [parse_value]. rewrite next_token by done. simpl.
    assert (∃ t', txt = String c t') as [t' Ht].
    { subst txt. destruct vs; rewrite ?fmap_cons; [simpl|rewrite Join_cons2];
      rewrite Hc, ?app_assoc_string; eexists; by rewrite cons_app_string. }
    unfold token_start in Htok. rewrite !andb_true_iff, !bool_decide_eq_true in Htok.
    destruct Htok as [[??]?]. rewrite Ht in *. rewrite next_token by done. simpl.
    rewrite bool_decide_eq_false_2, Hn by done. done.
  - destruct ms as [|[k v] ms]; [by exists 1|].
    destruct (parse_members_print ((k, v) :: ms) rest) as [n Hn]; [done| | |].
    { apply Forall_forall. intros [k' w] Hw. rewrite forallb_forall in Hp.
      apply list_elem_of_In in Hw. apply Hp in Hw. simpl in *. by apply andb_true_iff in Hw as [??]. }
    { apply Forall_forall. intros [k' w] Hw. rewrite Forall_forall in IH. apply IH; [done|].
      rewrite forallb_forall in Hp. apply list_elem_of_In in Hw. apply Hp in Hw. by apply andb_true_iff in Hw as [??]. }
    exists (S n). set (pm := λ '(k, v), quoted k +:+ ":" +:+ print v) in *.
    change (print (JObj ((k, v) :: ms))) with ("{" +:+ Join (pm <$> (k, v) :: ms) "," +:+ "}").
    rewrite !app_assoc_string. change ("}" +:+ rest) with (String "}" rest).
    set (txt := Join _ _ +:+ _) in *. change ("{" +:+ txt) with (String "{" txt).
    cbn [parse_value]. rewrite next_token by done. simpl.
    assert (∃ t', txt = String quote t') as [t' Ht].
    { subst txt. destruct ms; rewrite ?fmap_cons; [simpl|rewrite Join_cons2]; unfold pm, quoted;
      rewrite ?app_assoc_string; eexists; by rewrite cons_app_string. }
    rewrite Ht in *. rewrite next_token by done. simpl. by rewrite Hn.
Qed.

(** Unmarshalling what [Marshal] printed gives the value back. *)
Lemma Unmarshal_print v : json_plain v = true → Unmarshal (print v) = Some v.
Proof.
  intros Hp. destruct (parse_print v Hp "") as [n Hn]. rewrite app_nil_r_string in Hn.
  unfold Unmarshal. rewrite (parse_fuel_enough _ _ _ _ Hn). done.
Qed.
