(* ===== verification/KubeTypes.v ===== *)
(** The API objects the controllers work on, and the helpers of
    [federation-controller/util/meta.go] that copy and compare their metadata.

    A Go map may be nil: it is an [option (gmap string V)], read as empty when nil,
    and a write to a nil map is a panic.  A slice whose nil value the code tells from
    the empty one is an [option (list A)].  Of [ObjectMeta] the fields the program
    reads or writes are kept; the other server-populated ones are only ever copied
    together with [UID] and [ResourceVersion], which stand for them.  Objects are
    values: the program deep-copies before it writes, except in
    [reconcileConfigMap], whose write to the informer's cache is modelled there. *)

From S2P Require Import Prelude GoStrings.

Abbreviation gomap V := (option (gmap string V)).

(** [v, ok := m[k]]. *)
Definition map_get {V} (m : gomap V) (k : string) : option V := m ≫= lookup k.
(** [m[k]] for a map of strings: the zero value when the key is absent. *)
Definition map_get_str (m : gomap string) (k : string) : string := default "" (map_get m k).
(** [m[k] = v]; [None] is the panic of a nil map. *)
Definition map_set {V} (m : gomap V) (k : string) (v : V) : option (gomap V) :=
  m' ← m; Some (Some (<[k := v]> m')).
(** [len(m)]. *)
Definition map_len {V} (m : gomap V) : nat := match m with None => 0 | Some m' => size m' end.
(** [if m == nil { m = map[string]V{} }]. *)
Definition map_make {V} (m : gomap V) : gomap V := Some (default ∅ m).

(** [for key, val := range src { dst[key] = val }] on a non-nil [dst]: the keys of
    [src] are distinct, so that the order of iteration does not matter. *)
Definition map_merge {V} (src dst : gomap V) : gomap V :=
  match dst with
  | None => None
  | Some d => Some (default ∅ src ∪ d)
  end.

Record ObjectMeta := mkObjectMeta {
  Name : string;
  Namespace : string;
  UID : string;
  ResourceVersion : string;
  DeletionTimestamp : option Z;
  Labels : gomap string;
  Annotations : gomap string;
  Finalizers : list string;
  ClusterName : string
}.

(** A new [ObjectMeta{}]. *)
Definition zero_meta : ObjectMeta := mkObjectMeta "" "" "" "" None None None [] "".

#[export] Instance ObjectMeta_eq_dec : EqDecision ObjectMeta.
Proof. solve_decision. Defined.

(** *** Ingress *)

Inductive IntOrString := IntVal (n : Z) | StrVal (s : string).
Record IngressBackend := mkBackend { ServiceName : string; ServicePort : IntOrString }.
Record HTTPIngressPath := mkPath { Path : string; Backend : IngressBackend }.
Record IngressRule := mkRule { Host : string; HTTP : option (option (list HTTPIngressPath)) }.
Record IngressTLS := mkTLS { Hosts : option (list string); SecretName : string }.
Record IngressSpec := mkSpec {
  SpecBackend : option IngressBackend;
  TLS : option (list IngressTLS);
  Rules : option (list IngressRule)
}.

#[export] Instance IntOrString_eq_dec : EqDecision IntOrString.
Proof. solve_decision. Defined.
#[export] Instance IngressBackend_eq_dec : EqDecision IngressBackend.
Proof. solve_decision. Defined.
#[export] Instance HTTPIngressPath_eq_dec : EqDecision HTTPIngressPath.
Proof. solve_decision. Defined.
#[export] Instance IngressRule_eq_dec : EqDecision IngressRule.
Proof. solve_decision. Defined.
#[export] Instance IngressTLS_eq_dec : EqDecision IngressTLS.
Proof. solve_decision. Defined.
#[export] Instance IngressSpec_eq_dec : EqDecision IngressSpec.
Proof. solve_decision. Defined.

Record LoadBalancerIngress := mkLBI { IP : string; Hostname : string }.
(** [LoadBalancerStatus.Ingress]: the program only takes its length and ranges over
    it, so nil and empty are the same list. *)
Record LoadBalancerStatus := mkLBS { LBIngress : list LoadBalancerIngress }.

#[export] Instance LoadBalancerIngress_eq_dec : EqDecision LoadBalancerIngress.
Proof. solve_decision. Defined.
#[export] Instance LoadBalancerStatus_eq_dec : EqDecision LoadBalancerStatus.
Proof. solve_decision. Defined.

Record Ingress := mkIngress {
  ing_meta : ObjectMeta;
  ing_spec : IngressSpec;
  ing_status : LoadBalancerStatus
}.
#[export] Instance Ingress_eq_dec : EqDecision Ingress.
Proof. solve_decision. Defined.

(** *** Clusters and config maps *)

Record ClusterCondition := mkCondition { cond_type : string; cond_status : string }.
#[export] Instance ClusterCondition_eq_dec : EqDecision ClusterCondition.
Proof. solve_decision. Defined.

(** [cl_spec] is the endpoint and secret of the cluster, which this program never
    looks into. *)
Record Cluster := mkCluster {
  cl_meta : ObjectMeta;
  cl_spec : string;
  Conditions : list ClusterCondition;
  Zones : option (list string);
  Region : string
}.
#[export] Instance Cluster_eq_dec : EqDecision Cluster.
Proof. solve_decision. Defined.

Record ConfigMap := mkConfigMap { cm_meta : ObjectMeta; Data : gomap string }.
#[export] Instance ConfigMap_eq_dec : EqDecision ConfigMap.
Proof. solve_decision. Defined.

Definition cl_name (c : Cluster) : string := Name (cl_meta c).

(** *** Field updates *)

Definition with_annotations (a : gomap string) (m : ObjectMeta) : ObjectMeta :=
  mkObjectMeta (Name m) (Namespace m) (UID m) (ResourceVersion m) (DeletionTimestamp m)
    (Labels m) a (Finalizers m) (ClusterName m).
Definition with_labels (l : gomap string) (m : ObjectMeta) : ObjectMeta :=
  mkObjectMeta (Name m) (Namespace m) (UID m) (ResourceVersion m) (DeletionTimestamp m)
    l (Annotations m) (Finalizers m) (ClusterName m).
Definition with_finalizers (f : list string) (m : ObjectMeta) : ObjectMeta :=
  mkObjectMeta (Name m) (Namespace m) (UID m) (ResourceVersion m) (DeletionTimestamp m)
    (Labels m) (Annotations m) f (ClusterName m).
Definition ing_with_meta (m : ObjectMeta) (i : Ingress) : Ingress :=
  mkIngress m (ing_spec i) (ing_status i).
Definition ing_with_status (s : LoadBalancerStatus) (i : Ingress) : Ingress :=
  mkIngress (ing_meta i) (ing_spec i) s.
Definition cl_with_meta (m : ObjectMeta) (c : Cluster) : Cluster :=
  mkCluster m (cl_spec c) (Conditions c) (Zones c) (Region c).
Definition cm_with_data (d : gomap string) (c : ConfigMap) : ConfigMap :=
  mkConfigMap (cm_meta c) d.

(** [types.NamespacedName] and its [String], the key of every ingress store. *)
Record NamespacedName := mkNsName { nn_namespace : string; nn_name : string }.
#[export] Instance NamespacedName_eq_dec : EqDecision NamespacedName.
Proof. solve_decision. Defined.
Definition nn_string (n : NamespacedName) : string := nn_namespace n +:+ "/" +:+ nn_name n.
Definition nn_of_meta (m : ObjectMeta) : NamespacedName := mkNsName (Namespace m) (Name m).

(** ** [federation-controller/util/meta.go] *)

(** [copyObjectMeta] and [DeepCopyRelevantObjectMeta]: only what the user provided. *)
Definition DeepCopyRelevantObjectMeta (obj : ObjectMeta) : ObjectMeta :=
  mkObjectMeta (Name obj) (Namespace obj) "" "" None (Labels obj) (Annotations obj) [] "".

(** [!reflect.DeepEqual(a, b) && (len(a) != 0 || len(b) != 0)], negated. *)
Definition maps_equivalent (a b : gomap string) : bool :=
  bool_decide (a = b) || (bool_decide (map_len a = 0) && bool_decide (map_len b = 0)).

Definition ObjectMetaEquivalent (a b : ObjectMeta) : bool :=
  bool_decide (Name a = Name b) && bool_decide (Namespace a = Namespace b) &&
  maps_equivalent (Labels a) (Labels b) && maps_equivalent (Annotations a) (Annotations b).

Definition ObjectMetaAndSpecEquivalent (a b : Ingress) : bool :=
  ObjectMetaEquivalent (ing_meta a) (ing_meta b) && bool_decide (ing_spec a = ing_spec b).

(** The order in which a [range] over a map, or [List] of a store, visits the entries. *)
Class GoMapOrder := {
  range_order : ∀ {V}, gmap string V → list (string * V);
  range_order_perm : ∀ V (m : gmap string V), range_order m ≡ₚ map_to_list m
}.

#[export] Instance key_map_order : GoMapOrder := {|
  range_order V m := map_to_list m;
  range_order_perm V m := Permutation_refl (map_to_list m)
|}.

Lemma elem_of_range_order `{GoMapOrder} {V} (m : gmap string V) k v :
  (k, v) ∈ range_order m ↔ m !! k = Some v.
Proof. rewrite range_order_perm. apply elem_of_map_to_list. Qed.

Lemma range_order_NoDup `{GoMapOrder} {V} (m : gmap string V) : NoDup (range_order m).*1.
Proof. rewrite range_order_perm. apply NoDup_fst_map_to_list. Qed.

Lemma range_order_length `{GoMapOrder} {V} (m : gmap string V) : length (range_order m) = size m.
Proof. rewrite range_order_perm. apply length_map_to_list. Qed.

(** ** Facts *)

Lemma map_get_make {V} (m : gomap V) k : map_get (map_make m) k = map_get m k.
Proof. destruct m; [done|]. unfold map_get, map_make. simpl. apply lookup_empty. Qed.

Lemma map_get_merge {V} (src dst : gomap V) k :
  is_Some dst → map_get (map_merge src dst) k =
    match map_get src k with Some v => Some v | None => map_get dst k end.
Proof.
  intros [d ->]. unfold map_get, map_merge. simpl. rewrite lookup_union.
  destruct src as [s|]; simpl; [by destruct (s !! k), (d !! k)|].
  rewrite lookup_empty. by destruct (d !! k).
Qed.

(** Nil and empty maps are alike to [ObjectMetaEquivalent]; otherwise it compares
    lookups. *)
Lemma maps_equivalent_spec (a b : gomap string) :
  maps_equivalent a b = true ↔ ∀ k, map_get a k = map_get b k.
Proof.
  unfold maps_equivalent. rewrite orb_true_iff, andb_true_iff, !bool_decide_eq_true. split.
  - intros [->|[Ha Hb]] k; [done|].
    assert (∀ m : gomap string, map_len m = 0 → map_get m k = None) as Hz.
    { intros [m|] Hm; [|done]. apply map_size_empty_inv in Hm as ->. apply lookup_empty. }
    by rewrite !Hz.
  - intros H. destruct a as [a|], b as [b|].
    + left. f_equal. by apply map_eq.
    + right. split; [|done]. simpl. apply map_size_empty_iff, map_eq. intros k.
      rewrite lookup_empty. apply (H k).
    + right. split; [done|]. simpl. apply map_size_empty_iff, map_eq. intros k.
      rewrite lookup_empty. symmetry. apply (H k).
    + by left.
Qed.

Lemma ObjectMetaEquivalent_spec a b :
  ObjectMetaEquivalent a b = true ↔
  Name a = Name b ∧ Namespace a = Namespace b ∧
  (∀ k, map_get (Labels a) k = map_get (Labels b) k) ∧
  (∀ k, map_get (Annotations a) k = map_get (Annotations b) k).
Proof.
  unfold ObjectMetaEquivalent. rewrite !andb_true_iff, !bool_decide_eq_true, !maps_equivalent_spec.
  tauto.
Qed.

(** Metadata up to what [ObjectMetaEquivalent] looks at. *)
#[export] Instance ObjectMeta_equiv : Equiv ObjectMeta := λ a b, ObjectMetaEquivalent a b = true.
#[export] Instance ObjectMeta_equivalence : Equivalence (≡@{ObjectMeta}).
Proof.
  unfold equiv, ObjectMeta_equiv. split.
  - intros a. by apply ObjectMetaEquivalent_spec.
  - intros a b. rewrite !ObjectMetaEquivalent_spec. naive_solver.
  - intros a b c. rewrite !ObjectMetaEquivalent_spec. naive_solver congruence.
Qed.

Lemma DeepCopyRelevantObjectMeta_equiv m : DeepCopyRelevantObjectMeta m ≡ m.
Proof. by apply ObjectMetaEquivalent_spec. Qed.

#[export] Instance DeepCopyRelevantObjectMeta_proper :
  Proper ((≡) ==> (≡)) DeepCopyRelevantObjectMeta.
Proof. intros a b H. by rewrite !DeepCopyRelevantObjectMeta_equiv. Qed.

#[export] Hint Resolve DeepCopyRelevantObjectMeta_equiv : go.
