(* ===== verification/LbStatus.v ===== *)
(** The annotation [kubernetes.io/ingress.global-ingress-lb-status], through which
    the ingress controller hands the load balancer status of every cluster to the
    DNS controller: [BuildGlobalLbStatusAnnotation] of
    [pkg/controller/ingress/ingress_controller.go] writes it and
    [parseGlobalLbStatusAnnotation] of [pkg/controller/ingress/dns/dns.go] reads it.
    The struct half of [encoding/json] (field names, [omitempty], the reuse of a
    slice's old elements) is modelled for the types involved. *)

From S2P Require Import Prelude GoStrings Json KubeTypes.
From Stdlib Require Import Ascii.

Definition globalIngressLBStatus : string := "kubernetes.io/ingress.global-ingress-lb-status".

(** ** Maps in key order *)

(** The entries of a map in the order in which [json.Marshal] writes them. *)
Definition sorted_items {V} (m : gmap string V) : list (string * V) :=
  omap (λ k, v ← m !! k; Some (k, v)) (StringSet_List (dom m)).

Lemma elem_of_sorted_items {V} (m : gmap string V) k v :
  (k, v) ∈ sorted_items m ↔ m !! k = Some v.
Proof.
  unfold sorted_items. rewrite list_elem_of_omap. split.
  - intros (k'&_&H). apply bind_Some in H as (v'&Hv&?). by simplify_eq.
  - intros H. exists k. rewrite StringSet_List_elem, elem_of_dom, H. by split; [eexists|].
Qed.

Lemma sorted_items_keys {V} (m : gmap string V) : (sorted_items m).*1 = StringSet_List (dom m).
Proof.
  unfold sorted_items.
  assert (∀ k, k ∈ StringSet_List (dom m) → is_Some (m !! k)) as H.
  { intros k. by rewrite StringSet_List_elem, elem_of_dom. }
  induction (StringSet_List (dom m)) as [|k l IH]; [done|]. simpl.
  destruct (H k) as [v Hv]; [set_solver|]. rewrite Hv. simpl. f_equal. apply IH. set_solver.
Qed.

Lemma sorted_items_NoDup {V} (m : gmap string V) : NoDup (sorted_items m).*1.
Proof. rewrite sorted_items_keys. apply StringSet_List_NoDup. Qed.

Lemma list_to_map_sorted_items {V} (m : gmap string V) : list_to_map (sorted_items m) = m.
Proof.
  apply map_eq. intros k. destruct (m !! k) as [v|] eqn:E.
  - apply elem_of_list_to_map; [apply sorted_items_NoDup|]. by apply elem_of_sorted_items.
  - apply not_elem_of_list_to_map. rewrite sorted_items_keys, StringSet_List_elem.
    by apply not_elem_of_dom.
Qed.

(** ** Writing *)

(** A string field tagged [omitempty]. *)
Definition omitempty (name s : string) : list (string * json) :=
  if bool_decide (s = "") then [] else [(name, JStr s)].

Definition lbi_json (l : LoadBalancerIngress) : json :=
  JObj (omitempty "ip" (IP l) ++ omitempty "hostname" (Hostname l)).

Definition lbs_json (s : LoadBalancerStatus) : json :=
  JObj (if bool_decide (LBIngress s = []) then [] else [("ingress", JArr (lbi_json <$> LBIngress s))]).

(** A slice of statuses; the nil slice is the empty one, [append] makes no other. *)
Definition lbs_slice_json (l : list LoadBalancerStatus) : json :=
  if bool_decide (l = []) then JNull else JArr (lbs_json <$> l).

(** [BuildGlobalLbStatusAnnotation]. *)
Definition BuildGlobalLbStatusAnnotation (globalLbStat : gmap string (list LoadBalancerStatus)) : string :=
  print (JObj ((λ '(k, v), (k, lbs_slice_json v)) <$> sorted_items globalLbStat)).

(** ** Reading *)

Definition to_lower (c : ascii) : ascii := if in_rng 65 90 c then chr (code c + 32) else c.

(** [field.equalFold(nameBytes, key)] for a lower-case field name: case-insensitive,
    with the long s (C5 BF) and the Kelvin sign (E2 84 AA) folded as Go folds them. *)
Fixpoint equalFold (name key : string) : bool :=
  match name with
  | "" => bool_decide (key = "")
  | String c name' =>
      match key with
      | String d key' =>
          (bool_decide (to_lower d = c) && equalFold name' key') ||
          match key' with
          | String e key'' =>
              (bool_decide (c = "s"%char) && bool_decide (code d = 0xC5)%Z &&
               bool_decide (code e = 0xBF)%Z && equalFold name' key'') ||
              match key'' with
              | String f key''' =>
                  bool_decide (c = "k"%char) && bool_decide (code d = 0xE2)%Z &&
                  bool_decide (code e = 0x84)%Z && bool_decide (code f = 0xAA)%Z &&
                  equalFold name' key'''
              | "" => false
              end
          | "" => false
          end
      | "" => false
      end
  end.

(** A JSON value into a string that holds [prev]: null leaves it alone, and any other
    kind is an [UnmarshalTypeError]. *)
Definition dec_string (prev : string) (v : json) : option string :=
  match v with JStr s => Some s | JNull => Some prev | _ => None end.

Definition dec_lbi_field (l : LoadBalancerIngress) (kv : string * json) : option LoadBalancerIngress :=
  let '(k, v) := kv in
  if equalFold "ip" k then s ← dec_string (IP l) v; Some (mkLBI s (Hostname l))
  else if equalFold "hostname" k then s ← dec_string (Hostname l) v; Some (mkLBI (IP l) s)
  else Some l.

(** The members of an object, in order, into a struct. *)
Fixpoint dec_fields {A} (field : A → string * json → option A) (a : A) (ms : list (string * json)) :
    option A :=
  match ms with
  | [] => Some a
  | kv :: ms' => a' ← field a kv; dec_fields field a' ms'
  end.

Definition dec_lbi (prev : LoadBalancerIngress) (v : json) : option LoadBalancerIngress :=
  match v with
  | JNull => Some prev
  | JObj ms => dec_fields dec_lbi_field prev ms
  | _ => None
  end.

(** The elements of an array into a slice whose backing array holds [old]: an element
    is decoded on top of what its slot held. *)
Fixpoint dec_elems {A} (zero : A) (dec : A → json → option A) (old : list A) (vs : list json) :
    option (list A) :=
  match vs with
  | [] => Some []
  | v :: vs' =>
      a ← dec (default zero (head old)) v;
      l ← dec_elems zero dec (tail old) vs';
      Some (a :: l)
  end.

Definition zero_lbi : LoadBalancerIngress := mkLBI "" "".

(** The field [Ingress] while its struct is decoded: the slice and its backing array. *)
Definition dec_lbs_field (st : list LoadBalancerIngress * list LoadBalancerIngress)
    (kv : string * json) : option (list LoadBalancerIngress * list LoadBalancerIngress) :=
  let '(k, v) := kv in
  if equalFold "ingress" k then
    match v with
    | JNull | JArr [] => Some ([], [])
    | JArr vs => l ← dec_elems zero_lbi dec_lbi st.2 vs; Some (l, l ++ drop (length l) st.2)
    | _ => None
    end
  else Some st.

Definition dec_lbs (v : json) : option LoadBalancerStatus :=
  match v with
  | JNull => Some (mkLBS [])
  | JObj ms => st ← dec_fields dec_lbs_field ([], []) ms; Some (mkLBS st.1)
  | _ => None
  end.

(** A fresh [[]LoadBalancerStatus]. *)
Definition dec_lbs_slice (v : json) : option (list LoadBalancerStatus) :=
  match v with
  | JNull => Some []
  | JArr vs => mapM dec_lbs vs
  | _ => None
  end.

Definition dec_lb_entry (m : gmap string (list LoadBalancerStatus)) (kv : string * json) :
    option (gmap string (list LoadBalancerStatus)) :=
  l ← dec_lbs_slice kv.2; Some (<[kv.1 := l]> m).

(** The top-level map; [null] makes it nil, which ranges like the empty map. *)
Definition dec_lb_map (v : json) : option (gmap string (list LoadBalancerStatus)) :=
  match v with
  | JNull => Some ∅
  | JObj ms => dec_fields dec_lb_entry ∅ ms
  | _ => None
  end.

(** [json.Unmarshal([]byte(s), &globalLbStat)]. *)
Definition unmarshal_lb_map (s : string) : option (gmap string (list LoadBalancerStatus)) :=
  v ← Unmarshal s; dec_lb_map v.

(** [parseGlobalLbStatusAnnotation]: no map at all when the annotation is missing.
    The map returned next to an error is never looked at. *)
Definition parseGlobalLbStatusAnnotation (ingress : Ingress) :
    result (option (gmap string (list LoadBalancerStatus))) :=
  match Annotations (ing_meta ingress) with
  | None => Ok None
  | Some annotations =>
      match annotations !! globalIngressLBStatus with
      | None => Ok None
      | Some globalLbStatString =>
          match unmarshal_lb_map globalLbStatString with
          | None => Err (Errorf "json: cannot unmarshal the annotation")
          | Some globalLbStat => Ok (Some globalLbStat)
          end
      end
  end.

Example Build_ex :
  BuildGlobalLbStatusAnnotation {[ "c2" := [mkLBS [mkLBI "10.0.0.2" ""]]; "c1" := [mkLBS [mkLBI "" "lb.x"]] ]}
  = dq "{'c1':[{'ingress':[{'hostname':'lb.x'}]}],'c2':[{'ingress':[{'ip':'10.0.0.2'}]}]}".
Proof. vm_compute. reflexivity. Qed.
Example unmarshal_reuse :
  unmarshal_lb_map (dq "{'c':[{'ingress':[{'ip':'a'}],'Ingress':[{'hostname':'b'}]}]}")
  = Some {[ "c" := [mkLBS [mkLBI "a" "b"]] ]}.
Proof. vm_compute. reflexivity. Qed.

(** ** The round trip *)

Definition plain_lbi (l : LoadBalancerIngress) : bool := ascii_string (IP l) && ascii_string (Hostname l).
Definition plain_lbs (s : LoadBalancerStatus) : bool := forallb plain_lbi (LBIngress s).

(** Cluster names, addresses and host names are ASCII. *)
Definition plain_lb_map (m : gmap string (list LoadBalancerStatus)) : Prop :=
  ∀ k l, m !! k = Some l → ascii_string k = true ∧ forallb plain_lbs l = true.

Lemma lbi_json_plain l : plain_lbi l = true → json_plain (lbi_json l) = true.
Proof.
  destruct l as [ip host]. unfold plain_lbi, lbi_json, omitempty. rewrite andb_true_iff. simpl.
  intros [Hi Hh]. repeat case_bool_decide; simpl; by rewrite ?Hi, ?Hh.
Qed.

Lemma forallb_fmap {A B} (P : B → bool) (f : A → B) l :
  forallb P (f <$> l) = forallb (λ a, P (f a)) l.
Proof. induction l as [|a l IH]; [done|]. rewrite fmap_cons. simpl. by rewrite IH. Qed.

Lemma forallb_impl {A} (P Q : A → bool) l :
  (∀ a, P a = true → Q a = true) → forallb P l = true → forallb Q l = true.
Proof. induction l; simpl; [done|]. rewrite !andb_true_iff. naive_solver. Qed.

Lemma lbs_json_plain s : plain_lbs s = true → json_plain (lbs_json s) = true.
Proof.
  unfold plain_lbs, lbs_json. intros H. case_bool_decide; [done|].
  change (forallb json_plain (lbi_json <$> LBIngress s) && true = true).
  rewrite andb_true_r, forallb_fmap. eapply forallb_impl; [apply lbi_json_plain|done].
Qed.

Lemma dec_lbi_json l : dec_lbi zero_lbi (lbi_json l) = Some l.
Proof. destruct l as [ip host]. unfold lbi_json, omitempty. simpl. by repeat case_bool_decide; subst. Qed.

Lemma dec_elems_lbi l : dec_elems zero_lbi dec_lbi [] (lbi_json <$> l) = Some l.
Proof.
  induction l as [|x l IH]; [done|]. rewrite fmap_cons. cbn [dec_elems].
  change (default zero_lbi (head [])) with zero_lbi. rewrite dec_lbi_json. simpl. by rewrite IH.
Qed.

Lemma dec_lbs_json s : dec_lbs (lbs_json s) = Some s.
Proof.
  destruct s as [l]. unfold lbs_json. simpl. case_bool_decide as Hl; [by subst|].
  simpl. destruct l as [|x l]; [done|]. 
  change (lbi_json <$> x :: l) with (lbi_json x :: (lbi_json <$> l)).
  pose proof (dec_elems_lbi (x :: l)) as H. rewrite fmap_cons in H. by rewrite H.
Qed.

Lemma dec_lbs_slice_json l : dec_lbs_slice (lbs_slice_json l) = Some l.
Proof.
  unfold lbs_slice_json. case_bool_decide; [by subst|]. simpl.
  clear. induction l as [|s l IH]; [done|]. rewrite fmap_cons. cbn [mapM].
  rewrite dec_lbs_json. simpl. by rewrite IH.
Qed.

Lemma dec_lb_entries items m :
  dec_fields dec_lb_entry m ((λ '(k, v), (k, lbs_slice_json v)) <$> items) =
  Some (foldl (λ m kv, <[kv.1 := kv.2]> m) m items).
Proof.
  revert m. induction items as [|[k l] items IH]; intros m; [done|].
  rewrite fmap_cons. cbn [dec_fields].
  assert (dec_lb_entry m (k, lbs_slice_json l) = Some (<[k := l]> m)) as ->.
  { unfold dec_lb_entry. cbn [fst snd]. by rewrite dec_lbs_slice_json. }
  apply IH.
Qed.

Lemma foldl_insert_list_to_map {V} (items : list (string * V)) (m : gmap string V) :
  NoDup items.*1 → foldl (λ m kv, <[kv.1 := kv.2]> m) m items = list_to_map items ∪ m.
Proof.
  revert m. induction items as [|[k v] items IH]; intros m Hnd; simpl.
  - by rewrite map_empty_union.
  - apply NoDup_cons in Hnd as [Hk Hnd]. rewrite IH by done.
    rewrite <-insert_union_l, insert_union_r; [done|].
    by apply not_elem_of_list_to_map.
Qed.

(** What the ingress controller writes is what the DNS controller reads. *)
Lemma unmarshal_Build m :
  plain_lb_map m → unmarshal_lb_map (BuildGlobalLbStatusAnnotation m) = Some m.
Proof.
  intros Hm. unfold unmarshal_lb_map, BuildGlobalLbStatusAnnotation.
  rewrite Unmarshal_print.
  - cbn [mbind option_bind dec_lb_map]. rewrite dec_lb_entries. f_equal.
    rewrite foldl_insert_list_to_map by apply sorted_items_NoDup.
    by rewrite list_to_map_sorted_items, map_union_empty.
  - change (forallb (λ '(k, v), ascii_string k && json_plain v)
      ((λ '(k, v), (k, lbs_slice_json v)) <$> sorted_items m) = true).
    rewrite forallb_fmap, forallb_forall. intros [k l] Hkl.
    apply list_elem_of_In, elem_of_sorted_items, Hm in Hkl as [Hk Hl]. rewrite Hk. simpl.
    unfold lbs_slice_json. case_bool_decide; [done|].
    change (forallb json_plain (lbs_json <$> l) = true). rewrite forallb_fmap.
    eapply forallb_impl; [apply lbs_json_plain|done].
Qed.

(** C24: the two controllers agree on the annotation: [parseGlobalLbStatusAnnotation] reads
    back from an ingress exactly the map of statuses that [BuildGlobalLbStatusAnnotation]
    wrote into its annotations, whatever the other annotations are. *)
Theorem lb_annotation_roundtrip (m : gmap string (list LoadBalancerStatus)) (a : gmap string string)
    (ing : Ingress) :
  plain_lb_map m →
  Annotations (ing_meta ing) = Some (<[globalIngressLBStatus := BuildGlobalLbStatusAnnotation m]> a) →
  parseGlobalLbStatusAnnotation ing = Ok (Some m).
Proof.
  intros Hm Ha. unfold parseGlobalLbStatusAnnotation. rewrite Ha, lookup_insert_eq.
  by rewrite unmarshal_Build.
Qed.

Module LbStatusExamples.
Definition statuses : gmap string (list LoadBalancerStatus) :=
  {[ "c1" := [mkLBS [mkLBI "10.0.0.1" ""]]; "c2" := [mkLBS [mkLBI "" "lb.x"]] ]}.
Definition annotated : Ingress :=
  mkIngress (with_annotations (Some {[ globalIngressLBStatus := BuildGlobalLbStatusAnnotation statuses ]})
               (mkObjectMeta "w" "ns" "" "" None None None [] ""))
    (mkSpec None None None) (mkLBS [mkLBI "10.0.0.1" ""]).

Lemma statuses_plain : plain_lb_map statuses.
Proof.
  intros k l E. unfold statuses in E.
  apply lookup_insert_Some in E as [[<- <-]|[_ E]]; [split; vm_compute; reflexivity|].
  apply lookup_singleton_Some in E as [<- <-]. split; vm_compute; reflexivity.
Qed.

Lemma lb_annotation_roundtrip_witness : parseGlobalLbStatusAnnotation annotated = Ok (Some statuses).
Proof. apply (lb_annotation_roundtrip statuses ∅ annotated statuses_plain). reflexivity. Defined.

(** The same, computed. *)
Lemma annotated_parse : parseGlobalLbStatusAnnotation annotated = Ok (Some statuses).
Proof. vm_compute. reflexivity. Qed.
End LbStatusExamples.
