(* ===== verification/DnsProvider.v ===== *)
(** The pluggable DNS provider interface of
    [federation/pkg/dnsprovider/dns.go], as the controllers see it: a zone's record
    sets with [Get], [New] and change sets, and the zones of a provider.  Providers
    are instances of these classes: DynDNS in [Dyndns.v], and at the end of this file
    an in-memory zone that satisfies the contract [ZoneLaws] of the interface's
    comments. *)

From S2P Require Import Prelude GoStrings.

(** [rrstype]. *)
Definition RrsA : string := "A".
Definition RrsCNAME : string := "CNAME".

(** [dnsprovider.ResourceRecordSet]. *)
Class RRsetOps (RRset : Type) := {
  rr_Name : RRset → string;
  rr_Rrdatas : RRset → list string;
  rr_Ttl : RRset → Z;
  rr_Type : RRset → string
}.

(** [dnsprovider.ResourceRecordSets] of a zone and its change sets.  [St] is the state
    behind the provider; a change set is built by value, as the code always goes on
    with the change set the last call returned. *)
Class ZoneRrsets (St Zone RRset CS : Type) `{RRsetOps RRset} := {
  rrs_supported : Zone → bool;
  rrs_Get : Zone → string → M St (result (list RRset));
  rrs_New : Zone → string → list string → Z → string → RRset;
  rrs_StartChangeset : Zone → CS;
  cs_Add : CS → RRset → CS;
  cs_Remove : CS → RRset → CS;
  cs_Apply : CS → M St (option error)
}.

(** [dnsprovider.Zones]. *)
Class ProviderZones (St Zones Zone : Type) := {
  zone_Name : Zone → string;
  zones_List : Zones → M St (result (list Zone));
  zones_New : Zones → string → M St (result Zone)
}.

(** [ResourceRecordSetsEquivalent]: equal in all that the interface shows. *)
Definition ResourceRecordSetsEquivalent `{RRsetOps RRset} (r1 r2 : RRset) : bool :=
  bool_decide (rr_Name r1 = rr_Name r2) && bool_decide (rr_Rrdatas r1 = rr_Rrdatas r2) &&
  bool_decide (rr_Ttl r1 = rr_Ttl r2) && bool_decide (rr_Type r1 = rr_Type r2).

Section equivalence.
Context `{RRsetOps RRset}.

Definition rr_equiv (r1 r2 : RRset) : Prop := ResourceRecordSetsEquivalent r1 r2 = true.

Lemma rr_equiv_spec r1 r2 :
  rr_equiv r1 r2 ↔ rr_Name r1 = rr_Name r2 ∧ rr_Rrdatas r1 = rr_Rrdatas r2 ∧
                   rr_Ttl r1 = rr_Ttl r2 ∧ rr_Type r1 = rr_Type r2.
Proof.
  unfold rr_equiv, ResourceRecordSetsEquivalent.
  rewrite !andb_true_iff, !bool_decide_eq_true. tauto.
Qed.

#[export] Instance rr_equiv_equivalence : Equivalence rr_equiv.
Proof.
  split; [intros x|intros x y|intros x y z]; rewrite !rr_equiv_spec; intuition congruence.
Qed.

#[export] Instance rr_equiv_dec : RelDecision rr_equiv.
Proof. intros r1 r2. unfold rr_equiv. apply _. Defined.
End equivalence.

#[export] Hint Resolve rr_equiv_equivalence : go.

(** A change set that removes [old] and then adds [new], as [EnsureDNSRrsets] builds it. *)
Definition cs_replace `{ZoneRrsets St Zone RRset CS} (z : Zone) (old new : list RRset) : CS :=
  foldl cs_Add (foldl cs_Remove (rrs_StartChangeset z) old) new.

(** The contract of the interface's comments: [Get] returns what the zone holds under a
    name and changes nothing, [New] only allocates, and a change set that is applied
    without an error has removed its deletions and added its additions, and has
    touched nothing else. *)
Class ZoneLaws (St Zone RRset CS : Type) `{ZoneRrsets St Zone RRset CS} := {
  zone_lookup : St → Zone → string → list RRset;
  law_get : ∀ z name s, rrs_Get z name s = (Val (Ok (zone_lookup s z name)), s);
  law_new : ∀ z name datas ttl ty, (0 ≤ ttl)%Z →
    rr_Rrdatas (rrs_New z name datas ttl ty) = datas ∧
    rr_Ttl (rrs_New z name datas ttl ty) = ttl ∧
    rr_Type (rrs_New z name datas ttl ty) = ty;
  law_new_name : ∀ z name datas ttl ty datas' ttl' ty',
    rr_Name (rrs_New z name datas ttl ty) = rr_Name (rrs_New z name datas' ttl' ty');
  law_get_name : ∀ z name s r datas ttl ty,
    r ∈ zone_lookup s z name → rr_Name r = rr_Name (rrs_New z name datas ttl ty);
  law_apply : ∀ z name s s' old datas ttl ty (new : bool),
    let r := rrs_New z name datas ttl ty in
    cs_Apply (cs_replace z old (if new then [r] else [])) s = (Val None, s') →
    (∀ r, r ∈ old ↔ r ∈ zone_lookup s z name) →
    zone_lookup s' z name ≡ₚ (if new then [r] else []);
  law_apply_other : ∀ z name s s' old datas ttl ty (new : bool) name',
    let r := rrs_New z name datas ttl ty in
    cs_Apply (cs_replace z old (if new then [r] else [])) s = (Val None, s') →
    (∀ r, r ∈ old ↔ r ∈ zone_lookup s z name) →
    name' ≠ name → zone_lookup s' z name' ≡ₚ zone_lookup s z name'
}.

(** ** A zone in memory *)

Module MemZone.
Record RRset := mkRRset { name : string; rrdatas : list string; ttl : Z; type : string }.
#[export] Instance RRset_eq_dec : EqDecision RRset.
Proof. solve_decision. Defined.

Inductive change := ChAdd (r : RRset) | ChRemove (r : RRset).
(** The change set holds its changes in the order they were asked for. *)
Definition CS : Type := list change.

#[export] Instance ops : RRsetOps RRset :=
  {| rr_Name := name; rr_Rrdatas := rrdatas; rr_Ttl := ttl; rr_Type := type |}.

Definition run (rs : list RRset) (c : change) : list RRset :=
  match c with
  | ChAdd r => rs ++ [r]
  | ChRemove r => filter (.≠ r) rs
  end.

(** One zone: its record sets, and whether the service is reachable. *)
Record St := mkSt { records : list RRset; reachable : bool }.

#[export] Instance rrsets : ZoneRrsets St unit RRset CS := {|
  rrs_supported := λ _, true;
  rrs_Get := λ _ n s, (Val (Ok (filter (λ r, name r = n) (records s))), s);
  rrs_New := λ _ n d t ty, mkRRset n d t ty;
  rrs_StartChangeset := λ _, [];
  cs_Add := λ c r, c ++ [ChAdd r];
  cs_Remove := λ c r, c ++ [ChRemove r];
  cs_Apply := λ c s,
    if reachable s then (Val None, mkSt (foldl run (records s) c) true)
    else (Val (Some (Errorf "unreachable")), s)
|}.

Lemma foldl_Remove (old : list RRset) (c : CS) : foldl cs_Remove c old = c ++ (ChRemove <$> old).
Proof.
  revert c. induction old as [|r old IH]; intros c; simpl; [by rewrite app_nil_r|].
  by rewrite IH, <-app_assoc.
Qed.

Lemma run_removes (old : list RRset) rs :
  foldl run rs (ChRemove <$> old) = filter (λ r, r ∉ old) rs.
Proof.
  revert rs. induction old as [|r old IH]; intros rs.
  - simpl. induction rs as [|x rs IHrs]; [done|]. rewrite filter_cons_True by set_solver. by rewrite <-IHrs.
  - rewrite fmap_cons. cbn [foldl]. rewrite IH. unfold run. rewrite list_filter_filter.
    apply list_filter_iff. set_solver.
Qed.

#[export] Program Instance laws : ZoneLaws St unit RRset CS := {|
  zone_lookup := λ s _ n, filter (λ r, name r = n) (records s)
|}.
Next Obligation. done. Qed.
Next Obligation. done. Qed.
Next Obligation. done. Qed.
Next Obligation. intros z n s r ? ? ? [Hn _]%list_elem_of_filter. done. Qed.
Next Obligation.
  intros [] n s s' old datas t ty new. simpl. unfold cs_replace. intros Ha Hold.
  destruct (reachable s); [|done]. simplify_eq/=.
  rewrite foldl_Remove. simpl.
  assert (filter (λ r, name r = n) (filter (λ r, r ∉ old) (records s)) = []) as Hnil.
  { apply elem_of_nil_inv. intros r [Hn [Hno Hr]%list_elem_of_filter]%list_elem_of_filter.
    by apply Hno, Hold, list_elem_of_filter. }
  destruct new; simpl.
  - rewrite foldl_app, run_removes. simpl. rewrite filter_app, Hnil. simpl.
    by rewrite filter_cons_True.
  - by rewrite run_removes, Hnil.
Qed.
Next Obligation.
  intros [] n s s' old datas t ty new n'. simpl. unfold cs_replace. intros Ha Hold Hn.
  destruct (reachable s); [|done]. simplify_eq/=.
  rewrite foldl_Remove. simpl.
  assert (filter (λ r, name r = n') (filter (λ r, r ∉ old) (records s)) =
          filter (λ r, name r = n') (records s)) as Hkeep.
  { rewrite list_filter_filter. apply list_filter_iff. intros r. split; [tauto|].
    intros Hr. split; [done|]. intros [Hr' _]%Hold%list_elem_of_filter. congruence. }
  destruct new; simpl.
  - rewrite foldl_app, run_removes. simpl. rewrite filter_app, Hkeep.
    by rewrite filter_cons_False, filter_nil, app_nil_r by (simpl; congruence).
  - by rewrite run_removes, Hkeep.
Qed.
End MemZone.
