(* ===== verification/Dyndns.v ===== *)
(** The DynDNS provider, [pkg/dnsprovider/providers/dyndns]: its configuration
    ([dyndns.go]), zones ([zone.go], [zones.go], [interface.go]), record sets
    ([rrset.go], [rrsets.go]) and change sets ([rrchangeset.go]), over the interface
    [DynDNSAPI] of [stubs/dyndnsapi.go], which is a class here: [DynStubs.v] and
    [Dynect.v] are its implementations.

    The pointers from a record set back to its zone and from there to the API always
    lead to the one API object, so a zone is its [domain] and [id]; the functions take
    the zone they are methods of. *)

From S2P Require Import Prelude GoStrings DnsProvider.
From Stdlib Require Import Ascii.

Abbreviation comma := (","%char).

(** [godynect.Record]. *)
Record Record_ := mkRecord {
  ID : string; rZone : string; rName : string; Value : string;
  rType : string; FQDN : string; TTL : string
}.
#[export] Instance Record_eq_dec : EqDecision Record_.
Proof. solve_decision. Defined.

(** [new(godynect.Record)]. *)
Definition new_record : Record_ := mkRecord "" "" "" "" "" "" "".

(** [stubs.DynDNSAPI].  [GetRecordID] fills in the [ID] of the record it is given;
    the record comes back with the error. *)
Class DynDNSAPI (St : Type) := {
  Login : string → string → M St (option error);
  CreateRecord : Record_ → M St (option error);
  DeleteRecord : Record_ → M St (option error);
  GetRecordByName : Record_ → M St (result (list Record_));
  GetRecordID : Record_ → M St (Record_ * option error);
  GetAllRecordList : Record_ → M St (result (list Record_));
  PublishZone : string → M St (option error)
}.

(** ** Zones *)

Record Zone := mkZone { domain : string; id : string }.
#[export] Instance Zone_eq_dec : EqDecision Zone.
Proof. solve_decision. Defined.

(** [Zones]: only [List] is supported. *)
Definition Zones : Type := list Zone.
Definition Zones_List (zones : Zones) : result (list Zone) := Ok zones.
Definition Zones_Add (zones : Zones) (z : Zone) : result Zone := Err (Errorf "OperationNotSupported").
Definition Zones_Remove (zones : Zones) (z : Zone) : option error :=
  Some (Errorf "OperationNotSupported").
Definition Zones_New (zones : Zones) (name : string) : result Zone :=
  Err (Errorf "OperationNotSupported").

#[export] Instance dyn_zones St : ProviderZones St Zones Zone := {|
  zone_Name := domain;
  zones_List := λ zs, mret (Zones_List zs);
  zones_New := λ zs n, mret (Zones_New zs n)
|}.

(** ** Configuration *)

(** [Config], as [gcfg.ReadInto] fills it in. *)
Record Config := mkConfig { DNSZones : string; Customer : string; User : string; Password : string }.

(** [parseConfig].  The argument is what [gcfg.ReadInto] makes of the reader: no
    reader at all ([None]), an error, or the four settings. *)
Definition parseConfig (config : option (result Config)) : result Config :=
  match config with
  | Some (Err e) => Err e
  | _ =>
      let configInfo := match config with Some (Ok cfg) => cfg | _ => mkConfig "" "" "" "" end in
      if bool_decide (DNSZones configInfo = "") then
        Err (Errorf "Need to provide at least one DNS Zone in the config file")
      else if bool_decide (Customer configInfo = "") then
        Err (Errorf "Need to provide the customer in the config file")
      else if bool_decide (User configInfo = "") then
        Err (Errorf "Need to provide the user in the config file")
      else if bool_decide (Password configInfo = "") then
        Err (Errorf "Need to provide the password in the config file")
      else Ok configInfo
  end.

(** The loop of [newInterface]: one zone per name, numbered from [index]. *)
Fixpoint make_zones (index : Z) (names : list string) : list Zone :=
  match names with
  | [] => []
  | n :: ns => mkZone n (FormatInt index) :: make_zones (index + 1) ns
  end.

(** [newInterface]: sign in, then one zone per name of the comma-separated list.  The
    provider interface is its list of zones. *)
Definition newInterface {St} `{DynDNSAPI St} (configInfo : Config) : M St (result Zones) :=
  err ← Login (User configInfo) (Password configInfo);
  match err with
  | Some e => mret (Err e)
  | None => mret (Ok (make_zones 0 (Split comma (DNSZones configInfo))))
  end.

(** [newFakeInterface] and [newDynDNSProviderInterface], once the API object exists. *)
Definition newProvider {St} `{DynDNSAPI St} (config : option (result Config)) : M St (result Zones) :=
  match parseConfig config with
  | Err e => mret (Err e)
  | Ok configInfo => newInterface configInfo
  end.

(** ** Record sets *)

(** The values behind the interface [dnsprovider.ResourceRecordSet]: a pointer to the
    provider's struct ([New] and [List] make these), the struct itself ([Get] makes
    these), or another provider's record set. *)
Inductive ResourceRecordSet :=
  | RRPtr (impl : Record_)
  | RRVal (impl : Record_)
  | RROther (name : string) (rrdatas : list string) (ttl : Z) (type : string).
#[export] Instance ResourceRecordSet_eq_dec : EqDecision ResourceRecordSet.
Proof. solve_decision. Defined.

(** [rrset.Ttl]: an invalid or negative TTL counts as 60 seconds. *)
Definition record_Ttl (impl : Record_) : Z :=
  match ParseInt (TTL impl) with
  | None => 60
  | Some ttl => if bool_decide (ttl < 0)%Z then 60 else ttl
  end.

(** [rrset.Rrdatas]. *)
Definition record_Rrdatas (impl : Record_) : list string := Split comma (Value impl).

#[export] Instance dyn_rrset : RRsetOps ResourceRecordSet := {|
  rr_Name r := match r with RRPtr i | RRVal i => rName i | RROther n _ _ _ => n end;
  rr_Rrdatas r := match r with RRPtr i | RRVal i => record_Rrdatas i | RROther _ d _ _ => d end;
  rr_Ttl r := match r with RRPtr i | RRVal i => record_Ttl i | RROther _ _ t _ => t end;
  rr_Type r := match r with RRPtr i | RRVal i => rType i | RROther _ _ _ ty => ty end
|}.

(** [populateRecordWithName]: [Name] is relative to the record's zone and [FQDN] is
    absolute, whichever the given name was; one trailing dot is dropped. *)
Definition populateRecordWithName (name : string) (record : Record_) : Record_ :=
  let name' := TrimSuffix name "." in
  let suffix := "." +:+ rZone record in
  let set n f := mkRecord (ID record) (rZone record) n (Value record) (rType record) f (TTL record) in
  if HasSuffix name' suffix then set (TrimSuffix name' suffix) name'
  else set name' (name' +:+ "." +:+ rZone record).

(** [newRecord]. *)
Definition newRecord (zone : Zone) (name : string) (rrdatas : list string) (ttl : Z) (rrsType : string) :
    Record_ :=
  let r := populateRecordWithName name (mkRecord "" (domain zone) "" "" "" "" "") in
  mkRecord (ID r) (rZone r) (rName r) (Join rrdatas ",") rrsType (FQDN r) (FormatInt ttl).

(** [New]. *)
Definition Rrsets_New (zone : Zone) (name : string) (rrdatas : list string) (ttl : Z) (rrsType : string) :
    ResourceRecordSet :=
  RRPtr (newRecord zone name rrdatas ttl rrsType).

(** [GetRecordsFromDNSRRS]: one record per data of the set, for an API that stores one
    value per record. *)
Definition GetRecordsFromDNSRRS (zone : Zone) (rrs : ResourceRecordSet) : list Record_ :=
  let impl := match rrs with
              | RRPtr i => i
              | _ => newRecord zone (rr_Name rrs) (rr_Rrdatas rrs) (rr_Ttl rrs) (rr_Type rrs)
              end in
  let rdatas := Split comma (Value impl) in
  if bool_decide (length rdatas = 1) then [impl]
  else (λ rdata, newRecord zone (rr_Name rrs) [rdata] (rr_Ttl rrs) (rr_Type rrs)) <$> rdatas.

Section api.
Context {St : Type} `{DynDNSAPI St}.

(** [List]. *)
Definition Rrsets_List (zone : Zone) : M St (result (list ResourceRecordSet)) :=
  let record := mkRecord "" (domain zone) "" "" "" (domain zone) "" in
  r ← GetAllRecordList record;
  match r with
  | Err e => mret (Err (Errorf ("Failed to list records " +:+ error_string e)))
  | Ok recordList => mret (Ok (RRPtr <$> recordList))
  end.

(** [Get]: a failure of the API is logged and answered with an empty list. *)
Definition Rrsets_Get (zone : Zone) (name : string) : M St (result (list ResourceRecordSet)) :=
  let record := populateRecordWithName name (mkRecord "" (domain zone) "" "" "" "" "") in
  r ← GetRecordByName record;
  match r with
  | Err _ => mret (Ok [])
  | Ok records => mret (Ok (RRVal <$> records))
  end.
End api.

(** ** Change sets *)

Inductive ChangeSetType := ADDITION | DELETION | UPSERT.
#[export] Instance ChangeSetType_eq_dec : EqDecision ChangeSetType.
Proof. solve_decision. Defined.
Record ChangeSet := mkChange { cstype : ChangeSetType; cs_rrset : ResourceRecordSet }.

Record ResourceRecordChangeset := mkChangeset { cs_zone : Zone; changeset : list ChangeSet }.

Definition StartChangeset (zone : Zone) : ResourceRecordChangeset := mkChangeset zone [].
Definition Changeset_Add (c : ResourceRecordChangeset) (rrset : ResourceRecordSet) :=
  mkChangeset (cs_zone c) (changeset c ++ [mkChange ADDITION rrset]).
Definition Changeset_Remove (c : ResourceRecordChangeset) (rrset : ResourceRecordSet) :=
  mkChangeset (cs_zone c) (changeset c ++ [mkChange DELETION rrset]).
Definition Changeset_Upsert (c : ResourceRecordChangeset) (rrset : ResourceRecordSet) :=
  mkChangeset (cs_zone c) (changeset c ++ [mkChange UPSERT rrset]).
Definition IsEmpty (c : ResourceRecordChangeset) : bool := bool_decide (length (changeset c) = 0).

Section apply.
Context {St : Type} `{DynDNSAPI St}.

Definition record_msg (what : string) (r : Record_) (e : error) : error :=
  Errorf (what +:+ rName r +:+ " with value " +:+ Value r +:+ ": " +:+ error_string e).

(** One record of an [ADDITION]. *)
Definition add_record (_ : unit) (addRecord : Record_) : M St (unit + error) :=
  err ← CreateRecord addRecord;
  match err with
  | Some e => mret (inr (record_msg "Couldn't add record " addRecord e))
  | None => mret (inl tt)
  end.

(** One record of a [DELETION]: its ID is looked up first. *)
Definition delete_record (_ : unit) (deleteRecord : Record_) : M St (unit + error) :=
  '(deleteRecord', err) ← GetRecordID deleteRecord;
  match err with
  | Some e => mret (inr (record_msg "Couldn't get record id " deleteRecord' e))
  | None =>
      err ← DeleteRecord deleteRecord';
      match err with
      | Some e => mret (inr (record_msg "Couldn't delete record " deleteRecord' e))
      | None => mret (inl tt)
      end
  end.

(** One change; [UPSERT] does nothing. *)
Definition apply_change (zone : Zone) (_ : unit) (c : ChangeSet) : M St (unit + error) :=
  match cstype c with
  | ADDITION => for_range (GetRecordsFromDNSRRS zone (cs_rrset c)) tt add_record
  | UPSERT => mret (inl tt)
  | DELETION => for_range (GetRecordsFromDNSRRS zone (cs_rrset c)) tt delete_record
  end.

(** [Apply]: the changes in order up to the first failure, then one publication of
    the zone. *)
Definition Apply (c : ResourceRecordChangeset) : M St (option error) :=
  if IsEmpty c then mret None
  else
    r ← for_range (changeset c) tt (apply_change (cs_zone c));
    match r with
    | inr e => mret (Some e)
    | inl _ =>
        err ← PublishZone (domain (cs_zone c));
        match err with
        | Some e => mret (Some (Errorf ("Couldn't publish the changes for the zone " +:+
                                        domain (cs_zone c) +:+ ": " +:+ error_string e)))
        | None => mret None
        end
    end.

#[export] Instance dyn_rrsets :
  ZoneRrsets St Zone ResourceRecordSet ResourceRecordChangeset := {|
  rrs_supported := λ _, true;
  rrs_Get := Rrsets_Get;
  rrs_New := Rrsets_New;
  rrs_StartChangeset := StartChangeset;
  cs_Add := Changeset_Add;
  cs_Remove := Changeset_Remove;
  cs_Apply := Apply
|}.
End apply.
