(* ===== verification/DynStubs.v ===== *)
(** The test doubles of [pkg/dnsprovider/providers/dyndns/stubs]: [DynDNSAPIStub], an
    in-memory [DynDNSAPI], and [GoDynectAPIStub], an in-memory [GoDynectAPI] for the
    REST client of [Dynect.v].  Go iterates over their maps in an unspecified order,
    which is the parameter [range_records]. *)

From S2P Require Import Prelude GoStrings DnsProvider Dyndns.

(** [hashKey]. *)
Definition hashKey (record : Record_) : string :=
  rName record +:+ "-" +:+ TTL record +:+ "-" +:+ rType record +:+ "-" +:+ Value record.

(** The order in which [for key := range m] visits a map. *)
Class RangeOrder := {
  range_records : gmap string Record_ → list (string * Record_);
  range_records_perm : ∀ m, range_records m ≡ₚ map_to_list m
}.

#[export] Instance key_order : RangeOrder := {|
  range_records := map_to_list;
  range_records_perm := λ m, Permutation_refl (map_to_list m)
|}.

(** ** [DynDNSAPIStub] *)

Module DynDNSAPIStub.
(** [stub.rrsets]. *)
Abbreviation St := (gmap string Record_).

Definition NewDynDNSAPIStub : St := ∅.

Definition Login (user password : string) : M St (option error) := λ s,
  (Val (if bool_decide (user ≠ "foo") || bool_decide (password ≠ "bar")
        then Some (Errorf ("Failed to login with user name " +:+ user +:+ " and password " +:+ password))
        else None), s).

Definition CreateRecord (record : Record_) : M St (option error) := λ s,
  match s !! hashKey record with
  | Some _ => (Val (Some (Errorf ("Attempt to create duplicate record " +:+ rName record))), s)
  | None => (Val None, <[hashKey record := record]> s)
  end.

Definition DeleteRecord (record : Record_) : M St (option error) := λ s,
  match s !! hashKey record with
  | None => (Val (Some (Errorf ("Attempt to delete non-existent record " +:+ rName record))), s)
  | Some _ => (Val None, delete (hashKey record) s)
  end.

Definition GetRecordByName `{RangeOrder} (record : Record_) : M St (result (list Record_)) := λ s,
  (Val (Ok (filter (λ rec, rName rec = rName record) (range_records s).*2)), s).

Definition GetRecordID (record : Record_) : M St (Record_ * option error) := mret (record, None).

Definition GetAllRecordList `{RangeOrder} (record : Record_) : M St (result (list Record_)) := λ s,
  (Val (Ok (range_records s).*2), s).

Definition PublishZone (zone : string) : M St (option error) := mret None.

#[export] Instance api `{RangeOrder} : DynDNSAPI St := {|
  Dyndns.Login := Login;
  Dyndns.CreateRecord := CreateRecord;
  Dyndns.DeleteRecord := DeleteRecord;
  Dyndns.GetRecordByName := GetRecordByName;
  Dyndns.GetRecordID := GetRecordID;
  Dyndns.GetAllRecordList := GetAllRecordList;
  Dyndns.PublishZone := PublishZone
|}.
End DynDNSAPIStub.

(** ** [GoDynectAPI] *)

(** The two calls the REST client makes: [Do] of a GET for the record URLs below an
    endpoint, and [GetRecord], which fills in a record from its [ID] and panics on a
    nil record. *)
Class GoDynectAPI (St : Type) := {
  DoAllRecords : string → M St (result (list string));
  GoGetRecord : option Record_ → M St (Record_ * option error)
}.

Module GoDynectAPIStub.
(** [stub.recordMap]. *)
Abbreviation St := (gmap string Record_).

Definition NewGoDynectAPIStub : St := ∅.

(** The method [HashKey]. *)
Definition HashKey (record : Record_) : string :=
  rName record +:+ "-" +:+ TTL record +:+ "-" +:+ rType record +:+ "-" +:+ Value record.

Definition record_url (record : Record_) : string :=
  "/REST/" +:+ rType record +:+ "Record/" +:+ rZone record +:+ "/" +:+ FQDN record +:+ "/" +:+ hashKey record.

(** [Do] with an [AllRecordsResponse]: every URL, whatever the endpoint. *)
Definition Do `{RangeOrder} (endpoint : string) : M St (result (list string)) := λ s,
  (Val (Ok (record_url <$> (range_records s).*2)), s).

(** [GetRecord]: the map returns a nil pointer for an unknown ID. *)
Definition GetRecord (record : option Record_) : M St (Record_ * option error) := λ s,
  match record with
  | None => (Panic "nil pointer dereference", s)
  | Some r =>
      if bool_decide (ID r = "") then (Val (r, Some (Errorf "Cannot call GetRecord with an empty ID")), s)
      else match s !! ID r with
           | None => (Panic "nil pointer dereference", s)
           | Some rec =>
               (Val (mkRecord (ID r) (rZone r) (rName rec) (Value rec) (rType r) (FQDN r) (TTL rec), None), s)
           end
  end.

(** [AddRecord]. *)
Definition AddRecord (record : Record_) : M St unit := λ s, (Val tt, <[HashKey record := record]> s).

#[export] Instance go_api `{RangeOrder} : GoDynectAPI St :=
  {| DoAllRecords := Do; GoGetRecord := GetRecord |}.
End GoDynectAPIStub.
