(* ===== verification/Dynect.v ===== *)
(** The REST client of [pkg/dnsprovider/providers/dyndns/dynect/dynect_client.go]: how
    record URLs are parsed, and how the records of a zone are listed, selected by name
    and identified by value.  It works over [GoDynectAPI], the two REST calls it makes
    itself; signing in, creating, deleting and publishing are the embedded client's. *)

From S2P Require Import Prelude GoStrings DnsProvider Dyndns DynStubs.
From Stdlib Require Import Ascii.

Abbreviation slash := ("/"%char).

(** [RecordFromURL]: [/REST/<type>Record/<zone>/<fqdn>/<id>]; nil for any other URL. *)
Definition RecordFromURL (url : string) : option Record_ :=
  match Split slash url with
  | [_; _; p2; p3; p4; p5] => Some (mkRecord p5 p3 "" "" (TrimSuffix p2 "Record") p4 "")
  | _ => None
  end.

Section client.
Context {St : Type} `{GoDynectAPI St}.

(** [GetAllRecords]. *)
Definition GetAllRecords (record : Record_) : M St (result (list string)) :=
  DoAllRecords ("AllRecord/" +:+ rZone record +:+ "/" +:+ FQDN record).

(** The ID part of a record URL, for the type and name of [record]. *)
Definition url_id (record : Record_) (recordURL : string) : string :=
  TrimPrefix recordURL
    ("/REST/" +:+ rType record +:+ "Record/" +:+ rZone record +:+ "/" +:+ FQDN record +:+ "/").

(** One URL of the loop of [GetRecordID]; [inr (Some id)] breaks out with an ID. *)
Definition find_id (record : Record_) (_ : unit) (recordURL : string) :
    M St (unit + (error + string)) :=
  '(rec, err) ← GoGetRecord (RecordFromURL recordURL);
  match err with
  | Some e => mret (inr (inl (Errorf ("Failed to get Dyn record " +:+ rName rec +:+ ": " +:+ error_string e))))
  | None =>
      let id := url_id record recordURL in
      if negb (Contains id "/") && bool_decide (id ≠ "") && bool_decide (Value rec = Value record)
      then mret (inr (inr id)) else mret (inl tt)
  end.

(** [GetRecordID]. *)
Definition GetRecordID (record : Record_) : M St (Record_ * option error) :=
  r ← GetAllRecords record;
  match r with
  | Err e => mret (record, Some (Errorf ("Failed to find Dyn record id: " +:+ error_string e)))
  | Ok urls =>
      out ← for_range urls tt (find_id record);
      match out with
      | inr (inl e) => mret (record, Some e)
      | inl _ => mret (record, Some (Errorf "Failed to find Dyn record id"))
      | inr (inr finalID) =>
          mret (mkRecord finalID (rZone record) (rName record) (Value record) (rType record)
                  (FQDN record) (TTL record), None)
      end
  end.

(** One URL of the loops of [GetRecordByName] and [GetAllRecordList]; [keep] is the
    test on the record. *)
Definition fetch_record (keep : Record_ → bool) (acc : list Record_) (recordURL : string) :
    M St (list Record_ + error) :=
  '(rec, err) ← GoGetRecord (RecordFromURL recordURL);
  match err with
  | Some e => mret (inr (Errorf ("Failed to get Dyn record " +:+ rName rec +:+ ": " +:+ error_string e)))
  | None => mret (inl (if keep rec then acc ++ [rec] else acc))
  end.

Definition fetch_all (keep : Record_ → bool) (record : Record_) : M St (result (list Record_)) :=
  r ← GetAllRecords record;
  match r with
  | Err e => mret (Err (Errorf ("Failed to find Dyn records: " +:+ error_string e)))
  | Ok urls =>
      out ← for_range urls [] (fetch_record keep);
      match out with
      | inl recs => mret (Ok recs)
      | inr e => mret (Err e)
      end
  end.

(** [GetRecordByName]. *)
Definition GetRecordByName (record : Record_) : M St (result (list Record_)) :=
  fetch_all (λ rec, bool_decide (rName rec = rName record)) record.

(** [GetAllRecordList]. *)
Definition GetAllRecordList (record : Record_) : M St (result (list Record_)) :=
  fetch_all (λ _, true) record.
End client.
