(* ===== verification/WorkQueue.v ===== *)
(** The work queue of the DNS controller, [k8s.io/client-go/util/workqueue/queue.go].
    Every method holds the queue's mutex, so each is one step; [Get] waits while the
    queue is empty, which is a step that is not enabled ([None]).  The metrics and the
    condition variable have no other effect. *)

From S2P Require Import Prelude.

(** [Type]. *)
Record Type_ (A : Type) `{Countable A} := mkQueue {
  queue : list A;
  dirty : gset A;
  processing : gset A;
  shuttingDown : bool
}.
Arguments mkQueue {A _ _} _ _ _ _.
Arguments queue {A _ _} _.
Arguments dirty {A _ _} _.
Arguments processing {A _ _} _.
Arguments shuttingDown {A _ _} _.

Section queue.
Context `{Countable A}.
Implicit Types (q : Type_ A) (x : A).

(** [New]. *)
Definition New : Type_ A := mkQueue [] ∅ ∅ false.

(** [Add]. *)
Definition Add (item : A) (q : Type_ A) : Type_ A :=
  if shuttingDown q then q
  else if decide (item ∈ dirty q) then q
  else
    let dirty' := {[item]} ∪ dirty q in
    if decide (item ∈ processing q) then mkQueue (queue q) dirty' (processing q) (shuttingDown q)
    else mkQueue (queue q ++ [item]) dirty' (processing q) (shuttingDown q).

(** [Len]. *)
Definition Len (q : Type_ A) : nat := length (queue q).

(** [Get]: [None] while it waits; then an item, or [None] with [shutdown] set. *)
Definition Get (q : Type_ A) : option ((option A * bool) * Type_ A) :=
  match queue q with
  | [] => if shuttingDown q then Some ((None, true), q) else None
  | item :: rest =>
      Some ((Some item, false),
            mkQueue rest (dirty q ∖ {[item]}) ({[item]} ∪ processing q) (shuttingDown q))
  end.

(** [Done]. *)
Definition Done (item : A) (q : Type_ A) : Type_ A :=
  let processing' := processing q ∖ {[item]} in
  if decide (item ∈ dirty q) then mkQueue (queue q ++ [item]) (dirty q) processing' (shuttingDown q)
  else mkQueue (queue q) (dirty q) processing' (shuttingDown q).

(** [ShutDown] and [ShuttingDown]. *)
Definition ShutDown (q : Type_ A) : Type_ A := mkQueue (queue q) (dirty q) (processing q) true.
Definition ShuttingDown (q : Type_ A) : bool := shuttingDown q.

(** What producers and workers do to a queue.  A worker calls [Done] only for an item it
    was given and has not finished. *)
Inductive event := EAdd (x : A) | EGet (x : A) | EDone (x : A) | EShutDown.

Inductive step : Type_ A → event → Type_ A → Prop :=
  | StepAdd q x : step q (EAdd x) (Add x q)
  | StepGet q x q' : Get q = Some ((Some x, false), q') → step q (EGet x) q'
  | StepDone q x : x ∈ processing q → step q (EDone x) (Done x q)
  | StepShutDown q : step q EShutDown (ShutDown q).

Inductive reachable : list event → Type_ A → Prop :=
  | reach_New : reachable [] New
  | reach_step tr q e q' : reachable tr q → step q e q' → reachable (tr ++ [e]) q'.

(** The invariant in the comments of [Type]: the queue has no item twice, and is what is
    dirty and not being processed. *)
Record queue_inv q : Prop := {
  inv_NoDup : NoDup (queue q);
  inv_queue : ∀ x, x ∈ queue q ↔ x ∈ dirty q ∧ x ∉ processing q
}.

Lemma New_inv : queue_inv New.
Proof. split; cbn; [constructor|set_solver]. Qed.

Lemma Add_inv x q : queue_inv q → queue_inv (Add x q).
Proof.
  intros [Hnd Hq]. unfold Add. destruct (shuttingDown q); [done|].
  case_decide as Hd; [done|]. case_decide as Hp; split; cbn; try done.
  - intros y. rewrite Hq. set_solver.
  - apply NoDup_app. split_and!; [done| |apply NoDup_singleton]. intros y Hy. set_solver.
  - intros y. rewrite elem_of_app, Hq. set_solver.
Qed.

Lemma Get_inv x q q' :
  queue_inv q → Get q = Some ((Some x, false), q') →
  queue_inv q' ∧ x ∈ dirty q ∧ (x ∉ processing q) ∧ x ∈ processing q' ∧ (x ∉ dirty q').
Proof.
  intros [Hnd Hq] Hg. unfold Get in Hg.
  destruct (queue q) as [|y l] eqn:E; [by destruct (shuttingDown q)|].
  injection Hg as -> <-. cbn. apply NoDup_cons in Hnd as [Hx Hnd].
  destruct (proj1 (Hq x)) as [Hd Hp]; [apply list_elem_of_here|].
  split_and!; [split; cbn; [done|]|done|done|set_solver|set_solver].
  intros z. specialize (Hq z). rewrite elem_of_cons in Hq. set_solver.
Qed.

Lemma Done_inv x q : x ∈ processing q → queue_inv q → queue_inv (Done x q).
Proof.
  intros Hx [Hnd Hq]. unfold Done. case_decide as Hd; split; cbn; try done.
  - apply NoDup_app. split_and!; [done| |apply NoDup_singleton]. intros y Hy. set_solver.
  - intros y. rewrite elem_of_app, Hq. destruct (decide (y = x)) as [->|]; set_solver.
  - intros y. rewrite Hq. destruct (decide (y = x)) as [->|]; set_solver.
Qed.

Lemma step_inv q e q' : queue_inv q → step q e q' → queue_inv q'.
Proof.
  intros Hi Hs. destruct Hs as [| |q x Hx|q].
  - by apply Add_inv.
  - by eapply Get_inv.
  - by apply Done_inv.
  - destruct Hi. by split.
Qed.

Lemma reachable_inv tr q : reachable tr q → queue_inv q.
Proof. induction 1; [apply New_inv|]. by eapply step_inv. Qed.

(** Whether the events so far leave [x] in need of processing, and whether they shut the
    queue down: the last [Add] that was accepted came after the last [Get]. *)
Definition note (x : A) (st : bool * bool) (e : event) : bool * bool :=
  match e with
  | EAdd y => (st.1 || (bool_decide (y = x) && negb st.2), st.2)
  | EGet y => (st.1 && bool_decide (y ≠ x), st.2)
  | EDone _ => st
  | EShutDown => (st.1, true)
  end.
Definition pending (x : A) (tr : list event) : bool * bool := foldl (note x) (false, false) tr.

Lemma Add_dirty x y q :
  x ∈ dirty (Add y q) ↔ x ∈ dirty q ∨ (y = x ∧ shuttingDown q = false).
Proof.
  unfold Add. destruct (shuttingDown q) eqn:E; [naive_solver|].
  repeat case_decide; cbn; set_solver.
Qed.

Lemma Add_shuttingDown y q : shuttingDown (Add y q) = shuttingDown q.
Proof. unfold Add. destruct (shuttingDown q) eqn:E; [done|]. by repeat case_decide. Qed.

Lemma Done_fields y q : dirty (Done y q) = dirty q ∧ shuttingDown (Done y q) = shuttingDown q.
Proof. unfold Done. by case_decide. Qed.

Lemma Get_fields x q q' :
  Get q = Some ((Some x, false), q') → dirty q' = dirty q ∖ {[x]} ∧ shuttingDown q' = shuttingDown q.
Proof. unfold Get. destruct (queue q); [by destruct (shuttingDown q)|]. intros [= -> <-]. done. Qed.

Lemma reachable_pending tr q x :
  reachable tr q → pending x tr = (bool_decide (x ∈ dirty q), shuttingDown q).
Proof.
  induction 1 as [|tr q e q' _ IH Hs].
  - cbn. by rewrite bool_decide_eq_false_2 by set_solver.
  - unfold pending in *. rewrite foldl_snoc, IH. destruct Hs as [q y|q y q' Hg|q y _|q]; cbn [note fst snd].
    + rewrite Add_shuttingDown. f_equal. apply eq_bool_prop_intro.
      rewrite orb_True, andb_True, negb_True, !bool_decide_spec, Add_dirty.
      destruct (shuttingDown q); cbn; naive_solver.
    + apply Get_fields in Hg as [-> ->]. f_equal. apply eq_bool_prop_intro.
      rewrite andb_True, !bool_decide_spec. set_solver.
    + by destruct (Done_fields y q) as [-> ->].
    + done.
Qed.

(** One worker that takes [n] items in turn and finishes each. *)
Fixpoint drain (n : nat) (q : Type_ A) : list A * Type_ A :=
  match n with
  | 0 => ([], q)
  | S n' =>
      match Get q with
      | Some ((Some x, _), q') => let '(xs, q'') := drain n' (Done x q') in (x :: xs, q'')
      | _ => ([], q)
      end
  end.

(** One round of a worker that is alone: it takes the head and finishes it. *)
Lemma Get_Done_head q x l :
  queue q = x :: l → queue_inv q → processing q = ∅ →
  ∃ q1, Get q = Some ((Some x, false), q1) ∧ Done x q1 = mkQueue l (dirty q ∖ {[x]}) ∅ (shuttingDown q) ∧
    queue_inv (Done x q1) ∧ queue (Done x q1) = l ∧ processing (Done x q1) = ∅ ∧
    shuttingDown (Done x q1) = shuttingDown q.
Proof.
  intros E Hi Hp. set (q1 := mkQueue l (dirty q ∖ {[x]}) ({[x]} ∪ processing q) (shuttingDown q)).
  assert (Get q = Some ((Some x, false), q1)) as Hget by (unfold Get; by rewrite E).
  pose proof Hget as (Hi'&_&_&Hp'&Hd')%Get_inv; [|done].
  assert (Done x q1 = mkQueue l (dirty q ∖ {[x]}) ∅ (shuttingDown q)) as HD.
  { unfold Done. rewrite decide_False by done. cbn. f_equal. set_solver. }
  exists q1. split; [done|]. split; [done|]. split; [by apply Done_inv|]. by rewrite HD.
Qed.

Lemma drain_all q :
  queue_inv q → processing q = ∅ →
  drain (length (queue q)) q = (queue q, mkQueue [] ∅ ∅ (shuttingDown q)).
Proof.
  remember (length (queue q)) as n eqn:Hn. revert q Hn. induction n as [|n IH]; intros q Hn Hi Hp.
  - destruct q as [l d p s]; cbn in *. destruct l; [|done]. subst p. cbn. do 2 f_equal.
    apply set_eq. intros x. destruct (inv_queue _ Hi x); cbn in *. set_solver.
  - destruct (queue q) as [|y l] eqn:E; [done|].
    destruct (Get_Done_head q y l E Hi Hp) as (q1&Hget&HD&Hi'&Hl&Hp'&Hs').
    cbn [drain]. rewrite Hget, IH; [by rewrite Hl, Hs'|rewrite Hl; cbn in Hn; lia|done|done].
Qed.
End queue.

(** C39: the work queue keeps its invariant whatever producers and workers do, in any
    interleaving: no item is queued twice, and the queue holds exactly the items that
    need processing and are not being processed; so an item is never handed to two
    workers at once. *)
Theorem queue_exclusive `{Countable A} (tr : list (@event A)) (q : Type_ A) :
  reachable tr q →
  NoDup (queue q) ∧ (∀ x, x ∈ queue q ↔ x ∈ dirty q ∧ x ∉ processing q) ∧
  (∀ x q', Get q = Some ((Some x, false), q') → (x ∉ processing q) ∧ x ∈ processing q').
Proof.
  intros Hi%reachable_inv. split_and!; [by apply Hi..|].
  intros x q' Hg. by apply Get_inv in Hg as (_&_&?&?&_).
Qed.

(** C40: no item is lost: in any interleaving, an item that was added before the queue was
    shut down and not taken since is in the queue, or is being processed and is queued by
    [Done]; and one worker that takes what is queued gets every item once, in order, and
    leaves the queue empty. *)
Theorem queue_no_loss `{Countable A} (tr : list (@event A)) (q : Type_ A) :
  reachable tr q →
  (∀ x, (pending x tr).1 = true → x ∈ queue q ∨ (x ∈ processing q ∧ x ∈ queue (Done x q))) ∧
  (processing q = ∅ → drain (Len q) q = (queue q, mkQueue [] ∅ ∅ (ShuttingDown q))).
Proof.
  intros Hr. pose proof (reachable_inv _ _ Hr) as Hi. split.
  - intros x. rewrite (reachable_pending _ _ _ Hr). cbn [fst]. intros Hd%bool_decide_eq_true.
    destruct (decide (x ∈ processing q)) as [Hp|Hp].
    + right. split; [done|]. unfold Done. rewrite decide_True by done. cbn.
      apply elem_of_app. right. apply list_elem_of_here.
    + left. by apply Hi.
  - intros Hp. by apply drain_all.
Qed.

Module WorkQueueExamples.
(** Item 1 is added, taken, and added again while it is being processed. *)
Definition q1 : Type_ nat := mkQueue [] {[1]} {[1]} false.
Lemma q1_reachable : reachable [EAdd 1; EGet 1; EAdd 1] q1.
Proof.
  change [EAdd 1; EGet 1; EAdd 1] with ((([] ++ [EAdd 1]) ++ [EGet 1]) ++ [EAdd 1]).
  replace q1 with (Add 1 (mkQueue [] (∅ : gset nat) {[1]} false)) by (vm_compute; reflexivity).
  eapply reach_step; [eapply reach_step; [eapply reach_step; [apply reach_New|apply StepAdd]|]|apply StepAdd].
  apply StepGet. vm_compute. reflexivity.
Qed.

Lemma queue_exclusive_witness :
  NoDup (queue q1) ∧ (∀ x, x ∈ queue q1 ↔ x ∈ dirty q1 ∧ x ∉ processing q1) ∧
  (∀ x q', Get q1 = Some ((Some x, false), q') → (x ∉ processing q1) ∧ x ∈ processing q').
Proof. exact (queue_exclusive _ q1 q1_reachable). Defined.

Lemma queue_no_loss_witness :
  (∀ x, (pending x [EAdd 1; EGet 1; EAdd 1]).1 = true → x ∈ queue q1 ∨ (x ∈ processing q1 ∧ x ∈ queue (Done x q1))) ∧
  (processing q1 = ∅ → drain (Len q1) q1 = (queue q1, mkQueue [] ∅ ∅ (ShuttingDown q1))).
Proof. exact (queue_no_loss _ q1 q1_reachable). Defined.
End WorkQueueExamples.
