(* ===== verification/DnsUtil.v ===== *)
(** [pkg/controller/util/dns.go], the part shared by DNS controllers: resolving
    endpoints to addresses, choosing the zone of a domain, and [EnsureDNSRrsets], which
    brings the record sets of one name in line with the endpoints.  It is written
    against the provider interface of [DnsProvider.v]; [net.LookupHost] and the order
    [sort.Slice] leaves equal elements in are parameters. *)

From S2P Require Import Prelude GoStrings GoNet DnsProvider.
From Stdlib Require Import Ascii.

Definition minDNSTTL : Z := 180.

(** [net.LookupHost]: the addresses of a host name, or an error. *)
Class Resolver := { LookupHost : string → result (list string) }.

(** [sort.Slice] with a [less] function: sorted, in an unspecified order among equals. *)
Class SliceSort := {
  sort_slice : ∀ {A}, (A → A → bool) → list A → list A;
  sort_slice_perm : ∀ A (less : A → A → bool) l, sort_slice less l ≡ₚ l;
  sort_slice_sorted : ∀ A (f : A → nat) l,
    StronglySorted (λ a b, f b ≤ f a) (sort_slice (λ a b, bool_decide (f b < f a)) l)
}.

Section resolve.
Context `{Resolver}.

(** The loop of [GetResolvedEndpoints]; [resolved] is the set built so far. *)
Fixpoint resolve_loop (resolved : gset string) (endpoints : list string) :
    list string * option error :=
  match endpoints with
  | [] => (StringSet_List resolved, None)
  | endpoint :: rest =>
      if is_ip endpoint then resolve_loop (resolved ∪ {[endpoint]}) rest
      else match LookupHost endpoint with
           | Err e => (StringSet_List resolved, Some e)
           | Ok ipAddrs => resolve_loop (resolved ∪ list_to_set ipAddrs) rest
           end
  end.

(** [GetResolvedEndpoints]. *)
Definition GetResolvedEndpoints (endpoints : list string) : list string * option error :=
  resolve_loop ∅ endpoints.
End resolve.

Section zone.
Context {St Zones Zone : Type} `{ProviderZones St Zones Zone} `{SliceSort}.

(** Longer names first. *)
Definition sort_zones (zones : list Zone) : list Zone :=
  sort_slice (λ a b, bool_decide (String.length (zone_Name b) < String.length (zone_Name a))) zones.

(** The loop of [GetDNSZone]. *)
Fixpoint first_zone (findName : string) (zones : list Zone) : option Zone :=
  match zones with
  | [] => None
  | dnsZone :: rest =>
      let cleanZone := TrimSuffix (zone_Name dnsZone) "." in
      if Contains findName cleanZone then Some dnsZone else first_zone findName rest
  end.

(** [GetDNSZone]: [Ok None] is a nil zone. *)
Definition GetDNSZone (domain : string) (dnsZonesInterface : Zones) : M St (result (option Zone)) :=
  r ← zones_List dnsZonesInterface;
  match r with
  | Err e => mret (Err e)
  | Ok dnsZones => mret (Ok (first_zone (TrimSuffix domain ".") (sort_zones dnsZones)))
  end.
End zone.

Section ensure.
Context {St Zone RRset CS : Type} `{ZoneRrsets St Zone RRset CS} `{Resolver}.

(** [findRrset]: the first set of the list that is equivalent to [rrset]. *)
Fixpoint findRrset (list : list RRset) (rrset : RRset) : option RRset :=
  match list with
  | [] => None
  | elem :: rest =>
      if bool_decide (length (rr_Rrdatas elem) ≠ length (rr_Rrdatas rrset)) then findRrset rest rrset
      else if ResourceRecordSetsEquivalent rrset elem then Some elem
      else findRrset rest rrset
  end.

(** [GetRrset]: no set is an empty list and not an error. *)
Definition GetRrset (dnsName : string) (rrsetsInterface : Zone) : M St (result (list RRset)) :=
  rrs_Get rrsetsInterface dnsName.

(** [EnsureDNSRrsets]: [None] is a nil error. *)
Definition EnsureDNSRrsets (dnsZone : Zone) (dnsName : string) (endpoints : list string)
    (uplevelCname : string) : M St (option error) :=
  if negb (rrs_supported dnsZone) then
    mret (Some (Errorf ("Failed to ensure DNS records for " +:+ dnsName +:+
      ". DNS provider does not support the ResourceRecordSets interface")))
  else
    r ← GetRrset dnsName dnsZone;
    match r with
    | Err err => mret (Some err)
    | Ok rrsetList =>
        if bool_decide (length rrsetList = 0) then
          if bool_decide (length endpoints < 1) then
            if bool_decide (uplevelCname ≠ "") then
              let newRrset := rrs_New dnsZone dnsName [uplevelCname] minDNSTTL RrsCNAME in
              err ← cs_Apply (cs_Add (rrs_StartChangeset dnsZone) newRrset);
              match err with Some e => mret (Some e) | None => mret None end
            else mret None
          else
            let '(resolvedEndpoints, err) := GetResolvedEndpoints endpoints in
            match err with
            | Some e => mret (Some e)
            | None =>
                let newRrset := rrs_New dnsZone dnsName resolvedEndpoints minDNSTTL RrsA in
                err ← cs_Apply (cs_Add (rrs_StartChangeset dnsZone) newRrset);
                match err with Some e => mret (Some e) | None => mret None end
            end
        else
          if bool_decide (length endpoints < 1) then
            let newRrset := rrs_New dnsZone dnsName [uplevelCname] minDNSTTL RrsCNAME in
            match findRrset rrsetList newRrset with
            | Some _ => mret None
            | None =>
                let changeSet := foldl cs_Remove (rrs_StartChangeset dnsZone) rrsetList in
                if bool_decide (uplevelCname ≠ "") then
                  err ← cs_Apply (cs_Add changeSet newRrset);
                  match err with Some e => mret (Some e) | None => mret None end
                else
                  err ← cs_Apply changeSet;
                  match err with Some e => mret (Some e) | None => mret None end
            end
          else
            let '(resolvedEndpoints, err) := GetResolvedEndpoints endpoints in
            match err with
            | Some e => mret (Some e)
            | None =>
                let newRrset := rrs_New dnsZone dnsName resolvedEndpoints minDNSTTL RrsA in
                match findRrset rrsetList newRrset with
                | Some _ => mret None
                | None =>
                    let changeSet := foldl cs_Remove (rrs_StartChangeset dnsZone) rrsetList in
                    err ← cs_Apply (cs_Add changeSet newRrset);
                    match err with Some e => mret (Some e) | None => mret None end
                end
            end
    end.
End ensure.

(** ** Resolving endpoints *)

Section resolve_facts.
Context `{Resolver}.

(** What one endpoint stands for: itself when it is an address, otherwise what its
    name resolves to. *)
Definition endpoint_addrs (endpoint : string) : result (list string) :=
  if is_ip endpoint then Ok [endpoint] else LookupHost endpoint.

Definition addrs_or_nil (endpoint : string) : list string :=
  match endpoint_addrs endpoint with Ok l => l | Err _ => [] end.

Definition resolvable (endpoint : string) : Prop := ∃ l, endpoint_addrs endpoint = Ok l.

(** The addresses of all the endpoints, as a set. *)
Definition endpoint_set (endpoints : list string) : gset string :=
  ⋃ ((λ e, list_to_set (addrs_or_nil e)) <$> endpoints).

Lemma resolve_loop_ok X endpoints :
  Forall resolvable endpoints →
  resolve_loop X endpoints = (StringSet_List (X ∪ endpoint_set endpoints), None).
Proof.
  unfold endpoint_set. revert X. induction endpoints as [|e es IH]; intros X Hr.
  - simpl. by rewrite (right_id_L ∅ (∪)).
  - apply Forall_cons_1 in Hr as [[l He] Hes]. rewrite fmap_cons. cbn [union_list foldr].
    unfold addrs_or_nil at 1. rewrite He. unfold endpoint_addrs in He.
    cbn [resolve_loop]. destruct (is_ip e); simplify_eq; [|rewrite He];
      rewrite IH by done; do 2 f_equal; set_solver.
Qed.

(** Whatever it ends with, the loop returns the list of a set. *)
Lemma resolve_loop_NoDup X endpoints l o : resolve_loop X endpoints = (l, o) → NoDup l.
Proof.
  revert X. induction endpoints as [|e es IH]; intros X; cbn [resolve_loop]; [intros; simplify_eq; auto with go|].
  destruct (is_ip e); [apply IH|].
  destruct (LookupHost e); [apply IH|]. intros. simplify_eq. auto with go.
Qed.

Lemma resolve_loop_err X endpoints :
  ¬ Forall resolvable endpoints → ∃ l e, resolve_loop X endpoints = (l, Some e).
Proof.
  revert X. induction endpoints as [|e es IH]; intros X Hr; [by destruct Hr|].
  cbn [resolve_loop]. unfold resolvable at 1, endpoint_addrs in Hr.
  destruct (is_ip e) eqn:Hip; [|destruct (LookupHost e) eqn:Hl]; [| |by eexists _, _].
  all: apply IH; intros Hf; apply Hr; constructor; [unfold resolvable, endpoint_addrs|done].
  all: rewrite Hip; eauto.
Qed.

Lemma endpoint_set_perm es es' : (∀ e, e ∈ es ↔ e ∈ es') → endpoint_set es = endpoint_set es'.
Proof.
  intros Hes. apply set_eq. intros a. unfold endpoint_set.
  rewrite !elem_of_union_list. setoid_rewrite list_elem_of_fmap.
  split; intros (X&(e&->&He)&Ha); eexists; (split; [|done]); exists e; naive_solver.
Qed.

(** Endpoint lists with the same members, all of which resolve, have the same addresses. *)
Lemma GetResolvedEndpoints_ext es es' :
  Forall resolvable es → (∀ e, e ∈ es ↔ e ∈ es') →
  GetResolvedEndpoints es = GetResolvedEndpoints es'.
Proof.
  intros Hr Hes. unfold GetResolvedEndpoints.
  assert (Forall resolvable es') as Hr'.
  { rewrite !Forall_forall in *. intros e He. by apply Hr, Hes. }
  by rewrite !resolve_loop_ok, (endpoint_set_perm es es').
Qed.
End resolve_facts.

#[export] Hint Resolve resolve_loop_ok : go.

(** ** Choosing the zone *)

Section zone_facts.
Context {St Zones Zone : Type} `{ProviderZones St Zones Zone} `{SliceSort}.

Definition occurs_in (domain : string) (z : Zone) : Prop :=
  Contains (TrimSuffix domain ".") (TrimSuffix (zone_Name z) ".") = true.

Lemma first_zone_spec d (zones : list Zone) (f : Zone → nat) :
  StronglySorted (λ a b, f b ≤ f a) zones →
  match first_zone (TrimSuffix d ".") zones with
  | Some z => z ∈ zones ∧ occurs_in d z ∧ ∀ z', z' ∈ zones → occurs_in d z' → f z' ≤ f z
  | None => ∀ z, z ∈ zones → ¬ occurs_in d z
  end.
Proof.
  unfold occurs_in. induction 1 as [|z zs Hs IH Hz]; cbn [first_zone]; [set_solver|].
  destruct (Contains _ _) eqn:E.
  - split_and!; [set_solver|done|]. intros z' [->|Hz']%elem_of_cons _; [lia|].
    rewrite Forall_forall in Hz. by apply Hz.
  - destruct (first_zone _ zs) as [w|].
    + destruct IH as (Hw&Ho&Hmax). split_and!; [by apply elem_of_cons; right|done|].
      intros z' [->|Hz']%elem_of_cons Ho'; [congruence|by apply Hmax].
    + intros z' [->|Hz']%elem_of_cons Ho'; [congruence|by apply (IH z')].
Qed.
End zone_facts.

(** ** [EnsureDNSRrsets] as a plan *)

Section ensure_facts.
Context {St Zone RRset CS : Type} `{ZoneRrsets St Zone RRset CS} `{Resolver}.

Lemma findRrset_Some l r e : findRrset l r = Some e → e ∈ l ∧ rr_equiv r e.
Proof.
  induction l as [|x l IH]; [done|]. cbn [findRrset].
  case_bool_decide; [intros [??]%IH; set_solver|].
  destruct (ResourceRecordSetsEquivalent r x) eqn:E; intros; simplify_eq.
  - split; [set_solver|done].
  - destruct IH; set_solver.
Qed.

Lemma findRrset_None l r : findRrset l r = None ↔ Forall (λ e, ¬ rr_equiv r e) l.
Proof.
  induction l as [|x l IH]; [done|]. cbn [findRrset]. rewrite Forall_cons.
  unfold rr_equiv in *. case_bool_decide as Hl.
  - rewrite IH. split; [|tauto]. split; [|done]. intros E%rr_equiv_spec. apply Hl.
    by destruct E as (_&->&_).
  - destruct (ResourceRecordSetsEquivalent r x) eqn:E.
    + split; [done|]. by intros [[] _].
    + rewrite IH. split; [|tauto]. intros; split; [congruence|done].
Qed.

(** What the name should hold: the record set that counts as being right already, and
    the record sets to put in its place otherwise. *)
Definition desired (z : Zone) (name : string) (endpoints : list string) (up : string) :
    result (RRset * list RRset) :=
  match endpoints with
  | [] => let r := rrs_New z name [up] minDNSTTL RrsCNAME in
          Ok (r, if bool_decide (up = "") then [] else [r])
  | _ => match GetResolvedEndpoints endpoints with
         | (_, Some e) => Err e
         | (addrs, None) => let r := rrs_New z name addrs minDNSTTL RrsA in Ok (r, [r])
         end
  end.

(** Bring [existing] in line with what is desired: nothing to do, or one change set. *)
Definition reconcile_rrsets (z : Zone) (existing : list RRset) (want : RRset * list RRset) :
    M St (option error) :=
  if bool_decide (existing = [] ∧ want.2 = []) then mret None
  else match findRrset existing want.1 with
       | Some _ => mret None
       | None => cs_Apply (cs_replace z existing want.2)
       end.

Lemma bind_option_id (m : M St (option error)) s :
  (err ← m; match err with Some e => mret (Some e) | None => mret None end) s = m s.
Proof. cbv [mbind M_bind]. by destruct (m s) as [[[e|]|] s']. Qed.

(** The four branches of the code are one: read, decide what is wanted, and replace
    unless an equivalent record set is there. *)
Lemma EnsureDNSRrsets_plan z name endpoints up s :
  EnsureDNSRrsets z name endpoints up s =
  (if rrs_supported z then
     r ← rrs_Get z name;
     match r with
     | Err e => mret (Some e)
     | Ok existing =>
         match desired z name endpoints up with
         | Ok want => reconcile_rrsets z existing want
         | Err e => mret (Some e)
         end
     end
   else mret (Some (Errorf ("Failed to ensure DNS records for " +:+ name +:+
      ". DNS provider does not support the ResourceRecordSets interface")))) s.
Proof.
  unfold EnsureDNSRrsets, GetRrset, desired, reconcile_rrsets, cs_replace.
  destruct (rrs_supported z); [|done]. cbn [negb].
  cbv [mbind M_bind]. destruct (rrs_Get z name s) as [[[existing|e]|p] s1]; try done.
  fold (@mbind (M St) (M_bind St)).
  destruct existing as [|r0 rs]; destruct endpoints as [|e0 es]; cbn [length].
  - rewrite (bool_decide_eq_true_2 (0 = 0)), (bool_decide_eq_true_2 (0 < 1)) by lia.
    destruct (decide (up = "")) as [->|Hup]; [done|].
    rewrite (bool_decide_eq_false_2 (up = "")), bool_decide_eq_true_2 by done.
    rewrite bool_decide_eq_false_2 by naive_solver. apply bind_option_id.
  - rewrite (bool_decide_eq_true_2 (0 = 0)), (bool_decide_eq_false_2 (S _ < 1)) by lia.
    destruct (GetResolvedEndpoints _) as [addrs [err|]]; [done|].
    rewrite bool_decide_eq_false_2 by naive_solver. apply bind_option_id.
  - rewrite (bool_decide_eq_false_2 (S _ = 0)), (bool_decide_eq_true_2 (0 < 1)) by lia.
    rewrite (bool_decide_eq_false_2 (_ ∧ _)) by naive_solver. cbn [fst snd].
    destruct (findRrset _ _); [done|].
    destruct (decide (up = "")) as [->|Hup]; [apply bind_option_id|].
    rewrite (bool_decide_eq_false_2 (up = "")), bool_decide_eq_true_2 by done.
    apply bind_option_id.
  - rewrite (bool_decide_eq_false_2 (S _ = 0)), (bool_decide_eq_false_2 (S _ < 1)) by lia.
    destruct (GetResolvedEndpoints _) as [addrs [err|]]; [done|].
    rewrite (bool_decide_eq_false_2 (_ ∧ _)) by naive_solver. cbn [fst snd].
    destruct (findRrset _ _); [done|]. apply bind_option_id.
Qed.

Lemma desired_ext z name es es' up :
  Forall resolvable es → (∀ e, e ∈ es ↔ e ∈ es') → desired z name es up = desired z name es' up.
Proof.
  intros Hr Hes. unfold desired. destruct es as [|x es], es' as [|x' es'].
  - done.
  - exfalso. eapply not_elem_of_nil, Hes, list_elem_of_here.
  - exfalso. eapply not_elem_of_nil, Hes, list_elem_of_here.
  - by rewrite (GetResolvedEndpoints_ext (x :: es) (x' :: es')).
Qed.

Lemma EnsureDNSRrsets_ext z name es es' up s :
  Forall resolvable es → (∀ e, e ∈ es ↔ e ∈ es') →
  EnsureDNSRrsets z name es up s = EnsureDNSRrsets z name es' up s.
Proof. intros Hr Hes. by rewrite !EnsureDNSRrsets_plan, (desired_ext z name es es' up). Qed.

Lemma desired_resolvable z name es up :
  Forall resolvable es → ∃ want, desired z name es up = Ok want.
Proof.
  intros Hr. unfold desired. destruct es; [by eexists|].
  unfold GetResolvedEndpoints. rewrite resolve_loop_ok by done. by eexists.
Qed.
End ensure_facts.

Lemma GetDNSZone_spec {St Zones Zone : Type} `{ProviderZones St Zones Zone} `{SliceSort}
    (domain : string) (zs : Zones) (zones : list Zone) (s s' : St) :
  zones_List zs s = (Val (Ok zones), s') →
  ∃ found, GetDNSZone domain zs s = (Val (Ok found), s') ∧
    match found with
    | Some z => z ∈ zones ∧ occurs_in domain z ∧
        ∀ z', z' ∈ zones → occurs_in domain z' →
              String.length (zone_Name z') ≤ String.length (zone_Name z)
    | None => ∀ z, z ∈ zones → ¬ occurs_in domain z
    end.
Proof.
  intros Hl. unfold GetDNSZone. rewrite (bind_val _ _ _ _ _ Hl). eexists. split; [done|].
  pose proof (first_zone_spec domain (sort_zones zones) (λ z, String.length (zone_Name z))
    (sort_slice_sorted _ _ zones)) as Hs.
  assert (∀ z, z ∈ sort_zones zones ↔ z ∈ zones) as Hp
    by (intros z; unfold sort_zones; by rewrite sort_slice_perm).
  destruct (first_zone _ _) as [z|].
  - destruct Hs as (Hz&Ho&Hmax). split_and!; [by apply Hp|done|].
    intros z' Hz'. by apply Hmax, Hp.
  - intros z Hz. by apply Hs, Hp.
Qed.

(** ** Properties *)

(** When every endpoint is an address or resolves, [GetResolvedEndpoints] returns
    without an error the sorted, duplicate-free list of all their addresses, so that
    neither the order nor the repetition of endpoints matters. *)
Theorem GetResolvedEndpoints_canonical `{Resolver} (endpoints endpoints' : list string) :
  Forall resolvable endpoints → (∀ e, e ∈ endpoints ↔ e ∈ endpoints') →
  ∃ addrs, GetResolvedEndpoints endpoints = (addrs, None) ∧
    GetResolvedEndpoints endpoints' = (addrs, None) ∧
    StronglySorted String.le addrs ∧ NoDup addrs ∧
    ∀ a, a ∈ addrs ↔ ∃ e, e ∈ endpoints ∧ a ∈ addrs_or_nil e.
Proof.
  intros Hr Hes. exists (StringSet_List (endpoint_set endpoints)). unfold GetResolvedEndpoints.
  assert (Forall resolvable endpoints') as Hr'.
  { rewrite !Forall_forall in *. intros e He. by apply Hr, Hes. }
  rewrite !resolve_loop_ok, !(left_id_L ∅ (∪)), (endpoint_set_perm endpoints' endpoints) by naive_solver.
  split_and!; auto with go. intros a. rewrite StringSet_List_elem. unfold endpoint_set.
  rewrite elem_of_union_list. setoid_rewrite list_elem_of_fmap.
  split; [intros (X&(e&->&He)&Ha%elem_of_list_to_set); eauto|].
  intros (e&He&Ha). eexists; split; [by exists e|]. by apply elem_of_list_to_set.
Qed.

(** One endpoint that neither is an address nor resolves makes
    [GetResolvedEndpoints] return an error, whatever the others are. *)
Theorem GetResolvedEndpoints_error `{Resolver} (endpoints : list string) (e : string) :
  e ∈ endpoints → ¬ resolvable e → ∃ l err, GetResolvedEndpoints endpoints = (l, Some err).
Proof.
  intros He Hr. apply resolve_loop_err. rewrite Forall_forall. intros Hf. by apply Hr, Hf.
Qed.

(** [GetDNSZone] picks, among the provider's zones whose name occurs in the domain,
    one with the longest name, and no zone only when none occurs. *)
Theorem GetDNSZone_longest {St Zones Zone : Type} `{ProviderZones St Zones Zone} `{SliceSort}
    (domain : string) (zs : Zones) (zones : list Zone) (s s' : St) :
  zones_List zs s = (Val (Ok zones), s') →
  ∃ found, GetDNSZone domain zs s = (Val (Ok found), s') ∧
    match found with
    | Some z => z ∈ zones ∧ occurs_in domain z ∧
        ∀ z', z' ∈ zones → occurs_in domain z' →
              String.length (zone_Name z') ≤ String.length (zone_Name z)
    | None => ∀ z, z ∈ zones → ¬ occurs_in domain z
    end.
Proof. apply GetDNSZone_spec. Qed.

(** Every branch of [EnsureDNSRrsets] is the same decision: an unsupported or
    unreadable zone and an unresolvable endpoint are reported and change nothing;
    otherwise the record sets read are kept when one of them is equivalent to the
    wanted one (or none is there and none is wanted), and replaced by what is wanted in
    a single change set when not. *)
Theorem EnsureDNSRrsets_refines {St Zone RRset CS : Type} `{ZoneRrsets St Zone RRset CS} `{Resolver}
    (z : Zone) (name : string) (endpoints : list string) (up : string) (s : St) :
  EnsureDNSRrsets z name endpoints up s =
  if rrs_supported z then
    match rrs_Get z name s with
    | (Val (Ok existing), s1) =>
        match desired z name endpoints up with
        | Ok want => reconcile_rrsets z existing want s1
        | Err e => (Val (Some e), s1)
        end
    | (Val (Err e), s1) => (Val (Some e), s1)
    | (Panic p, s1) => (Panic p, s1)
    end
  else (Val (Some (Errorf ("Failed to ensure DNS records for " +:+ name +:+
        ". DNS provider does not support the ResourceRecordSets interface"))), s).
Proof.
  rewrite EnsureDNSRrsets_plan. destruct (rrs_supported z); [|done]. cbv [mbind M_bind].
  destruct (rrs_Get z name s) as [[[[|]|]|] s1]; try done; by destruct (desired _ _ _ _).
Qed.

Section laws.
Context {St Zone RRset CS : Type} `{Z : ZoneRrsets St Zone RRset CS}
  `{!ZoneLaws St Zone RRset CS} `{Resolver}.

(** The name holds what the endpoints call for. *)
Definition ensured (s : St) (z : Zone) (name : string) (endpoints : list string) (up : string) : Prop :=
  ∃ want, desired z name endpoints up = Ok want ∧
    ((zone_lookup s z name = [] ∧ want.2 = []) ∨
     ∃ r, r ∈ zone_lookup s z name ∧ rr_equiv want.1 r).

Lemma reconcile_kept s z name want :
  (zone_lookup s z name = [] ∧ want.2 = []) ∨ (∃ r, r ∈ zone_lookup s z name ∧ rr_equiv want.1 r) →
  reconcile_rrsets z (zone_lookup s z name) want s = (Val None, s).
Proof.
  unfold reconcile_rrsets. intros Hw. case_bool_decide as Hd; [done|].
  destruct Hw as [?|(r&Hr&He)]; [done|].
  destruct (findRrset _ _) eqn:E; [done|]. apply findRrset_None in E.
  rewrite Forall_forall in E. by destruct (E r Hr).
Qed.

Lemma ensured_noop s z name endpoints up :
  rrs_supported z = true → ensured s z name endpoints up →
  EnsureDNSRrsets z name endpoints up s = (Val None, s).
Proof.
  intros Hs (want&Hd&Hw). rewrite EnsureDNSRrsets_plan, Hs. cbv [mbind M_bind].
  rewrite law_get, Hd. by apply reconcile_kept.
Qed.

Lemma desired_want z name endpoints up want :
  desired z name endpoints up = Ok want →
  ∃ datas ttl ty (new : bool), want.1 = rrs_New z name datas ttl ty ∧
    want.2 = if new then [want.1] else [].
Proof.
  unfold desired. intros Hd. destruct endpoints as [|e es].
  - simplify_eq. exists [up], minDNSTTL, RrsCNAME, (negb (bool_decide (up = ""))).
    simpl. by case_bool_decide.
  - destruct (GetResolvedEndpoints _) as [addrs [err|]]; simplify_eq.
    by exists addrs, minDNSTTL, RrsA, true.
Qed.

Lemma EnsureDNSRrsets_post s s' z name endpoints up :
  EnsureDNSRrsets z name endpoints up s = (Val None, s') →
  ensured s' z name endpoints up ∧
  (s' = s ∨ ∃ want, desired z name endpoints up = Ok want ∧ zone_lookup s' z name ≡ₚ want.2) ∧
  (∀ name', name' ≠ name → zone_lookup s' z name' ≡ₚ zone_lookup s z name').
Proof.
  rewrite EnsureDNSRrsets_plan. destruct (rrs_supported z); [|done]. cbv [mbind M_bind].
  rewrite law_get. destruct (desired z name endpoints up) as [want|e] eqn:Hd; [|done].
  intros Hr'. unfold reconcile_rrsets in Hr'. case_bool_decide as Hc.
  { injection Hr' as <-. split_and!; [by exists want; auto|by left|done]. }
  destruct (findRrset _ _) as [r|] eqn:E.
  { injection Hr' as <-. apply findRrset_Some in E. split_and!; [by exists want; eauto|by left|done]. }
  destruct (desired_want _ _ _ _ _ Hd) as (datas&ttl&ty&new&Hw1&Hw2).
  rewrite Hw1 in Hw2. rewrite Hw2 in Hr'.
  apply law_apply in Hr' as Hp; [|done]. rewrite <-Hw2 in Hp. split; [|split; [by right; eauto|]].
  2:{ intros name' Hn. by eapply law_apply_other. }
  exists want. split; [done|]. rewrite Hw2 in Hp. destruct new.
  - right. exists want.1. rewrite Hp, Hw1. split; [set_solver|reflexivity].
  - left. split; [|done]. by apply Permutation_nil_r.
Qed.

Lemma ensured_ext s z name es es' up :
  Forall resolvable es → (∀ e, e ∈ es ↔ e ∈ es') → ensured s z name es up → ensured s z name es' up.
Proof. intros Hr Hes. unfold ensured. by rewrite (desired_ext z name es es' up). Qed.

(** A provider that supports record sets and whose change sets go through: then
    [EnsureDNSRrsets] does too, unless an endpoint cannot be resolved, and it leaves other
    names alone in any case. *)
Definition provider_up (I : St → Prop) (z : Zone) : Prop :=
  rrs_supported z = true ∧ ∀ cs s, I s → ∃ s', cs_Apply cs s = (Val None, s') ∧ I s'.

Lemma EnsureDNSRrsets_up (I : St → Prop) z name es up s :
  provider_up I z → I s →
  ∃ r s', EnsureDNSRrsets z name es up s = (Val r, s') ∧ I s' ∧ (Forall resolvable es → r = None) ∧
    ∀ name', name' ≠ name → zone_lookup s' z name' ≡ₚ zone_lookup s z name'.
Proof.
  intros [Hs Ha] HI. rewrite EnsureDNSRrsets_plan, Hs. cbv [mbind M_bind]. rewrite law_get.
  destruct (desired z name es up) as [want|e] eqn:Hd.
  2:{ exists (Some e), s. split_and!; [done..| |done]. intros Hr.
      by destruct (desired_resolvable z name es up Hr) as [want Hw]; rewrite Hw in Hd. }
  unfold reconcile_rrsets. case_bool_decide; [by exists None, s|]. destruct (findRrset _ _); [by exists None, s|].
  destruct (desired_want _ _ _ _ _ Hd) as (datas&ttl&ty&new&Hw1&Hw2). rewrite Hw1 in Hw2. rewrite Hw2.
  match goal with |- context [cs_Apply ?c s] => destruct (Ha c s HI) as (s'&E&HI') end.
  exists None, s'. split_and!; [exact E|done..|]. intros name' Hn. by eapply law_apply_other.
Qed.
End laws.

#[export] Hint Resolve ensured_noop : go.

(** C16: with a provider that keeps the contract of the interface, a successful
    [EnsureDNSRrsets] leaves the name holding what the endpoints call for: an equivalent
    of the wanted record set (an A record set of all their addresses, or the CNAME one
    level up), or nothing when nothing is wanted; and if it changed anything, exactly the
    wanted record sets.  The record sets of all other names are left alone. *)
Theorem EnsureDNSRrsets_correct {St Zone RRset CS : Type} `{ZoneRrsets St Zone RRset CS}
    `{!ZoneLaws St Zone RRset CS} `{Resolver} (s s' : St) (z : Zone) (name : string)
    (endpoints : list string) (up : string) :
  EnsureDNSRrsets z name endpoints up s = (Val None, s') →
  ensured s' z name endpoints up ∧
  (s' = s ∨ ∃ want, desired z name endpoints up = Ok want ∧ zone_lookup s' z name ≡ₚ want.2) ∧
  (∀ name', name' ≠ name → zone_lookup s' z name' ≡ₚ zone_lookup s z name').
Proof. apply EnsureDNSRrsets_post. Qed.

(** [EnsureDNSRrsets] is idempotent and makes no needless change: repeating a
    successful call succeeds and leaves the provider's state as it is. *)
Theorem EnsureDNSRrsets_idempotent {St Zone RRset CS : Type} `{ZoneRrsets St Zone RRset CS}
    `{!ZoneLaws St Zone RRset CS} `{Resolver} (s s' : St) (z : Zone) (name : string)
    (endpoints : list string) (up : string) :
  rrs_supported z = true →
  EnsureDNSRrsets z name endpoints up s = (Val None, s') →
  EnsureDNSRrsets z name endpoints up s' = (Val None, s').
Proof. intros Hs He. apply ensured_noop; [done|]. by apply EnsureDNSRrsets_post in He as [? _]. Qed.

(** ** The theorems at work *)

Module DnsUtilExamples.
#[local] Instance resolver : Resolver := {|
  LookupHost h := if bool_decide (h = "lb.x") then Ok ["9.9.9.9"; "8.8.8.8"]
                  else Err (Errorf "no such host") |}.

(** Merge sort is one of the orders [sort.Slice] may produce. *)
#[local] Program Instance merge : SliceSort := {|
  sort_slice A less l := merge_sort (λ a b, Is_true (negb (less b a))) l
|}.
Next Obligation. intros. apply merge_sort_Permutation. Qed.
Next Obligation.
  intros A f l. eapply (StronglySorted_mono (λ a b, Is_true (negb (bool_decide (f a < f b)))) _).
  - intros a b. rewrite negb_True, bool_decide_spec. lia.
  - apply StronglySorted_merge_sort.
    + intros a b c. rewrite !negb_True, !bool_decide_spec. lia.
    + intros a b. rewrite !negb_True, !bool_decide_spec. lia.
Qed.

#[local] Existing Instances MemZone.ops MemZone.rrsets MemZone.laws.

(** Two A record sets under one name, of which one is wanted. *)
Definition zone0 : MemZone.St :=
  MemZone.mkSt [MemZone.mkRRset "www.x" ["1.1.1.1"] 180 "A"; MemZone.mkRRset "w2.x" ["7.7.7.7"] 180 "A"] true.
Definition zone1 : MemZone.St :=
  MemZone.mkSt [MemZone.mkRRset "w2.x" ["7.7.7.7"] 180 "A";
                MemZone.mkRRset "www.x" ["2.2.2.2"; "8.8.8.8"; "9.9.9.9"] 180 "A"] true.

Lemma GetResolvedEndpoints_canonical_witness :
  ∃ addrs, GetResolvedEndpoints ["lb.x"; "1.2.3.4"] = (addrs, None) ∧
           GetResolvedEndpoints ["1.2.3.4"; "lb.x"; "1.2.3.4"] = (addrs, None) ∧ NoDup addrs.
Proof.
  destruct (GetResolvedEndpoints_canonical ["lb.x"; "1.2.3.4"] ["1.2.3.4"; "lb.x"; "1.2.3.4"])
    as (addrs&H1&H2&_&H3&_).
  - apply Forall_cons; split; [eexists; vm_compute; reflexivity|].
    apply Forall_cons; split; [eexists; vm_compute; reflexivity|constructor].
  - intros e. rewrite !elem_of_cons, elem_of_nil. tauto.
  - exists addrs. exact (conj H1 (conj H2 H3)).
Defined.

Lemma GetResolvedEndpoints_error_witness :
  ∃ l err, GetResolvedEndpoints ["1.2.3.4"; "nowhere.x"] = (l, Some err).
Proof.
  apply (GetResolvedEndpoints_error _ "nowhere.x").
  - by apply list_elem_of_further, list_elem_of_here.
  - unfold not, resolvable. intros H. destruct H as [l Hl].
    vm_compute in Hl. discriminate Hl.
Defined.

#[local] Instance name_zones : ProviderZones unit (list string) string := {|
  zone_Name z := z;
  zones_List zs := mret (Ok zs);
  zones_New zs n := mret (Err (Errorf "unsupported"))
|}.

Lemma GetDNSZone_longest_witness :
  ∃ found, GetDNSZone "a.example.com." ["com"; "example.com."; "org"] tt = (Val (Ok found), tt).
Proof.
  edestruct (GetDNSZone_longest (St := unit) "a.example.com." ["com"; "example.com."; "org"])
    as (found&H&_); [reflexivity|exact (ex_intro _ found H)].
Defined.

(** The zone is looked for anywhere in the domain, not at its end. *)
Example GetDNSZone_inside :
  GetDNSZone "example.com.attacker.org" ["example.com"; "org"] tt = (Val (Ok (Some "example.com")), tt).
Proof. vm_compute. reflexivity. Qed.

Lemma EnsureDNSRrsets_correct_witness :
  ensured zone1 tt "www.x" ["lb.x"; "2.2.2.2"] "x" ∧
  (zone1 = zone0 ∨ ∃ want, desired tt "www.x" ["lb.x"; "2.2.2.2"] "x" = Ok want ∧
                           zone_lookup zone1 tt "www.x" ≡ₚ want.2) ∧
  (∀ name', name' ≠ "www.x" → zone_lookup zone1 tt name' ≡ₚ zone_lookup zone0 tt name').
Proof. apply (EnsureDNSRrsets_correct zone0 zone1). vm_compute. reflexivity. Defined.

Lemma EnsureDNSRrsets_idempotent_witness :
  EnsureDNSRrsets tt "www.x" ["lb.x"; "2.2.2.2"] "x" zone1 = (Val None, zone1).
Proof. apply (EnsureDNSRrsets_idempotent zone0 zone1); vm_compute; reflexivity. Defined.
End DnsUtilExamples.
