(* ===== verification/IngressDns.v ===== *)
(** The ingress DNS controller, [pkg/controller/ingress/dns/dns.go]: how it is set up,
    the worker that takes ingresses from the work queue, and [ensureDNSRecords], which
    turns the load balancer status that the ingress controller wrote into an annotation
    into DNS records for a cluster's zone, its region and the whole federation.

    It is written against the provider interface of [DnsProvider.v], the work queue of
    [WorkQueue.v] and the federation API ([FedClusters]).  Go ranges over a map in an
    order of its own each time; [MapOrder] gives the order of each of the loops. *)

From S2P Require Import Prelude GoStrings GoNet KubeTypes LbStatus DnsProvider WorkQueue DnsUtil.
From Stdlib Require Import Ascii.

Definition defaultIngressSeperator : string := "ing".

(** [Federation().Clusters().Get]. *)
Class FedClusters (St : Type) := {
  Clusters_Get : string → M St (result Cluster)
}.

(** The order in which a [range] over a map visits it.  [site] tells the loops of one run
    apart: [None] is the loop of [workerFunction], [Some clusterName] the one of
    [getHealthyEndpoints] for that cluster. *)
Class MapOrder := {
  range_map : option string → gmap string (list LoadBalancerStatus) →
              list (string * list LoadBalancerStatus);
  range_map_perm : ∀ site m, range_map site m ≡ₚ map_to_list m
}.

(** [IngressDNSController], without the parts that do not change what it computes: the
    client and the queue are part of the state. *)
Record IngressDNSController (Zone : Type) := mkController {
  federationName : string;
  ingressDNSSuffix : string;
  domain : string;
  dnsZone : Zone
}.
Arguments mkController {Zone} _ _ _ _.
Arguments federationName {Zone} _.
Arguments ingressDNSSuffix {Zone} _.
Arguments domain {Zone} _.
Arguments dnsZone {Zone} _.

Definition wantsDNSRecords (ingress : Ingress) : bool :=
  bool_decide (0 < length (LBIngress (ing_status ingress))).

(** ** Setting up *)

Section setup.
Context {St Zones Zone : Type} `{ProviderZones St Zones Zone} `{SliceSort}.

(** [validateConfig].  The provider [dns] may be nil, and [dns.Zones()] may say that it
    has no zones interface. *)
Definition validateConfig (federationName domain : string) (dns : option (option Zones)) : result Zones :=
  if bool_decide (federationName = "") then
    Err (Errorf "DNSController should not be run without federationName")
  else if bool_decide (domain = "") then Err (Errorf "DNSController must be run with a domain")
  else match dns with
       | None => Err (Errorf "DNSController should not be run without a dnsprovider")
       | Some None => Err (Errorf "the dns provider does not support zone enumeration, which is required for creating dns records")
       | Some (Some zones) => Ok zones
       end.

(** [retrieveOrCreateDNSZone]. *)
Definition retrieveOrCreateDNSZone (domain : string) (dnsZones : Zones) : M St (result Zone) :=
  r ← GetDNSZone domain dnsZones;
  match r with
  | Err e => mret (Err (Errorf ("error querying for DNS zones: " +:+ error_string e)))
  | Ok (Some zone) => mret (Ok zone)
  | Ok None =>
      if bool_decide (domain = "") then
        mret (Err (Errorf "DNSController must be run with domain to create zone automatically"))
      else
        newZone ← zones_New dnsZones domain;
        mret newZone
  end.

(** [newIngressDNSController], up to starting the informer. *)
Definition newIngressDNSController (dns : option (option Zones))
    (federationName ingressDNSSuffix domain : string) : M St (result (IngressDNSController Zone)) :=
  let suffix := if bool_decide (ingressDNSSuffix = "") then defaultIngressSeperator else ingressDNSSuffix in
  match validateConfig federationName domain dns with
  | Err e => mret (Err e)
  | Ok zones =>
      r ← retrieveOrCreateDNSZone domain zones;
      match r with
      | Err e => mret (Err e)
      | Ok zone => mret (Ok (mkController federationName suffix domain zone))
      end
  end.
End setup.

(** ** Endpoints *)

(** The address of a load balancer: its IP, or else its host name. *)
Definition lb_address (lbIngress : LoadBalancerIngress) : string :=
  if bool_decide (IP lbIngress ≠ "") then IP lbIngress
  else if bool_decide (Hostname lbIngress ≠ "") then Hostname lbIngress else "".

(** [zoneEndpoints], [regionEndpoints] and [globalEndpoints]. *)
Definition Endpoints : Type := list string * list string * list string.

(** One turn of the innermost loop over load balancers: the address is added once for
    every pair of equal zone names, for an equal region, and globally. *)
Definition add_address (zoneNames lbZoneNames : list string) (regionName lbRegionName : string)
    (acc : Endpoints) (address : string) : Endpoints :=
  let '(zs, rs, gs) := acc in
  (zs ++ concat ((λ lbZoneName, concat ((λ zoneName,
     if bool_decide (lbZoneName = zoneName) then [address] else []) <$> zoneNames)) <$> lbZoneNames),
   rs ++ (if bool_decide (lbRegionName = regionName) then [address] else []),
   gs ++ [address]).

Definition no_address (clusterName : string) (ingress : Ingress) : error :=
  Errorf ("Ingress " +:+ Name (ing_meta ingress) +:+ "/" +:+ Namespace (ing_meta ingress) +:+
    " in cluster " +:+ clusterName +:+ " has neither LoadBalancerStatus.ingress.ip nor LoadBalancerStatus.ingress.hostname. Cannot use it as endpoint for federated Ingress").

(** The two loops over the statuses of one cluster. *)
Fixpoint add_lbIngresses (clusterName : string) (ingress : Ingress) (zoneNames lbZoneNames : list string)
    (regionName lbRegionName : string) (acc : Endpoints) (lbs : list LoadBalancerIngress) : result Endpoints :=
  match lbs with
  | [] => Ok acc
  | lbIngress :: rest =>
      let address := lb_address lbIngress in
      if bool_decide (String.length address ≤ 0) then Err (no_address clusterName ingress)
      else add_lbIngresses clusterName ingress zoneNames lbZoneNames regionName lbRegionName
             (add_address zoneNames lbZoneNames regionName lbRegionName acc address) rest
  end.

Fixpoint add_lbStatuses (clusterName : string) (ingress : Ingress) (zoneNames lbZoneNames : list string)
    (regionName lbRegionName : string) (acc : Endpoints) (lbs : list LoadBalancerStatus) : result Endpoints :=
  match lbs with
  | [] => Ok acc
  | lbStatus :: rest =>
      match add_lbIngresses clusterName ingress zoneNames lbZoneNames regionName lbRegionName acc (LBIngress lbStatus) with
      | Err e => Err e
      | Ok acc' => add_lbStatuses clusterName ingress zoneNames lbZoneNames regionName lbRegionName acc' rest
      end
  end.

Section endpoints.
Context {St : Type} `{FedClusters St} `{O : MapOrder}.

(** [getClusterZoneNames]: the zones (nil told from empty) and the region. *)
Definition getClusterZoneNames (clusterName : string) : M St (result (option (list string) * string)) :=
  r ← Clusters_Get clusterName;
  match r with
  | Err e => mret (Err e)
  | Ok cluster => mret (Ok (Zones cluster, Region cluster))
  end.

(** One cluster of the map of statuses. *)
Definition add_cluster (clusterName : string) (ingress : Ingress) (zoneNames : list string)
    (regionName : string) (acc : Endpoints) (entry : string * list LoadBalancerStatus) :
    M St (Endpoints + error) :=
  r ← getClusterZoneNames entry.1;
  match r with
  | Err e => mret (inr e)
  | Ok (lbZoneNames, lbRegionName) =>
      match add_lbStatuses clusterName ingress zoneNames (default [] lbZoneNames) regionName lbRegionName
              acc entry.2 with
      | Err e => mret (inr e)
      | Ok acc' => mret (inl acc')
      end
  end.

(** [getHealthyEndpoints].  A missing annotation gives a nil map pointer, which it
    dereferences. *)
Definition getHealthyEndpoints (clusterName : string) (ingress : Ingress) : M St (result Endpoints) :=
  r ← getClusterZoneNames clusterName;
  match r with
  | Err e => mret (Err e)
  | Ok (zoneNames, regionName) =>
      match DeletionTimestamp (ing_meta ingress) with
      | Some _ => mret (Ok ([], [], []))
      | None =>
          match parseGlobalLbStatusAnnotation ingress with
          | Err e => mret (Err e)
          | Ok None => go_panic "nil pointer dereference"
          | Ok (Some globalIngLbStatuses) =>
              out ← for_range (range_map (Some clusterName) globalIngLbStatuses) ([], [], [])
                      (add_cluster clusterName ingress (default [] zoneNames) regionName);
              match out with
              | inl endpoints => mret (Ok endpoints)
              | inr e => mret (Err e)
              end
          end
      end
  end.
End endpoints.

(** ** DNS records *)

Section records.
Context {St Zone RRset CS : Type} `{ZoneRrsets St Zone RRset CS} `{Resolver} `{FedClusters St} `{O : MapOrder}.
Context (idc : IngressDNSController Zone).

Definition commonPrefix (ingress : Ingress) : string :=
  Name (ing_meta ingress) +:+ "." +:+ Namespace (ing_meta ingress) +:+ "." +:+ federationName idc +:+ "." +:+
  ingressDNSSuffix idc.

(** The DNS names of the three levels. *)
Definition zone_dns (ingress : Ingress) (zone region : string) : string :=
  Join [commonPrefix ingress; zone; region; domain idc] ".".
Definition region_dns (ingress : Ingress) (region : string) : string :=
  Join [commonPrefix ingress; region; domain idc] ".".
Definition global_dns (ingress : Ingress) : string := Join [commonPrefix ingress; domain idc] ".".

(** [dnsNames], for the first of the zone names. *)
Definition dnsNames (ingress : Ingress) (zone region : string) : list string :=
  [zone_dns ingress zone region; region_dns ingress region; global_dns ingress; ""].

(** The last loop of [ensureDNSRecords]: the endpoints of each level under its name, with
    the name one level up. *)
Fixpoint ensure_levels (names : list string) (endpoints : list (list string)) : M St (option error) :=
  match endpoints with
  | [] => mret None
  | endpoint :: rest =>
      match names with
      | name :: ((up :: _) as names') =>
          err ← EnsureDNSRrsets (dnsZone idc) name endpoint up;
          match err with
          | Some e => mret (Some e)
          | None => ensure_levels names' rest
          end
      | _ => go_panic "index out of range"
      end
  end.

(** [ensureDNSRecords]: [zoneNames[0]] of an empty slice that is not nil is out of range. *)
Definition ensureDNSRecords (clusterName : string) (ingress : Ingress) : M St (option error) :=
  r ← getClusterZoneNames clusterName;
  match r with
  | Err e => mret (Some e)
  | Ok (None, _) => mret (Some (Errorf "failed to get cluster zone names"))
  | Ok (Some zoneNames, regionName) =>
      r ← getHealthyEndpoints clusterName ingress;
      match r with
      | Err e => mret (Some e)
      | Ok (zoneEndpoints, regionEndpoints, globalEndpoints) =>
          match zoneNames with
          | [] => go_panic "index out of range"
          | zone :: _ =>
              ensure_levels (dnsNames ingress zone regionName)
                [zoneEndpoints; regionEndpoints; globalEndpoints]
          end
      end
  end.

(** ** The worker *)

(** What [workerFunction] does with an item: the errors of [ensureDNSRecords] are dropped. *)
Definition process (ingress : Ingress) : M St unit :=
  if negb (wantsDNSRecords ingress) then mret tt
  else match parseGlobalLbStatusAnnotation ingress with
       | Err _ => mret tt
       | Ok None => mret tt
       | Ok (Some globalIngLbStatuses) =>
           for_each (range_map None globalIngLbStatuses)
             (λ entry, ensureDNSRecords entry.1 ingress ≫= λ _, mret tt)
       end.

(** The queue holds pointers into the informer's cache, which the controller only reads. *)
Context (deref : positive → Ingress).

(** [workerFunction]: [None] while [Get] waits.  The deferred [Done] runs after a panic
    too. *)
Definition workerFunction (st : Type_ positive * St) : option (outcome bool * (Type_ positive * St)) :=
  let '(q, s) := st in
  match Get q with
  | None => None
  | Some ((None, _), q') => Some (Val true, (q', s))
  | Some ((Some item, _), q') =>
      let '(o, s') := process (deref item) s in
      Some (match o with Val _ => Val false | Panic e => Panic e end, (Done item q', s'))
  end.

(** [worker], for at most [fuel] items: [None] when it waits for the queue or is not done. *)
Fixpoint worker (fuel : nat) (st : Type_ positive * St) : option (outcome unit * (Type_ positive * St)) :=
  match fuel with
  | 0 => None
  | S fuel' =>
      match workerFunction st with
      | None => None
      | Some (Val true, st') => Some (Val tt, st')
      | Some (Val false, st') => worker fuel' st'
      | Some (Panic e, st') => Some (Panic e, st')
      end
  end.
End records.
