(* ===== verification/IngressDnsFacts.v ===== *)
(** What the ingress DNS controller of [IngressDns.v] guarantees: which endpoints each
    level gets, that the records do not depend on Go's map order, what a provider that
    keeps its contract holds afterwards, that the worker does not panic and finishes what
    it takes, and how the controller starts. *)

From S2P Require Import Prelude GoStrings GoNet KubeTypes LbStatus DnsProvider WorkQueue DnsUtil IngressDns.
From Stdlib Require Import Ascii.

(** The federation API gives the same answers throughout a run, and reading it changes
    nothing the program sees. *)
Class StableClusters (St : Type) `{FedClusters St} := {
  registry : string → result Cluster;
  Get_registry : ∀ n s, Clusters_Get n s = (Val (registry n), s)
}.

(** ** Endpoints *)

Section endpoints.
Context `{StableClusters St}.

(** The load balancers of an annotation, with the cluster each is in. *)
Definition lb_in (m : list (string * list LoadBalancerStatus)) (c : string) (lb : LoadBalancerIngress) : Prop :=
  ∃ lbs st, (c, lbs) ∈ m ∧ st ∈ lbs ∧ lb ∈ LBIngress st.

(** The addresses of the load balancers in clusters with [P]. *)
Definition addresses (m : list (string * list LoadBalancerStatus)) (P : Cluster → Prop) (a : string) : Prop :=
  ∃ c lb cl, lb_in m c lb ∧ registry c = Ok cl ∧ P cl ∧ a = lb_address lb.

(** A cluster that shares a zone with [zoneNames]. *)
Definition shares_zone (zoneNames : list string) (cl : Cluster) : Prop :=
  ∃ n, n ∈ zoneNames ∧ n ∈ default [] (Zones cl).

(** Every cluster is known and every load balancer has an address. *)
Definition complete (m : list (string * list LoadBalancerStatus)) : Prop :=
  (∀ c lbs, (c, lbs) ∈ m → ∃ cl, registry c = Ok cl) ∧ ∀ c lb, lb_in m c lb → lb_address lb ≠ "".

Lemma elem_of_if {P : Prop} `{Decision P} (a x : string) :
  a ∈ (if bool_decide P then [x] else []) ↔ P ∧ a = x.
Proof. case_bool_decide; set_solver. Qed.

Lemma elem_of_add_address zn lzn rn lrn z r g x a :
  let '(z', r', g') := add_address zn lzn rn lrn (z, r, g) x in
  (a ∈ z' ↔ a ∈ z ∨ (a = x ∧ ∃ n, n ∈ zn ∧ n ∈ lzn)) ∧
  (a ∈ r' ↔ a ∈ r ∨ (a = x ∧ lrn = rn)) ∧ (a ∈ g' ↔ a ∈ g ∨ a = x).
Proof.
  unfold add_address. split_and!.
  - rewrite elem_of_app. apply or_iff_compat_l. rewrite elem_of_list_concat. split.
    + intros (l&(n&->&Hn)%list_elem_of_fmap&Ha). apply elem_of_list_concat in Ha as (l&(n'&->&Hn')%list_elem_of_fmap&Ha).
      apply elem_of_if in Ha as [-> ->]. eauto.
    + intros (->&n&Hn&Hl). eexists. split; [apply list_elem_of_fmap; by exists n|].
      apply elem_of_list_concat. eexists. split; [apply list_elem_of_fmap; by exists n|]. by apply elem_of_if.
  - rewrite elem_of_app, elem_of_if. tauto.
  - rewrite elem_of_app. set_solver.
Qed.

(** Membership of the endpoint lists after a part of the loops: [new] says which
    addresses it added. *)
Definition extends (zn lzn : list string) (rn lrn : string) (acc acc' : Endpoints) (new : string → Prop) : Prop :=
  ∀ a, (a ∈ acc'.1.1 ↔ a ∈ acc.1.1 ∨ (new a ∧ ∃ n, n ∈ zn ∧ n ∈ lzn)) ∧
       (a ∈ acc'.1.2 ↔ a ∈ acc.1.2 ∨ (new a ∧ lrn = rn)) ∧
       (a ∈ acc'.2 ↔ a ∈ acc.2 ∨ new a).

Lemma extends_trans zn lzn rn lrn acc acc1 acc2 new1 new2 new :
  extends zn lzn rn lrn acc acc1 new1 → extends zn lzn rn lrn acc1 acc2 new2 →
  (∀ a, new a ↔ new1 a ∨ new2 a) → extends zn lzn rn lrn acc acc2 new.
Proof.
  intros H1 H2 Hn a. destruct (H1 a) as (?&?&?), (H2 a) as (?&?&?). rewrite (Hn a). tauto.
Qed.

Lemma add_lbIngresses_spec cn ing zn lzn rn lrn acc lbs :
  match add_lbIngresses cn ing zn lzn rn lrn acc lbs with
  | Ok acc' => Forall (λ lb, lb_address lb ≠ "") lbs ∧
      extends zn lzn rn lrn acc acc' (λ a, ∃ lb, lb ∈ lbs ∧ a = lb_address lb)
  | Err _ => ∃ lb, lb ∈ lbs ∧ lb_address lb = ""
  end.
Proof.
  revert acc. induction lbs as [|lb lbs IH]; intros acc; cbn [add_lbIngresses].
  - split; [constructor|]. intros a. set_solver.
  - case_bool_decide as Hl.
    + exists lb. split; [set_solver|]. destruct (lb_address lb); [done|cbn in Hl; lia].
    + specialize (IH (add_address zn lzn rn lrn acc (lb_address lb))).
      destruct (add_lbIngresses _ _ _ _ _ _ _ _) as [acc'|e]; [|destruct IH as (lb'&?&?); exists lb'; set_solver].
      destruct IH as [Hf He]. split; [constructor; [intros E; rewrite E in Hl; cbn in Hl; lia|done]|].
      eapply (extends_trans _ _ _ _ _ _ _ (λ a, a = lb_address lb)); [|exact He|set_solver].
      intros a. destruct acc as [[z r] g]. pose proof (elem_of_add_address zn lzn rn lrn z r g (lb_address lb) a) as E.
      destruct (add_address _ _ _ _ _ _) as [[z' r'] g']. exact E.
Qed.

Lemma add_lbStatuses_spec cn ing zn lzn rn lrn acc sts :
  match add_lbStatuses cn ing zn lzn rn lrn acc sts with
  | Ok acc' => (∀ st lb, st ∈ sts → lb ∈ LBIngress st → lb_address lb ≠ "") ∧
      extends zn lzn rn lrn acc acc' (λ a, ∃ st lb, st ∈ sts ∧ lb ∈ LBIngress st ∧ a = lb_address lb)
  | Err _ => ∃ st lb, st ∈ sts ∧ lb ∈ LBIngress st ∧ lb_address lb = ""
  end.
Proof.
  revert acc. induction sts as [|st sts IH]; intros acc; cbn [add_lbStatuses].
  - split; [set_solver|]. intros a. set_solver.
  - pose proof (add_lbIngresses_spec cn ing zn lzn rn lrn acc (LBIngress st)) as Hs.
    destruct (add_lbIngresses _ _ _ _ _ _ _ _) as [acc1|e].
    + destruct Hs as [Hf He1]. specialize (IH acc1).
      destruct (add_lbStatuses _ _ _ _ _ _ _ _) as [acc'|e].
      * destruct IH as [Hf' He2]. rewrite Forall_forall in Hf. split; [set_solver|].
        eapply extends_trans; [exact He1|exact He2|]. set_solver.
      * destruct IH as (st'&lb&?&?&?). exists st', lb. set_solver.
    + destruct Hs as (lb&?&?). exists st, lb. set_solver.
Qed.

Lemma getClusterZoneNames_run c (s : St) :
  getClusterZoneNames c s =
  (Val match registry c with Ok cl => Ok (Zones cl, Region cl) | Err e => Err e end, s).
Proof.
  unfold getClusterZoneNames. rewrite (bind_val _ _ _ _ _ (Get_registry c s)). by destruct (registry c).
Qed.

Lemma add_cluster_run cn ing zn rn acc c lbs (s : St) :
  add_cluster cn ing zn rn acc (c, lbs) s =
  (Val match registry c with
       | Ok cl => match add_lbStatuses cn ing zn (default [] (Zones cl)) rn (Region cl) acc lbs with
                  | Ok acc' => inl acc'
                  | Err e => inr e
                  end
       | Err e => inr e
       end, s).
Proof.
  unfold add_cluster. rewrite (bind_val _ _ _ _ _ (getClusterZoneNames_run _ s)). cbn [fst snd].
  destruct (registry c); [|done]. by destruct (add_lbStatuses _ _ _ _ _ _ _ _).
Qed.

(** The outer loop, over any part of the map. *)
Lemma add_clusters_spec cn ing zn rn l acc (s : St) :
  ∃ out, for_range l acc (add_cluster cn ing zn rn) s = (Val out, s) ∧
  match out with
  | inl acc' => complete l ∧ ∀ a,
      (a ∈ acc'.1.1 ↔ a ∈ acc.1.1 ∨ addresses l (shares_zone zn) a) ∧
      (a ∈ acc'.1.2 ↔ a ∈ acc.1.2 ∨ addresses l (λ cl, Region cl = rn) a) ∧
      (a ∈ acc'.2 ↔ a ∈ acc.2 ∨ addresses l (λ _, True) a)
  | inr _ => ¬ complete l
  end.
Proof.
  revert acc. induction l as [|[c lbs] l IH]; intros acc.
  { exists (inl acc). split; [done|]. unfold complete, addresses, lb_in. split; [set_solver|]. intros a. set_solver. }
  assert (∀ P a cl, registry c = Ok cl →
    addresses ((c, lbs) :: l) P a ↔ (P cl ∧ ∃ st lb, st ∈ lbs ∧ lb ∈ LBIngress st ∧ a = lb_address lb) ∨ addresses l P a)
    as Hcons.
  { intros P a cl Hcl. unfold addresses, lb_in. split.
    - intros (c'&lb&cl'&(lbs'&st&[[= -> ->]|Hin]%elem_of_cons&?&?)&Hreg&?&->).
      + rewrite Hcl in Hreg. injection Hreg as <-. left. eauto 10.
      + right. exists c', lb, cl'. eauto 10.
    - intros [(?&st&lb&?&?&->)|(c'&lb&cl'&(lbs'&st&?&?&?)&?&?&->)].
      + exists c, lb, cl. split_and!; [|done..]. exists lbs, st. set_solver.
      + exists c', lb, cl'. split_and!; [|done..]. exists lbs', st. set_solver. }
  cbn [for_range]. rewrite (bind_val _ _ _ _ _ (add_cluster_run cn ing zn rn acc c lbs s)).
  destruct (registry c) as [cl|e] eqn:Hcl.
  2:{ eexists. split; [reflexivity|]. intros [Hc _]. destruct (Hc c lbs) as [cl Hcl']; [set_solver|congruence]. }
  pose proof (add_lbStatuses_spec cn ing zn (default [] (Zones cl)) rn (Region cl) acc lbs) as Hs.
  destruct (add_lbStatuses _ _ _ _ _ _ _ _) as [acc1|e].
  - destruct (IH acc1) as (out&E&Hout). exists out. split; [exact E|]. destruct Hs as [Hf Hext].
    destruct out as [acc'|e].
    + destruct Hout as [[Hc1 Hc2] Hmem]. split; [split|].
      * intros c' lbs' [[= -> ->]|?]%elem_of_cons; eauto.
      * intros c' lb (lbs'&st&[[= -> ->]|?]%elem_of_cons&?&?); [eauto|]. apply (Hc2 c'). unfold lb_in. eauto.
      * intros a. destruct (Hext a) as (E1&E2&E3), (Hmem a) as (->&->&->).
        rewrite E1, E2, E3, !(Hcons _ a cl) by done. unfold shares_zone. tauto.
    + intros [Hc1 Hc2]. apply Hout. split; [intros c' lbs' ?; apply (Hc1 c' lbs'); set_solver|].
      intros c' lb (lbs'&st&?&?&?). apply (Hc2 c'). exists lbs', st. set_solver.
  - eexists. split; [reflexivity|]. intros [_ Hc2]. destruct Hs as (st&lb&?&?&Ha).
    apply (Hc2 c lb); [|done]. exists lbs, st. set_solver.
Qed.

Lemma addresses_perm l l' P a : l ≡ₚ l' → addresses l P a ↔ addresses l' P a.
Proof. intros E. unfold addresses, lb_in. by setoid_rewrite E. Qed.

Lemma complete_perm l l' : l ≡ₚ l' → complete l ↔ complete l'.
Proof. intros E. unfold complete, lb_in. by setoid_rewrite E. Qed.

(** What [getHealthyEndpoints] is for: the addresses of each level. *)
Definition levels (m : gmap string (list LoadBalancerStatus)) (zn : list string) (rn : string) (e : Endpoints) : Prop :=
  ∀ a, (a ∈ e.1.1 ↔ addresses (map_to_list m) (shares_zone zn) a) ∧
       (a ∈ e.1.2 ↔ addresses (map_to_list m) (λ cl, Region cl = rn) a) ∧
       (a ∈ e.2 ↔ addresses (map_to_list m) (λ _, True) a).

Lemma getHealthyEndpoints_run `{O : MapOrder} cn ing cl m (s : St) :
  registry cn = Ok cl → DeletionTimestamp (ing_meta ing) = None →
  parseGlobalLbStatusAnnotation ing = Ok (Some m) →
  ∃ r, getHealthyEndpoints cn ing s = (Val r, s) ∧
  match r with
  | Ok e => complete (map_to_list m) ∧ levels m (default [] (Zones cl)) (Region cl) e
  | Err _ => ¬ complete (map_to_list m)
  end.
Proof.
  intros Hcl Hd Hp. unfold getHealthyEndpoints. rewrite (bind_val _ _ _ _ _ (getClusterZoneNames_run cn s)).
  rewrite Hcl, Hd, Hp.
  destruct (add_clusters_spec cn ing (default [] (Zones cl)) (Region cl) (range_map (Some cn) m) ([], [], []) s)
    as (out&E&Hout). rewrite (bind_val _ _ _ _ _ E).
  destruct out as [e|e]; eexists; (split; [reflexivity|]); cbn beta iota.
  - destruct Hout as [Hc Hmem]. rewrite (complete_perm _ _ (range_map_perm _ _)) in Hc. split; [done|].
    intros a. destruct (Hmem a) as (->&->&->). rewrite !(addresses_perm _ _ _ _ (range_map_perm _ _)). cbn. set_solver.
  - by rewrite (complete_perm _ _ (range_map_perm _ _)) in Hout.
Qed.
End endpoints.

(** ** DNS records *)

Lemma length_Join_cons w w' l sep :
  String.length (Join (w :: w' :: l) sep) =
  (String.length w + String.length sep + String.length (Join (w' :: l) sep))%nat.
Proof. rewrite Join_cons2, !length_app_string. lia. Qed.

Section records.
Context {St Zone RRset CS : Type} `{Z : ZoneRrsets St Zone RRset CS} `{Resolver} `{StableClusters St}.
Context (idc : IngressDNSController Zone).

(** The three names differ: each is longer than the next. *)
Lemma dns_names_differ ing z r :
  zone_dns idc ing z r ≠ region_dns idc ing r ∧ zone_dns idc ing z r ≠ global_dns idc ing ∧
  region_dns idc ing r ≠ global_dns idc ing.
Proof.
  unfold zone_dns, region_dns, global_dns.
  split_and!; intros E; apply (f_equal String.length) in E; rewrite !length_Join_cons in E;
    cbn [Join String.length] in E; lia.
Qed.

(** One turn of the loop over levels. *)
Lemma ensure_levels_cons name up names e es :
  ensure_levels idc (name :: up :: names) (e :: es) =
  (err ← EnsureDNSRrsets (dnsZone idc) name e up;
   match err with Some e => mret (Some e) | None => ensure_levels idc (up :: names) es end).
Proof. reflexivity. Qed.

Lemma ensure_levels_val name up names e es s s' :
  ensure_levels idc (name :: up :: names) (e :: es) s = (Val None, s') →
  ∃ s1, EnsureDNSRrsets (dnsZone idc) name e up s = (Val None, s1) ∧
        ensure_levels idc (up :: names) es s1 = (Val None, s').
Proof.
  rewrite ensure_levels_cons. intros (err&s1&E1&E2)%bind_val_inv. exists s1.
  destruct err; [discriminate E2|done].
Qed.

(** What a run of [ensureDNSRecords] that goes through has read. *)
Definition read_levels (cn : string) (ing : Ingress) (zone region : string) (e : Endpoints) : Prop :=
  ∃ cl rest, registry cn = Ok cl ∧ Zones cl = Some (zone :: rest) ∧ Region cl = region ∧
  match DeletionTimestamp (ing_meta ing) with
  | Some _ => e = ([], [], [])
  | None => ∃ m, parseGlobalLbStatusAnnotation ing = Ok (Some m) ∧ complete (map_to_list m) ∧
                 levels m (zone :: rest) region e
  end.

Lemma getHealthyEndpoints_deleted `{O : MapOrder} cn ing cl (s : St) :
  registry cn = Ok cl → is_Some (DeletionTimestamp (ing_meta ing)) →
  getHealthyEndpoints cn ing s = (Val (Ok ([], [], [])), s).
Proof.
  intros Hcl [t Ht]. unfold getHealthyEndpoints.
  rewrite (bind_val _ _ _ _ _ (getClusterZoneNames_run cn s)). by rewrite Hcl, Ht.
Qed.

Lemma getHealthyEndpoints_val `{O : MapOrder} cn ing cl m (s : St) :
  registry cn = Ok cl → parseGlobalLbStatusAnnotation ing = Ok (Some m) →
  ∃ r, getHealthyEndpoints cn ing s = (Val r, s).
Proof.
  intros Hcl Hp. destruct (DeletionTimestamp (ing_meta ing)) as [t|] eqn:Ht.
  - eexists. eapply getHealthyEndpoints_deleted; [exact Hcl|by rewrite Ht].
  - destruct (getHealthyEndpoints_run cn ing cl m s Hcl Ht Hp) as (r&E&_). eauto.
Qed.

Lemma ensureDNSRecords_val `{O : MapOrder} cn ing s s' :
  ensureDNSRecords idc cn ing s = (Val None, s') →
  ∃ zone region z r g, read_levels cn ing zone region (z, r, g) ∧
    ensure_levels idc (dnsNames idc ing zone region) [z; r; g] s = (Val None, s').
Proof.
  unfold ensureDNSRecords. rewrite (bind_val _ _ _ _ _ (getClusterZoneNames_run cn s)).
  destruct (registry cn) as [cl|e] eqn:Hcl; [|done]. destruct (Zones cl) as [zs|] eqn:Hz; [|done].
  destruct (DeletionTimestamp (ing_meta ing)) as [t|] eqn:Ht.
  - rewrite (bind_val _ _ _ _ _ (getHealthyEndpoints_deleted cn ing cl s Hcl (mk_is_Some _ _ Ht))).
    destruct zs as [|zone rest]; [done|]. intros E. exists zone, (Region cl), [], [], []. split; [|exact E].
    exists cl, rest. by rewrite Ht.
  - destruct (parseGlobalLbStatusAnnotation ing) as [[m|]|e] eqn:Hp.
    + destruct (getHealthyEndpoints_run cn ing cl m s Hcl Ht Hp) as (r&E&Hr).
      rewrite (bind_val _ _ _ _ _ E). destruct r as [[[z r] g]|e]; [|done].
      destruct zs as [|zone rest]; [done|]. intros E'. exists zone, (Region cl), z, r, g. split; [|exact E'].
      exists cl, rest. rewrite Ht. split_and!; try done. exists m. rewrite Hz in Hr. by destruct Hr.
    + unfold getHealthyEndpoints. cbv [mbind M_bind]. rewrite getClusterZoneNames_run, Hcl, Ht, Hp. done.
    + unfold getHealthyEndpoints. cbv [mbind M_bind]. rewrite getClusterZoneNames_run, Hcl, Ht, Hp. done.
Qed.
End records.

Section laws.
Context {St Zone RRset CS : Type} `{Z : ZoneRrsets St Zone RRset CS} `{!ZoneLaws St Zone RRset CS} `{Resolver}.

Lemma ensured_perm s s' z name es up :
  zone_lookup s' z name ≡ₚ zone_lookup s z name → ensured s z name es up → ensured s' z name es up.
Proof.
  intros Hp (want&Hd&Hw). exists want. split; [done|]. destruct Hw as [[Hn ?]|(r&Hr&?)].
  - left. split; [|done]. rewrite Hn in Hp. by apply Permutation_nil_r.
  - right. exists r. by rewrite Hp.
Qed.

Lemma ensure_levels_post (idc : IngressDNSController Zone) ing zone region z r g s s' :
  ensure_levels idc (dnsNames idc ing zone region) [z; r; g] s = (Val None, s') →
  ensured s' (dnsZone idc) (zone_dns idc ing zone region) z (region_dns idc ing region) ∧
  ensured s' (dnsZone idc) (region_dns idc ing region) r (global_dns idc ing) ∧
  ensured s' (dnsZone idc) (global_dns idc ing) g "".
Proof.
  destruct (dns_names_differ idc ing zone region) as (N1&N2&N3).
  intros (s1&E1&(s2&E2&(s3&E3&E4)%ensure_levels_val)%ensure_levels_val)%ensure_levels_val.
  cbn in E4. injection E4 as <-.
  apply EnsureDNSRrsets_post in E1 as (P1&_&_), E2 as (P2&_&O2), E3 as (P3&_&O3).
  split_and!; [|by eapply ensured_perm; [apply O3|]|done].
  eapply ensured_perm; [|exact P1]. by rewrite O3, O2.
Qed.
End laws.

(** ** Independence of the map order *)

Section order.
Context {St Zone RRset CS : Type} `{Z : ZoneRrsets St Zone RRset CS} `{Resolver} `{StableClusters St}.
Context (idc : IngressDNSController Zone).

(** Endpoint lists that stand for the same addresses. *)
Definition same_endpoints (l l' : list string) : Prop :=
  Forall resolvable l ∧ ∀ a, a ∈ l ↔ a ∈ l'.

Lemma ensure_levels_ext names es es' s :
  Forall2 same_endpoints es es' → ensure_levels idc names es s = ensure_levels idc names es' s.
Proof.
  intros He. revert names s. induction He as [|e e' es es' [Hr Hm] _ IH]; intros names s; [done|].
  destruct names as [|name [|up names]]; [done|done|].
  rewrite !ensure_levels_cons. cbv [mbind M_bind]. rewrite (EnsureDNSRrsets_ext _ _ e e') by done.
  destruct (EnsureDNSRrsets _ _ _ _ _) as [[[err|]|p] s1]; [done|apply IH|done].
Qed.

Lemma addresses_any m P a : addresses m P a → addresses m (λ _, True) a.
Proof. intros (c&lb&cl&?&?&_&?). exists c, lb, cl. done. Qed.

(** The levels read in two orders are the same endpoints. *)
Lemma levels_same m zn rn e e' :
  (∀ a, addresses (map_to_list m) (λ _, True) a → resolvable a) →
  levels m zn rn e → levels m zn rn e' →
  Forall2 same_endpoints [e.1.1; e.1.2; e.2] [e'.1.1; e'.1.2; e'.2].
Proof.
  intros Hr He He'.
  repeat (apply Forall2_cons; split); [..|constructor];
    (split; [apply Forall_forall; intros a Ha; apply Hr|]);
    [apply (addresses_any _ (shares_zone zn)); by apply He| |apply (addresses_any _ (λ cl, Region cl = rn)); by apply He| |by apply He|];
    intros a; destruct (He a) as (E1&E2&E3), (He' a) as (E1'&E2'&E3'); by rewrite ?E1, ?E2, ?E3, ?E1', ?E2', ?E3'.
Qed.

(** Reading and writing under one order. *)
Lemma ensureDNSRecords_eq (O O' : MapOrder) cn ing s :
  (∀ m, parseGlobalLbStatusAnnotation ing = Ok (Some m) →
     complete (map_to_list m) ∧ ∀ a, addresses (map_to_list m) (λ _, True) a → resolvable a) →
  ensureDNSRecords (O := O) idc cn ing s = ensureDNSRecords (O := O') idc cn ing s.
Proof.
  intros Hm. unfold ensureDNSRecords. rewrite !(bind_val _ _ _ _ _ (getClusterZoneNames_run cn s)).
  destruct (registry cn) as [cl|e] eqn:Hcl; [|done]. destruct (Zones cl) as [zs|] eqn:Hz; [|done].
  destruct (DeletionTimestamp (ing_meta ing)) as [t|] eqn:Ht.
  - by rewrite !(bind_val _ _ _ _ _ (getHealthyEndpoints_deleted cn ing cl s Hcl (mk_is_Some _ _ Ht))).
  - destruct (parseGlobalLbStatusAnnotation ing) as [[m|]|e] eqn:Hp.
    + destruct (Hm m eq_refl) as [Hc Hr].
      destruct (getHealthyEndpoints_run (O := O) cn ing cl m s Hcl Ht Hp) as (r&E&Hl).
      destruct (getHealthyEndpoints_run (O := O') cn ing cl m s Hcl Ht Hp) as (r'&E'&Hl').
      rewrite (bind_val _ _ _ _ _ E), (bind_val _ _ _ _ _ E').
      destruct r as [[[z r] g]|e]; [|by destruct Hl]. destruct r' as [[[z' r'] g']|e]; [|by destruct Hl'].
      destruct zs as [|zone rest]; [done|]. apply ensure_levels_ext.
      exact (levels_same m _ _ (z, r, g) (z', r', g') Hr (proj2 Hl) (proj2 Hl')).
    + unfold getHealthyEndpoints. cbv [mbind M_bind]. by rewrite !getClusterZoneNames_run, Hcl, Ht, Hp.
    + unfold getHealthyEndpoints. cbv [mbind M_bind]. by rewrite !getClusterZoneNames_run, Hcl, Ht, Hp.
Qed.
End order.

(** ** The worker *)

(** Code that never panics. *)
Definition no_panic {St A} (m : M St A) : Prop := ∀ s, ∃ a s', m s = (Val a, s').

Lemma no_panic_ret {St A} (a : A) : no_panic (mret a : M St A).
Proof. intros s. by exists a, s. Qed.

Lemma no_panic_bind {St A B} (m : M St A) (f : A → M St B) :
  no_panic m → (∀ a, no_panic (f a)) → no_panic (m ≫= f).
Proof. intros Hm Hf s. destruct (Hm s) as (a&s1&E). rewrite (bind_val _ _ _ _ _ E). apply Hf. Qed.

Lemma no_panic_for_each {St X} (l : list X) (body : X → M St unit) :
  (∀ x, no_panic (body x)) → no_panic (for_each l body).
Proof.
  intros Hb. induction l as [|x l IH]; cbn [for_each]; [apply no_panic_ret|].
  by apply no_panic_bind.
Qed.

Create HintDb no_panic.
#[export] Hint Resolve no_panic_ret no_panic_bind no_panic_for_each : no_panic.

Section worker.
Context {St Zone RRset CS : Type} `{Z : ZoneRrsets St Zone RRset CS} `{Resolver} `{StableClusters St} `{O : MapOrder}.
Context (idc : IngressDNSController Zone).
Context (get_total : ∀ z n, no_panic (rrs_Get z n)) (apply_total : ∀ cs, no_panic (cs_Apply cs)).
Context (zones_listed : ∀ cn cl, registry cn = Ok cl → Zones cl ≠ Some []).

Lemma reconcile_total z existing want : no_panic (reconcile_rrsets z existing want).
Proof.
  unfold reconcile_rrsets. case_bool_decide; [auto with no_panic|].
  destruct (findRrset _ _); auto with no_panic.
Qed.

Lemma Ensure_total z n es up : no_panic (EnsureDNSRrsets z n es up).
Proof.
  intros s. rewrite EnsureDNSRrsets_plan. revert s.
  match goal with |- ∀ s, ∃ a s', ?m s = _ => change (no_panic m) end.
  destruct (rrs_supported z); [|auto with no_panic].
  apply no_panic_bind; [apply get_total|]. intros [ex|e]; [|auto with no_panic].
  destruct (desired _ _ _ _); [apply reconcile_total|auto with no_panic].
Qed.

Lemma ensure_levels_total ing zone region z r g :
  no_panic (ensure_levels idc (dnsNames idc ing zone region) [z; r; g]).
Proof.
  unfold dnsNames.
  do 3 (rewrite ensure_levels_cons; apply no_panic_bind; [apply Ensure_total|]; intros [e|]; [apply no_panic_ret|]).
  apply no_panic_ret.
Qed.

Lemma ensureDNSRecords_total cn ing m :
  parseGlobalLbStatusAnnotation ing = Ok (Some m) → no_panic (ensureDNSRecords idc cn ing).
Proof.
  intros Hp s. unfold ensureDNSRecords. rewrite (bind_val _ _ _ _ _ (getClusterZoneNames_run cn s)).
  destruct (registry cn) as [cl|e] eqn:Hcl; [|by apply no_panic_ret].
  destruct (Zones cl) as [zs|] eqn:Hz; [|by apply no_panic_ret].
  destruct (getHealthyEndpoints_val cn ing cl m s Hcl Hp) as [r E].
  rewrite (bind_val _ _ _ _ _ E). destruct r as [[[z r] g]|e]; [|by apply no_panic_ret].
  destruct zs as [|zone rest]; [by destruct (zones_listed cn cl Hcl)|]. apply ensure_levels_total.
Qed.

Lemma process_total ing : no_panic (process idc ing).
Proof.
  unfold process. destruct (wantsDNSRecords ing); [|apply no_panic_ret]. cbn [negb].
  destruct (parseGlobalLbStatusAnnotation ing) as [[m|]|e] eqn:Hp; [|apply no_panic_ret..].
  apply no_panic_for_each. intros [c lbs]. apply no_panic_bind; [|intros; apply no_panic_ret].
  by eapply ensureDNSRecords_total.
Qed.

Context (deref : positive → Ingress).

(** The state after processing items in turn. *)
Definition process_all (items : list positive) (s : St) : St :=
  foldl (λ s item, (process idc (deref item) s).2) s items.

Lemma worker_S n st :
  worker idc deref (S n) st =
  match workerFunction idc deref st with
  | None => None
  | Some (Val true, st') => Some (Val tt, st')
  | Some (Val false, st') => worker idc deref n st'
  | Some (Panic e, st') => Some (Panic e, st')
  end.
Proof. reflexivity. Qed.

Lemma worker_drains q s :
  queue_inv q → processing q = ∅ → shuttingDown q = true →
  worker idc deref (S (length (queue q))) (q, s) =
  Some (Val tt, (mkQueue [] ∅ ∅ true, process_all (queue q) s)).
Proof.
  remember (length (queue q)) as n eqn:Hn. revert q s Hn. induction n as [|n IH]; intros q s Hn Hi Hp Hsd.
  - pose proof (drain_all q Hi Hp) as Hdr. destruct (queue q) as [|x l] eqn:E; [|done]. cbn in Hdr.
    injection Hdr as Hq. rewrite worker_S. unfold workerFunction, Get. rewrite E, Hsd. cbn beta iota.
    by rewrite Hq, Hsd.
  - destruct (queue q) as [|x l] eqn:E; [done|].
    destruct (Get_Done_head q x l E Hi Hp) as (q1&Hget&HD&Hi'&Hl&Hp'&Hs').
    rewrite worker_S. unfold workerFunction. rewrite Hget.
    destruct (process_total (deref x) s) as (u&s1&Es). rewrite Es. cbn beta iota.
    rewrite IH; [|rewrite Hl; cbn in Hn; lia|done|done|congruence].
    rewrite Hl. cbn [process_all foldl]. unfold process_all. cbn [foldl]. by rewrite Es.
Qed.
End worker.

(** ** Properties *)

(** [getHealthyEndpoints] finds exactly the right addresses.  For an ingress that is
    not deleted it succeeds exactly when every cluster of the annotation is known and
    every load balancer has an address; then the zone level has the addresses of the
    clusters that share a zone with the cluster asked about, the region level those of
    the clusters in its region, and the global level all of them. *)
Theorem getHealthyEndpoints_levels `{StableClusters St} `{O : MapOrder} (cn : string) (ing : Ingress)
    (cl : Cluster) (m : gmap string (list LoadBalancerStatus)) (s : St) :
  registry cn = Ok cl → DeletionTimestamp (ing_meta ing) = None →
  parseGlobalLbStatusAnnotation ing = Ok (Some m) →
  ∃ r, getHealthyEndpoints cn ing s = (Val r, s) ∧
  match r with
  | Ok e => complete (map_to_list m) ∧ levels m (default [] (Zones cl)) (Region cl) e
  | Err _ => ¬ complete (map_to_list m)
  end.
Proof. apply getHealthyEndpoints_run. Qed.

(** C4: with a provider that keeps the contract of the interface, a successful
    [ensureDNSRecords] leaves all three names right at once: the zone's name holds the
    addresses in the zone or else a CNAME to the region's name, the region's name those
    in the region or else a CNAME to the global name, and the global name all of them, or
    nothing.  A deleted ingress counts as having none. *)
Theorem ensureDNSRecords_correct {St Zone RRset CS : Type} `{ZoneRrsets St Zone RRset CS}
    `{!ZoneLaws St Zone RRset CS} `{Resolver} `{StableClusters St} `{O : MapOrder}
    (idc : IngressDNSController Zone) (cn : string) (ing : Ingress) (s s' : St) :
  ensureDNSRecords idc cn ing s = (Val None, s') →
  ∃ zone region e, read_levels cn ing zone region e ∧
    ensured s' (dnsZone idc) (zone_dns idc ing zone region) e.1.1 (region_dns idc ing region) ∧
    ensured s' (dnsZone idc) (region_dns idc ing region) e.1.2 (global_dns idc ing) ∧
    ensured s' (dnsZone idc) (global_dns idc ing) e.2 "".
Proof.
  intros (zone&region&z&r&g&Hr&He)%ensureDNSRecords_val. exists zone, region, (z, r, g).
  split; [done|]. by eapply ensure_levels_post.
Qed.

(** The records of a deleted ingress are not all removed: after a successful
    [ensureDNSRecords] its zone and region names still hold something (the CNAME records
    one level up). *)
Theorem ensureDNSRecords_deleted {St Zone RRset CS : Type} `{ZoneRrsets St Zone RRset CS}
    `{!ZoneLaws St Zone RRset CS} `{Resolver} `{StableClusters St} `{O : MapOrder}
    (idc : IngressDNSController Zone) (cn : string) (ing : Ingress) (s s' : St) :
  is_Some (DeletionTimestamp (ing_meta ing)) →
  ensureDNSRecords idc cn ing s = (Val None, s') →
  ∃ zone region,
    (∃ r, r ∈ zone_lookup s' (dnsZone idc) (zone_dns idc ing zone region) ∧
       rr_equiv (rrs_New (dnsZone idc) (zone_dns idc ing zone region) [region_dns idc ing region] minDNSTTL RrsCNAME) r) ∧
    (∃ r, r ∈ zone_lookup s' (dnsZone idc) (region_dns idc ing region) ∧
       rr_equiv (rrs_New (dnsZone idc) (region_dns idc ing region) [global_dns idc ing] minDNSTTL RrsCNAME) r).
Proof.
  intros [t Ht] (zone&region&z&r&g&(cl&rest&_&_&_&He)&Hl)%ensureDNSRecords_val. rewrite Ht in He.
  injection He as -> -> ->. exists zone, region.
  apply ensure_levels_post in Hl as (P1&P2&_).
  assert (∀ name up, up ≠ "" → ensured s' (dnsZone idc) name [] up →
    ∃ r, r ∈ zone_lookup s' (dnsZone idc) name ∧ rr_equiv (rrs_New (dnsZone idc) name [up] minDNSTTL RrsCNAME) r) as Hc.
  { intros name up Hup (want&Hd&Hw). cbn in Hd. rewrite bool_decide_eq_false_2 in Hd by done.
    injection Hd as <-. destruct Hw as [[_ ?]|?]; done. }
  assert (∀ w w' l sep, sep ≠ "" → Join (w :: w' :: l) sep ≠ "") as Hne.
  { intros w w' l sep Hs E. apply (f_equal String.length) in E. rewrite length_Join_cons in E.
    destruct sep; [done|cbn in E; lia]. }
  split; apply Hc; try done; by apply Hne.
Qed.

(** C37: the outcome of [ensureDNSRecords] does not depend on the order in which Go ranges
    over the annotation's map, when the annotation can be used at all (every cluster is
    known, every load balancer has an address, every address resolves). *)
Theorem ensureDNSRecords_order_irrelevant {St Zone RRset CS : Type} `{ZoneRrsets St Zone RRset CS}
    `{Resolver} `{StableClusters St} (O O' : MapOrder) (idc : IngressDNSController Zone)
    (cn : string) (ing : Ingress) (s : St) :
  (∀ m, parseGlobalLbStatusAnnotation ing = Ok (Some m) →
     complete (map_to_list m) ∧ ∀ a, addresses (map_to_list m) (λ _, True) a → resolvable a) →
  ensureDNSRecords (O := O) idc cn ing s = ensureDNSRecords (O := O') idc cn ing s.
Proof. apply ensureDNSRecords_eq. Qed.

(** C36: the worker terminates and does not crash: when the provider does not panic and no
    cluster has an empty (not nil) list of zones, a worker on a queue that is shut down
    processes every queued ingress in order, whatever its annotation says, marks each as
    done, and returns. *)
Theorem worker_finishes {St Zone RRset CS : Type} `{ZoneRrsets St Zone RRset CS}
    `{Resolver} `{StableClusters St} `{O : MapOrder} (idc : IngressDNSController Zone)
    (deref : positive → Ingress) (q : Type_ positive) (s : St) :
  (∀ z n, no_panic (rrs_Get z n)) → (∀ cs, no_panic (cs_Apply cs)) →
  (∀ cn cl, registry cn = Ok cl → Zones cl ≠ Some []) →
  queue_inv q → processing q = ∅ → shuttingDown q = true →
  worker idc deref (S (Len q)) (q, s) =
  Some (Val tt, (mkQueue [] ∅ ∅ true, process_all idc deref (queue q) s)).
Proof. intros Hg Ha Hz Hi Hp Hs. by apply (worker_drains idc Hg Ha Hz deref). Qed.

(** The controller starts exactly with a federation name, a domain and a provider that
    has zones it can list; it then serves the provider's zone with the longest name that
    occurs in its domain, or one it creates when there is none, and its DNS suffix is
    "ing" unless another is configured. *)
Theorem newIngressDNSController_starts {St Zones Zone : Type} `{ProviderZones St Zones Zone} `{SliceSort}
    (dns : option (option Zones)) (fed suffix dom : string) (s s' : St)
    (r : result (IngressDNSController Zone)) :
  newIngressDNSController dns fed suffix dom s = (Val r, s') →
  match r with
  | Ok c => fed ≠ "" ∧ dom ≠ "" ∧ federationName c = fed ∧ domain c = dom ∧
      ingressDNSSuffix c = (if bool_decide (suffix = "") then "ing" else suffix) ∧
      ∃ zs zones s1, dns = Some (Some zs) ∧ zones_List zs s = (Val (Ok zones), s1) ∧
        ((s1 = s' ∧ dnsZone c ∈ zones ∧ occurs_in dom (dnsZone c) ∧
          ∀ z, z ∈ zones → occurs_in dom z →
               String.length (zone_Name z) ≤ String.length (zone_Name (dnsZone c))) ∨
         ((∀ z, z ∈ zones → ¬ occurs_in dom z) ∧ zones_New zs dom s1 = (Val (Ok (dnsZone c)), s')))
  | Err _ => fed = "" ∨ dom = "" ∨ dns = None ∨ dns = Some None ∨
      ∃ zs, dns = Some (Some zs) ∧
        ((∃ e, zones_List zs s = (Val (Err e), s')) ∨
         ∃ zones s1 e, zones_List zs s = (Val (Ok zones), s1) ∧
           (∀ z, z ∈ zones → ¬ occurs_in dom z) ∧ zones_New zs dom s1 = (Val (Err e), s'))
  end.
Proof.
  unfold newIngressDNSController, validateConfig.
  case_bool_decide as Hf; [intros E; ret_inv E; auto|].
  case_bool_decide as Hd; [intros E; ret_inv E; auto|].
  destruct dns as [[zs|]|]; [|intros E; ret_inv E; auto..].
  unfold retrieveOrCreateDNSZone. intros (o&s1&(g&s2&E1&E2)%bind_val_inv&E3)%bind_val_inv.
  destruct (zones_List zs s) as [[[zones|e]|e] s3] eqn:El.
  - destruct (GetDNSZone_spec dom zs zones s s3 El) as (found&Eg&Hfound). rewrite Eg in E1.
    injection E1 as <- <-. destruct found as [z|].
    + ret_inv E2. ret_inv E3. split_and!; try done. exists zs, zones, s3. split_and!; try done. left.
      split; [done|]. exact Hfound.
    + rewrite bool_decide_eq_false_2 in E2 by done. apply bind_val_inv in E2 as (nz&s4&E2&E4).
      ret_inv E4. destruct nz as [z|e]; ret_inv E3.
      * split_and!; try done. exists zs, zones, s3. split_and!; try done. by right.
      * right. right. right. right. exists zs. split; [done|]. right. by exists zones, s3, e.
  - unfold GetDNSZone in E1. rewrite (bind_val _ _ _ _ _ El) in E1. ret_inv E1. ret_inv E2. ret_inv E3.
    right. right. right. right. exists zs. split; [done|]. left. by exists e.
  - unfold GetDNSZone in E1. rewrite (bind_panic _ _ _ _ _ El) in E1. done.
Qed.

(** ** The theorems at work *)

Module IngressDnsExamples.
Import LbStatusExamples.
#[local] Existing Instances MemZone.ops MemZone.rrsets MemZone.laws.
#[local] Instance resolver : Resolver := {|
  LookupHost h := if bool_decide (h = "lb.x") then Ok ["9.9.9.9"] else Err (Errorf "no such host") |}.

Definition cluster (name zone region : string) : Cluster :=
  mkCluster (mkObjectMeta name "" "" "" None None None [] "") "" [] (Some [zone]) region.
Definition clusters (n : string) : result Cluster :=
  if bool_decide (n = "c1") then Ok (cluster "c1" "z1" "r1")
  else if bool_decide (n = "c2") then Ok (cluster "c2" "z2" "r1")
  else if bool_decide (n = "c3") then Ok (cluster "c3" "z3" "r3")
  else Err (StatusError "NotFound" "no such cluster").

#[local] Instance fed {St} : FedClusters St := {| Clusters_Get n := mret (clusters n) |}.
#[local] Instance stable {St} : StableClusters St :=
  {| registry := clusters; Get_registry n s := eq_refl |}.

#[local] Instance key_order : MapOrder := {|
  range_map _ m := map_to_list m;
  range_map_perm _ m := Permutation_refl (map_to_list m)
|}.
#[local] Program Instance reverse_order : MapOrder := {| range_map _ m := reverse (map_to_list m) |}.
Next Obligation. intros site m. apply reverse_Permutation. Qed.

Definition idc : IngressDNSController unit := mkController "fed" "ing" "x.io" tt.
Definition empty_zone : MemZone.St := MemZone.mkSt [] true.

Lemma statuses_complete : complete (St := MemZone.St) (map_to_list statuses) ∧
  ∀ a, addresses (St := MemZone.St) (map_to_list statuses) (λ _, True) a → a = "10.0.0.1" ∨ a = "lb.x".
Proof.
  assert (∀ c lbs, (c, lbs) ∈ map_to_list statuses →
    (c, lbs) = ("c1", [mkLBS [mkLBI "10.0.0.1" ""]]) ∨ (c, lbs) = ("c2", [mkLBS [mkLBI "" "lb.x"]])) as Hin.
  { intros c lbs E%elem_of_map_to_list. unfold statuses in E.
    apply lookup_insert_Some in E as [[<- <-]|[_ E]]; [by left|].
    apply lookup_singleton_Some in E as [<- <-]. by right. }
  assert (∀ c lb, lb_in (map_to_list statuses) c lb → lb = mkLBI "10.0.0.1" "" ∨ lb = mkLBI "" "lb.x") as Hlb.
  { intros c lb (lbs&st&[[= -> ->]|[= -> ->]]%Hin&Hst&Hl);
      apply list_elem_of_singleton in Hst as ->; apply list_elem_of_singleton in Hl as ->; auto. }
  split; [split|].
  - intros c lbs [[= -> ->]|[= -> ->]]%Hin; eexists; vm_compute; reflexivity.
  - intros c lb [-> | ->]%Hlb; vm_compute; discriminate.
  - intros a (c&lb&cl&[-> | ->]%Hlb&_&_&->); [left|right]; vm_compute; reflexivity.
Qed.

Lemma getHealthyEndpoints_levels_witness :
  ∃ r, getHealthyEndpoints "c1" annotated empty_zone = (Val r, empty_zone) ∧
  match r with
  | Ok e => complete (St := MemZone.St) (map_to_list statuses) ∧
            levels (St := MemZone.St) statuses (default [] (Some ["z1"])) "r1" e
  | Err _ => ¬ complete (St := MemZone.St) (map_to_list statuses)
  end.
Proof.
  apply (getHealthyEndpoints_levels "c1" annotated (cluster "c1" "z1" "r1") statuses empty_zone);
    [vm_compute; reflexivity|reflexivity|exact annotated_parse].
Defined.

(** Its values: one shard in the zone, both in the region. *)
Example getHealthyEndpoints_ex :
  getHealthyEndpoints "c1" annotated empty_zone =
  (Val (Ok (["10.0.0.1"], ["10.0.0.1"; "lb.x"], ["10.0.0.1"; "lb.x"])), empty_zone) ∨
  getHealthyEndpoints "c1" annotated empty_zone =
  (Val (Ok (["10.0.0.1"], ["lb.x"; "10.0.0.1"], ["lb.x"; "10.0.0.1"])), empty_zone).
Proof. vm_compute. auto. Qed.

Definition after : MemZone.St := Eval vm_compute in (ensureDNSRecords idc "c1" annotated empty_zone).2.

Lemma ensureDNSRecords_correct_witness :
  ∃ zone region e, read_levels (St := MemZone.St) "c1" annotated zone region e ∧
    ensured after tt (zone_dns idc annotated zone region) e.1.1 (region_dns idc annotated region) ∧
    ensured after tt (region_dns idc annotated region) e.1.2 (global_dns idc annotated) ∧
    ensured after tt (global_dns idc annotated) e.2 "".
Proof. apply (ensureDNSRecords_correct idc "c1" annotated empty_zone after). vm_compute. reflexivity. Defined.

Definition deleted : Ingress :=
  mkIngress (mkObjectMeta "w" "ns" "" "" (Some 1%Z) None None [] "") (mkSpec None None None) (mkLBS []).
Definition after_deleted : MemZone.St := Eval vm_compute in (ensureDNSRecords idc "c1" deleted after).2.

Lemma ensureDNSRecords_deleted_witness : ∃ zone region,
  (∃ r, r ∈ zone_lookup after_deleted tt (zone_dns idc deleted zone region) ∧
     rr_equiv (rrs_New tt (zone_dns idc deleted zone region) [region_dns idc deleted region] minDNSTTL RrsCNAME) r) ∧
  (∃ r, r ∈ zone_lookup after_deleted tt (region_dns idc deleted region) ∧
     rr_equiv (rrs_New tt (region_dns idc deleted region) [global_dns idc deleted] minDNSTTL RrsCNAME) r).
Proof.
  apply (ensureDNSRecords_deleted idc "c1" deleted after after_deleted);
    [by exists 1%Z|vm_compute; reflexivity].
Defined.

(** What is left of the example's records once the ingress is deleted. *)
Example deleted_leaves :
  MemZone.records after_deleted =
  [MemZone.mkRRset "w.ns.fed.ing.z1.r1.x.io" ["w.ns.fed.ing.r1.x.io"] 180 "CNAME";
   MemZone.mkRRset "w.ns.fed.ing.r1.x.io" ["w.ns.fed.ing.x.io"] 180 "CNAME"].
Proof. vm_compute. reflexivity. Qed.

Lemma ensureDNSRecords_order_irrelevant_witness :
  ensureDNSRecords (O := key_order) idc "c1" annotated empty_zone =
  ensureDNSRecords (O := reverse_order) idc "c1" annotated empty_zone.
Proof.
  apply (ensureDNSRecords_order_irrelevant key_order reverse_order idc "c1" annotated empty_zone).
  intros m Hm. rewrite annotated_parse in Hm. injection Hm as <-.
  split; [exact (proj1 statuses_complete)|].
  intros a Ha. apply (proj2 statuses_complete) in Ha as [-> | ->]; eexists; vm_compute; reflexivity.
Defined.

Definition wq : Type_ positive := mkQueue [1%positive] {[1%positive]} ∅ true.
Lemma worker_finishes_witness :
  worker idc (λ _, annotated) (S (Len wq)) (wq, empty_zone) =
  Some (Val tt, (mkQueue [] ∅ ∅ true, process_all idc (λ _, annotated) (queue wq) empty_zone)).
Proof.
  apply (worker_finishes idc (λ _, annotated) wq empty_zone).
  - intros z n s. by eexists _, _.
  - intros cs s. destruct s as [rs up]. destruct up; by eexists _, _.
  - intros cn cl E. cbn in E. unfold clusters in E.
    repeat (case_bool_decide; [injection E as <-; discriminate|]). discriminate E.
  - split; cbn; [apply NoDup_singleton|]. intros x. set_solver.
  - reflexivity.
  - reflexivity.
Defined.

(** A cluster whose list of zones is empty but not nil: the worker panics. *)
#[local] Instance fed_no_zones : FedClusters MemZone.St := {|
  Clusters_Get n := mret (Ok (mkCluster (mkObjectMeta n "" "" "" None None None [] "") "" [] (Some []) "r1")) |}.
Example empty_zones_panic :
  (ensureDNSRecords idc "c1" annotated empty_zone).1 = Panic "index out of range".
Proof. vm_compute. reflexivity. Qed.

#[local] Instance zones : ProviderZones unit (list string) string := {|
  zone_Name z := z;
  zones_List zs := mret (Ok zs);
  zones_New zs n := mret (Ok n)
|}.
#[local] Existing Instance DnsUtilExamples.merge.

Lemma newIngressDNSController_starts_witness :
  ∃ c, newIngressDNSController (Some (Some ["io"; "x.io"])) "fed" "" "a.x.io" tt = (Val (Ok c), tt) ∧
    federationName c = "fed" ∧ ingressDNSSuffix c = "ing".
Proof.
  destruct (newIngressDNSController_starts (Some (Some ["io"; "x.io"])) "fed" "" "a.x.io" tt tt
    (Ok (mkController "fed" "ing" "a.x.io" "x.io"))) as (_&_&Hf&_&Hs&_); [vm_compute; reflexivity|].
  exists (mkController "fed" "ing" "a.x.io" "x.io"). split; [vm_compute; reflexivity|]. exact (conj Hf Hs).
Defined.
End IngressDnsExamples.
