(* ===== verification/IngressDnsProcess.v ===== *)
(** One ingress, all of its clusters: what a worker of the DNS controller leaves behind when
    it has processed an ingress, with a provider that keeps its contract and is up.  The
    names of different clusters overlap (clusters of a region share its name, all share the
    global one), so that a later cluster could undo what was ensured for an earlier one;
    with one zone per cluster it does not. *)

From S2P Require Import Prelude GoStrings GoNet KubeTypes LbStatus DnsProvider WorkQueue DnsUtil IngressDns IngressDnsFacts.
From Stdlib Require Import Ascii.

(** ** Names *)

Definition dotless (s : string) : Prop := free_of "."%char s = true.

Section names.
Context {Zone : Type} (idc : IngressDNSController Zone) (ing : Ingress).

Lemma zone_dns_inj z z' r r' :
  dotless z → dotless z' → dotless r → dotless r' →
  zone_dns idc ing z r = zone_dns idc ing z' r' → z = z' ∧ r = r'.
Proof.
  unfold zone_dns. rewrite !Join_cons2. intros Hz Hz' Hr Hr' E%(inj _)%(inj _).
  apply app_sep_inj in E as [-> E]; [|done..]. by apply app_sep_inj in E as [-> _].
Qed.

Lemma region_dns_inj r r' :
  dotless r → dotless r' → region_dns idc ing r = region_dns idc ing r' → r = r'.
Proof.
  unfold region_dns. rewrite !Join_cons2. intros Hr Hr' E%(inj _)%(inj _).
  by apply app_sep_inj in E as [-> _].
Qed.

Lemma zone_region_differ z r r' :
  dotless z → dotless r' → zone_dns idc ing z r ≠ region_dns idc ing r'.
Proof.
  unfold zone_dns, region_dns. rewrite !Join_cons2. intros Hz Hr E%(inj _)%(inj _).
  apply app_sep_inj in E as [_ E]; [|done..]. apply (f_equal String.length) in E.
  rewrite !length_app_string in E. cbn in E. lia.
Qed.

Lemma global_differs z r :
  zone_dns idc ing z r ≠ global_dns idc ing ∧ region_dns idc ing r ≠ global_dns idc ing.
Proof.
  unfold zone_dns, region_dns, global_dns.
  split; intros E; apply (f_equal String.length) in E; rewrite !length_Join_cons in E;
    cbn [Join String.length] in E; lia.
Qed.
End names.

(** ** One cluster after another *)

Section process.
Context {St Zone RRset CS : Type} `{Z : ZoneRrsets St Zone RRset CS} `{!ZoneLaws St Zone RRset CS}
  `{Resolver} `{StableClusters St} `{O : MapOrder}.
Context (idc : IngressDNSController Zone) (ing : Ingress) (m : gmap string (list LoadBalancerStatus)).

(** A cluster in one zone, with names that have no dots. *)
Definition one_zone (cn : string) (cl : Cluster) (zone : string) : Prop :=
  registry cn = Ok cl ∧ Zones cl = Some [zone] ∧ dotless zone ∧ dotless (Region cl).

(** An ingress whose annotation says [m], all of whose addresses can be used. *)
Record publishable : Prop := {
  pb_live : DeletionTimestamp (ing_meta ing) = None;
  pb_wants : wantsDNSRecords ing = true;
  pb_parse : parseGlobalLbStatusAnnotation ing = Ok (Some m);
  pb_address : ∀ c lb, lb_in (map_to_list m) c lb → lb_address lb ≠ "";
  pb_resolvable : ∀ a, addresses (map_to_list m) (λ _, True) a → resolvable a;
  pb_zone : ∀ cn, cn ∈ dom m → ∃ cl zone, one_zone cn cl zone
}.

(** The three names of a cluster hold what they should. *)
Definition placed (s : St) (cn : string) : Prop :=
  ∃ cl zone e, one_zone cn cl zone ∧ levels m [zone] (Region cl) e ∧
    ensured s (dnsZone idc) (zone_dns idc ing zone (Region cl)) e.1.1 (region_dns idc ing (Region cl)) ∧
    ensured s (dnsZone idc) (region_dns idc ing (Region cl)) e.1.2 (global_dns idc ing) ∧
    ensured s (dnsZone idc) (global_dns idc ing) e.2 "".

(** A name that is none of those of the annotation's clusters. *)
Definition foreign (name : string) : Prop :=
  name ≠ global_dns idc ing ∧
  ∀ cn cl zone, cn ∈ dom m → one_zone cn cl zone →
    name ≠ zone_dns idc ing zone (Region cl) ∧ name ≠ region_dns idc ing (Region cl).
Definition foreign_kept (s s' : St) : Prop :=
  ∀ name, foreign name → zone_lookup s' (dnsZone idc) name ≡ₚ zone_lookup s (dnsZone idc) name.

Lemma foreign_kept_trans s1 s2 s3 : foreign_kept s1 s2 → foreign_kept s2 s3 → foreign_kept s1 s3.
Proof. intros K1 K2 name Hn. by rewrite (K2 name Hn), (K1 name Hn). Qed.

Context (P : publishable).

Lemma publishable_complete : complete (map_to_list m).
Proof.
  split; [|apply (pb_address P)]. intros c lbs Hc%elem_of_map_to_list.
  destruct (pb_zone P c) as (cl&zone&Hr&_); [by apply elem_of_dom; eexists|]. by exists cl.
Qed.

Lemma levels_resolvable zn rn e :
  levels m zn rn e → Forall resolvable e.1.1 ∧ Forall resolvable e.1.2 ∧ Forall resolvable e.2.
Proof.
  intros He. rewrite !Forall_forall. split_and!; intros a Ha; apply (pb_resolvable P), (He a) in Ha || idtac;
    apply (pb_resolvable P); apply (He a) in Ha; [by eapply addresses_any..|done].
Qed.

(** What one turn of the worker's loop runs. *)
Lemma ensureDNSRecords_levels cn cl zone s :
  cn ∈ dom m → one_zone cn cl zone →
  ∃ e, levels m [zone] (Region cl) e ∧
    ensureDNSRecords idc cn ing s = ensure_levels idc (dnsNames idc ing zone (Region cl)) [e.1.1; e.1.2; e.2] s.
Proof.
  intros Hcn (Hr&Hz&_). unfold ensureDNSRecords. rewrite (bind_val _ _ _ _ _ (getClusterZoneNames_run cn s)), Hr, Hz.
  destruct (getHealthyEndpoints_run cn ing cl m s Hr (pb_live P) (pb_parse P)) as (r&E&Hl).
  rewrite (bind_val _ _ _ _ _ E). destruct r as [[[z r] g]|e]; [|by destruct Hl; apply publishable_complete].
  rewrite Hz in Hl. exists (z, r, g). split; [apply Hl|done].
Qed.

Lemma ensure_levels_other zone region z r g s s' name :
  ensure_levels idc (dnsNames idc ing zone region) [z; r; g] s = (Val None, s') →
  name ≠ zone_dns idc ing zone region → name ≠ region_dns idc ing region → name ≠ global_dns idc ing →
  zone_lookup s' (dnsZone idc) name ≡ₚ zone_lookup s (dnsZone idc) name.
Proof.
  intros (s1&E1&(s2&E2&(s3&E3&E4)%ensure_levels_val)%ensure_levels_val)%ensure_levels_val N1 N2 N3.
  cbn in E4. injection E4 as <-.
  apply EnsureDNSRrsets_post in E1 as (_&_&O1), E2 as (_&_&O2), E3 as (_&_&O3).
  by rewrite O3, O2, O1.
Qed.

Context (I : St → Prop) (up : provider_up I (dnsZone idc)).

Lemma ensure_levels_up zone region z r g s :
  Forall resolvable z → Forall resolvable r → Forall resolvable g → I s →
  ∃ s', ensure_levels idc (dnsNames idc ing zone region) [z; r; g] s = (Val None, s') ∧ I s'.
Proof.
  intros Hz Hr Hg HI. unfold dnsNames. rewrite ensure_levels_cons.
  destruct (EnsureDNSRrsets_up I _ (zone_dns idc ing zone region) z (region_dns idc ing region) s up HI) as (r1&s1&E1&HI1&R1&_).
  rewrite (bind_val _ _ _ _ _ E1), (R1 Hz), ensure_levels_cons.
  destruct (EnsureDNSRrsets_up I _ (region_dns idc ing region) r (global_dns idc ing) s1 up HI1) as (r2&s2&E2&HI2&R2&_).
  rewrite (bind_val _ _ _ _ _ E2), (R2 Hr), ensure_levels_cons.
  destruct (EnsureDNSRrsets_up I _ (global_dns idc ing) g "" s2 up HI2) as (r3&s3&E3&HI3&R3&_).
  rewrite (bind_val _ _ _ _ _ E3), (R3 Hg). by exists s3.
Qed.

(** A turn of the loop places its cluster, and no other cluster loses its place. *)
Lemma ensureDNSRecords_places cn s :
  cn ∈ dom m → I s →
  ∃ s', ensureDNSRecords idc cn ing s = (Val None, s') ∧ I s' ∧ placed s' cn ∧
    (∀ cn', placed s cn' → placed s' cn') ∧ foreign_kept s s'.
Proof.
  intros Hcn HI. destruct (pb_zone P cn Hcn) as (cl&zone&Ho).
  destruct (ensureDNSRecords_levels cn cl zone s Hcn Ho) as (e&He&E).
  destruct (levels_resolvable _ _ _ He) as (R1&R2&R3).
  destruct (ensure_levels_up zone (Region cl) _ _ _ s R1 R2 R3 HI) as (s'&Es&HI').
  rewrite E. exists s'. split; [exact Es|]. split; [done|].
  pose proof (ensure_levels_post idc ing zone (Region cl) _ _ _ _ _ Es) as (P1&P2&P3).
  split; [by exists cl, zone, e|]. split.
  2:{ intros name [Hg Hn]. destruct (Hn cn cl zone Hcn Ho). by eapply ensure_levels_other. }
  intros cn' (cl'&zone'&e'&Ho'&He'&Q1&Q2&Q3).
  destruct Ho as (_&_&Dz&Dr). pose proof Ho' as (_&_&Dz'&Dr').
  assert (∀ n es up, n ≠ zone_dns idc ing zone (Region cl) → n ≠ region_dns idc ing (Region cl) → n ≠ global_dns idc ing →
    ensured s (dnsZone idc) n es up → ensured s' (dnsZone idc) n es up) as Hother
    by (intros n es u ???; apply ensured_perm; eapply ensure_levels_other; [exact Es|done..]).
  exists cl', zone', e'. split; [exact Ho'|]. split; [exact He'|]. split_and!.
  - destruct (decide (zone = zone' ∧ Region cl = Region cl')) as [[<- <-]|Hne].
    + eapply ensured_ext; [exact R1| |exact P1]. intros a. by rewrite (proj1 (He a)), (proj1 (He' a)).
    + apply Hother; [|by apply zone_region_differ|apply global_differs|done].
      intros Hn. apply Hne. apply zone_dns_inj in Hn as [-> ->]; done.
  - destruct (decide (Region cl = Region cl')) as [Hreg|Hne].
    + rewrite <-Hreg. eapply ensured_ext; [exact R2| |exact P2]. intros a.
      by rewrite (proj1 (proj2 (He a))), (proj1 (proj2 (He' a))), Hreg.
    + apply Hother; [by apply not_eq_sym, zone_region_differ| |apply (global_differs idc ing zone)|done].
      intros Hn. apply Hne. symmetry. by eapply region_dns_inj.
  - eapply ensured_ext; [exact R3| |exact P3]. intros a.
    by rewrite (proj2 (proj2 (He a))), (proj2 (proj2 (He' a))).
Qed.

Lemma loop_places (l : list (string * list LoadBalancerStatus)) s :
  (∀ c lbs, (c, lbs) ∈ l → c ∈ dom m) → I s →
  ∃ s', for_each l (λ entry, ensureDNSRecords idc entry.1 ing ≫= λ _, mret tt) s = (Val tt, s') ∧ I s' ∧
    (∀ c lbs, (c, lbs) ∈ l → placed s' c) ∧ (∀ cn, placed s cn → placed s' cn) ∧ foreign_kept s s'.
Proof.
  revert s. induction l as [|[c lbs] l IH]; intros s Hl HI; [exists s; split_and!; [done|done|set_solver|done|by intros ?]|].
  cbn [for_each].
  destruct (ensureDNSRecords_places c s (Hl c lbs ltac:(set_solver)) HI) as (s1&E1&HI1&Hc&Hk&Hf).
  destruct (IH s1) as (s2&E2&HI2&Hp&Hk2&Hf2); [intros c' lbs' ?; apply (Hl c' lbs'); set_solver|done|].
  exists s2. split.
  - rewrite (bind_val _ _ s tt s1); [exact E2|]. by rewrite (bind_val _ _ _ _ _ E1).
  - split; [done|]. split; [|split; [auto|by eapply foreign_kept_trans]]. intros c' lbs' [[= -> ->]|?]%elem_of_cons; eauto.
Qed.

Lemma process_places s :
  I s → ∃ s', process idc ing s = (Val tt, s') ∧ I s' ∧
    (∀ cn, cn ∈ dom m → placed s' cn) ∧ foreign_kept s s'.
Proof.
  intros HI. unfold process. rewrite (pb_wants P), (pb_parse P). cbn [negb].
  destruct (loop_places (range_map None m) s) as (s'&E&HI'&Hp&_&Hf); [|done|].
  - intros c lbs Hc. rewrite (range_map_perm None m) in Hc. apply elem_of_map_to_list in Hc. apply elem_of_dom. eauto.
  - exists s'. split; [exact E|]. split; [done|]. split; [|done]. intros cn [lbs Hcn]%elem_of_dom.
    apply (Hp cn lbs). rewrite (range_map_perm None m). by apply elem_of_map_to_list.
Qed.
End process.

(** ** Names of other ingresses *)

Section others.
Context {St Zone RRset CS : Type} `{Z : ZoneRrsets St Zone RRset CS} `{!ZoneLaws St Zone RRset CS}
  `{Resolver} `{StableClusters St} `{O : MapOrder}.
Context (idc : IngressDNSController Zone) (ing : Ingress).
Context (I : St → Prop) (up : provider_up I (dnsZone idc)).
Context (zones_listed : ∀ cn cl, registry cn = Ok cl → Zones cl ≠ Some []).

(** A name that the ingress does not use, whatever clusters there are. *)
Definition unused (name : string) : Prop :=
  ∀ zone region, name ≠ zone_dns idc ing zone region ∧ name ≠ region_dns idc ing region ∧ name ≠ global_dns idc ing.

(** Code that gets through and leaves unused names alone. *)
Definition minds {A} (m : M St A) : Prop := ∀ s, I s → ∃ a s', m s = (Val a, s') ∧ I s' ∧
  ∀ name, unused name → zone_lookup s' (dnsZone idc) name ≡ₚ zone_lookup s (dnsZone idc) name.

Lemma minds_ret {A} (a : A) : minds (mret a).
Proof. intros s HI. by exists a, s. Qed.

Lemma minds_bind {A B} (m : M St A) (f : A → M St B) : minds m → (∀ a, minds (f a)) → minds (m ≫= f).
Proof.
  intros Hm Hf s HI. destruct (Hm s HI) as (a&s1&E1&HI1&K1). destruct (Hf a s1 HI1) as (b&s2&E2&HI2&K2).
  exists b, s2. split; [by rewrite (bind_val _ _ _ _ _ E1)|]. split; [done|]. intros name Hn. by rewrite K2, K1.
Qed.

Lemma minds_ensure name es u : ¬ unused name → minds (EnsureDNSRrsets (dnsZone idc) name es u).
Proof.
  intros Hn s HI. destruct (EnsureDNSRrsets_up I (dnsZone idc) name es u s up HI) as (r&s'&E&HI'&_&K).
  exists r, s'. split_and!; [done..|]. intros name' Hu. apply K. by intros ->.
Qed.

Lemma minds_levels zone region z r g : minds (ensure_levels idc (dnsNames idc ing zone region) [z; r; g]).
Proof.
  unfold dnsNames.
  do 3 (rewrite ensure_levels_cons; apply minds_bind; [apply minds_ensure; intros Hu; by destruct (Hu zone region) as (?&?&?)|];
    intros [e|]; [apply minds_ret|]).
  apply minds_ret.
Qed.

Lemma minds_ensureDNSRecords cn m : parseGlobalLbStatusAnnotation ing = Ok (Some m) → minds (ensureDNSRecords idc cn ing).
Proof.
  intros Hp s. revert s. unfold ensureDNSRecords. intros s HI.
  rewrite (bind_val _ _ _ _ _ (getClusterZoneNames_run cn s)).
  destruct (registry cn) as [cl|e] eqn:Hcl; [|by apply minds_ret].
  destruct (Zones cl) as [zs|] eqn:Hz; [|by apply minds_ret].
  destruct (getHealthyEndpoints_val cn ing cl m s Hcl Hp) as [r E].
  rewrite (bind_val _ _ _ _ _ E). destruct r as [[[z r] g]|e]; [|by apply minds_ret].
  destruct zs as [|zone rest]; [by destruct (zones_listed cn cl Hcl)|]. by apply minds_levels.
Qed.

Lemma minds_process : minds (process idc ing).
Proof.
  unfold process. destruct (wantsDNSRecords ing); [|apply minds_ret]. cbn [negb].
  destruct (parseGlobalLbStatusAnnotation ing) as [[m|]|e] eqn:Hp; [|apply minds_ret..].
  induction (range_map None m) as [|[c lbs] l IH]; cbn [for_each]; [apply minds_ret|].
  apply minds_bind; [|done]. apply minds_bind; [by eapply minds_ensureDNSRecords|intros; apply minds_ret].
Qed.
End others.

(** ** Properties *)

(** C3: a worker puts all the names of an ingress right at once: when the annotation can be
    used (every cluster is in one zone, every address resolves) and the provider is up, then
    after the loop over the clusters the zone, region and global name of every cluster of
    the annotation hold the addresses of their level, whatever the order of the loop, and
    the record sets of all other names are left alone, those of clusters that are no longer
    in the annotation included. *)
Theorem process_correct {St Zone RRset CS : Type} `{Z : ZoneRrsets St Zone RRset CS} `{!ZoneLaws St Zone RRset CS}
    `{Resolver} `{StableClusters St} `{O : MapOrder} (idc : IngressDNSController Zone) (ing : Ingress)
    (m : gmap string (list LoadBalancerStatus)) (I : St → Prop) (s : St) :
  publishable (St := St) ing m → provider_up I (dnsZone idc) → I s →
  ∃ s', process idc ing s = (Val tt, s') ∧ I s' ∧
    (∀ cn, cn ∈ dom m → placed idc ing m s' cn) ∧ foreign_kept idc ing m s s'.
Proof. intros P up. by apply process_places. Qed.

(** ** The theorem at work *)

Module IngressDnsProcessExamples.
Import LbStatusExamples IngressDnsExamples.
#[local] Existing Instances MemZone.ops MemZone.rrsets MemZone.laws.
#[local] Existing Instances resolver stable key_order.
#[local] Instance known_clusters : FedClusters MemZone.St := fed.

Lemma annotated_publishable : publishable (St := MemZone.St) annotated statuses.
Proof.
  split; [reflexivity|vm_compute; reflexivity|exact annotated_parse|..].
  - apply statuses_complete.
  - intros a [-> | ->]%statuses_complete; eexists; vm_compute; reflexivity.
  - intros cn Hcn. assert (cn = "c1" ∨ cn = "c2") as [-> | ->] by (unfold statuses in Hcn; set_solver).
    + exists (cluster "c1" "z1" "r1"), "z1". split_and!; vm_compute; reflexivity.
    + exists (cluster "c2" "z2" "r1"), "z2". split_and!; vm_compute; reflexivity.
Qed.

Lemma reachable_up : provider_up (St := MemZone.St) (λ s, MemZone.reachable s = true) (dnsZone idc).
Proof. split; [done|]. intros cs [rs up] Hup. cbn in Hup. subst up. by eexists. Qed.

Lemma process_correct_witness :
  ∃ s', process idc annotated empty_zone = (Val tt, s') ∧ MemZone.reachable s' = true ∧
    (∀ cn, cn ∈ dom statuses → placed idc annotated statuses s' cn) ∧
    foreign_kept idc annotated statuses empty_zone s'.
Proof. exact (process_correct idc annotated statuses _ empty_zone annotated_publishable reachable_up eq_refl). Defined.

(** The records it leaves: one A record per zone, both addresses for the region and
    globally. *)
Definition processed : MemZone.St := Eval vm_compute in (process idc annotated empty_zone).2.
Example processed_records :
  (λ r, (MemZone.name r, MemZone.rrdatas r)) <$> MemZone.records processed =
  [("w.ns.fed.ing.z1.r1.x.io", ["10.0.0.1"]); ("w.ns.fed.ing.r1.x.io", ["10.0.0.1"; "9.9.9.9"]);
   ("w.ns.fed.ing.x.io", ["10.0.0.1"; "9.9.9.9"]); ("w.ns.fed.ing.z2.r1.x.io", ["9.9.9.9"])].
Proof. vm_compute. reflexivity. Qed.

(** When the load balancer of a cluster is gone, its zone name is not looked at again: the
    address stays. *)
Definition without_c1 : Ingress :=
  ing_with_meta (with_annotations
    (Some {[ globalIngressLBStatus := BuildGlobalLbStatusAnnotation (delete "c1" statuses) ]}) (ing_meta annotated)) annotated.
Example lost_cluster_keeps_records :
  (filter (λ r, MemZone.rrdatas r = ["10.0.0.1"]) (MemZone.records (process idc without_c1 processed).2)) =
  [MemZone.mkRRset "w.ns.fed.ing.z1.r1.x.io" ["10.0.0.1"] 180 "A"].
Proof. vm_compute. reflexivity. Qed.

(** Clusters in several zones: two of them write under the name of their common first zone,
    and the one that comes last in Go's map order wins. *)
Definition zoned (zones : list string) (n : string) : Cluster :=
  mkCluster (mkObjectMeta n "" "" "" None None None [] "") "" [] (Some zones) "r1".
#[local] Instance multi_zone : FedClusters MemZone.St := {|
  Clusters_Get n := mret (Ok (zoned (if bool_decide (n = "c1") then ["z1"; "z2"]
                                      else if bool_decide (n = "c2") then ["z1"] else ["z2"]) n)) |}.
Definition three : gmap string (list LoadBalancerStatus) := <["c3" := [mkLBS [mkLBI "10.0.0.3" ""]]]> statuses.
Definition annotated3 : Ingress :=
  ing_with_meta (with_annotations (Some {[ globalIngressLBStatus := BuildGlobalLbStatusAnnotation three ]})
    (ing_meta annotated)) annotated.
Definition under_z1 (O : MapOrder) : list (list string) :=
  MemZone.rrdatas <$> zone_lookup (process (O := O) idc annotated3 empty_zone).2 tt "w.ns.fed.ing.z1.r1.x.io".
Example last_cluster_wins :
  under_z1 key_order = [["10.0.0.1"; "9.9.9.9"]] ∧
  under_z1 reverse_order = [["10.0.0.1"; "10.0.0.3"; "9.9.9.9"]].
Proof. split; vm_compute; reflexivity. Qed.
End IngressDnsProcessExamples.
