(* ===== verification/Handlers.v ===== *)
(** The event handlers of the informers, [federation-controller/util/handlers.go]: what a
    controller is told about the objects it watches. *)

From S2P Require Import Prelude.

(** What an informer tells its handler.  When a deletion was missed while the watch was down,
    the object is wrapped in a [cache.DeletedFinalStateUnknown] with its last known state. *)
Inductive watch_event (A : Type) :=
  | Added (cur : A)
  | Updated (old cur : A)
  | Deleted (old : A)
  | DeletedUnknown (last : A).
Arguments Added {A} cur.
Arguments Updated {A} old cur.
Arguments Deleted {A} old.
Arguments DeletedUnknown {A} last.

Section trigger.
Context {St A : Type} (DeepEqual : A → A → bool).

(** [NewTriggerOnAllChanges]: an update that changes nothing (a resync) is not a change; the
    wrapper of a missed deletion is not an object, which the type assertion finds out. *)
Definition NewTriggerOnAllChanges (triggerFunc : A → M St unit) (e : watch_event A) : M St unit :=
  match e with
  | Deleted oldObj => triggerFunc oldObj
  | DeletedUnknown _ => go_panic "interface conversion: cache.DeletedFinalStateUnknown is not runtime.Object"
  | Added curObj => triggerFunc curObj
  | Updated old curObj => if negb (DeepEqual old curObj) then triggerFunc curObj else mret tt
  end.

(** The object a handler is called with. *)
Definition changed_object (e : watch_event A) : option A :=
  match e with
  | Deleted obj | Added obj => Some obj
  | DeletedUnknown _ => None
  | Updated old cur => if DeepEqual old cur then None else Some cur
  end.

Lemma trigger_run f e (s s' : St) :
  NewTriggerOnAllChanges f e s = (Val tt, s') →
  match changed_object e with Some obj => f obj s = (Val tt, s') | None => s' = s end.
Proof.
  destruct e as [c|o c|d|d]; cbn; [done| |done|done].
  destruct (DeepEqual o c); cbn; [by intros [= <-]|done].
Qed.
End trigger.

(** [reflect.DeepEqual] of values. *)
Definition value_equal {A} `{EqDecision A} (a b : A) : bool := bool_decide (a = b).
