(* ===== verification/Informer.v ===== *)
(** An informer of client-go, [cache.NewInformer]: the store of the objects it knows, and the
    queue of changes, a [DeltaFIFO], between the reflector, which lists and watches the API
    server, and the loop that applies the changes to the store and tells a handler.
    [client-go/tools/cache/delta_fifo.go], [controller.go] and [reflector.go].
    [NewIndexerInformer], which the DNS controller uses, does the same with an indexed store.

    Every operation of the queue holds its lock, and the store is only written while a change
    is processed, under the same lock: each operation is one step. *)

From S2P Require Import Prelude KubeTypes Handlers.

(** [DeltaType]. *)
Inductive DeltaType := DAdded | DUpdated | DDeleted | DSync.
#[export] Instance DeltaType_eq_dec : EqDecision DeltaType.
Proof. solve_decision. Defined.

(** The object of a delta, or the [cache.DeletedFinalStateUnknown] that stands for it. *)
Inductive delta_object (A : Type) :=
  | Object (o : A)
  | DeletedFinalStateUnknown (Key : string) (Obj : option A).
Arguments Object {A} o.
Arguments DeletedFinalStateUnknown {A} Key Obj.

(** [Delta]; a [Deltas] is a list of them, the oldest first. *)
Record Delta (A : Type) := mkDelta { delta_Type : DeltaType; delta_Object : delta_object A }.
Arguments mkDelta {A} _ _.
Arguments delta_Type {A} _.
Arguments delta_Object {A} _.
Abbreviation Deltas A := (list (Delta A)).

(** [DeltaFIFO], with no compressor. *)
Record DeltaFIFO (A : Type) := mkDeltaFIFO {
  items : gmap string (Deltas A);
  queue : list string;
  populated : bool;
  initialPopulationCount : nat
}.
Arguments mkDeltaFIFO {A} _ _ _ _.
Arguments items {A} _.
Arguments queue {A} _.
Arguments populated {A} _.
Arguments initialPopulationCount {A} _.

(** What [NewInformer] makes: the store [clientState] and the queue [fifo]. *)
Record informer (A : Type) := mkInf { clientState : gmap string A; fifo : DeltaFIFO A }.
Arguments mkInf {A} _ _.
Arguments clientState {A} _.
Arguments fifo {A} _.

(** The calls of a [ResourceEventHandler]. *)
Inductive notification (A : Type) :=
  | OnAdd (obj : A)
  | OnUpdate (oldObj newObj : A)
  | OnDelete (obj : delta_object A).
Arguments OnAdd {A} obj.
Arguments OnUpdate {A} oldObj newObj.
Arguments OnDelete {A} obj.

(** What a notification of the informer is for the handler. *)
Definition watch_event_of {A} (n : notification A) : option (watch_event A) :=
  match n with
  | OnAdd o => Some (Added o)
  | OnUpdate old new => Some (Updated old new)
  | OnDelete (Object o) => Some (Deleted o)
  | OnDelete (DeletedFinalStateUnknown _ o) => DeletedUnknown <$> o
  end.

(** What the reflector does, and one turn of [processLoop]. *)
Inductive op (A : Type) :=
  | WatchAdded (obj : A)
  | WatchModified (obj : A)
  | WatchDeleted (obj : A)
  | Relist (objs : list A)
  | ResyncTimer
  | ProcessOne.
Arguments WatchAdded {A} obj.
Arguments WatchModified {A} obj.
Arguments WatchDeleted {A} obj.
Arguments Relist {A} objs.
Arguments ResyncTimer {A}.
Arguments ProcessOne {A}.

Section delta_fifo.
Context {A : Type} `{GoMapOrder} (keyFunc : A → string).
Implicit Types (f : DeltaFIFO A) (i : informer A) (d : Delta A) (ds : Deltas A) (s : gmap string A).

(** [KeyOf], and [DeletionHandlingMetaNamespaceKeyFunc] of the store. *)
Definition KeyOf (obj : delta_object A) : string :=
  match obj with Object o => keyFunc o | DeletedFinalStateUnknown k _ => k end.

(** [HasSynced]. *)
Definition HasSynced f : bool := populated f && bool_decide (initialPopulationCount f = 0).

(** [isDeletionDup] and [dedupDeltas]: of two deletions in a row one is kept. *)
Definition isDeletionDup (a b : Delta A) : option (Delta A) :=
  if bool_decide (delta_Type b ≠ DDeleted) || bool_decide (delta_Type a ≠ DDeleted) then None
  else match delta_Object b with DeletedFinalStateUnknown _ _ => Some a | Object _ => Some b end.
Definition dedupDeltas (deltas : Deltas A) : Deltas A :=
  match reverse deltas with
  | a :: b :: older => match isDeletionDup a b with Some out => reverse older ++ [out] | None => deltas end
  | _ => deltas
  end.

(** [willObjectBeDeletedLocked]. *)
Definition willObjectBeDeletedLocked (id : string) f : bool :=
  match last (default [] (items f !! id)) with Some d => bool_decide (delta_Type d = DDeleted) | None => false end.

(** [queueActionLocked]. *)
Definition queueActionLocked (actionType : DeltaType) (obj : delta_object A) f : DeltaFIFO A :=
  let id := KeyOf obj in
  if bool_decide (actionType = DSync) && willObjectBeDeletedLocked id f then f
  else
    let newDeltas := dedupDeltas (default [] (items f !! id) ++ [mkDelta actionType obj]) in
    let exists_ := bool_decide (is_Some (items f !! id)) in
    if bool_decide (0 < length newDeltas)
    then mkDeltaFIFO (<[id := newDeltas]> (items f)) (if exists_ then queue f else queue f ++ [id])
           (populated f) (initialPopulationCount f)
    else if exists_
    then mkDeltaFIFO (delete id (items f)) (queue f) (populated f) (initialPopulationCount f)
    else f.

Definition set_populated f : DeltaFIFO A := mkDeltaFIFO (items f) (queue f) true (initialPopulationCount f).

(** [Add], [Update] and [Delete]; [knownObjects] is the store of the informer. *)
Definition Add (obj : A) f : DeltaFIFO A := queueActionLocked DAdded (Object obj) (set_populated f).
Definition Update (obj : A) f : DeltaFIFO A := queueActionLocked DUpdated (Object obj) (set_populated f).
Definition Delete (knownObjects : gmap string A) (obj : A) f : DeltaFIFO A :=
  let id := KeyOf (Object obj) in
  let f := set_populated f in
  if bool_decide (is_Some (knownObjects !! id)) || bool_decide (is_Some (items f !! id))
  then queueActionLocked DDeleted (Object obj) f
  else f.

(** The loops of [Replace]: over the list, and over the keys of the known objects. *)
Definition replace_sync (list_ : list A) f : DeltaFIFO A :=
  foldl (λ f item, queueActionLocked DSync (Object item) f) f list_.
Definition replace_keys (list_ : list A) : gset string := list_to_set (keyFunc <$> list_).
Definition missing_keys (knownObjects : gmap string A) (keys : gset string) : list string :=
  filter (λ k, k ∉ keys) (range_order knownObjects).*1.
Definition replace_deleted (knownObjects : gmap string A) (missing : list string) f : DeltaFIFO A :=
  foldl (λ f k, queueActionLocked DDeleted (DeletedFinalStateUnknown k (knownObjects !! k)) f) f missing.
(** [Replace]. *)
Definition Replace (knownObjects : gmap string A) (list_ : list A) f : DeltaFIFO A :=
  let missing := missing_keys knownObjects (replace_keys list_) in
  let f := replace_deleted knownObjects missing (replace_sync list_ f) in
  if populated f then f
  else mkDeltaFIFO (items f) (queue f) true (length list_ + length missing).

(** [syncKeyLocked] and [Resync]. *)
Definition syncKeyLocked (knownObjects : gmap string A) (key : string) f : DeltaFIFO A :=
  match knownObjects !! key with
  | None => f
  | Some obj =>
      let id := KeyOf (Object obj) in
      if bool_decide (0 < length (default [] (items f !! id))) then f
      else queueActionLocked DSync (Object obj) f
  end.
Definition Resync (knownObjects : gmap string A) f : DeltaFIFO A :=
  foldl (λ f k, syncKeyLocked knownObjects k f) f (range_order knownObjects).*1.

(** [Pop] up to the call of [process]: keys without an item are dropped; [None] is a queue
    in which nothing is left, on which [Pop] waits. *)
Fixpoint pop_loop (q : list string) f : option (Deltas A) * DeltaFIFO A :=
  match q with
  | [] => (None, mkDeltaFIFO (items f) [] (populated f) (initialPopulationCount f))
  | id :: q =>
      let f := mkDeltaFIFO (items f) q (populated f) (initialPopulationCount f - 1) in
      match items f !! id with
      | None => pop_loop q f
      | Some item => (Some item, mkDeltaFIFO (delete id (items f)) q (populated f) (initialPopulationCount f))
      end
  end.
Definition Pop f : option (Deltas A) * DeltaFIFO A := pop_loop (queue f) f.

(** [Process]: a delta changes the store, then the handler is told.  [Replace] alone makes
    a [DeletedFinalStateUnknown], and only for a deletion ([delta_ok] below). *)
Definition process_delta (d : Delta A) s : gmap string A * list (notification A) :=
  match delta_Type d, delta_Object d with
  | DDeleted, obj => (delete (KeyOf obj) s, [OnDelete obj])
  | _, Object o =>
      (<[keyFunc o := o]> s,
       [match s !! keyFunc o with Some old => OnUpdate old o | None => OnAdd o end])
  | _, DeletedFinalStateUnknown _ _ => (s, [])
  end.
Fixpoint process ds s : gmap string A * list (notification A) :=
  match ds with
  | [] => (s, [])
  | d :: ds =>
      let '(s1, n1) := process_delta d s in
      let '(s2, n2) := process ds s1 in (s2, n1 ++ n2)
  end.

(** One operation on the informer, with the calls of the handler. *)
Definition step (o : op A) i : informer A * list (notification A) :=
  let s := clientState i in
  match o with
  | WatchAdded obj => (mkInf s (Add obj (fifo i)), [])
  | WatchModified obj => (mkInf s (Update obj (fifo i)), [])
  | WatchDeleted obj => (mkInf s (Delete s obj (fifo i)), [])
  | Relist objs => (mkInf s (Replace s objs (fifo i)), [])
  | ResyncTimer => (mkInf s (Resync s (fifo i)), [])
  | ProcessOne =>
      match Pop (fifo i) with
      | (None, f) => (mkInf s f, [])
      | (Some item, f) => let '(s', notes) := process item s in (mkInf s' f, notes)
      end
  end.
Fixpoint run (ops : list (op A)) i : informer A * list (notification A) :=
  match ops with
  | [] => (i, [])
  | o :: ops => let '(i1, n1) := step o i in let '(i2, n2) := run ops i1 in (i2, n1 ++ n2)
  end.

(** [NewInformer]. *)
Definition NewInformer : informer A := mkInf ∅ (mkDeltaFIFO ∅ [] false 0).
End delta_fifo.
Arguments NewInformer {A}.

(** ** Well-formed queues *)

Section facts.
Context {A : Type} `{GoMapOrder} (keyFunc : A → string).
Implicit Types (f : DeltaFIFO A) (i : informer A) (d : Delta A) (ds : Deltas A) (s : gmap string A).

(** A delta filed under [k]; the object of a missed deletion is known. *)
Definition delta_ok (k : string) d : Prop :=
  match delta_Object d with
  | Object o => keyFunc o = k
  | DeletedFinalStateUnknown k' o => delta_Type d = DDeleted ∧ k' = k ∧ ∃ x, o = Some x ∧ keyFunc x = k
  end.

(** The queue has exactly the keys with deltas, each once. *)
Record fifo_ok f : Prop := {
  ok_queue : NoDup (queue f);
  ok_items : ∀ k, k ∈ queue f ↔ is_Some (items f !! k);
  ok_deltas : map_Forall (λ k ds, ds ≠ [] ∧ Forall (delta_ok k) ds) (items f)
}.
Definition keyed s : Prop := map_Forall (λ k o, keyFunc o = k) s.

(** What a delta leaves in the store under its key. *)
Definition effect d : option A :=
  match delta_Type d, delta_Object d with
  | DDeleted, _ | _, DeletedFinalStateUnknown _ _ => None
  | _, Object o => Some o
  end.
(** What the store will hold under [k] once the queue is worked off. *)
Definition expected s f (k : string) : option A :=
  match items f !! k with Some ds => last ds ≫= effect | None => s !! k end.

Lemma dedup_spec ds d : ∃ ds' d', dedupDeltas (ds ++ [d]) = ds' ++ [d'] ∧ delta_Type d' = delta_Type d ∧
  effect d' = effect d ∧ ∀ P : Delta A → Prop, Forall P (ds ++ [d]) → Forall P (ds' ++ [d']).
Proof.
  unfold dedupDeltas. rewrite reverse_app. cbn. destruct (reverse ds) as [|b older] eqn:E; cbn; [by exists ds, d|].
  assert (ds = reverse older ++ [b]) as -> by (by rewrite <-(reverse_involutive ds), E, reverse_cons).
  unfold isDeletionDup. case_bool_decide as Hb; [by exists (reverse older ++ [b]), d|].
  case_bool_decide as Ha; [by exists (reverse older ++ [b]), d|]. cbn [orb].
  destruct (delta_Object b) as [o|k o] eqn:Eo.
  - exists (reverse older), b. split_and!; [done|congruence|by unfold effect; rewrite Ha, Hb|].
    intros P [Hp _]%Forall_app. done.
  - exists (reverse older), d. split_and!; [done|done|done|].
    intros P [[Hp _]%Forall_app Hd]%Forall_app. by apply Forall_app.
Qed.

(** The last delta of a key with deltas. *)
Lemma last_delta f k : fifo_ok f → is_Some (items f !! k) → ∃ ds d, items f !! k = Some (ds ++ [d]) ∧ Forall (delta_ok k) (ds ++ [d]).
Proof.
  intros Hok [ds E]. destruct (ok_deltas _ Hok _ _ E) as [Hne Hd].
  destruct (exists_last Hne) as (ds'&d&->). eauto.
Qed.

Lemma will_deleted_expected s f k : willObjectBeDeletedLocked k f = true → expected s f k = None.
Proof.
  unfold willObjectBeDeletedLocked, expected. destruct (items f !! k) as [ds|]; cbn; [|done].
  destruct (last ds) as [d|]; cbn; [|done]. intros Hd%bool_decide_eq_true. unfold effect. by rewrite Hd.
Qed.

(** [queueActionLocked] files the delta, or drops a sync of an object to be deleted. *)
Record queued (t : DeltaType) (obj : delta_object A) f f' : Prop := {
  queued_ok : fifo_ok f';
  queued_populated : populated f' = populated f;
  queued_count : initialPopulationCount f' = initialPopulationCount f;
  queued_prefix : queue f' = queue f ∨ queue f' = queue f ++ [KeyOf keyFunc obj];
  queued_in : KeyOf keyFunc obj ∈ queue f';
  queued_other : ∀ k, k ≠ KeyOf keyFunc obj → items f' !! k = items f !! k;
  queued_effect : ∀ s, expected s f' (KeyOf keyFunc obj) =
    if bool_decide (t = DSync) && willObjectBeDeletedLocked (KeyOf keyFunc obj) f then None else effect (mkDelta t obj);
  queued_will : willObjectBeDeletedLocked (KeyOf keyFunc obj) f' =
    bool_decide (t = DDeleted) || bool_decide (t = DSync) && willObjectBeDeletedLocked (KeyOf keyFunc obj) f
}.

Lemma queueActionLocked_spec t obj f :
  fifo_ok f → delta_ok (KeyOf keyFunc obj) (mkDelta t obj) → queued t obj f (queueActionLocked keyFunc t obj f).
Proof.
  intros Hok Hd. unfold queueActionLocked. cbv zeta. set (id := KeyOf keyFunc obj) in *.
  destruct (bool_decide (t = DSync) && willObjectBeDeletedLocked id f) eqn:Es.
  { split; fold id; try done; [by left| | |].
    - apply (ok_items _ Hok). apply andb_true_iff in Es as [_ Hw]. unfold willObjectBeDeletedLocked in Hw.
      by destruct (items f !! id).
    - intros s. rewrite Es. apply andb_true_iff in Es as [_ Hw]. by apply will_deleted_expected.
    - rewrite Es, orb_true_r. by apply andb_true_iff in Es as [_ ->]. }
  destruct (dedup_spec (default [] (items f !! id)) (mkDelta t obj)) as (ds&d&->&Ht&He&Hp).
  rewrite bool_decide_eq_true_2 by (rewrite length_app; cbn; lia).
  assert (Forall (delta_ok id) (ds ++ [d])) as Hall.
  { apply Hp, Forall_app. split; [|by constructor]. destruct (items f !! id) as [l|] eqn:E; [|constructor].
    apply (ok_deltas _ Hok _ _ E). }
  assert (fifo_ok (mkDeltaFIFO (<[id := ds ++ [d]]> (items f))
    (if bool_decide (is_Some (items f !! id)) then queue f else queue f ++ [id])
    (populated f) (initialPopulationCount f)) ∧
    id ∈ (if bool_decide (is_Some (items f !! id)) then queue f else queue f ++ [id])) as [Hok' Hin].
  { assert (map_Forall (λ k ds, ds ≠ [] ∧ Forall (delta_ok k) ds) (<[id := ds ++ [d]]> (items f))) as Hm.
    { apply map_Forall_insert_2; [split; [by destruct ds|done]|apply (ok_deltas _ Hok)]. }
    clear Es. case_bool_decide as Hx; (split; [split; cbn; [| |exact Hm]|]).
    - apply (ok_queue _ Hok).
    - intros k. rewrite (ok_items _ Hok). destruct (decide (k = id)) as [->|]; [by rewrite lookup_insert_eq|].
      by rewrite lookup_insert_ne.
    - by apply (ok_items _ Hok).
    - apply NoDup_app. split_and!; [apply (ok_queue _ Hok)| |apply NoDup_singleton].
      intros k Hk ->%list_elem_of_singleton. by apply (ok_items _ Hok) in Hk.
    - intros k. rewrite elem_of_app, (ok_items _ Hok), list_elem_of_singleton.
      destruct (decide (k = id)) as [->|]; [rewrite lookup_insert_eq; naive_solver|].
      rewrite lookup_insert_ne by done. naive_solver.
    - apply elem_of_app. right. by apply list_elem_of_singleton. }
  split; cbn; try done.
  - destruct (bool_decide (is_Some (items f !! id))); auto.
  - intros k Hk. by rewrite lookup_insert_ne.
  - intros s. fold id. rewrite Es. unfold expected. cbn. rewrite lookup_insert_eq, last_snoc. done.
  - unfold willObjectBeDeletedLocked. cbn. fold id. rewrite lookup_insert_eq. cbn. rewrite last_snoc, Ht. cbn.
    unfold willObjectBeDeletedLocked in Es. by rewrite Es, orb_false_r.
Qed.

Lemma queued_expected t obj f f' s k :
  queued t obj f f' → k ≠ KeyOf keyFunc obj → expected s f' k = expected s f k.
Proof. intros Hq Hk. unfold expected. by rewrite (queued_other _ _ _ _ Hq). Qed.
Lemma queued_will_other t obj f f' k :
  queued t obj f f' → k ≠ KeyOf keyFunc obj → willObjectBeDeletedLocked k f' = willObjectBeDeletedLocked k f.
Proof. intros Hq Hk. unfold willObjectBeDeletedLocked. by rewrite (queued_other _ _ _ _ Hq). Qed.

Lemma set_populated_ok f : fifo_ok f → fifo_ok (set_populated f).
Proof. intros [? ? ?]. by split. Qed.

(** ** Lists *)

(** The last object listed under each key. *)
Definition list_map (l : list A) : gmap string A := foldl (λ m o, <[keyFunc o := o]> m) ∅ l.

Lemma list_map_snoc l o : list_map (l ++ [o]) = <[keyFunc o := o]> (list_map l).
Proof. unfold list_map. by rewrite foldl_app. Qed.
Lemma list_map_keys l k : is_Some (list_map l !! k) ↔ k ∈ keyFunc <$> l.
Proof.
  induction l as [|o l IH] using rev_ind; [split; [intros [? [=]]|intros []%not_elem_of_nil]|].
  rewrite list_map_snoc, fmap_app, elem_of_app, <-IH. cbn. rewrite list_elem_of_singleton.
  destruct (decide (k = keyFunc o)) as [->|Hk]; [rewrite lookup_insert_eq; naive_solver|].
  rewrite lookup_insert_ne by done. naive_solver.
Qed.
Lemma list_map_keyed l : keyed (list_map l).
Proof.
  induction l as [|o l IH] using rev_ind; [apply map_Forall_empty|]. rewrite list_map_snoc. by apply map_Forall_insert_2.
Qed.

(** The first loop of [Replace]. *)
Record synced_with (l : list A) f f' : Prop := {
  sw_ok : fifo_ok f';
  sw_populated : populated f' = populated f;
  sw_count : initialPopulationCount f' = initialPopulationCount f;
  sw_prefix : queue f `prefix_of` queue f';
  sw_length : length (queue f') ≤ length (queue f) + length l;
  sw_in : ∀ k, is_Some (list_map l !! k) → k ∈ queue f';
  sw_will : ∀ k, willObjectBeDeletedLocked k f' = willObjectBeDeletedLocked k f;
  sw_expected : ∀ s k, expected s f' k =
    match list_map l !! k with
    | Some o => if willObjectBeDeletedLocked k f then None else Some o
    | None => expected s f k
    end
}.

Lemma queued_prefix_of t obj f f' : queued t obj f f' → queue f `prefix_of` queue f' ∧ length (queue f') ≤ length (queue f) + 1.
Proof. intros Hq. destruct (queued_prefix _ _ _ _ Hq) as [->| ->]; [split; [done|lia]|]. split; [by apply prefix_app_r|by rewrite length_app]. Qed.

Lemma replace_sync_spec l f : fifo_ok f → synced_with l f (replace_sync keyFunc l f).
Proof.
  intros Hok. induction l as [|o l IH] using rev_ind.
  { split; try done; [cbn; lia|]. intros k [? [=]]. }
  unfold replace_sync in *. rewrite foldl_app. cbn [foldl]. destruct IH as [Hok1 Hpop Hcnt Hpre Hlen Hin Hw He].
  pose proof (queueActionLocked_spec DSync (Object o) _ Hok1 eq_refl) as Hq.
  destruct (queued_prefix_of _ _ _ _ Hq) as [Hpre' Hlen']. split.
  - apply (queued_ok _ _ _ _ Hq).
  - by rewrite (queued_populated _ _ _ _ Hq).
  - by rewrite (queued_count _ _ _ _ Hq).
  - by transitivity (queue (foldl (λ f item, queueActionLocked keyFunc DSync (Object item) f) f l)).
  - rewrite length_app. cbn. lia.
  - intros k. rewrite list_map_snoc. destruct (decide (k = keyFunc o)) as [->|Hk]; [intros _; apply (queued_in _ _ _ _ Hq)|].
    rewrite lookup_insert_ne by done. intros Hk'%Hin. destruct Hpre' as [r ->]. apply elem_of_app. by left.
  - intros k. rewrite <-Hw. destruct (decide (k = keyFunc o)) as [->|Hk]; [apply (queued_will _ _ _ _ Hq)|by apply (queued_will_other _ _ _ _ _ Hq)].
  - intros s k. rewrite list_map_snoc. destruct (decide (k = keyFunc o)) as [->|Hk].
    + rewrite lookup_insert_eq. pose proof (queued_effect _ _ _ _ Hq s) as E. cbn in E. by rewrite E, Hw.
    + rewrite lookup_insert_ne by done. rewrite (queued_expected _ _ _ _ s _ Hq) by done. apply He.
Qed.

(** The second loop. *)
Lemma replace_deleted_spec s l f :
  fifo_ok f → keyed s → Forall (λ k, is_Some (s !! k)) l →
  let f' := replace_deleted keyFunc s l f in
  fifo_ok f' ∧ populated f' = populated f ∧ initialPopulationCount f' = initialPopulationCount f ∧
  queue f `prefix_of` queue f' ∧ length (queue f') ≤ length (queue f) + length l ∧
  ∀ s' k, expected s' f' k = if bool_decide (k ∈ l) then None else expected s' f k.
Proof.
  intros Hok Hs. induction l as [|x l IH] using rev_ind; intros Hl; cbv zeta.
  { split_and!; try done; cbn; lia. }
  apply Forall_app in Hl as [Hl [[o Ho] _]%Forall_cons]. unfold replace_deleted in *. rewrite foldl_app. cbn [foldl].
  destruct (IH Hl) as (Hok1&Hpop&Hcnt&Hpre&Hlen&He). rewrite Ho.
  set (f1 := foldl _ f l) in *.
  assert (delta_ok x (mkDelta DDeleted (DeletedFinalStateUnknown x (Some o)))) as Hd.
  { split_and!; [done|done|]. exists o. split; [done|]. by apply Hs in Ho. }
  pose proof (queueActionLocked_spec DDeleted (DeletedFinalStateUnknown x (Some o)) f1 Hok1 Hd) as Hq.
  destruct (queued_prefix_of _ _ _ _ Hq) as [Hpre' Hlen']. split_and!.
  - apply (queued_ok _ _ _ _ Hq).
  - by rewrite (queued_populated _ _ _ _ Hq).
  - by rewrite (queued_count _ _ _ _ Hq).
  - by transitivity (queue f1).
  - rewrite length_app. cbn. lia.
  - intros s' k. destruct (decide (k = x)) as [->|Hk].
    + pose proof (queued_effect _ _ _ _ Hq s') as E. cbn in E. rewrite E.
      by rewrite (bool_decide_eq_true_2 (x ∈ l ++ [x])) by set_solver.
    + rewrite (queued_expected _ _ _ _ s' _ Hq) by done. rewrite He. rewrite (bool_decide_ext (k ∈ l) (k ∈ l ++ [x])); [done|]. set_solver.
Qed.

Lemma elem_of_missing s ks k : k ∈ missing_keys s ks ↔ is_Some (s !! k) ∧ k ∉ ks.
Proof.
  unfold missing_keys. rewrite list_elem_of_filter, list_elem_of_fmap. split.
  - intros [Hk ([k' o]&->&Ho%elem_of_range_order)]. eauto.
  - intros [[o Ho] Hk]. split; [done|]. exists (k, o). by rewrite elem_of_range_order.
Qed.

(** What a list leaves to be expected: its objects, but for those whose deletion is queued;
    what the store holds and the list does not is gone; an object that is only queued and not
    listed stays. *)
Lemma Replace_expected s l f :
  fifo_ok f → keyed s →
  let f' := Replace keyFunc s l f in
  fifo_ok f' ∧ populated f' = true ∧ queue f `prefix_of` queue f' ∧
  (populated f = true → initialPopulationCount f' = initialPopulationCount f) ∧
  (populated f = false → initialPopulationCount f' = length l + length (missing_keys s (replace_keys keyFunc l)) ∧
     length (queue f') ≤ length (queue f) + initialPopulationCount f') ∧
  (∀ k, is_Some (list_map l !! k) → k ∈ queue f') ∧
  ∀ k, expected s f' k =
    match list_map l !! k with
    | Some o => if willObjectBeDeletedLocked k f then None else Some o
    | None => if bool_decide (is_Some (s !! k)) then None else expected s f k
    end.
Proof.
  intros Hok Hs. cbv zeta. unfold Replace. cbv zeta. set (miss := missing_keys s (replace_keys keyFunc l)).
  pose proof (replace_sync_spec l f Hok) as [Hok1 Hpop Hcnt Hpre Hlen Hin Hw He].
  destruct (replace_deleted_spec s miss (replace_sync keyFunc l f) Hok1 Hs) as (Hok2&Hpop2&Hcnt2&Hpre2&Hlen2&He2).
  { apply Forall_forall. by intros k [? _]%elem_of_missing. }
  set (f2 := replace_deleted keyFunc s miss (replace_sync keyFunc l f)) in *.
  assert (∀ k, expected s f2 k = match list_map l !! k with
    | Some o => if willObjectBeDeletedLocked k f then None else Some o
    | None => if bool_decide (is_Some (s !! k)) then None else expected s f k end) as Hexp.
  { intros k. rewrite He2, He. assert (k ∈ miss ↔ is_Some (s !! k) ∧ ¬ is_Some (list_map l !! k)) as Hm.
    { unfold miss. rewrite elem_of_missing. unfold replace_keys. by rewrite elem_of_list_to_set, list_map_keys. }
    case_bool_decide as Hk.
    - apply Hm in Hk as [Hsk Hlk]. rewrite bool_decide_eq_true_2 by done. by destruct (list_map l !! k); [destruct Hlk|].
    - destruct (list_map l !! k) as [o|]; [done|]. case_bool_decide as Hsk; [|done]. destruct Hk. apply Hm. split; [done|by intros [? ?]]. }
  assert (∀ k, is_Some (list_map l !! k) → k ∈ queue f2) as Hin2.
  { intros k Hk%Hin. destruct Hpre2 as [r ->]. apply elem_of_app. by left. }
  assert (queue f `prefix_of` queue f2) as Hpre3 by (by transitivity (queue (replace_sync keyFunc l f))).
  destruct (populated f2) eqn:Ep.
  - split_and!; try done; congruence.
  - split_and!; cbn; try done; [by destruct Hok2|congruence|]. intros _. split; [done|]. lia.
Qed.

(** [Resync] changes nothing of what is to be expected. *)
Lemma syncKeyLocked_spec s k f :
  fifo_ok f → keyed s →
  let f' := syncKeyLocked keyFunc s k f in
  fifo_ok f' ∧ populated f' = populated f ∧ initialPopulationCount f' = initialPopulationCount f ∧
  queue f `prefix_of` queue f' ∧ ∀ k', expected s f' k' = expected s f k'.
Proof.
  intros Hok Hs. cbv zeta. unfold syncKeyLocked. destruct (s !! k) as [o|] eqn:Eo; [|done].
  apply Hs in Eo as Ek. cbn [KeyOf]. rewrite Ek. case_bool_decide as Hl; [done|].
  pose proof (queueActionLocked_spec DSync (Object o) f Hok eq_refl) as Hq.
  assert (items f !! k = None) as En.
  { destruct (items f !! k) as [[|d ds]|] eqn:E; [|cbn in Hl; lia|done]. by destruct (ok_deltas _ Hok _ _ E). }
  split_and!.
  - apply (queued_ok _ _ _ _ Hq).
  - apply (queued_populated _ _ _ _ Hq).
  - apply (queued_count _ _ _ _ Hq).
  - apply (queued_prefix_of _ _ _ _ Hq).
  - intros k'. destruct (decide (k' = k)) as [->|Hk]; [|apply (queued_expected _ _ _ _ s _ Hq); cbn; congruence].
    pose proof (queued_effect _ _ _ _ Hq s) as E. cbn in E. rewrite Ek in E. rewrite E.
    unfold willObjectBeDeletedLocked, expected. rewrite En. cbn. by rewrite Eo.
Qed.
Lemma Resync_spec s f :
  fifo_ok f → keyed s →
  let f' := Resync keyFunc s f in
  fifo_ok f' ∧ populated f' = populated f ∧ initialPopulationCount f' = initialPopulationCount f ∧
  queue f `prefix_of` queue f' ∧ ∀ k', expected s f' k' = expected s f k'.
Proof.
  intros Hok Hs. cbv zeta. unfold Resync. generalize ((range_order s).*1) as l. intros l.
  induction l as [|k l IH] using rev_ind; [done|]. rewrite foldl_app. cbn [foldl].
  destruct IH as (Hok1&Hp1&Hc1&Hpre1&He1). set (f1 := foldl _ f l) in *.
  destruct (syncKeyLocked_spec s k f1 Hok1 Hs) as (Hok2&Hp2&Hc2&Hpre2&He2). split_and!; [done|congruence|congruence| |].
  - by transitivity (queue f1).
  - intros k'. by rewrite He2.
Qed.

(** ** What the handler is told *)

(** A call fits what the handler has been told before, and adds to it. *)
Definition fits (n : notification A) s : Prop :=
  match n with
  | OnAdd o => s !! keyFunc o = None
  | OnUpdate old new => s !! keyFunc new = Some old
  | OnDelete (Object _) => True
  | OnDelete (DeletedFinalStateUnknown k o) => ∃ x, o = Some x ∧ keyFunc x = k
  end.
Definition learn (n : notification A) s : gmap string A :=
  match n with
  | OnAdd o | OnUpdate _ o => <[keyFunc o := o]> s
  | OnDelete o => delete (KeyOf keyFunc o) s
  end.
Definition note_key (n : notification A) : string :=
  match n with OnAdd o | OnUpdate _ o => keyFunc o | OnDelete o => KeyOf keyFunc o end.
Fixpoint tells (ns : list (notification A)) s s' : Prop :=
  match ns with [] => s' = s | n :: ns => fits n s ∧ tells ns (learn n s) s' end.

Lemma tells_app n1 n2 s s1 s2 : tells n1 s s1 → tells n2 s1 s2 → tells (n1 ++ n2) s s2.
Proof. revert s. induction n1 as [|n n1 IH]; cbn; [by intros s ->|]. intros s [? ?] ?. split; [done|]. by apply IH. Qed.

Lemma process_delta_spec k d s :
  delta_ok k d → keyed s →
  ∃ n s', process_delta keyFunc d s = (s', [n]) ∧ note_key n = k ∧ fits n s ∧ s' = learn n s ∧ keyed s' ∧
    (∀ k', s' !! k' = if decide (k' = k) then effect d else s !! k').
Proof.
  destruct d as [t [o|k' o]]; intros Hd Hs; cbn in Hd.
  - subst k. destruct (decide (t = DDeleted)) as [->|Ht].
    + exists (OnDelete (Object o)), (delete (keyFunc o) s). split_and!; try done; [by apply map_Forall_delete|].
      intros k'. case_decide as Hk; [subst; apply lookup_delete_eq|by rewrite lookup_delete_ne].
    + exists (match s !! keyFunc o with Some old => OnUpdate old o | None => OnAdd o end), (<[keyFunc o := o]> s).
      split_and!; [by destruct t|by destruct (s !! keyFunc o)|destruct (s !! keyFunc o) eqn:E; exact E|by destruct (s !! keyFunc o)|by apply map_Forall_insert_2|].
      intros k'. case_decide as Hk; [subst; rewrite lookup_insert_eq; by destruct t|by rewrite lookup_insert_ne].
  - destruct Hd as (->&->&x&->&Hx). exists (OnDelete (DeletedFinalStateUnknown k (Some x))), (delete k s).
    split_and!; try done; [by exists x|by apply map_Forall_delete|].
    intros k'. case_decide as Hk; [subst; apply lookup_delete_eq|by rewrite lookup_delete_ne].
Qed.

Lemma process_spec k ds s :
  Forall (delta_ok k) ds → keyed s →
  ∃ ns s', process keyFunc ds s = (s', ns) ∧ keyed s' ∧ tells ns s s' ∧ Forall (λ n, note_key n = k) ns ∧
    length ns = length ds ∧
    ∀ k', s' !! k' = if decide (k' = k) then match last ds with Some d => effect d | None => s !! k end else s !! k'.
Proof.
  intros Hd. revert s. induction Hd as [|d ds Hd _ IH]; intros s Hs.
  { exists [], s. split_and!; try done. intros k'. by case_decide; subst. }
  destruct (process_delta_spec k d s Hd Hs) as (n&s1&E1&Hn&Hfit&->&Hs1&Hl1). destruct (IH _ Hs1) as (ns&s2&E2&Hs2&Ht2&Hns&Hlen&Hl2).
  exists (n :: ns), s2. cbn [process]. rewrite E1, E2. split_and!; [done|done|done|by constructor|cbn; by rewrite Hlen|].
  intros k'. rewrite Hl2. destruct (decide (k' = k)) as [->|Hk]; [|by rewrite Hl1, decide_False].
  destruct ds as [|d' ds]; [cbn; by rewrite Hl1, decide_True|]. change (last (d :: d' :: ds)) with (last (d' :: ds)).
  destruct (last (d' :: ds)) eqn:E; [done|by apply last_None in E].
Qed.

(** ** Operations keep the informer well-formed *)

Record inf_ok i : Prop := { ok_fifo : fifo_ok (fifo i); ok_state : keyed (clientState i) }.

(** On a well-formed queue, [Pop] takes the first key with its deltas. *)
Lemma pop_first f : fifo_ok f →
  match queue f with
  | [] => Pop f = (None, f)
  | k :: q => ∃ ds, items f !! k = Some ds ∧
      Pop f = (Some ds, mkDeltaFIFO (delete k (items f)) q (populated f) (initialPopulationCount f - 1))
  end.
Proof.
  intros [Hn Hi Hd]. unfold Pop. destruct f as [it [|k q] p c]; cbn in *; [done|].
  destruct (proj1 (Hi k) (list_elem_of_here _ _)) as [ds E]. exists ds. by rewrite E.
Qed.

Lemma pop_ok k q ds f : fifo_ok f → queue f = k :: q → items f !! k = Some ds →
  fifo_ok (mkDeltaFIFO (delete k (items f)) q (populated f) (initialPopulationCount f - 1)).
Proof.
  intros [Hn Hi Hd] Hq E. rewrite Hq in Hn. apply NoDup_cons in Hn as [Hk Hn]. split; cbn; [done| |by apply map_Forall_delete].
  intros k'. destruct (decide (k' = k)) as [->|Hne]; [rewrite lookup_delete_eq; split; [done|by intros [? ?]]|].
  rewrite lookup_delete_ne by done. rewrite <-Hi, Hq. set_solver.
Qed.

Lemma NewInformer_ok : inf_ok NewInformer.
Proof.
  split; [split|]; cbn.
  - apply NoDup_nil_2.
  - intros k. split; [by intros ?%not_elem_of_nil|by intros [? ?]].
  - apply map_Forall_empty.
  - apply map_Forall_empty.
Qed.

(** What the reflector has read of the server: the last list, and the changes since. *)
Definition seen (o : op A) s : gmap string A :=
  match o with
  | WatchAdded obj | WatchModified obj => <[keyFunc obj := obj]> s
  | WatchDeleted obj => delete (keyFunc obj) s
  | Relist objs => list_map objs
  | ResyncTimer | ProcessOne => s
  end.
(** A list is read right: no deletion is queued of an object that it lists, and no object is
    queued that is neither listed nor in the store, unless for deletion. *)
Definition clean_relist (o : op A) i : Prop :=
  match o with
  | Relist objs => ∀ k,
      if bool_decide (k ∈ keyFunc <$> objs) then willObjectBeDeletedLocked k (fifo i) = false
      else clientState i !! k = None → expected (clientState i) (fifo i) k = None
  | _ => True
  end.

(** A change that the watch brings. *)
Lemma watch_spec s t o f : fifo_ok f → t ≠ DSync →
  let f' := queueActionLocked keyFunc t (Object o) (set_populated f) in
  fifo_ok f' ∧ populated f' = true ∧ initialPopulationCount f' = initialPopulationCount f ∧
  queue f `prefix_of` queue f' ∧
  ∀ k, expected s f' k = if decide (k = keyFunc o) then effect (mkDelta t (Object o)) else expected s f k.
Proof.
  intros Hok Ht. cbv zeta.
  pose proof (queueActionLocked_spec t (Object o) _ (set_populated_ok f Hok) eq_refl) as Hq. split_and!.
  - apply (queued_ok _ _ _ _ Hq).
  - by rewrite (queued_populated _ _ _ _ Hq).
  - by rewrite (queued_count _ _ _ _ Hq).
  - apply (queued_prefix_of _ _ _ _ Hq).
  - intros k. case_decide as Hk; [subst k|by rewrite (queued_expected _ _ _ _ s _ Hq)].
    pose proof (queued_effect _ _ _ _ Hq s) as E. cbn in E. rewrite E. by rewrite bool_decide_eq_false_2.
Qed.

Lemma Delete_spec s o f : fifo_ok f →
  let f' := Delete keyFunc s o f in
  fifo_ok f' ∧ populated f' = true ∧ initialPopulationCount f' = initialPopulationCount f ∧
  queue f `prefix_of` queue f' ∧ ∀ k, expected s f' k = if decide (k = keyFunc o) then None else expected s f k.
Proof.
  intros Hok. cbv zeta. unfold Delete. cbv zeta. cbn [KeyOf].
  destruct (bool_decide (is_Some (s !! keyFunc o)) || bool_decide (is_Some (items (set_populated f) !! keyFunc o))) eqn:E.
  { by apply watch_spec. }
  apply orb_false_iff in E as [Es%bool_decide_eq_false Ei%bool_decide_eq_false]. split_and!; [by apply set_populated_ok|done..|].
  intros k. case_decide as Hk; [|done]. subst k. unfold expected. cbn in *.
  apply eq_None_not_Some in Ei, Es. by rewrite Ei, Es.
Qed.

Lemma process_or_not (o : op A) : o = ProcessOne ∨ o ≠ ProcessOne.
Proof. destruct o; auto. Qed.

(** Any operation but processing: the store stays, and the queue only grows. *)
Lemma step_queue o i : inf_ok i → o ≠ ProcessOne →
  ∃ f', step keyFunc o i = (mkInf (clientState i) f', []) ∧ fifo_ok f' ∧ queue (fifo i) `prefix_of` queue f' ∧
    (populated (fifo i) = true → populated f' = true ∧ initialPopulationCount f' = initialPopulationCount (fifo i)) ∧
    (clean_relist o i → ∀ m, (∀ k, expected (clientState i) (fifo i) k = m !! k) →
       ∀ k, expected (clientState i) f' k = seen o m !! k).
Proof.
  destruct i as [s f]. intros [Hok Hs] Ho. cbn [clientState fifo] in *. destruct o as [o|o|o|l| |]; [| | | | |done]; cbn [step clientState fifo].
  - destruct (watch_spec s DAdded o f Hok) as (Hok'&Hp&Hc&Hpre&He); [done|]. eexists. split_and!; [reflexivity|done|done|done|].
    intros _ m Hm k. cbn [seen]. unfold Add. rewrite He. case_decide as Hk; [subst; by rewrite lookup_insert_eq|by rewrite lookup_insert_ne].
  - destruct (watch_spec s DUpdated o f Hok) as (Hok'&Hp&Hc&Hpre&He); [done|]. eexists. split_and!; [reflexivity|done|done|done|].
    intros _ m Hm k. cbn [seen]. unfold Update. rewrite He. case_decide as Hk; [subst; by rewrite lookup_insert_eq|by rewrite lookup_insert_ne].
  - destruct (Delete_spec s o f Hok) as (Hok'&Hp&Hc&Hpre&He). eexists. split_and!; [reflexivity|done|done|done|].
    intros _ m Hm k. cbn [seen]. rewrite He. case_decide as Hk; [subst; by rewrite lookup_delete_eq|by rewrite lookup_delete_ne].
  - destruct (Replace_expected s l f Hok Hs) as (Hok'&Hp&Hpre&Hc&_&_&He). eexists. split_and!; [reflexivity|done|done|naive_solver|].
    intros Hclean m Hm k. cbn [seen]. rewrite He. specialize (Hclean k). cbn [clientState fifo] in Hclean.
    pose proof (list_map_keys l k) as Hk. destruct (list_map l !! k) as [o|].
    + rewrite bool_decide_eq_true_2 in Hclean by (by apply Hk). by rewrite Hclean.
    + rewrite bool_decide_eq_false_2 in Hclean by (intros Hin; by apply Hk in Hin as [? ?]).
      case_bool_decide as Hsk; [done|]. apply Hclean. by apply eq_None_not_Some.
  - destruct (Resync_spec s f Hok Hs) as (Hok'&Hp&Hc&Hpre&He). eexists. split_and!; [reflexivity|done|done|naive_solver|].
    intros _ m Hm k. cbn [seen]. by rewrite He.
Qed.

(** Processing works off the first key. *)
Lemma step_process i : inf_ok i →
  match queue (fifo i) with
  | [] => step keyFunc ProcessOne i = (i, [])
  | k :: q => ∃ i' ns, step keyFunc ProcessOne i = (i', ns) ∧ inf_ok i' ∧ queue (fifo i') = q ∧
      populated (fifo i') = populated (fifo i) ∧
      initialPopulationCount (fifo i') = initialPopulationCount (fifo i) - 1 ∧
      ns ≠ [] ∧ Forall (λ n, note_key n = k) ns ∧ tells ns (clientState i) (clientState i') ∧
      ∀ k', expected (clientState i') (fifo i') k' = expected (clientState i) (fifo i) k'
  end.
Proof.
  destruct i as [s f]. intros [Hok Hs]. cbn [clientState fifo step] in *. pose proof (pop_first f Hok) as HP.
  destruct (queue f) as [|k q] eqn:Eq; [by rewrite HP|]. destruct HP as (ds&Ei&->).
  destruct (ok_deltas _ Hok _ _ Ei) as [Hne Hd]. destruct (process_spec k ds s Hd Hs) as (ns&s'&->&Hs'&Ht&Hk&Hlen&Hl).
  eexists _, _. split; [reflexivity|]. cbn. split_and!; try done.
  - split; [|done]. by eapply pop_ok.
  - intros ->. by destruct ds.
  - intros k'. unfold expected. cbn. destruct (decide (k' = k)) as [->|Hne'].
    + rewrite lookup_delete_eq, Ei, Hl, decide_True by done. destruct (last ds) eqn:El; [done|by apply last_None in El].
    + rewrite lookup_delete_ne by done. by rewrite Hl, decide_False.
Qed.

(** An object that comes or goes while the queue is empty, and is processed. *)
Lemma queueActionLocked_fresh t obj f : items f !! KeyOf keyFunc obj = None →
  queueActionLocked keyFunc t obj f = mkDeltaFIFO (<[KeyOf keyFunc obj := [mkDelta t obj]]> (items f))
    (queue f ++ [KeyOf keyFunc obj]) (populated f) (initialPopulationCount f).
Proof.
  intros E. unfold queueActionLocked, willObjectBeDeletedLocked. rewrite E. cbn. by rewrite andb_false_r.
Qed.

Lemma one_change i o : inf_ok i → queue (fifo i) = [] →
  ∃ c n i1 i2, (c = WatchAdded o ∧ n = OnAdd o ∨ c = WatchDeleted o ∧ n = OnDelete (Object o)) ∧
    step keyFunc c i = (i1, []) ∧ step keyFunc ProcessOne i1 = (i2, [n]) ∧ queue (fifo i2) = [].
Proof.
  destruct i as [s f]. intros [Hok _] Hq. cbn [fifo] in *.
  assert (items f !! keyFunc o = None) as Ei.
  { apply eq_None_not_Some. intros Hk%(ok_items _ Hok). rewrite Hq in Hk. by apply not_elem_of_nil in Hk. }
  destruct (s !! keyFunc o) as [old|] eqn:Es.
  - exists (WatchDeleted o), (OnDelete (Object o)). eexists _, _. split_and!; [by right| | |].
    + cbn [step clientState fifo]. unfold Delete. cbv zeta. cbn [KeyOf]. rewrite (bool_decide_eq_true_2 (is_Some (s !! _))) by eauto.
      cbn [orb]. rewrite queueActionLocked_fresh by done. reflexivity.
    + cbn [step clientState fifo]. unfold Pop. cbn. rewrite Hq. cbn. rewrite lookup_insert_eq. cbn. reflexivity.
    + done.
  - exists (WatchAdded o), (OnAdd o). eexists _, _. split_and!; [by left| | |].
    + cbn [step clientState fifo]. unfold Add. rewrite queueActionLocked_fresh by done. reflexivity.
    + cbn [step clientState fifo]. unfold Pop. cbn. rewrite Hq. cbn. rewrite lookup_insert_eq. cbn. rewrite Es. reflexivity.
    + done.
Qed.

Lemma step_ok o i : inf_ok i →
  let '(i', ns) := step keyFunc o i in inf_ok i' ∧ tells ns (clientState i) (clientState i').
Proof.
  intros Hok. destruct (process_or_not o) as [->|Ho].
  - pose proof (step_process i Hok) as Hp. destruct (queue (fifo i)); [by rewrite Hp|].
    destruct Hp as (i'&ns&->&Hok'&_&_&_&_&_&Ht&_). done.
  - destruct (step_queue o i Hok Ho) as (f'&->&Hf&_). cbn. split; [|done]. split; [done|apply Hok].
Qed.

Lemma step_expected o i m : inf_ok i → clean_relist o i → (∀ k, expected (clientState i) (fifo i) k = m !! k) →
  let i' := (step keyFunc o i).1 in ∀ k, expected (clientState i') (fifo i') k = seen o m !! k.
Proof.
  intros Hok Hc Hm. cbv zeta. destruct (process_or_not o) as [->|Ho].
  - pose proof (step_process i Hok) as Hp. destruct (queue (fifo i)); [by rewrite Hp|].
    destruct Hp as (i'&ns&->&_&_&_&_&_&_&_&He). intros k. cbn. by rewrite He.
  - destruct (step_queue o i Hok Ho) as (f'&->&_&_&_&He). cbn. by apply He.
Qed.
End facts.

(** ** Runs *)

Section runs.
Context {A : Type} `{GoMapOrder} (keyFunc : A → string).
Implicit Types (i : informer A) (s : gmap string A).

(** What the reflector has read in a run, and whether all lists were read right. *)
Definition reads (ops : list (op A)) : gmap string A := foldl (λ s o, seen keyFunc o s) ∅ ops.
Fixpoint clean (ops : list (op A)) i : Prop :=
  match ops with [] => True | o :: ops => clean_relist keyFunc o i ∧ clean ops (step keyFunc o i).1 end.

(** A list that comes when the queue is worked off is read right. *)
Lemma drained_clean o i : inf_ok keyFunc i → queue (fifo i) = [] → clean_relist keyFunc o i.
Proof.
  intros Hok Hq. destruct o as [| | |l| |]; [done..| |done|done]. intros k.
  assert (items (fifo i) !! k = None) as E.
  { apply eq_None_not_Some. intros Hk%(ok_items _ _ (ok_fifo _ _ Hok)). rewrite Hq in Hk. by apply not_elem_of_nil in Hk. }
  unfold willObjectBeDeletedLocked, expected. rewrite E. by case_bool_decide.
Qed.

(** [processLoop] works off the whole queue. *)
Definition drain i : informer A * list (notification A) :=
  run keyFunc (replicate (length (queue (fifo i))) ProcessOne) i.

Lemma run_ok ops i : inf_ok keyFunc i →
  let '(i', ns) := run keyFunc ops i in inf_ok keyFunc i' ∧ tells keyFunc ns (clientState i) (clientState i').
Proof.
  revert i. induction ops as [|o ops IH]; intros i Hok; cbn [run]; [by split|].
  pose proof (step_ok keyFunc o i Hok) as Hs. destruct (step keyFunc o i) as [i1 n1]. destruct Hs as [Hok1 Ht1].
  specialize (IH i1 Hok1). destruct (run keyFunc ops i1) as [i2 n2]. destruct IH as [Hok2 Ht2].
  split; [done|]. by eapply tells_app.
Qed.

Lemma run_expected ops i s : inf_ok keyFunc i → clean ops i → (∀ k, expected (clientState i) (fifo i) k = s !! k) →
  let i' := (run keyFunc ops i).1 in
  ∀ k, expected (clientState i') (fifo i') k = foldl (λ s o, seen keyFunc o s) s ops !! k.
Proof.
  revert i s. induction ops as [|o ops IH]; intros i s Hok Hc Hm; [done|]. cbn [run foldl]. destruct Hc as [Hc1 Hc2].
  pose proof (step_ok keyFunc o i Hok) as Hs. pose proof (step_expected keyFunc o i s Hok Hc1 Hm) as He.
  destruct (step keyFunc o i) as [i1 n1]. cbn in *. specialize (IH i1 (seen keyFunc o s) (proj1 Hs) Hc2 He).
  by destruct (run keyFunc ops i1).
Qed.

Lemma drain_spec i : inf_ok keyFunc i →
  let '(i', ns) := drain i in
  inf_ok keyFunc i' ∧ queue (fifo i') = [] ∧ populated (fifo i') = populated (fifo i) ∧
  initialPopulationCount (fifo i') = initialPopulationCount (fifo i) - length (queue (fifo i)) ∧
  tells keyFunc ns (clientState i) (clientState i') ∧
  ∀ k, clientState i' !! k = expected (clientState i) (fifo i) k.
Proof.
  unfold drain. remember (length (queue (fifo i))) as n eqn:Hn. revert i Hn.
  induction n as [|n IH]; intros i Hn Hok; cbn [replicate run].
  - destruct (queue (fifo i)) eqn:Eq; [|done]. split_and!; try done; [lia|].
    intros k. unfold expected. destruct (items (fifo i) !! k) eqn:Ei; [|done].
    assert (k ∈ queue (fifo i)) as Hk by (apply (ok_items _ _ (ok_fifo _ _ Hok)); eauto). rewrite Eq in Hk.
    by apply not_elem_of_nil in Hk.
  - pose proof (step_process keyFunc i Hok) as Hs. destruct (queue (fifo i)) as [|k q] eqn:Eq; [done|].
    destruct Hs as (i1&n1&->&Hok1&Hq1&Hp1&Hc1&_&_&Ht1&He1). specialize (IH i1). rewrite Hq1 in IH.
    specialize (IH ltac:(cbn in Hn; lia) Hok1). destruct (run keyFunc (replicate n ProcessOne) i1) as [i2 n2].
    destruct IH as (Hok2&Hq2&Hp2&Hc2&Ht2&Hl2). split_and!; [done|done|congruence|rewrite Hc2, Hc1; lia|by eapply tells_app|].
    intros k'. by rewrite Hl2, He1.
Qed.

(** Keys of the first list that are not processed yet are among the first of the queue that
    are counted. *)
Record waiting (ks : gset string) (told : list (notification A)) i : Prop := {
  wait_populated : populated (fifo i) = true;
  wait_keys : ∀ k, k ∈ ks → k ∈ take (initialPopulationCount (fifo i)) (queue (fifo i)) ∨ k ∈ note_key keyFunc <$> told
}.

Lemma step_waiting ks told o i : inf_ok keyFunc i → waiting ks told i →
  let '(i', ns) := step keyFunc o i in
  waiting ks (told ++ ns) i' ∧
  (initialPopulationCount (fifo i) ≤ length (queue (fifo i)) → initialPopulationCount (fifo i') ≤ length (queue (fifo i'))).
Proof.
  intros Hok [Hp Hw]. destruct (process_or_not o) as [->|Ho].
  - pose proof (step_process keyFunc i Hok) as Hs. destruct (queue (fifo i)) as [|k q] eqn:Eq.
    { rewrite Hs, app_nil_r, Eq. split; [|done]. split; [done|]. intros k Hk. rewrite Eq. by apply Hw. }
    destruct Hs as (i'&ns&->&_&Hq&Hp'&Hc&Hne&Hns&_). rewrite Hq, Hc. split; [|cbn; lia]. split; [congruence|].
    intros k' [Hk|Hk]%Hw; [|right; rewrite fmap_app, elem_of_app; by left]. rewrite Hq, Hc, fmap_app, elem_of_app.
    destruct (initialPopulationCount (fifo i)) as [|c]; [by apply not_elem_of_nil in Hk|]. cbn in Hk.
    apply elem_of_cons in Hk as [->|Hk]; [|left; by replace (S c - 1) with c by lia].
    right. right. destruct ns as [|n ns]; [done|]. apply Forall_cons in Hns as [<- _]. apply list_elem_of_here.
  - destruct (step_queue keyFunc o i Hok Ho) as (f'&->&_&[r Hr]&Hp'&_). destruct (Hp' Hp) as [Hp1 Hc]. cbn.
    rewrite Hc, Hr, length_app. split; [|lia]. split; [done|]. cbn. intros k [Hk|Hk]%Hw; [|right; by rewrite app_nil_r].
    left. rewrite Hc, Hr, take_app. apply elem_of_app. by left.
Qed.

Lemma run_waiting ks ops told i : inf_ok keyFunc i → waiting ks told i →
  let '(i', ns) := run keyFunc ops i in
  waiting ks (told ++ ns) i' ∧
  (initialPopulationCount (fifo i) ≤ length (queue (fifo i)) → initialPopulationCount (fifo i') ≤ length (queue (fifo i'))).
Proof.
  revert told i. induction ops as [|o ops IH]; intros told i Hok Hw; cbn [run]; [by rewrite app_nil_r|].
  pose proof (step_ok keyFunc o i Hok) as Hs. pose proof (step_waiting ks told o i Hok Hw) as Hw1.
  destruct (step keyFunc o i) as [i1 n1]. destruct Hs as [Hok1 _], Hw1 as [Hw1 Hl1].
  specialize (IH _ i1 Hok1 Hw1). destruct (run keyFunc ops i1) as [i2 n2]. destruct IH as [Hw2 Hl2].
  rewrite app_assoc. split; [done|]. auto.
Qed.

(** After the first list. *)
Lemma first_list_waiting l :
  let i := (step keyFunc (Relist l) NewInformer).1 in
  inf_ok keyFunc i ∧ waiting (replace_keys keyFunc l) [] i ∧
  (NoDup (keyFunc <$> l) → initialPopulationCount (fifo i) ≤ length (queue (fifo i))).
Proof.
  cbv zeta. pose proof (step_ok keyFunc (Relist l) NewInformer (NewInformer_ok keyFunc)) as Hok. cbn [step] in *.
  destruct (Replace_expected keyFunc ∅ l (fifo NewInformer)) as (_&Hp&_&_&Hc&Hin&_);
    [apply NewInformer_ok|apply map_Forall_empty|]. destruct (Hc eq_refl) as [Hcnt Hlen]. cbn in Hcnt, Hlen |- *.
  split; [apply Hok|].
  assert (missing_keys (∅ : gmap string A) (replace_keys keyFunc l) = []) as Hmiss.
  { destruct (missing_keys (∅ : gmap string A) (replace_keys keyFunc l)) as [|k ks] eqn:E; [done|].
    assert (k ∈ missing_keys (∅ : gmap string A) (replace_keys keyFunc l)) as [[? Hk] _]%elem_of_missing
      by (rewrite E; apply list_elem_of_here). by rewrite lookup_empty in Hk. }
  rewrite Hmiss in Hcnt. cbn in Hcnt. rewrite Nat.add_0_r in Hcnt. rewrite Hcnt in Hlen |- *. split.
  - split; [done|]. intros k Hk. left. cbn. rewrite Hcnt, take_ge by lia. apply Hin, list_map_keys.
    by apply elem_of_list_to_set in Hk.
  - intros Hnd. rewrite <-(length_fmap keyFunc l). apply submseteq_length, NoDup_submseteq; [done|].
    intros k Hk. by apply Hin, list_map_keys.
Qed.

(** Once the informer has synced, the handler was called for every object of the first list. *)
Lemma first_list_told l ops :
  let '(i, ns) := run keyFunc (Relist l :: ops) NewInformer in
  HasSynced (fifo i) = true → ∀ o, o ∈ l → ∃ n, n ∈ ns ∧ note_key keyFunc n = keyFunc o.
Proof.
  cbn [run]. destruct (first_list_waiting l) as (Hok&Hw&_).
  destruct (step keyFunc (Relist l) NewInformer) as [i1 n1] eqn:E1. cbn in Hok, Hw. injection E1 as _ <-.
  pose proof (run_waiting _ ops [] i1 Hok Hw) as Hr. destruct (run keyFunc ops i1) as [i ns]. cbn in *.
  destruct Hr as [[_ Hkeys] _]. intros [_ Hc%bool_decide_eq_true]%andb_true_iff o Ho. destruct (Hkeys (keyFunc o)) as [Hk|Hk].
  - apply elem_of_list_to_set, list_elem_of_fmap. eauto.
  - rewrite Hc in Hk. by apply not_elem_of_nil in Hk.
  - apply list_elem_of_fmap in Hk as (n&->&?). eauto.
Qed.

(** Nothing happens before the first list. *)
Lemma unlisted_step (o : op A) : o = ProcessOne ∨ o = ResyncTimer → step keyFunc o NewInformer = (NewInformer, []).
Proof.
  intros [-> | ->]; cbn; [done|]. unfold Resync, NewInformer. cbn. destruct (range_order (∅ : gmap string A)) as [|[k x] l] eqn:E; [done|].
  assert ((k, x) ∈ range_order (∅ : gmap string A)) as Hk%elem_of_range_order by (rewrite E; apply list_elem_of_here).
  by rewrite lookup_empty in Hk.
Qed.

(** A synced informer stays synced, and a list is what it takes. *)
Lemma step_synced o i : inf_ok keyFunc i → HasSynced (fifo i) = true → HasSynced (fifo (step keyFunc o i).1) = true.
Proof.
  intros Hok [Hp Hc%bool_decide_eq_true]%andb_true_iff. unfold HasSynced. apply andb_true_iff. rewrite bool_decide_eq_true.
  destruct (process_or_not o) as [->|Ho].
  - pose proof (step_process keyFunc i Hok) as Hs. destruct (queue (fifo i)); [by rewrite Hs|].
    destruct Hs as (i'&ns&->&_&_&Hp'&Hc'&_). cbn. rewrite Hp', Hc', Hc. by split.
  - destruct (step_queue keyFunc o i Hok Ho) as (f'&->&_&_&Hs&_). destruct (Hs Hp) as [Hp' Hc']. cbn. split; [done|congruence].
Qed.
End runs.

(** ** Properties *)

(** C32: the handler is told of everything: in any run of an informer, with lists, changes and
    resyncs in any order and the queue worked off at any pace, the calls of the handler say
    exactly how the store came about.  A call for an addition is about an object that was
    not there, one for an update brings the object that was, and replaying the calls gives
    the store; a deletion that was missed comes with the object last known. *)
Theorem handler_told_everything {A : Type} `{GoMapOrder} (keyFunc : A → string) (ops : list (op A)) :
  let '(i, notes) := run keyFunc ops NewInformer in
  inf_ok keyFunc i ∧ tells keyFunc notes ∅ (clientState i).
Proof. exact (run_ok keyFunc ops NewInformer (NewInformer_ok keyFunc)). Qed.

(** C13: an informer catches up with the server: whatever was read (lists, changes, resyncs,
    with the queue worked off in between at any pace), working off the rest of the queue
    empties it and leaves in the store exactly what was read last, provided that at every
    list no deletion was queued of an object listed, and no addition of an object not
    listed. *)
Theorem informer_catches_up {A : Type} `{GoMapOrder} (keyFunc : A → string) (ops : list (op A)) :
  clean keyFunc ops NewInformer →
  let '(i, notes) := drain keyFunc (run keyFunc ops NewInformer).1 in
  queue (fifo i) = [] ∧ clientState i = reads keyFunc ops.
Proof.
  intros Hc. pose proof (run_ok keyFunc ops NewInformer (NewInformer_ok keyFunc)) as Hok.
  pose proof (run_expected keyFunc ops NewInformer ∅ (NewInformer_ok keyFunc) Hc) as He.
  destruct (run keyFunc ops NewInformer) as [i ns]. cbn in *. pose proof (drain_spec keyFunc i (proj1 Hok)) as Hd.
  destruct (drain keyFunc i) as [i' ns']. destruct Hd as (_&Hq&_&_&_&Hl). split; [done|].
  apply map_eq. intros k. rewrite Hl. by apply He.
Qed.

(** [HasSynced] means what its clients take it for: an informer whose reflector starts
    with a list says that it has synced only when the handler has been called for every
    object of that list; and, when the list has no key twice, it says so at the latest when
    the queue has been worked off. *)
Theorem HasSynced_after_list {A : Type} `{GoMapOrder} (keyFunc : A → string) (l : list A) (ops : list (op A)) :
  let '(i, notes) := run keyFunc (Relist l :: ops) NewInformer in
  (HasSynced (fifo i) = true → ∀ o, o ∈ l → ∃ n, n ∈ notes ∧ note_key keyFunc n = keyFunc o) ∧
  (NoDup (keyFunc <$> l) → HasSynced (fifo (drain keyFunc i).1) = true).
Proof.
  pose proof (first_list_told keyFunc l ops) as Htold. destruct (first_list_waiting keyFunc l) as (Hok&Hw&Hcount).
  cbn [run] in *. destruct (step keyFunc (Relist l) NewInformer) as [i1 n1] eqn:E1. cbn in Hok, Hw, Hcount.
  injection E1 as _ <-. pose proof (run_waiting keyFunc _ ops [] i1 Hok Hw) as Hr. pose proof (run_ok keyFunc ops i1 Hok) as Hok2.
  destruct (run keyFunc ops i1) as [i ns]. destruct Hr as [[Hp _] Hlen]. cbn in *. split; [exact Htold|].
  intros Hnd. pose proof (drain_spec keyFunc i (proj1 Hok2)) as Hd. destruct (drain keyFunc i) as [i' ns'].
  destruct Hd as (_&_&Hp'&Hc'&_). cbn. unfold HasSynced. rewrite Hp', Hp, Hc'. specialize (Hlen (Hcount Hnd)).
  apply bool_decide_eq_true. lia.
Qed.

Module InformerExamples.
(** Objects with a key and a version. *)
Definition obj : Type := string * nat.
Abbreviation key := (fst : obj → string).

(** Objects come and go; then the watch breaks, and a deletion and an addition are missed. *)
Definition before : list (op obj) :=
  [Relist [("a", 1); ("b", 1)]; ProcessOne; WatchModified ("a", 2); WatchDeleted ("b", 1); ProcessOne; ResyncTimer;
   ProcessOne; ProcessOne].
Definition history : list (op obj) := before ++ [Relist [("c", 1)]; ProcessOne; WatchModified ("c", 2)].

Lemma history_clean : clean key history NewInformer.
Proof.
  assert (inf_ok key (run key before NewInformer).1) as Hok.
  { pose proof (run_ok key before NewInformer (NewInformer_ok key)) as Hr.
    destruct (run key before NewInformer). apply Hr. }
  unfold history, before. cbn [clean app]. split_and!; try exact I.
  - apply drained_clean; [apply NewInformer_ok|done].
  - apply (drained_clean key (Relist [("c", 1)]) (run key before NewInformer).1 Hok). vm_compute. reflexivity.
Qed.

Lemma informer_catches_up_witness :
  let '(i, notes) := drain key (run key history NewInformer).1 in
  queue (fifo i) = [] ∧ clientState i = reads key history.
Proof. exact (informer_catches_up key history history_clean). Defined.

Example told_of_missed_deletion :
  (run key (history ++ [ProcessOne; ProcessOne]) NewInformer).2 =
    [OnAdd ("a", 1); OnAdd ("b", 1); OnDelete (Object ("b", 1)); OnUpdate ("a", 1) ("a", 2);
     OnAdd ("c", 1); OnDelete (DeletedFinalStateUnknown "a" (Some ("a", 2))); OnUpdate ("c", 1) ("c", 2)].
Proof. vm_compute. reflexivity. Qed.

(** A deletion waits in the queue when the list with the object made again arrives: the list
    is not heeded, and the object is missing from then on; a resync does not bring it. *)
Example recreated_object_lost :
  clientState (drain key (run key [Relist [("a", 1)]; ProcessOne; WatchDeleted ("a", 1); Relist [("a", 2)]; ProcessOne;
    ResyncTimer] NewInformer).1).1 = ∅.
Proof. vm_compute. reflexivity. Qed.

(** An addition waits in the queue when a list without the object arrives: the object is
    added nevertheless. *)
Example deleted_object_stays :
  clientState (drain key (run key [Relist []; WatchAdded ("a", 1); Relist []] NewInformer).1).1 = {[ "a" := ("a", 1) ]}.
Proof. vm_compute. reflexivity. Qed.
End InformerExamples.
