(* ===== verification/DnsRunner.v ===== *)
(** The DNS controller while it runs, [dnsControllerRun] of
    [pkg/controller/ingress/dns/dns.go]: an informer that puts every changed ingress into
    the work queue, and workers that take them out.  The queue holds pointers to the objects
    of the informer: two versions of an ingress are two items.  [wait.Until] starts a worker
    again only when it has returned, which it does when the queue is shut down.

    A worker's turn is two steps, with anything in between: it takes an item; it has
    processed the item and marks it as done.  [StartFederatedIngressController] asks for one
    worker, whose provider calls nobody interferes with. *)

From S2P Require Import Prelude GoStrings GoNet KubeTypes LbStatus DnsProvider WorkQueue DnsUtil Handlers IngressDns IngressDnsFacts IngressDnsProcess.

(** The queue, the items the workers are at, and what is behind the provider. *)
Record runner (St : Type) := mkRunner {
  workQueue : Type_ positive;
  busy : list positive;
  world : St
}.
Arguments mkRunner {St} _ _ _.
Arguments workQueue {St} _.
Arguments busy {St} _.
Arguments world {St} _.

Inductive dns_event :=
  | Watch (e : watch_event positive)
  | Take (item : positive)
  | Finish (item : positive)
  | StopCh.

Section runner.
Context {St Zone RRset CS : Type} `{Z : ZoneRrsets St Zone RRset CS} `{Resolver} `{StableClusters St} `{O : MapOrder}.
Context (idc : IngressDNSController Zone) (deref : positive → Ingress) (workers : nat).

(** [reflect.DeepEqual] of pointers compares what they point to. *)
Definition pointee_equal (a b : positive) : bool := bool_decide (deref a = deref b).

(** The handler of the informer. *)
Definition on_ingress : watch_event positive → M (Type_ positive) unit :=
  NewTriggerOnAllChanges pointee_equal (λ obj, modify (Add obj)).

(** A step of the controller. *)
Inductive dns_step : runner St → dns_event → runner St → Prop :=
  | step_watch e q q' b s : on_ingress e q = (Val tt, q') → dns_step (mkRunner q b s) (Watch e) (mkRunner q' b s)
  | step_take x q q' b s : length b < workers → Get q = Some ((Some x, false), q') →
      dns_step (mkRunner q b s) (Take x) (mkRunner q' (b ++ [x]) s)
  | step_finish x q b1 b2 s s' : process idc (deref x) s = (Val tt, s') →
      dns_step (mkRunner q (b1 ++ x :: b2) s) (Finish x) (mkRunner (Done x q) (b1 ++ b2) s')
  | step_stop q b s : dns_step (mkRunner q b s) StopCh (mkRunner (ShutDown q) b s).

Inductive dns_run : runner St → list dns_event → runner St → Prop :=
  | run_nil r : dns_run r [] r
  | run_snoc r evs r1 e r2 : dns_run r evs r1 → dns_step r1 e r2 → dns_run r (evs ++ [e]) r2.

Definition started (s : St) : runner St := mkRunner New [] s.
Definition idle (r : runner St) : Prop := queue (workQueue r) = [] ∧ busy r = [].

(** The items put into the queue, and the ones finished, in order. *)
Definition notified (evs : list dns_event) : list positive :=
  omap (λ e, match e with Watch e => changed_object pointee_equal e | _ => None end) evs.
Definition finished (evs : list dns_event) : list positive :=
  omap (λ e, match e with Finish x => Some x | _ => None end) evs.
End runner.
Arguments started {St} s.

Section one_worker.
Context {St Zone RRset CS : Type} `{Z : ZoneRrsets St Zone RRset CS} `{Resolver} `{StableClusters St} `{O : MapOrder}.
Context (idc : IngressDNSController Zone) (deref : positive → Ingress).
Abbreviation step := (dns_step idc deref 1).
Abbreviation run := (dns_run idc deref 1).

Lemma notified_snoc evs e : notified deref (evs ++ [e]) = notified deref evs ++ notified deref [e].
Proof. apply omap_app. Qed.
Lemma finished_snoc evs e : finished (evs ++ [e]) = finished evs ++ finished [e].
Proof. apply omap_app. Qed.

(** While the queue runs and every change brings an object of its own: everything notified
    is finished, being processed, or queued, in this order, and the state is what the
    finished items left. *)
Record in_line (s0 : St) (evs : list dns_event) (r : runner St) : Prop := {
  il_order : finished evs ++ busy r ++ queue (workQueue r) = notified deref evs;
  il_dirty : ∀ x, x ∈ dirty (workQueue r) ↔ x ∈ queue (workQueue r);
  il_processing : ∀ x, x ∈ processing (workQueue r) ↔ x ∈ busy r;
  il_running : shuttingDown (workQueue r) = false;
  il_one : length (busy r) ≤ 1;
  il_world : world r = process_all idc deref (finished evs) s0
}.

Lemma started_in_line s : in_line s [] (started s).
Proof. split; cbn; set_solver || done || lia. Qed.

Lemma step_in_line s0 evs r e r' :
  in_line s0 evs r → step r e r' → e ≠ StopCh → NoDup (notified deref (evs ++ [e])) →
  in_line s0 (evs ++ [e]) r'.
Proof.
  intros [Ho Hd Hp Hr Hone Hw] Hs He Hnd. rewrite notified_snoc in Hnd.
  destruct Hs as [e q q' b s Hrun|x q q' b s Hb Hg|x q b1 b2 s s' Hrun|q b s]; cbn in *; [| | |done].
  - apply trigger_run in Hrun. rewrite <-Ho in Hnd.
    destruct (changed_object _ e) as [x|] eqn:Ec; cbn in Hnd; rewrite ?Ec in Hnd; cbn in Hnd.
    + cbv [modify] in Hrun. injection Hrun as <-.
      apply NoDup_app in Hnd as (_&Hnew&_).
      assert (x ∉ finished evs ++ b ++ queue q) as Hx by (intros Hin; apply (Hnew x Hin), list_elem_of_singleton; done).
      rewrite !not_elem_of_app in Hx. destruct Hx as (_&Hxb&Hxq).
      assert (Add x q = mkQueue (queue q ++ [x]) ({[x]} ∪ dirty q) (processing q) (shuttingDown q)) as ->.
      { unfold Add. rewrite Hr, decide_False by (by rewrite Hd). rewrite decide_False by (by rewrite Hp). done. }
      split; cbn; try done.
      * rewrite finished_snoc, notified_snoc, <-Ho. cbn. rewrite Ec. cbn. by rewrite app_nil_r, <-!app_assoc.
      * intros y. rewrite elem_of_union, Hd, elem_of_app. set_solver.
      * rewrite finished_snoc. cbn. by rewrite app_nil_r.
    + subst q'. split; cbn; try done.
      * rewrite finished_snoc, notified_snoc, <-Ho. cbn. rewrite Ec. cbn. by rewrite !app_nil_r.
      * rewrite finished_snoc. cbn. by rewrite app_nil_r.
  - destruct b as [|]; [|cbn in Hb; lia]. unfold Get in Hg. destruct (queue q) as [|y l] eqn:Eq; [by rewrite Hr in Hg|].
    injection Hg as -> <-. cbn in *. rewrite app_nil_r, <-Ho in Hnd.
    apply NoDup_app in Hnd as (_&_&[Hxl Hl]%NoDup_cons).
    split; cbn; try done; try lia.
    + rewrite finished_snoc, notified_snoc, <-Ho. cbn. by rewrite !app_nil_r.
    + intros z. rewrite elem_of_difference, Hd. set_solver.
    + intros z. rewrite elem_of_union, Hp. set_solver.
    + rewrite finished_snoc. cbn. by rewrite app_nil_r.
  - destruct b1 as [|? [|]]; cbn in Hone; [|rewrite ?length_app in Hone; cbn in Hone; lia..].
    destruct b2 as [|]; [|cbn in Hone; lia]. cbn in *. rewrite app_nil_r, <-Ho in Hnd.
    apply NoDup_app in Hnd as (_&_&[Hxq Hq]%NoDup_cons).
    assert (Done x q = mkQueue (queue q) (dirty q) (processing q ∖ {[x]}) (shuttingDown q)) as ->.
    { unfold Done. by rewrite decide_False by (by rewrite Hd). }
    split; cbn; try done.
    + rewrite finished_snoc, notified_snoc, <-Ho. cbn. by rewrite app_nil_r, <-!app_assoc.
    + intros z. rewrite elem_of_difference, Hp. set_solver.
    + lia.
    + rewrite finished_snoc. cbn. unfold process_all. rewrite foldl_app. cbn. unfold process_all in Hw.
      by rewrite <-Hw, Hrun.
Qed.

Lemma run_in_line s evs r :
  run (started s) evs r → StopCh ∉ evs → NoDup (notified deref evs) → in_line s evs r.
Proof.
  remember (started s) as r0 eqn:E0. induction 1 as [r|r evs r1 e r2 Hr IH Hs]; intros Hstop Hnd; subst.
  - apply started_in_line.
  - rewrite notified_snoc in Hnd. eapply step_in_line; [apply IH|exact Hs|set_solver|by rewrite notified_snoc]; [done|set_solver|].
    by apply NoDup_app in Hnd as [? _].
Qed.
End one_worker.

(** ** Names of different ingresses *)

Section apart.
Context {Zone : Type} (idc : IngressDNSController Zone).

Definition dotless_name (i : Ingress) : Prop := dotless (Name (ing_meta i)) ∧ dotless (Namespace (ing_meta i)).

Lemma prefix_apart i j s t :
  dotless_name i → dotless_name j → commonPrefix idc i +:+ s = commonPrefix idc j +:+ t →
  nn_of_meta (ing_meta i) = nn_of_meta (ing_meta j).
Proof.
  unfold commonPrefix, nn_of_meta. intros [Hi Hi'] [Hj Hj'] E. rewrite !app_assoc_string in E.
  apply app_sep_inj in E as [-> E]; [|done..]. by apply app_sep_inj in E as [-> _].
Qed.

Lemma name_apart i j l l' :
  dotless_name i → dotless_name j → l ≠ [] → l' ≠ [] →
  Join (commonPrefix idc i :: l) "." = Join (commonPrefix idc j :: l') "." →
  nn_of_meta (ing_meta i) = nn_of_meta (ing_meta j).
Proof.
  intros Hi Hj Hl Hl' E. destruct l as [|w l], l' as [|w' l']; try done. rewrite !Join_cons2 in E. by eapply prefix_apart.
Qed.

Lemma others_unused i j :
  dotless_name i → dotless_name j → nn_of_meta (ing_meta i) ≠ nn_of_meta (ing_meta j) →
  ∀ z r, unused idc j (zone_dns idc i z r) ∧ unused idc j (region_dns idc i r) ∧ unused idc j (global_dns idc i).
Proof.
  intros Hi Hj Hne z r. unfold unused, zone_dns, region_dns, global_dns.
  split_and!; intros z' r'; split_and!; intros E; apply Hne;
    (eapply name_apart; [exact Hi|exact Hj| | |exact E]; done).
Qed.
End apart.

(** ** Catching up *)

Section catching_up.
Context {St Zone RRset CS : Type} `{Z : ZoneRrsets St Zone RRset CS} `{!ZoneLaws St Zone RRset CS}
  `{Resolver} `{StableClusters St} `{O : MapOrder}.
Context (idc : IngressDNSController Zone) (deref : positive → Ingress).
Context (I : St → Prop) (up : provider_up I (dnsZone idc)).
Context (zones_listed : ∀ cn cl, registry cn = Ok cl → Zones cl ≠ Some []).
Abbreviation run := (dns_run idc deref 1).

Lemma process_all_up items s : I s → I (process_all idc deref items s).
Proof.
  revert s. induction items as [|x items IH]; intros s HI; [done|]. apply IH.
  by destruct (minds_process idc (deref x) I up zones_listed s HI) as (u&s'&->&HI'&_).
Qed.

(** Ingresses processed later leave a placed one in its place. *)
Lemma process_all_placed x m cn items s :
  I s → dotless_name (deref x) → placed idc (deref x) m s cn →
  (∀ y, y ∈ items → dotless_name (deref y) ∧ nn_of_meta (ing_meta (deref x)) ≠ nn_of_meta (ing_meta (deref y))) →
  placed idc (deref x) m (process_all idc deref items s) cn.
Proof.
  intros HI Hx. revert s HI. induction items as [|y items IH]; intros s HI Hp Hy; [done|].
  cbn [process_all foldl]. destruct (minds_process idc (deref y) I up zones_listed s HI) as (u&s'&E&HI'&K).
  rewrite E. apply IH; [done| |intros; apply Hy; set_solver]. destruct (Hy y) as [Hdy Hne]; [set_solver|].
  destruct Hp as (cl&zone&e&Ho&Hl&P1&P2&P3). destruct (others_unused idc _ _ Hx Hdy Hne zone (Region cl)) as (U1&U2&U3).
  exists cl, zone, e. split; [done|]. split; [done|]. split_and!; by eapply ensured_perm; [apply K|].
Qed.

Lemma run_trans s evs r evs' r' : run s evs r → dns_run idc deref 1 r evs' r' → run s (evs ++ evs') r'.
Proof.
  intros Hr. induction 1 as [|r evs' r1 e r2 _ IH Hs]; [by rewrite app_nil_r|].
  rewrite app_assoc. eapply run_snoc; [by apply IH|done].
Qed.

(** The worker alone empties the queue. *)
Lemma reaches_idle s0 evs r :
  I s0 → run (started s0) evs r → StopCh ∉ evs → NoDup (notified deref evs) →
  ∃ evs' r', run (started s0) (evs ++ evs') r' ∧ idle r' ∧ Forall (λ e, ∃ x, e = Take x ∨ e = Finish x) evs'.
Proof.
  intros HI. remember (2 * length (queue (workQueue r)) + length (busy r)) as n eqn:Hn. revert evs r Hn.
  induction (lt_wf n) as [n _ IH]. intros evs r Hn Hr Hstop Hnd.
  pose proof (run_in_line idc deref s0 evs r Hr Hstop Hnd) as L.
  assert (∀ e r1, (∃ x, e = Take x ∨ e = Finish x) → dns_step idc deref 1 r e r1 →
    2 * length (queue (workQueue r1)) + length (busy r1) < n →
    ∃ evs' r', run (started s0) (evs ++ evs') r' ∧ idle r' ∧ Forall (λ e, ∃ x, e = Take x ∨ e = Finish x) evs') as Hgo.
  { intros e r1 He Hs Hlt. edestruct (IH _ Hlt (evs ++ [e]) r1 eq_refl) as (evs'&r'&Hr'&Hi&Hf).
    - by eapply run_snoc.
    - destruct He as [x [-> | ->]]; set_solver.
    - rewrite notified_snoc. destruct He as [x [-> | ->]]; cbn; by rewrite app_nil_r.
    - exists (e :: evs'), r'. change (evs ++ e :: evs') with (evs ++ [e] ++ evs'). rewrite app_assoc.
      split_and!; [done|done|by constructor]. }
  destruct r as [q [|x b] s]; cbn in *.
  - destruct (queue q) as [|x l] eqn:Eq; [exists [], (mkRunner q [] s); rewrite app_nil_r; by repeat split|].
    eapply (Hgo (Take x)); [by exists x; left|apply step_take; [cbn; lia|unfold Get; by rewrite Eq]|]. cbn in *. lia.
  - destruct b; [|pose proof (il_one _ _ _ _ _ L); cbn in *; lia].
    assert (I s) as HIs. { pose proof (il_world _ _ _ _ _ L) as Hw. cbn in Hw. subst s. by apply process_all_up. }
    destruct (minds_process idc (deref x) I up zones_listed s HIs) as ([]&s'&E&_&_).
    eapply (Hgo (Finish x)); [by exists x; right|apply (step_finish _ _ _ x q [] [] s s' E)|].
    pose proof (il_order _ _ _ _ _ L) as Ho. cbn in Ho. rewrite <-Ho in Hnd. apply NoDup_app in Hnd as (_&_&[Hx _]%NoDup_cons).
    assert (queue (Done x q) = queue q) as EQ.
    { unfold Done. rewrite decide_False; [done|]. by rewrite (il_dirty _ _ _ _ _ L). }
    cbn [workQueue busy app]. rewrite EQ. cbn in *. lia.
Qed.

Lemma idle_placed s0 evs r l1 x l2 m :
  I s0 → run (started s0) evs r → StopCh ∉ evs → NoDup (notified deref evs) → idle r →
  (∀ y, y ∈ notified deref evs → dotless_name (deref y)) →
  notified deref evs = l1 ++ x :: l2 → (∀ y, y ∈ l2 → nn_of_meta (ing_meta (deref x)) ≠ nn_of_meta (ing_meta (deref y))) →
  publishable (St := St) (deref x) m → ∀ cn, cn ∈ dom m → placed idc (deref x) m (world r) cn.
Proof.
  intros HI Hr Hstop Hnd [Hq Hb] Hdot Hadds Hlast P cn Hcn.
  destruct (run_in_line idc deref s0 evs r Hr Hstop Hnd) as [Ho _ _ _ _ ->]. rewrite Hq, Hb, !app_nil_r in Ho.
  rewrite Ho, Hadds. unfold process_all. rewrite foldl_app. cbn [foldl]. fold (process_all idc deref l1 s0).
  assert (I (process_all idc deref l1 s0)) as HI1 by by apply process_all_up.
  destruct (process_places idc (deref x) m P I up _ HI1) as (s'&E&HI'&Hp&_). rewrite E.
  assert (∀ y, y ∈ x :: l2 → dotless_name (deref y)) as Hdot'
    by (intros y Hy; apply Hdot; rewrite Hadds, elem_of_app; by right).
  apply process_all_placed; [done|apply Hdot', list_elem_of_here|by apply Hp|].
  intros y Hy. split; [by apply Hdot', list_elem_of_further|by apply Hlast].
Qed.
End catching_up.

(** ** Properties *)

(** C5: the DNS controller catches up: whatever the informer reports, in any interleaving
    with the one worker, as long as every change brings an object of its own, with a name
    without dots, and the provider is up, the worker can go on until nothing is left to do;
    and whenever nothing is left, the names of every ingress hold what its last version calls
    for. *)
Theorem dns_catches_up {St Zone RRset CS : Type} `{Z : ZoneRrsets St Zone RRset CS} `{!ZoneLaws St Zone RRset CS}
    `{Resolver} `{StableClusters St} `{O : MapOrder} (idc : IngressDNSController Zone) (deref : positive → Ingress)
    (I : St → Prop) (s0 : St) (evs : list dns_event) (r : runner St) :
  provider_up I (dnsZone idc) → (∀ cn cl, registry cn = Ok cl → Zones cl ≠ Some []) → I s0 →
  dns_run idc deref 1 (started s0) evs r → StopCh ∉ evs → NoDup (notified deref evs) →
  (∀ y, y ∈ notified deref evs → dotless_name (deref y)) →
  (∃ evs' r', dns_run idc deref 1 (started s0) (evs ++ evs') r' ∧ idle r' ∧
     Forall (λ e, ∃ x, e = Take x ∨ e = Finish x) evs') ∧
  (idle r → ∀ l1 x l2 m, notified deref evs = l1 ++ x :: l2 →
     (∀ y, y ∈ l2 → nn_of_meta (ing_meta (deref x)) ≠ nn_of_meta (ing_meta (deref y))) →
     publishable (St := St) (deref x) m → ∀ cn, cn ∈ dom m → placed idc (deref x) m (world r) cn).
Proof.
  intros up Hz HI Hr Hstop Hnd Hdot. split; [by eapply reaches_idle|].
  intros Hidle l1 x l2 m Hadds Hlast P. by eapply idle_placed.
Qed.

(** ** The theorem at work *)

Module DnsRunnerExamples.
Import LbStatusExamples IngressDnsExamples IngressDnsProcessExamples.
#[local] Existing Instances MemZone.ops MemZone.rrsets MemZone.laws.
#[local] Existing Instances resolver stable key_order.
#[local] Instance known_clusters : FedClusters MemZone.St := fed.

(** Three versions of an ingress: without status, with the status of two clusters, and
    deleted. *)
Definition version (p : positive) : Ingress :=
  match p with
  | 1%positive => mkIngress (mkObjectMeta "w" "ns" "" "" None None None [] "") (mkSpec None None None) (mkLBS [])
  | 3%positive => ing_with_meta (mkObjectMeta "w" "ns" "" "" (Some 1%Z) None (Annotations (ing_meta annotated)) [] "") annotated
  | _ => annotated
  end.
Definition first_two : list dns_event :=
  [Watch (Added 1%positive); Take 1%positive; Watch (Updated 1%positive 2%positive); Finish 1%positive;
   Take 2%positive; Finish 2%positive].
Definition settled : runner MemZone.St := mkRunner New [] processed.

(** A queue with these items waiting, and perhaps one being processed. *)
Definition waiting (l : list positive) : Type_ positive := mkQueue l (list_to_set l) ∅ false.
Definition working (p : positive) (l : list positive) : Type_ positive := mkQueue l (list_to_set l) {[p]} false.

Lemma first_two_run : dns_run idc version 1 (started empty_zone) first_two settled.
Proof.
  change first_two with (((((([] ++ [Watch (Added 1%positive)]) ++ [Take 1%positive]) ++
    [Watch (Updated 1%positive 2%positive)]) ++ [Finish 1%positive]) ++ [Take 2%positive]) ++ [Finish 2%positive]).
  eapply run_snoc; [eapply run_snoc; [eapply run_snoc; [eapply run_snoc; [eapply run_snoc; [eapply run_snoc; [apply run_nil|]|]|]|]|]|].
  - apply (step_watch _ _ _ _ New (waiting [1%positive])). vm_compute. reflexivity.
  - apply (step_take _ _ _ 1%positive _ (working 1 []) []); [cbn; lia|vm_compute; reflexivity].
  - apply (step_watch _ _ _ _ (working 1 []) (working 1 [2%positive])). vm_compute. reflexivity.
  - apply (step_finish _ _ _ 1%positive (working 1 [2%positive]) [] [] empty_zone empty_zone). vm_compute. reflexivity.
  - apply (step_take _ _ _ 2%positive (waiting [2%positive]) (working 2 []) []); [cbn; lia|vm_compute; reflexivity].
  - apply (step_finish _ _ _ 2%positive (working 2 []) [] [] empty_zone processed). vm_compute. reflexivity.
Qed.

Lemma dns_catches_up_witness :
  idle settled ∧ ∀ cn, cn ∈ dom statuses → placed idc (version 2) statuses (world settled) cn.
Proof.
  assert (idle settled) as Hi by (split; reflexivity). split; [exact Hi|].
  eapply (dns_catches_up idc version _ empty_zone first_two settled reachable_up).
  - intros cn cl E. cbn in E. unfold clusters in E.
    repeat (case_bool_decide; [injection E as <-; discriminate|]). discriminate E.
  - reflexivity.
  - exact first_two_run.
  - unfold first_two. set_solver.
  - change (NoDup [1%positive; 2%positive]). apply NoDup_cons. split; [set_solver|apply NoDup_singleton].
  - intros y _. split; destruct y as [[| |]|[| |]|]; vm_compute; reflexivity.
  - exact Hi.
  - change (notified version first_two) with ([1%positive] ++ 2%positive :: []). reflexivity.
  - intros y Hy. by apply not_elem_of_nil in Hy.
  - exact annotated_publishable.
Defined.

(** When the last version of a deleted ingress is reported again while it is being processed
    and the ingress is created anew at once, the old object is queued behind the new one:
    in the end the records are those of the deleted ingress. *)
Definition recreated : list dns_event :=
  [Watch (Added 3%positive); Take 3%positive; Watch (Deleted 3%positive); Watch (Added 2%positive);
   Finish 3%positive; Take 2%positive; Finish 2%positive; Take 3%positive; Finish 3%positive].
Definition process_state (p : positive) (s : MemZone.St) : MemZone.St := (process idc (version p) s).2.
Definition left_over : MemZone.St :=
  Eval vm_compute in process_state 3 (process_state 2 (process_state 3 empty_zone)).
Example recreated_overwritten :
  dns_run idc version 1 (started empty_zone) recreated (mkRunner New [] left_over) ∧
  last (notified version recreated) = Some 2%positive ∧
  zone_lookup processed tt "w.ns.fed.ing.x.io" ≠ [] ∧ zone_lookup left_over tt "w.ns.fed.ing.x.io" = [].
Proof.
  split; [|split_and!; [reflexivity|discriminate|vm_compute; reflexivity]].
  assert (∀ p s, process idc (version p) s = (Val tt, process_state p s) →
    ∀ q q' evs, Done p q = q' → dns_run idc version 1 (started empty_zone) evs (mkRunner q [p] s) →
    dns_run idc version 1 (started empty_zone) (evs ++ [Finish p]) (mkRunner q' [] (process_state p s))) as Hfinish.
  { intros p s E q q' evs <- Hr. eapply run_snoc; [exact Hr|]. apply (step_finish _ _ _ p q [] [] s _ E). }
  assert (∀ p s q q' evs, WorkQueue.Get q = Some ((Some p, false), q') →
    dns_run idc version 1 (started empty_zone) evs (mkRunner q [] s) →
    dns_run idc version 1 (started empty_zone) (evs ++ [Take p]) (mkRunner q' [p] s)) as Htake.
  { intros p s q q' evs E Hr. eapply run_snoc; [exact Hr|]. apply (step_take _ _ _ p q q' []); [cbn; lia|exact E]. }
  replace left_over with (process_state 3 (process_state 2 (process_state 3 empty_zone))) by (vm_compute; reflexivity).
  apply (Hfinish 3%positive) with (evs := [_; _; _; _; _; _; _; _]) (q := working 3 []); [vm_compute; reflexivity..|].
  apply (Htake 3%positive) with (evs := [_; _; _; _; _; _; _]) (q := waiting [3%positive]); [vm_compute; reflexivity|].
  apply (Hfinish 2%positive) with (evs := [_; _; _; _; _; _]) (q := working 2 [3%positive]); [vm_compute; reflexivity..|].
  apply (Htake 2%positive) with (evs := [_; _; _; _; _]) (q := waiting [2%positive; 3%positive]); [vm_compute; reflexivity|].
  apply (Hfinish 3%positive) with (evs := [_; _; _; _]) (q := mkQueue [2%positive] {[2%positive; 3%positive]} {[3%positive]} false);
    [vm_compute; reflexivity..|].
  apply (run_snoc _ _ _ _ [_; _; _] (mkRunner (mkQueue [] {[3%positive]} {[3%positive]} false) [3%positive] empty_zone));
    [|apply step_watch; vm_compute; reflexivity].
  apply (run_snoc _ _ _ _ [_; _] (mkRunner (working 3 []) [3%positive] empty_zone)); [|apply step_watch; vm_compute; reflexivity].
  apply (Htake 3%positive) with (evs := [_]) (q := waiting [3%positive]); [vm_compute; reflexivity|].
  apply (run_snoc _ _ _ _ [] (started empty_zone)); [apply run_nil|apply step_watch; vm_compute; reflexivity].
Qed.
End DnsRunnerExamples.
