(* ===== verification/Md5.v ===== *)
(** The provider UID: [getProviderUid] of [pkg/controller/ingress/ingress_controller.go],
    with the [md5.Sum] of Go's standard library (RFC 1321) on 32-bit words. *)

From S2P Require Import Prelude GoStrings Json.
From Stdlib Require Import Ascii.

(** ** [md5.Sum] *)

Definition w32 (z : Z) : Z := Z.land z 0xffffffff.
Definition rotl (x s : Z) : Z := Z.lor (w32 (Z.shiftl x s)) (Z.shiftr x (32 - s)).

Definition md5_table : list Z := [
   0xd76aa478; 0xe8c7b756; 0x242070db; 0xc1bdceee; 0xf57c0faf; 0x4787c62a; 0xa8304613; 0xfd469501;
   0x698098d8; 0x8b44f7af; 0xffff5bb1; 0x895cd7be; 0x6b901122; 0xfd987193; 0xa679438e; 0x49b40821;
   0xf61e2562; 0xc040b340; 0x265e5a51; 0xe9b6c7aa; 0xd62f105d; 0x02441453; 0xd8a1e681; 0xe7d3fbc8;
   0x21e1cde6; 0xc33707d6; 0xf4d50d87; 0x455a14ed; 0xa9e3e905; 0xfcefa3f8; 0x676f02d9; 0x8d2a4c8a;
   0xfffa3942; 0x8771f681; 0x6d9d6122; 0xfde5380c; 0xa4beea44; 0x4bdecfa9; 0xf6bb4b60; 0xbebfbc70;
   0x289b7ec6; 0xeaa127fa; 0xd4ef3085; 0x04881d05; 0xd9d4d039; 0xe6db99e5; 0x1fa27cf8; 0xc4ac5665;
   0xf4292244; 0x432aff97; 0xab9423a7; 0xfc93a039; 0x655b59c3; 0x8f0ccc92; 0xffeff47d; 0x85845dd1;
   0x6fa87e4f; 0xfe2ce6e0; 0xa3014314; 0x4e0811a1; 0xf7537e82; 0xbd3af235; 0x2ad7d2bb; 0xeb86d391
]%Z.

Definition md5_shifts (round : nat) : list Z :=
  match round with
  | 0 => [7; 12; 17; 22]%Z
  | 1 => [5; 9; 14; 20]%Z
  | 2 => [4; 11; 16; 23]%Z
  | _ => [6; 10; 15; 21]%Z
  end.

(** The state: four words. *)
Definition words4 : Type := Z * Z * Z * Z.
Definition md5_init : words4 := (0x67452301, 0xefcdab89, 0x98badcfe, 0x10325476)%Z.

Definition md5_step (block : list Z) (st : words4) (i : nat) : words4 :=
  let '(a, b, c, d) := st in
  let not32 x := Z.lxor x 0xffffffff in
  let '(f, g) :=
    match i / 16 with
    | 0 => (Z.lor (Z.land b c) (Z.land (not32 b) d), i)
    | 1 => (Z.lor (Z.land d b) (Z.land (not32 d) c), (5 * i + 1) mod 16)
    | 2 => (Z.lxor b (Z.lxor c d), (3 * i + 5) mod 16)
    | _ => (Z.lxor c (Z.lor b (not32 d)), (7 * i) mod 16)
    end%nat in
  let sum := w32 (f + a + default 0 (md5_table !! i) + default 0 (block !! g))%Z in
  let shift := default 0%Z (md5_shifts (i / 16)%nat !! (i mod 4)%nat) in
  (d, w32 (b + rotl sum shift), b, c)%Z.

Definition md5_block (st : words4) (block : list Z) : words4 :=
  let '(a, b, c, d) := st in
  let '(a', b', c', d') := foldl (md5_step block) st (seq 0 64) in
  (w32 (a + a'), w32 (b + b'), w32 (c + c'), w32 (d + d'))%Z.

(** The [n] low bytes of a number, least significant first. *)
Fixpoint little_endian (n : nat) (z : Z) : list Z :=
  match n with
  | 0 => []
  | S n' => Z.land z 0xff :: little_endian n' (Z.shiftr z 8)
  end.
Fixpoint from_little_endian (l : list Z) : Z :=
  match l with
  | [] => 0
  | b :: l' => Z.lor b (Z.shiftl (from_little_endian l') 8)
  end.

Fixpoint chunks {A} (fuel n : nat) (l : list A) : list (list A) :=
  match fuel, l with
  | S fuel', _ :: _ => take n l :: chunks fuel' n (drop n l)
  | _, _ => []
  end.

(** The message, 0x80, zeros up to 56 modulo 64, and the length in bits. *)
Definition md5_pad (msg : list Z) : list Z :=
  msg ++ [0x80%Z] ++ replicate ((119 - length msg mod 64) mod 64) 0%Z ++
  little_endian 8 (8 * Z.of_nat (length msg)).

Definition md5_sum (msg : list Z) : list Z :=
  let padded := md5_pad msg in
  let blocks := chunks (length padded) 4 <$> chunks (length padded) 64 padded in
  let '(a, b, c, d) := foldl (λ st bl, md5_block st (from_little_endian <$> bl)) md5_init blocks in
  little_endian 4 a ++ little_endian 4 b ++ little_endian 4 c ++ little_endian 4 d.

(** ** [getProviderUid] *)

Definition bytes_of (s : string) : list Z := (λ c, Z.of_N (N_of_ascii c)) <$> String.list_ascii_of_string s.

(** One byte in [fmt]'s [%x]. *)
Definition hex_digit (z : Z) : ascii :=
  ascii_of_N (Z.to_N (if bool_decide (z < 10)%Z then 48 + z else 87 + z)).
Fixpoint hex (l : list Z) : string :=
  match l with
  | [] => ""
  | b :: l' => String (hex_digit (Z.shiftr b 4)) (String (hex_digit (Z.land b 15)) (hex l'))
  end.

Definition getProviderUid (clusterName : string) : string :=
  let hashedName := md5_sum (bytes_of clusterName) in
  hex (take 8 hashedName).

(** ** Facts *)

Lemma length_little_endian n z : length (little_endian n z) = n.
Proof. revert z. induction n as [|n IH]; intros z; cbn; [done|]. by rewrite IH. Qed.

Lemma md5_sum_length msg : length (md5_sum msg) = 16.
Proof.
  unfold md5_sum. destruct (foldl _ _ _) as [[[a b] c] d].
  by rewrite !length_app, !length_little_endian.
Qed.

Lemma little_endian_bytes n z : Forall (λ b, (0 ≤ b < 256)%Z) (little_endian n z).
Proof.
  revert z. induction n as [|n IH]; intros z; cbn; constructor; [|apply IH].
  change 255%Z with (Z.ones 8). rewrite Z.land_ones by lia. apply Z.mod_pos_bound. lia.
Qed.

Lemma md5_sum_bytes msg : Forall (λ b, (0 ≤ b < 256)%Z) (md5_sum msg).
Proof.
  unfold md5_sum. destruct (foldl _ _ _) as [[[a b] c] d]. rewrite !Forall_app.
  split_and!; apply little_endian_bytes.
Qed.

Definition is_hex (c : ascii) : bool := in_rng 48 57 c || in_rng 97 102 c.

Lemma hex_digit_hex z : (0 ≤ z < 16)%Z → is_hex (hex_digit z) = true.
Proof.
  intros Hz. assert (z ∈ seqZ 0 16) as Hin by (apply elem_of_seqZ; lia). revert z Hz Hin.
  assert (Forall (λ z, is_hex (hex_digit z) = true) (seqZ 0 16)) as Hall
    by (apply (bool_decide_unpack _); vm_compute; exact I).
  intros z _ Hin. rewrite Forall_forall in Hall. by apply Hall.
Qed.

Lemma hex_length l : String.length (hex l) = 2 * length l.
Proof. induction l as [|b l IH]; cbn; [done|]. rewrite IH. lia. Qed.

Lemma hex_hex l : Forall (λ b, (0 ≤ b < 256)%Z) l → string_forall is_hex (hex l) = true.
Proof.
  induction 1 as [|b l Hb _ IH]; cbn [hex string_forall]; [done|].
  rewrite !hex_digit_hex, IH; [done| |].
  - change 15%Z with (Z.ones 4). rewrite Z.land_ones by lia. apply Z.mod_pos_bound. lia.
  - rewrite Z.shiftr_div_pow2 by lia. split; [apply Z.div_pos; lia|apply Z.div_lt_upper_bound; lia].
Qed.

(** ** Properties *)

(** The provider UID of any cluster is sixteen lower-case hexadecimal digits, whatever
    the cluster is called, and so is fit to be a value of the config map and part of the
    names of cloud resources. *)
Theorem getProviderUid_format (clusterName : string) :
  String.length (getProviderUid clusterName) = 16 ∧ string_forall is_hex (getProviderUid clusterName) = true.
Proof.
  unfold getProviderUid. split.
  - rewrite hex_length, length_take, md5_sum_length. done.
  - apply hex_hex, Forall_take, md5_sum_bytes.
Qed.

(** The test vectors of RFC 1321. *)
Example md5_vectors :
  hex (md5_sum (bytes_of "")) = "d41d8cd98f00b204e9800998ecf8427e" ∧
  hex (md5_sum (bytes_of "abc")) = "900150983cd24fb0d6963f7d28e17f72" ∧
  hex (md5_sum (bytes_of "12345678901234567890123456789012345678901234567890123456789012345678901234567890")) =
    "57edf4a22be3c955ac49da2e2107b67a" ∧
  getProviderUid "a" = "0cc175b9c0f1b6a8".
Proof. vm_compute. repeat split; reflexivity. Qed.
