(* ===== verification/ClusterSelector.v ===== *)
(** The cluster selector, [federation-controller/util/clusterselector/clusterselector.go]:
    an annotation that says, as a JSON list of label requirements, to which clusters an
    object is sent; with the part of [apimachinery/pkg/labels/selector.go] and of
    [util/validation] that it uses.  The regular expressions of [util/validation] are
    written as the predicates on strings they stand for. *)

From S2P Require Import Prelude GoStrings Json KubeTypes LbStatus.
From Stdlib Require Import Ascii.

Definition FederationClusterSelectorAnnotation : string := "federation.alpha.kubernetes.io/cluster-selector".

(** [selection.Operator]; [NoOperator] is the empty string. *)
Inductive Operator :=
  | DoesNotExist | Equals | DoubleEquals | In | NotEquals | NotIn | Exists | GreaterThan | LessThan | NoOperator.
#[export] Instance Operator_eq_dec : EqDecision Operator.
Proof. solve_decision. Defined.

(** [ConvertOperator]. *)
Definition ConvertOperator (source : string) : Operator :=
  let is_ s := bool_decide (source = s) in
  if is_ "!" || is_ "DoesNotExist" then DoesNotExist
  else if is_ "=" then Equals
  else if is_ "==" then DoubleEquals
  else if is_ "in" || is_ "In" then In
  else if is_ "!=" then NotEquals
  else if is_ "notin" || is_ "NotIn" then NotIn
  else if is_ "exists" || is_ "Exists" then Exists
  else if is_ "gt" || is_ "Gt" || is_ ">" then GreaterThan
  else if is_ "lt" || is_ "Lt" || is_ "<" then LessThan
  else NoOperator.

(** ** Validation *)

Definition is_lower (c : ascii) : bool := in_rng 97 122 c || in_rng 48 57 c.
Definition is_alnum (c : ascii) : bool := is_lower c || in_rng 65 90 c.
Definition is_ext (c : ascii) : bool :=
  is_alnum c || bool_decide (c = "-"%char) || bool_decide (c = "_"%char) || bool_decide (c = "."%char).

Fixpoint last_char (s : string) : option ascii :=
  match s with
  | "" => None
  | String c "" => Some c
  | String _ s' => last_char s'
  end.

(** A string that is not empty, with [ends] at both ends and [mid] throughout. *)
Definition bounded_by (ends mid : ascii → bool) (s : string) : bool :=
  match s, last_char s with
  | String c _, Some d => ends c && ends d && string_forall mid s
  | _, _ => false
  end.

Definition matches_qualified (s : string) : bool := bounded_by is_alnum is_ext s.
Definition matches_label1123 (s : string) : bool :=
  bounded_by is_lower (λ c, is_lower c || bool_decide (c = "-"%char)) s.

(** [IsDNS1123Subdomain], [IsQualifiedName] and [IsValidLabelValue] return no errors. *)
Definition IsDNS1123Subdomain (value : string) : bool :=
  bool_decide (String.length value ≤ 253) && forallb matches_label1123 (Split "."%char value).
Definition IsQualifiedName (value : string) : bool :=
  let name_ok name := bool_decide (0 < String.length name ≤ 63) && matches_qualified name in
  match Split "/"%char value with
  | [name] => name_ok name
  | [prefix; name] => bool_decide (prefix ≠ "") && IsDNS1123Subdomain prefix && name_ok name
  | _ => false
  end.
Definition IsValidLabelValue (value : string) : bool :=
  bool_decide (String.length value ≤ 63) && (bool_decide (value = "") || matches_qualified value).

(** ** Requirements *)

Record Requirement := mkRequirement { key : string; operator : Operator; strValues : list string }.

(** [NewRequirement]. *)
Definition NewRequirement (key : string) (op : Operator) (vals : list string) : result Requirement :=
  if negb (IsQualifiedName key) then Err (Errorf "invalid label key") else
  let checked : option error :=
    match op with
    | In | NotIn =>
        if bool_decide (length vals = 0) then Some (Errorf "for 'in', 'notin' operators, values set can't be empty") else None
    | Equals | DoubleEquals | NotEquals =>
        if bool_decide (length vals ≠ 1) then Some (Errorf "exact-match compatibility requires one single value") else None
    | Exists | DoesNotExist =>
        if bool_decide (length vals ≠ 0) then Some (Errorf "values set must be empty for exists and does not exist") else None
    | GreaterThan | LessThan =>
        if bool_decide (length vals ≠ 1) then Some (Errorf "for 'Gt', 'Lt' operators, exactly one value is required")
        else if negb (forallb (λ v, bool_decide (is_Some (ParseInt v))) vals)
             then Some (Errorf "for 'Gt', 'Lt' operators, the value must be an integer") else None
    | NoOperator => Some (Errorf "operator is not recognized")
    end in
  match checked with
  | Some e => Err e
  | None =>
      if forallb IsValidLabelValue vals then Ok (mkRequirement key op (merge_sort String.le vals))
      else Err (Errorf "invalid label value")
  end.

(** [labels.Set], its [Has] and [Get]. *)
Definition Has (ls : gomap string) (label : string) : bool := bool_decide (is_Some (map_get ls label)).
Definition Get (ls : gomap string) (label : string) : string := map_get_str ls label.

Definition hasValue (r : Requirement) (value : string) : bool := bool_decide (value ∈ strValues r).

(** [Requirement.Matches]. *)
Definition Requirement_Matches (r : Requirement) (ls : gomap string) : bool :=
  match operator r with
  | In | Equals | DoubleEquals => if negb (Has ls (key r)) then false else hasValue r (Get ls (key r))
  | NotIn | NotEquals => if negb (Has ls (key r)) then true else negb (hasValue r (Get ls (key r)))
  | Exists => Has ls (key r)
  | DoesNotExist => negb (Has ls (key r))
  | GreaterThan | LessThan =>
      if negb (Has ls (key r)) then false
      else match ParseInt (Get ls (key r)) with
           | None => false
           | Some lsValue =>
               match strValues r with
               | [v] =>
                   match ParseInt v with
                   | None => false
                   | Some rValue =>
                       (bool_decide (operator r = GreaterThan) && bool_decide (rValue < lsValue)%Z) ||
                       (bool_decide (operator r = LessThan) && bool_decide (lsValue < rValue)%Z)
                   end
               | _ => false
               end
           end
  | NoOperator => false
  end.

(** [internalSelector], its [Add] of one requirement (sorted by key; the order among equal
    keys is [sort.Sort]'s, and does not matter to [Matches]) and its [Matches]. *)
Definition internalSelector : Type := list Requirement.
Definition Selector_Add (sel : internalSelector) (r : Requirement) : internalSelector :=
  merge_sort (λ a b, String.le (key a) (key b)) (sel ++ [r]).
Definition Selector_Matches (sel : internalSelector) (ls : gomap string) : bool :=
  forallb (λ r, Requirement_Matches r ls) sel.

(** ** The annotation *)

(** [ClusterSelectorRequirement]. *)
Record ClusterSelectorRequirement := mkCSR { csr_key : string; csr_operator : string; csr_values : list string }.

(** A requirement while it is decoded, with the backing array of its values. *)
Definition dec_csr_field (st : ClusterSelectorRequirement * list string) (kv : string * json) :
    option (ClusterSelectorRequirement * list string) :=
  let '(r, backing) := st in
  let '(k, v) := kv in
  if equalFold "key" k then s ← dec_string (csr_key r) v; Some (mkCSR s (csr_operator r) (csr_values r), backing)
  else if equalFold "operator" k then
    s ← dec_string (csr_operator r) v; Some (mkCSR (csr_key r) s (csr_values r), backing)
  else if equalFold "values" k then
    match v with
    | JNull | JArr [] => Some (mkCSR (csr_key r) (csr_operator r) [], [])
    | JArr vs => l ← dec_elems "" dec_string backing vs;
                 Some (mkCSR (csr_key r) (csr_operator r) l, l ++ drop (length l) backing)
    | _ => None
    end
  else Some st.

Definition dec_csr (v : json) : option ClusterSelectorRequirement :=
  match v with
  | JNull => Some (mkCSR "" "" [])
  | JObj ms => st ← dec_fields dec_csr_field (mkCSR "" "" [], []) ms; Some st.1
  | _ => None
  end.

(** [json.Unmarshal([]byte(annotation), &requirements)]. *)
Definition unmarshal_requirements (annotation : string) : option (list ClusterSelectorRequirement) :=
  v ← Unmarshal annotation;
  match v with
  | JNull => Some []
  | JArr vs => mapM dec_csr vs
  | _ => None
  end.

(** The loop of [getSelector]. *)
Fixpoint add_requirements (selector : internalSelector) (requirements : list ClusterSelectorRequirement) :
    result internalSelector :=
  match requirements with
  | [] => Ok selector
  | requirement :: rest =>
      match NewRequirement (csr_key requirement) (ConvertOperator (csr_operator requirement)) (csr_values requirement) with
      | Err e => Err e
      | Ok r => add_requirements (Selector_Add selector r) rest
      end
  end.

(** [getSelector]. *)
Definition getSelector (annotation : string) : result internalSelector :=
  match unmarshal_requirements annotation with
  | None => Err (Errorf "json: cannot unmarshal the cluster selector")
  | Some requirements => add_requirements [] requirements
  end.

(** [SendToCluster]. *)
Definition SendToCluster (clusterLabels annotations : gomap string) : result bool :=
  match map_get annotations FederationClusterSelectorAnnotation with
  | None => Ok true
  | Some val =>
      match getSelector val with
      | Err e => Err e
      | Ok selector => Ok (Selector_Matches selector clusterLabels)
      end
  end.

(** ** What a selector means *)

(** When a requirement is well-formed: its key and values are label syntax, its operator is
    known and has the number of values it takes. *)
Definition arity_ok (op : Operator) (vals : list string) : Prop :=
  match op with
  | In | NotIn => vals ≠ []
  | Equals | DoubleEquals | NotEquals => length vals = 1
  | Exists | DoesNotExist => vals = []
  | GreaterThan | LessThan => ∃ v n, vals = [v] ∧ ParseInt v = Some n
  | NoOperator => False
  end.
Definition requirement_ok (r : ClusterSelectorRequirement) : Prop :=
  IsQualifiedName (csr_key r) = true ∧ arity_ok (ConvertOperator (csr_operator r)) (csr_values r) ∧
  Forall (λ v, IsValidLabelValue v = true) (csr_values r).

(** When labels satisfy a requirement. *)
Definition satisfies (ls : gomap string) (r : ClusterSelectorRequirement) : Prop :=
  let value := map_get ls (csr_key r) in
  match ConvertOperator (csr_operator r) with
  | In | Equals | DoubleEquals => ∃ v, value = Some v ∧ v ∈ csr_values r
  | NotIn | NotEquals => ∀ v, value = Some v → v ∉ csr_values r
  | Exists => is_Some value
  | DoesNotExist => value = None
  | GreaterThan => ∃ v n w m, value = Some v ∧ ParseInt v = Some n ∧ csr_values r = [w] ∧ ParseInt w = Some m ∧ (m < n)%Z
  | LessThan => ∃ v n w m, value = Some v ∧ ParseInt v = Some n ∧ csr_values r = [w] ∧ ParseInt w = Some m ∧ (n < m)%Z
  | NoOperator => False
  end.

Lemma checked_arity op vals :
  match op with
  | In | NotIn => bool_decide (length vals = 0) = false
  | Equals | DoubleEquals | NotEquals => bool_decide (length vals ≠ 1) = false
  | Exists | DoesNotExist => bool_decide (length vals ≠ 0) = false
  | GreaterThan | LessThan => bool_decide (length vals ≠ 1) = false ∧
      forallb (λ v, bool_decide (is_Some (ParseInt v))) vals = true
  | NoOperator => False
  end ↔ arity_ok op vals.
Proof.
  assert (∀ n, bool_decide (length vals ≠ n) = false ↔ length vals = n) as Hn
    by (intros n; rewrite bool_decide_eq_false; split; [apply dec_stable|tauto]).
  assert (length vals = 0 ↔ vals = []) as Hz by (split; [apply nil_length_inv|by intros ->]).
  assert (bool_decide (length vals ≠ 1) = false ∧ forallb (λ v, bool_decide (is_Some (ParseInt v))) vals = true ↔
          ∃ v n, vals = [v] ∧ ParseInt v = Some n) as Hi.
  { rewrite (Hn 1). split.
    - intros [Hl Hf]. destruct vals as [|v [|]]; try done. cbn in Hf. rewrite andb_true_r in Hf.
      apply bool_decide_eq_true in Hf as [n Hf]. eauto.
    - intros (v&n&->&E). cbn. rewrite E. by rewrite bool_decide_eq_true_2. }
  destruct op; cbn [arity_ok]; try apply Hn; try (rewrite (Hn 0); exact Hz); try exact Hi; try done;
    rewrite bool_decide_eq_false, Hz; done.
Qed.

Lemma NewRequirement_spec r :
  match NewRequirement (csr_key r) (ConvertOperator (csr_operator r)) (csr_values r) with
  | Ok q => requirement_ok r ∧ key q = csr_key r ∧ operator q = ConvertOperator (csr_operator r) ∧
            strValues q ≡ₚ csr_values r
  | Err _ => ¬ requirement_ok r
  end.
Proof.
  unfold NewRequirement, requirement_ok.
  pose proof (checked_arity (ConvertOperator (csr_operator r)) (csr_values r)) as Ha.
  set (A := arity_ok _ _) in *. clearbody A. destruct (IsQualifiedName (csr_key r)) eqn:Ek; cbn [negb]; [|by intros [? _]].
  assert (∀ op, match (if forallb IsValidLabelValue (csr_values r)
      then Ok (mkRequirement (csr_key r) op (merge_sort String.le (csr_values r)))
      else Err (Errorf "invalid label value")) with
    | Ok q => (Forall (λ v, IsValidLabelValue v = true) (csr_values r)) ∧ key q = csr_key r ∧ operator q = op ∧ strValues q ≡ₚ csr_values r
    | Err _ => ¬ Forall (λ v, IsValidLabelValue v = true) (csr_values r) end) as Hv.
  { intros op. destruct (forallb IsValidLabelValue _) eqn:Ef; cbn [key operator strValues].
    - split_and!; try done; [|apply merge_sort_Permutation]. apply Forall_forall. intros v Hv.
      rewrite forallb_forall in Ef. by apply Ef, list_elem_of_In.
    - intros Hf. apply not_true_iff_false in Ef. apply Ef, forallb_forall. intros v Hv.
      rewrite Forall_forall in Hf. by apply Hf, list_elem_of_In. }
  specialize (Hv (ConvertOperator (csr_operator r))).
  destruct (ConvertOperator (csr_operator r)); cbn [negb];
    repeat match goal with
    | |- context [bool_decide ?P] => destruct (bool_decide P) eqn:?
    | |- context [negb (forallb ?p ?l)] => destruct (forallb p l) eqn:?; cbn [negb]
    end; try (intros (_&?&_); naive_solver);
    destruct (if forallb IsValidLabelValue (csr_values r) then _ else _); cbn beta iota in *; naive_solver.
Qed.

Lemma Requirement_Matches_spec r q ls :
  requirement_ok r → key q = csr_key r → operator q = ConvertOperator (csr_operator r) →
  strValues q ≡ₚ csr_values r → Requirement_Matches q ls = true ↔ satisfies ls r.
Proof.
  intros (_&Ha&_) Hk Ho Hv. unfold Requirement_Matches, satisfies, Has, Get, map_get_str, hasValue.
  rewrite Hk, Ho.
  assert (∀ w, csr_values r = [w] → strValues q = [w]) as Hs
    by (intros w E; rewrite E in Hv; by apply Permutation_singleton_r).
  assert (∀ v, v ∈ strValues q ↔ v ∈ csr_values r) as Hin by (intros v; by rewrite Hv).
  destruct (map_get ls (csr_key r)) as [v|]; cbn [default].
  - rewrite (bool_decide_eq_true_2 (is_Some _)) by eauto. cbn [negb].
    destruct (ConvertOperator (csr_operator r)) eqn:Eo; cbn [arity_ok] in Ha;
      rewrite ?negb_true_iff, ?bool_decide_eq_true, ?bool_decide_eq_false, ?Hin; try naive_solver;
      destruct Ha as (w&m&Ew&Em); rewrite (Hs w Ew), Em; unfold id;
      (destruct (ParseInt v) as [n|] eqn:En; [|split; [done|naive_solver]]);
      rewrite orb_true_iff, !andb_true_iff, !bool_decide_eq_true;
      (split; [intros [[? ?]|[? ?]]; try discriminate; eauto 12|]);
      intros (v'&n'&w'&m'&?&?&?&?&?); simplify_eq; assert (w = w') as <- by congruence; simplify_eq; auto.
  - rewrite (bool_decide_eq_false_2 (is_Some _)) by (by intros []). cbn [negb].
    destruct (ConvertOperator (csr_operator r)) eqn:Eo; try naive_solver; (split; [done|naive_solver]).
Qed.

Lemma Selector_Matches_app sel r ls :
  Selector_Matches (Selector_Add sel r) ls = true ↔ Selector_Matches sel ls = true ∧ Requirement_Matches r ls = true.
Proof.
  unfold Selector_Matches, Selector_Add. rewrite !forallb_forall.
  setoid_rewrite <-list_elem_of_In. setoid_rewrite merge_sort_Permutation. set_solver.
Qed.

Lemma add_requirements_spec sel rs ls :
  match add_requirements sel rs with
  | Ok sel' => Forall requirement_ok rs ∧
      (Selector_Matches sel' ls = true ↔ Selector_Matches sel ls = true ∧ Forall (satisfies ls) rs)
  | Err _ => ¬ Forall requirement_ok rs
  end.
Proof.
  revert sel. induction rs as [|r rs IH]; intros sel; cbn [add_requirements].
  - split; [constructor|]. split; [|tauto]. intros H. split; [done|constructor].
  - pose proof (NewRequirement_spec r) as Hr.
    destruct (NewRequirement _ _ _) as [q|e]; [|by intros [? _]%Forall_cons].
    destruct Hr as (Hok&Hk&Ho&Hv). specialize (IH (Selector_Add sel q)).
    destruct (add_requirements _ _) as [sel'|e]; [|intros [_ ?]%Forall_cons; done].
    destruct IH as [Hall Hm]. split; [by constructor|].
    rewrite Hm, Selector_Matches_app, (Requirement_Matches_spec r q ls), Forall_cons by done. tauto.
Qed.

(** C30: an object goes to the clusters its selector means: without the annotation to every
    cluster; with a list of well-formed requirements to exactly the clusters whose labels
    satisfy all of them, so the empty list selects every cluster; and anything else in the
    annotation is an error. *)
Theorem SendToCluster_means (ls annotations : gomap string) :
  match map_get annotations FederationClusterSelectorAnnotation with
  | None => SendToCluster ls annotations = Ok true
  | Some val =>
      match unmarshal_requirements val with
      | None => ∃ e, SendToCluster ls annotations = Err e
      | Some rs =>
          (Forall requirement_ok rs ∧ ∃ b, SendToCluster ls annotations = Ok b ∧ (b = true ↔ Forall (satisfies ls) rs)) ∨
          (¬ Forall requirement_ok rs ∧ ∃ e, SendToCluster ls annotations = Err e)
      end
  end.
Proof.
  unfold SendToCluster, getSelector.
  destruct (map_get annotations _) as [val|]; [|done].
  destruct (unmarshal_requirements val) as [rs|]; [|by eexists].
  pose proof (add_requirements_spec [] rs ls) as Hs. destruct (add_requirements [] rs) as [sel|e].
  - left. destruct Hs as [Hok Hm]. split; [done|]. eexists. split; [reflexivity|]. rewrite Hm. cbn. tauto.
  - right. split; [done|]. by eexists.
Qed.

Example selector_ex :
  let a := Some {[ FederationClusterSelectorAnnotation := dq "[{'key':'env','operator':'in','values':['prod','test']},{'key':'x/y','operator':'!'}]" ]} in
  SendToCluster (Some {[ "env" := "prod" ]}) a = Ok true ∧
  SendToCluster (Some {[ "env" := "dev" ]}) a = Ok false ∧
  SendToCluster (Some {[ "env" := "test"; "x/y" := "" ]}) a = Ok false ∧ SendToCluster None a = Ok false.
Proof. vm_compute. repeat split; reflexivity. Qed.
