(* ===== verification/FedInformer.v ===== *)
(** The federated informer, [federation-controller/util/federated_informer.go]: a view of
    the clusters of the federation and, for every ready cluster, an informer on the objects
    of one kind in that cluster.  Every method holds the informer's lock, so each is one
    step.

    A [cache.Store] is a map from keys to items; an item may be of a wrong type, which the
    code tests for.  Creating a client ([clientFactory]) is a parameter. *)

From S2P Require Import Prelude GoStrings KubeTypes.

(** An item of a store: an object of the store's type, or something else. *)
Inductive stored (A : Type) := Typed (a : A) | OtherItem.
Arguments Typed {A} a.
Arguments OtherItem {A}.

Abbreviation Store A := (gmap string (stored A)).

Definition wrong_data : error := Errorf "wrong data in FederatedInformerImpl cluster store".

(** [isClusterReady]. *)
Fixpoint conditions_ready (conditions : list ClusterCondition) : bool :=
  match conditions with
  | [] => false
  | condition :: rest =>
      if bool_decide (cond_type condition = "Ready") then
        if bool_decide (cond_status condition = "True") then true else conditions_ready rest
      else conditions_ready rest
  end.
Definition isClusterReady (cluster : Cluster) : bool := conditions_ready (Conditions cluster).

(** [informer]: its store and whether it has synced. *)
Record informer (Obj : Type) := mkInformer { inf_store : Store Obj; HasSynced : bool }.
Arguments mkInformer {Obj} _ _.
Arguments inf_store {Obj} _.
Arguments HasSynced {Obj} _.

(** [federatedInformerImpl]: [clusterInformer] and [targetInformers]. *)
Record federatedInformerImpl (Obj : Type) := mkFedInformer {
  clusterStore : Store Cluster;
  clusterSynced : bool;
  targetInformers : gmap string (informer Obj)
}.
Arguments mkFedInformer {Obj} _ _ _.
Arguments clusterStore {Obj} _.
Arguments clusterSynced {Obj} _.
Arguments targetInformers {Obj} _.

(** The loop of [GetReadyClusters] and [GetUnreadyClusters]. *)
Fixpoint select_clusters (keep : Cluster → bool) (items : list (stored Cluster)) : result (list Cluster) :=
  match items with
  | [] => Ok []
  | Typed cluster :: rest =>
      match select_clusters keep rest with
      | Ok result => Ok (if keep cluster then cluster :: result else result)
      | Err e => Err e
      end
  | OtherItem :: _ => Err wrong_data
  end.

(** The condition of the update handler. *)
Definition cluster_changed (oldCluster curCluster : Cluster) : bool :=
  bool_decide (isClusterReady oldCluster ≠ isClusterReady curCluster) ||
  bool_decide (cl_spec oldCluster ≠ cl_spec curCluster) ||
  bool_decide (Annotations (cl_meta oldCluster) ≠ Annotations (cl_meta curCluster)).

(** The calls of [ClusterLifecycleHandlerFuncs]. *)
Inductive lifecycle := ClusterAvailable (cluster : Cluster) | ClusterUnavailable (cluster : Cluster).

Section informer.
Context {Obj Client : Type} `{GoMapOrder} (clientFactory : Cluster → result Client).
Implicit Types f : federatedInformerImpl Obj.

(** ** The view of the federation *)

Definition GetUnreadyClusters f : result (list Cluster) :=
  select_clusters (λ cluster, negb (isClusterReady cluster)) (range_order (clusterStore f)).*2.
Definition GetReadyClusters f : result (list Cluster) :=
  select_clusters isClusterReady (range_order (clusterStore f)).*2.

(** [GetReadyCluster]: the cluster, or nil with [found] false. *)
Definition GetReadyCluster (name : string) f : result (option Cluster) :=
  match clusterStore f !! name with
  | Some (Typed cluster) => Ok (if isClusterReady cluster then Some cluster else None)
  | Some OtherItem => Err wrong_data
  | None => Ok None
  end.

Definition ClustersSynced f : bool := clusterSynced f.

(** [GetClientsetForCluster]. *)
Definition GetClientsetForCluster (clusterName : string) f : result Client :=
  match GetReadyCluster clusterName f with
  | Ok (Some cluster) => clientFactory cluster
  | Err e => Err e
  | Ok None => Err (Errorf ("cluster " +:+ clusterName +:+ " not found"))
  end.

(** ** Target informers *)

Definition with_targets (t : gmap string (informer Obj)) f : federatedInformerImpl Obj :=
  mkFedInformer (clusterStore f) (clusterSynced f) t.

(** [addCluster]: a new informer starts empty. *)
Definition addCluster (cluster : Cluster) f : federatedInformerImpl Obj :=
  let name := cl_name cluster in
  match GetClientsetForCluster name f with
  | Ok _ => with_targets (<[name := mkInformer ∅ false]> (targetInformers f)) f
  | Err _ => f
  end.

(** [deleteCluster]. *)
Definition deleteCluster (cluster : Cluster) f : federatedInformerImpl Obj :=
  with_targets (delete (cl_name cluster) (targetInformers f)) f.

(** [Stop]: every target informer is stopped and removed. *)
Definition Stop f : federatedInformerImpl Obj := with_targets ∅ f.

(** ** The target store *)

Definition Store_List f : list (string * stored Obj) :=
  concat ((λ '(clusterName, targetInformer),
    (λ kv, (clusterName, kv.2)) <$> range_order (inf_store targetInformer)) <$> range_order (targetInformers f)).
Definition ListFromCluster (clusterName : string) f : list (stored Obj) :=
  match targetInformers f !! clusterName with
  | Some targetInformer => (range_order (inf_store targetInformer)).*2
  | None => []
  end.
Definition GetByKey (clusterName key : string) f : option (stored Obj) :=
  targetInformer ← targetInformers f !! clusterName; inf_store targetInformer !! key.
Definition GetFromAllClusters (key : string) f : list (string * stored Obj) :=
  omap (λ '(clusterName, targetInformer), (clusterName,.) <$> inf_store targetInformer !! key)
    (range_order (targetInformers f)).

(** [ClustersSynced] of the store: the informers are those of the given clusters, and all
    have synced. *)
Fixpoint all_synced (clusters : list Cluster) f : bool :=
  match clusters with
  | [] => true
  | cluster :: rest =>
      match targetInformers f !! cl_name cluster with
      | Some targetInformer => HasSynced targetInformer && all_synced rest f
      | None => false
      end
  end.
Definition Store_ClustersSynced (clusters : list Cluster) f : bool :=
  bool_decide (size (targetInformers f) = length clusters) && all_synced clusters f.

(** ** The handlers of the cluster informer *)

Definition onDelete (oldCluster : Cluster) f : federatedInformerImpl Obj * list lifecycle :=
  (deleteCluster oldCluster f, [ClusterUnavailable oldCluster]).
Definition onAdd (curCluster : Cluster) f : federatedInformerImpl Obj * list lifecycle :=
  if isClusterReady curCluster then (addCluster curCluster f, [ClusterAvailable curCluster]) else (f, []).
Definition onUpdate (oldCluster curCluster : Cluster) f : federatedInformerImpl Obj * list lifecycle :=
  if cluster_changed oldCluster curCluster then
    let f1 := deleteCluster oldCluster f in
    if isClusterReady curCluster
    then (addCluster curCluster f1, [ClusterUnavailable oldCluster; ClusterAvailable curCluster])
    else (f1, [ClusterUnavailable oldCluster])
  else (f, []).

(** ** Runs *)

Definition with_clusters (c : Store Cluster) f : federatedInformerImpl Obj :=
  mkFedInformer c (clusterSynced f) (targetInformers f).

(** What happens to an informer: the store of clusters changes and then the handler is called,
    a target informer's store changes, or a store has been read for the first time.  When the
    deletion of a cluster was missed, the handler is given a [cache.DeletedFinalStateUnknown],
    which is not a cluster: it does nothing. *)
Inductive event :=
  | WatchAdd (cluster : Cluster)
  | WatchUpdate (cluster : Cluster)
  | WatchDelete (cluster : Cluster)
  | WatchDeleteMissed (name : string)
  | TargetChange (clusterName : string) (objs : Store Obj)
  | TargetSynced (clusterName : string)
  | ClusterListSynced.

Definition step f (e : event) : federatedInformerImpl Obj * list lifecycle :=
  match e with
  | WatchAdd c | WatchUpdate c =>
      let f1 := with_clusters (<[cl_name c := Typed c]> (clusterStore f)) f in
      match clusterStore f !! cl_name c with
      | Some (Typed old) => onUpdate old c f1
      | _ => onAdd c f1
      end
  | WatchDelete c => onDelete c (with_clusters (delete (cl_name c) (clusterStore f)) f)
  | WatchDeleteMissed n => (with_clusters (delete n (clusterStore f)) f, [])
  | TargetChange n objs =>
      (with_targets (alter (λ i, mkInformer objs (HasSynced i)) n (targetInformers f)) f, [])
  | TargetSynced n =>
      (with_targets (alter (λ i, mkInformer (inf_store i) true) n (targetInformers f)) f, [])
  | ClusterListSynced => (mkFedInformer (clusterStore f) true (targetInformers f), [])
  end.

(** [NewFederatedInformer]. *)
Definition NewFederatedInformer : federatedInformerImpl Obj := mkFedInformer ∅ false ∅.

Fixpoint run (events : list event) f : federatedInformerImpl Obj * list lifecycle :=
  match events with
  | [] => (f, [])
  | e :: es => let '(f1, l1) := step f e in let '(f2, l2) := run es f1 in (f2, l1 ++ l2)
  end.
End informer.
Arguments event Obj : clear implicits.
Arguments NewFederatedInformer {Obj}.

(** ** Facts *)

Lemma elem_of_select keep items l :
  select_clusters keep items = Ok l → ∀ c, c ∈ l ↔ Typed c ∈ items ∧ keep c = true.
Proof.
  revert l. induction items as [|[c'|] items IH]; intros l; cbn [select_clusters].
  - intros [= <-] c. set_solver.
  - destruct (select_clusters keep items) as [l'|]; [|done]. intros [= <-] c. specialize (IH l' eq_refl c).
    destruct (keep c') eqn:E; rewrite ?elem_of_cons, IH; [naive_solver|].
    split; [naive_solver|]. intros [[[= ->]|?] ?]; [congruence|done].
  - done.
Qed.

Section facts.
Context {Obj Client : Type} `{GoMapOrder} (clientFactory : Cluster → result Client).
Implicit Types f : federatedInformerImpl Obj.

(** Clusters are stored under their names, and only clusters are. *)
Definition clusters_wf (s : Store Cluster) : Prop :=
  map_Forall (λ n i, ∃ c, i = Typed c ∧ cl_name c = n) s.

Definition ready_in f (n : string) (c : Cluster) : Prop :=
  clusterStore f !! n = Some (Typed c) ∧ isClusterReady c = true.

Lemma select_ok keep items :
  Forall (λ i, ∃ c, i = Typed c) items → ∃ l, select_clusters keep items = Ok l.
Proof.
  induction 1 as [|i items [c ->] _ [l IH]]; [by exists []|]. cbn [select_clusters]. rewrite IH. eauto.
Qed.

Lemma clusters_wf_items f : clusters_wf (clusterStore f) → Forall (λ i, ∃ c : Cluster, i = Typed c) (range_order (clusterStore f)).*2.
Proof.
  intros Hw. apply Forall_forall. intros i ([n i']&->&Hi)%list_elem_of_fmap.
  apply elem_of_range_order in Hi. destruct (Hw _ _ Hi) as (c&->&_). by exists c.
Qed.

Lemma GetReadyClusters_spec f :
  clusters_wf (clusterStore f) → ∃ l, GetReadyClusters f = Ok l ∧ ∀ c, c ∈ l ↔ ready_in f (cl_name c) c.
Proof.
  intros Hw. destruct (select_ok isClusterReady _ (clusters_wf_items f Hw)) as [l E].
  exists l. split; [done|]. intros c. rewrite (elem_of_select _ _ _ E). unfold ready_in.
  rewrite list_elem_of_fmap. split; intros [Hc ?]; (split; [|done]).
  - destruct Hc as ([n i]&Ei&Hi). cbn in Ei. subst i. apply elem_of_range_order in Hi.
    destruct (Hw _ _ Hi) as (c'&[= ->]&<-). done.
  - exists (cl_name c, Typed c). by rewrite elem_of_range_order.
Qed.

Lemma GetReadyClusters_NoDup f l :
  clusters_wf (clusterStore f) → GetReadyClusters f = Ok l → NoDup (cl_name <$> l).
Proof.
  intros Hw. unfold GetReadyClusters.
  assert (∀ n i, (n, i) ∈ range_order (clusterStore f) → ∃ c, i = Typed c ∧ cl_name c = n) as Hn.
  { intros n i Hi%elem_of_range_order. apply (Hw _ _ Hi). }
  pose proof (range_order_NoDup (clusterStore f)) as Hnd. revert l Hn Hnd.
  generalize (range_order (clusterStore f)). intros items. induction items as [|[n i] items IH]; intros l Hn Hnd E.
  - cbn in E. injection E as <-. constructor.
  - rewrite !fmap_cons in Hnd. apply NoDup_cons in Hnd as [Hni Hnd].
    destruct (Hn n i) as (c&->&Hc); [set_solver|]. rewrite fmap_cons in E. cbn [select_clusters snd] in E.
    destruct (select_clusters isClusterReady items.*2) as [l'|] eqn:El; [|done].
    assert (NoDup (cl_name <$> l')) as Hnd' by (apply IH; [set_solver|done|done]).
    injection E as <-. destruct (isClusterReady c); [|done]. rewrite fmap_cons. apply NoDup_cons. split; [|done].
    intros (c'&Hcc&Hc')%list_elem_of_fmap. apply (elem_of_select _ _ _ El) in Hc' as [Hc' _].
    apply list_elem_of_fmap in Hc' as ([n' i']&Ei&Hin). cbn in Ei. subst i'.
    destruct (Hn n' (Typed c')) as (c2&[= <-]&Hn2); [set_solver|]. apply Hni. apply list_elem_of_fmap.
    exists (n', Typed c'). split; [|done]. cbn. congruence.
Qed.

Lemma all_synced_spec clusters f :
  all_synced clusters f = true ↔
  Forall (λ c, ∃ i, targetInformers f !! cl_name c = Some i ∧ HasSynced i = true) clusters.
Proof.
  induction clusters as [|c cs IH]; cbn [all_synced]; [split; [constructor|done]|].
  rewrite Forall_cons, <-IH. destruct (targetInformers f !! cl_name c) as [i|] eqn:E.
  - rewrite andb_true_iff. split; [intros [? ?]; eauto|]. intros [(i'&E'&?) ?]. by injection E' as <-.
  - split; [done|]. intros [(i&?&?) _]. done.
Qed.

(** No client could be created for the cluster as it was when its target informer was to be
    added; in what the handlers look at, it has not changed since. *)
Definition unreachable (c : Cluster) : Prop :=
  ∃ c' e, cl_name c' = cl_name c ∧ cluster_changed c' c = false ∧ clientFactory c' = Err e.

(** There is a target informer for every ready cluster, unless no client could be created. *)
Definition targets_cover f : Prop :=
  clusters_wf (clusterStore f) ∧ ∀ n c, ready_in f n c → is_Some (targetInformers f !! n) ∨ unreachable c.
(** And for no other. *)
Definition targets_exact f : Prop := ∀ n, is_Some (targetInformers f !! n) → ∃ c, ready_in f n c.

Lemma cluster_changed_false old c : cluster_changed old c = false ↔
  isClusterReady old = isClusterReady c ∧ cl_spec old = cl_spec c ∧ Annotations (cl_meta old) = Annotations (cl_meta c).
Proof.
  unfold cluster_changed. rewrite !orb_false_iff, !bool_decide_eq_false. split; [intros [[H1 H2] H3]|intros (->&->&->)].
  - by apply dec_stable in H1, H2, H3.
  - split; [split|]; intros Hn; by apply Hn.
Qed.

(** Adding a ready cluster that is stored. *)
Lemma addCluster_ready f c :
  clusterStore f !! cl_name c = Some (Typed c) → isClusterReady c = true →
  addCluster clientFactory c f =
    match clientFactory c with
    | Ok _ => with_targets (<[cl_name c := mkInformer ∅ false]> (targetInformers f)) f
    | Err _ => f
    end.
Proof. intros Hc Hr. unfold addCluster, GetClientsetForCluster, GetReadyCluster. by rewrite Hc, Hr. Qed.
Lemma unreachable_now c e : clientFactory c = Err e → unreachable c.
Proof. intros E. exists c, e. split_and!; [done|by apply cluster_changed_false|done]. Qed.
Lemma unreachable_unchanged old c : cl_name old = cl_name c → cluster_changed old c = false → unreachable old → unreachable c.
Proof.
  intros Hn Hc%cluster_changed_false (c'&e&Hn'&Hc'%cluster_changed_false&E). exists c', e.
  split_and!; [congruence| |done]. apply cluster_changed_false. destruct Hc as (?&?&?), Hc' as (?&?&?). by split_and!; etransitivity.
Qed.

Lemma insert_wf s c : clusters_wf s → clusters_wf (<[cl_name c := Typed c]> s).
Proof. intros Hw. apply map_Forall_insert_2; [by exists c|done]. Qed.

(** Replacing one cluster: its target informer has to be right, the others stay right. *)
Lemma targets_cover_insert f f' c :
  targets_cover f → clusterStore f' = <[cl_name c := Typed c]> (clusterStore f) →
  (∀ n, n ≠ cl_name c → targetInformers f' !! n = targetInformers f !! n) →
  (isClusterReady c = true → is_Some (targetInformers f' !! cl_name c) ∨ unreachable c) →
  targets_cover f' ∧
  (targets_exact f → (is_Some (targetInformers f' !! cl_name c) → isClusterReady c = true) → targets_exact f').
Proof.
  intros [Hw Hm] Hs Ht Hc. assert (∀ n, n ≠ cl_name c → ∀ x, ready_in f' n x ↔ ready_in f n x) as Hr.
  { intros n Hn x. unfold ready_in. rewrite Hs. by rewrite lookup_insert_ne. }
  split; [split; [rewrite Hs; by apply insert_wf|]|].
  - intros n x Hx. destruct (decide (n = cl_name c)) as [->|Hn].
    + unfold ready_in in Hx. rewrite Hs, lookup_insert_eq in Hx. destruct Hx as [[= <-] ?]. by apply Hc.
    + rewrite Ht by done. apply (Hm n x). by apply Hr.
  - intros He Hc' n Hn. destruct (decide (n = cl_name c)) as [->|Hne].
    + exists c. unfold ready_in. rewrite Hs, lookup_insert_eq. split; [done|by apply Hc'].
    + rewrite Ht in Hn by done. destruct (He n Hn) as [x Hx]. exists x. by apply Hr.
Qed.

(** The handlers of an added and of a changed cluster. *)
Lemma put_targets f c :
  targets_cover f →
  let f1 := with_clusters (<[cl_name c := Typed c]> (clusterStore f)) f in
  let f' := (match clusterStore f !! cl_name c with
    | Some (Typed old) => onUpdate clientFactory old c f1 | _ => onAdd clientFactory c f1 end).1 in
  targets_cover f' ∧ (targets_exact f → targets_exact f').
Proof.
  intros Hi. pose proof Hi as [Hw Hm]. cbv zeta. set (f1 := with_clusters (<[cl_name c := Typed c]> (clusterStore f)) f).
  assert (clusterStore f1 !! cl_name c = Some (Typed c)) as Hl by apply lookup_insert_eq.
  assert (∀ g, clusterStore g = clusterStore f1 → (∀ n, n ≠ cl_name c → targetInformers g !! n = targetInformers f !! n) →
    (isClusterReady c = true → is_Some (targetInformers g !! cl_name c) ∨ unreachable c) →
    (targets_exact f → is_Some (targetInformers g !! cl_name c) → isClusterReady c = true) →
    targets_cover g ∧ (targets_exact f → targets_exact g)) as Hput.
  { intros g Hg Ht Hc Hc'. destruct (targets_cover_insert f g c Hi Hg Ht Hc) as [Ha Hb]. split; [done|]. intros He. auto. }
  assert (∀ i, clusterStore f !! cl_name c = Some i → ∃ old, i = Typed old ∧ cl_name old = cl_name c) as Hold
    by (intros i Hc; by apply Hw in Hc).
  destruct (clusterStore f !! cl_name c) as [i|] eqn:Eo.
  - destruct (Hold i eq_refl) as (old&->&Hn). unfold onUpdate. destruct (cluster_changed old c) eqn:Ech.
    + assert (clusterStore (deleteCluster old f1) !! cl_name c = Some (Typed c)) as Hl1 by done.
      destruct (isClusterReady c) eqn:Er; cbn [fst].
      * rewrite addCluster_ready by done. destruct (clientFactory c) as [client|e] eqn:Ef; (apply Hput; [done| | |done]).
        -- intros n Hne. cbn. rewrite lookup_insert_ne, lookup_delete_ne by congruence. done.
        -- intros _. left. cbn. rewrite lookup_insert_eq. eauto.
        -- intros n Hne. cbn. by rewrite lookup_delete_ne by congruence.
        -- intros _. right. by eapply unreachable_now.
      * apply Hput; [done| |done|].
        -- intros n Hne. cbn. by rewrite lookup_delete_ne by congruence.
        -- intros _. cbn. rewrite Hn, lookup_delete_eq. by intros [].
    + cbn [fst]. pose proof Ech as (Hr&_)%cluster_changed_false.
      apply Hput; [done|done| |].
      * intros Hc. destruct (Hm (cl_name c) old) as [?|?]; [unfold ready_in; rewrite Eo; split; [done|congruence]|by left|].
        right. by eapply unreachable_unchanged.
      * intros He Hs. destruct (He _ Hs) as (x&Hx&Hxr). rewrite Eo in Hx. injection Hx as <-. congruence.
  - unfold onAdd. destruct (isClusterReady c) eqn:Er; cbn [fst].
    + rewrite addCluster_ready by done. destruct (clientFactory c) as [client|e] eqn:Ef; (apply Hput; [done| | |done]).
      * intros n Hne. cbn. by rewrite lookup_insert_ne.
      * intros _. left. cbn. rewrite lookup_insert_eq. eauto.
      * done.
      * intros _. right. by eapply unreachable_now.
    + apply Hput; [done|done|done|]. intros He Hs. destruct (He _ Hs) as (x&Hx&_). congruence.
Qed.

(** Changing target informers in place. *)
Lemma alter_targets f n g : targets_cover f →
  let f' := with_targets (alter g n (targetInformers f)) f in targets_cover f' ∧ (targets_exact f → targets_exact f').
Proof.
  intros [Hw Hm]. cbv zeta.
  assert (∀ k, is_Some (alter g n (targetInformers f) !! k) ↔ is_Some (targetInformers f !! k)) as Ha.
  { intros k. destruct (decide (n = k)) as [->|]; [rewrite lookup_alter_eq; by rewrite fmap_is_Some|by rewrite lookup_alter_ne]. }
  split; [split; [done|]|].
  - intros k c Hk. destruct (Hm k c Hk); [left; by apply Ha|by right].
  - intros He k Hk. cbn in Hk. apply Ha in Hk. by apply He.
Qed.

Lemma step_targets f e : targets_cover f →
  targets_cover (step clientFactory f e).1 ∧
  ((∀ n, e ≠ WatchDeleteMissed n) → targets_exact f → targets_exact (step clientFactory f e).1).
Proof.
  intros Hi. pose proof Hi as [Hw Hm].
  assert (∀ n, clusters_wf (delete n (clusterStore f))) as Hwd.
  { intros n k i [_ Hk]%lookup_delete_Some. by apply Hw. }
  assert (∀ n k c, ready_in (with_clusters (delete n (clusterStore f)) f) k c ↔ k ≠ n ∧ ready_in f k c) as Hrd.
  { intros n k c. unfold ready_in. cbn. rewrite lookup_delete_Some. naive_solver. }
  destruct e as [c|c|c|n|n objs|n|]; cbn [step].
  - destruct (put_targets f c Hi) as [? ?]. auto.
  - destruct (put_targets f c Hi) as [? ?]. auto.
  - cbn [fst onDelete]. split; [split; [exact (Hwd _)|]|].
    + intros k x [Hk Hr]%Hrd. cbn. rewrite lookup_delete_ne by done. by apply (Hm k x).
    + intros _ He k Hk. cbn in Hk. apply lookup_delete_is_Some in Hk as [Hne Hk].
      destruct (He k Hk) as [x Hx]. exists x. by apply Hrd.
  - split; [split; [exact (Hwd n)|]|].
    + intros k c [Hk Hr]%Hrd. by apply (Hm k c).
    + intros Hn. by destruct (Hn n).
  - destruct (alter_targets f n (λ i, mkInformer objs (HasSynced i)) Hi). auto.
  - destruct (alter_targets f n (λ i, mkInformer (inf_store i) true) Hi). auto.
  - by split.
Qed.

Lemma new_targets_cover : targets_cover (NewFederatedInformer (Obj := Obj)).
Proof. split; [done|]. intros n c [Hn _]. discriminate Hn. Qed.

Lemma run_targets events f : targets_cover f →
  targets_cover (run clientFactory events f).1 ∧
  ((∀ n, WatchDeleteMissed n ∉ events) → targets_exact f → targets_exact (run clientFactory events f).1).
Proof.
  revert f. induction events as [|e es IH]; intros f Hi; [by split|]. cbn [run].
  destruct (step_targets f e Hi) as [Hc He]. destruct (step clientFactory f e) as [f1 l1].
  destruct (IH f1 Hc) as [Hc' He']. destruct (run clientFactory es f1) as [f2 l2]. split; [done|].
  intros Hn Hf. apply He'; [intros n Hin; apply (Hn n); by apply list_elem_of_further|].
  apply He; [|done]. intros n ->. apply (Hn n), list_elem_of_here.
Qed.

(** ** A missed deletion *)

(** The informer of a cluster that is gone. *)
Definition stale f (n : string) : Prop := clusterStore f !! n = None ∧ is_Some (targetInformers f !! n).
(** An event that reports the cluster. *)
Definition reports (e : event Obj) (n : string) : Prop :=
  match e with WatchAdd c | WatchUpdate c | WatchDelete c => cl_name c = n | _ => False end.

Lemma put_other_cluster f c n : clusters_wf (clusterStore f) → cl_name c ≠ n →
  let f1 := with_clusters (<[cl_name c := Typed c]> (clusterStore f)) f in
  let f' := (match clusterStore f !! cl_name c with
    | Some (Typed old) => onUpdate clientFactory old c f1 | _ => onAdd clientFactory c f1 end).1 in
  clusterStore f' !! n = clusterStore f !! n ∧ targetInformers f' !! n = targetInformers f !! n.
Proof.
  intros Hw Hn. cbv zeta. set (f1 := with_clusters (<[cl_name c := Typed c]> (clusterStore f)) f).
  assert (∀ g : federatedInformerImpl Obj, clusterStore (addCluster clientFactory c g) = clusterStore g ∧
    targetInformers (addCluster clientFactory c g) !! n = targetInformers g !! n) as Hadd.
  { intros g. unfold addCluster. destruct (GetClientsetForCluster _ _ _); [|done]. split; [done|]. cbn. by rewrite lookup_insert_ne. }
  assert (clusterStore f1 !! n = clusterStore f !! n) as Hf1 by (cbn; by rewrite lookup_insert_ne).
  destruct (clusterStore f !! cl_name c) as [i|] eqn:Eo.
  - destruct (Hw _ _ Eo) as (old&->&Ho). unfold onUpdate. destruct (cluster_changed old c); [|done].
    assert (targetInformers (deleteCluster old f1) !! n = targetInformers f !! n) as Hdel
      by (cbn; by rewrite lookup_delete_ne by congruence).
    destruct (isClusterReady c); cbn [fst]; [|by split]. destruct (Hadd (deleteCluster old f1)) as [-> ->]. done.
  - unfold onAdd. destruct (isClusterReady c); cbn [fst]; [|done]. destruct (Hadd f1) as [-> ->]. done.
Qed.

Lemma step_stale f e n : targets_cover f → stale f n → ¬ reports e n → stale (step clientFactory f e).1 n.
Proof.
  intros [Hw _] [Hc Ht] He. destruct e as [c|c|c|k|k objs|k|]; cbn [step reports] in *; unfold stale.
  - destruct (put_other_cluster f c n Hw He) as [-> ->]. done.
  - destruct (put_other_cluster f c n Hw He) as [-> ->]. done.
  - cbn. by rewrite !lookup_delete_ne.
  - cbn. split; [|done]. apply lookup_delete_None. by right.
  - cbn. split; [done|]. destruct (decide (k = n)) as [->|]; [rewrite lookup_alter_eq; by rewrite fmap_is_Some|by rewrite lookup_alter_ne].
  - cbn. split; [done|]. destruct (decide (k = n)) as [->|]; [rewrite lookup_alter_eq; by rewrite fmap_is_Some|by rewrite lookup_alter_ne].
  - done.
Qed.

(** A store that counts as synced has informers for the ready clusters only. *)
Lemma synced_exact f clusters : targets_cover f → GetReadyClusters f = Ok clusters →
  Store_ClustersSynced clusters f = true → targets_exact f.
Proof.
  intros [Hw _] E. destruct (GetReadyClusters_spec f Hw) as (l&El&Hin). rewrite E in El. injection El as <-.
  assert (NoDup (cl_name <$> clusters)) as Hnd by (exact (GetReadyClusters_NoDup f clusters Hw E)).
  unfold Store_ClustersSynced. intros [Hsize%bool_decide_eq_true Hall%all_synced_spec]%andb_true_iff.
  rewrite Forall_forall in Hall.
  assert (list_to_set (cl_name <$> clusters) ⊆ dom (targetInformers f)) as Hsub.
  { intros k (c&->&Hk)%elem_of_list_to_set%list_elem_of_fmap. apply elem_of_dom. destruct (Hall c Hk) as (i&Hi&_). by exists i. }
  assert (list_to_set (cl_name <$> clusters) = dom (targetInformers f)) as Heq.
  { apply set_subseteq_size_eq; [done|]. rewrite size_list_to_set, length_fmap, size_dom by done. lia. }
  intros n Hn%elem_of_dom. rewrite <-Heq in Hn. apply elem_of_list_to_set, list_elem_of_fmap in Hn as (c&->&Hc). exists c. by apply Hin.
Qed.
Lemma stale_unsynced f n clusters : targets_cover f → stale f n → GetReadyClusters f = Ok clusters →
  Store_ClustersSynced clusters f = false.
Proof.
  intros Hi [Hc Ht] E. apply not_true_iff_false. intros Hs. destruct (synced_exact f clusters Hi E Hs n Ht) as (c&Hn&_). congruence.
Qed.
End facts.

(** ** Properties *)

(** The target informers follow the clusters: after any sequence of cluster and object
    events, there is a target informer for every ready cluster; and when no deletion of a
    cluster was missed, for exactly the ready clusters, so that the target store counts as
    synced exactly when every ready cluster's objects have been read. *)
Theorem informers_follow_clusters {Obj Client : Type} `{GoMapOrder} (clientFactory : Cluster → result Client)
    (events : list (event Obj)) :
  (∀ c, ∃ client, clientFactory c = Ok client) →
  let f := (run clientFactory events NewFederatedInformer).1 in
  (∀ n c, ready_in f n c → is_Some (targetInformers f !! n)) ∧
  ((∀ n, WatchDeleteMissed n ∉ events) →
   (∀ n, is_Some (targetInformers f !! n) ↔ ∃ c, ready_in f n c) ∧
   ∃ clusters, GetReadyClusters f = Ok clusters ∧
     (∀ c, c ∈ clusters ↔ ready_in f (cl_name c) c) ∧
     (Store_ClustersSynced clusters f = true ↔ map_Forall (λ _ i, HasSynced i = true) (targetInformers f))).
Proof.
  intros Hclients f. destruct (run_targets clientFactory events _ (new_targets_cover clientFactory)) as [[Hw Hcov'] Hex].
  fold f in Hw, Hcov', Hex. assert (∀ n c, ready_in f n c → is_Some (targetInformers f !! n)) as Hcov.
  { intros n c Hc. destruct (Hcov' n c Hc) as [?|(c'&e&_&_&E)]; [done|]. destruct (Hclients c'); congruence. }
  clear Hcov'. split; [done|]. intros Hmissed.
  assert (∀ n, is_Some (targetInformers f !! n) ↔ ∃ c, ready_in f n c) as Hm.
  { intros n. split; [|intros [c Hc]; by eapply Hcov]. apply Hex; [done|]. intros k Hk. by destruct Hk. }
  clearbody f. clear Hex Hcov. split; [done|]. destruct (GetReadyClusters_spec f Hw) as (clusters&E&Hin).
  exists clusters. split; [done|]. split; [done|].
  assert (NoDup (cl_name <$> clusters)) as Hnd by (by eapply GetReadyClusters_NoDup).
  assert (dom (targetInformers f) = list_to_set (cl_name <$> clusters)) as Hdom.
  { apply set_eq. intros n. rewrite elem_of_dom, (Hm n), elem_of_list_to_set, list_elem_of_fmap.
    split.
    - intros [c [Hc Hr]]. destruct (Hw _ _ Hc) as (c'&[= <-]&Hn). exists c. split; [done|]. apply Hin. by rewrite Hn.
    - intros (c&->&Hc%Hin). by exists c. }
  assert (size (targetInformers f) = length clusters) as Hsize.
  { rewrite <-(size_dom (D := gset string)), Hdom, size_list_to_set by done. apply length_fmap. }
  unfold Store_ClustersSynced. rewrite bool_decide_eq_true_2 by done. cbn [andb].
  rewrite (all_synced_spec clusters f). split.
  - intros Hall n i Hi. assert (n ∈ cl_name <$> clusters) as (c&->&Hc)%list_elem_of_fmap.
    { apply (elem_of_list_to_set (C := gset string)). rewrite <-Hdom. by apply elem_of_dom. }
    rewrite Forall_forall in Hall. destruct (Hall c Hc) as (i'&Hi'&?). congruence.
  - intros Hall. apply Forall_forall. intros c Hc. apply Hin in Hc.
    destruct (proj2 (Hm (cl_name c)) (ex_intro _ c Hc)) as [i Hi]. exists i. split; [done|]. by apply (Hall (cl_name c)).
Qed.

Module FedInformerExamples.
Definition cluster (name status : string) : Cluster :=
  mkCluster (mkObjectMeta name "" "" "" None None None [] "") "" [mkCondition "Ready" status] None "".
Definition history : list (event nat) :=
  [WatchAdd (cluster "a" "True"); WatchAdd (cluster "b" "False"); TargetSynced "a"; WatchUpdate (cluster "b" "True")].
Definition factory (c : Cluster) : result unit := Ok tt.

Lemma informers_follow_clusters_witness :
  let f := (run factory history NewFederatedInformer).1 in
  (∀ n c, ready_in f n c → is_Some (targetInformers f !! n)) ∧
  ((∀ n, WatchDeleteMissed n ∉ history) →
   (∀ n, is_Some (targetInformers f !! n) ↔ ∃ c, ready_in f n c) ∧
   ∃ clusters, GetReadyClusters f = Ok clusters ∧
     (∀ c, c ∈ clusters ↔ ready_in f (cl_name c) c) ∧
     (Store_ClustersSynced clusters f = true ↔ map_Forall (λ _ i, HasSynced i = true) (targetInformers f))).
Proof. apply (informers_follow_clusters factory history). intros c. exists tt. reflexivity. Defined.

(** Nothing was missed in this history. *)
Example history_complete : ∀ n, WatchDeleteMissed n ∉ history.
Proof. intros n. unfold history. rewrite !not_elem_of_cons. split_and!; try discriminate. apply not_elem_of_nil. Qed.

(** When the deletion of a cluster is missed, its informer stays. *)
Example missed_deletion_leaves_informer :
  let f := (run factory (history ++ [WatchDeleteMissed "a"]) NewFederatedInformer).1 in
  clusterStore f !! "a" = None ∧ targetInformers f !! "a" = Some (mkInformer ∅ true).
Proof. split; vm_compute; reflexivity. Qed.
End FedInformerExamples.
