(* ===== verification/Updater.v ===== *)
(** The federated updater, [federation-controller/util/federated_updater.go]: it runs a
    list of operations on member clusters, one goroutine each, and waits for their results
    until a timeout.

    A goroutine makes one call to one cluster, which is one step.  [Schedule] says in which
    order the calls happen, in which order their results arrive on the channel, and how
    many arrive before the timeout; the theorems hold for every schedule.  Goroutines that
    have not answered when [Update] returns still run: their calls are part of the step,
    their results are not looked at. *)

From S2P Require Import Prelude GoStrings.

(** [FederatedOperationType] and [FederatedOperation]. *)
Inductive FederatedOperationType := OperationTypeAdd | OperationTypeUpdate | OperationTypeDelete.
#[export] Instance FederatedOperationType_eq_dec : EqDecision FederatedOperationType.
Proof. solve_decision. Defined.

Record FederatedOperation (Obj : Type) := mkOp {
  op_type : FederatedOperationType;
  op_cluster : string;
  op_obj : Obj;
  op_key : string
}.
Arguments mkOp {Obj} _ _ _ _.
Arguments op_type {Obj} _.
Arguments op_cluster {Obj} _.
Arguments op_obj {Obj} _.
Arguments op_key {Obj} _.

Class Schedule := {
  run_order : ∀ {A}, list A → list A;
  run_order_perm : ∀ A (l : list A), run_order l ≡ₚ l;
  arrival : ∀ {A}, list A → list A;
  arrival_perm : ∀ A (l : list A), arrival l ≡ₚ l;
  in_time : nat → nat
}.

Definition timeout_error : error := Errorf "failed to finish all operations in 30s".

Section updater.
Context {W Client Obj : Type}.
Context (GetClientsetForCluster : string → result Client).
Context (addFunction updateFunction deleteFunction : Client → Obj → M W (option error)).

(** The body of a goroutine of [Update]. *)
Definition run_operation (op : FederatedOperation Obj) : M W (option error) :=
  match GetClientsetForCluster (op_cluster op) with
  | Err e => mret (Some e)
  | Ok clientset =>
      match op_type op with
      | OperationTypeAdd => addFunction clientset (op_obj op)
      | OperationTypeUpdate => updateFunction clientset (op_obj op)
      | OperationTypeDelete =>
          err ← deleteFunction clientset (op_obj op);
          mret (e ← err; if IsNotFound e then None else Some e)
      end
  end.

Fixpoint run_operations (ops : list (FederatedOperation Obj)) : M W (list (option error)) :=
  match ops with
  | [] => mret []
  | op :: ops' =>
      err ← run_operation op;
      errs ← run_operations ops';
      mret (err :: errs)
  end.

(** The loop that waits for [n] results. *)
Fixpoint receive (n : nat) (results : list (option error)) : option error :=
  match n, results with
  | 0, _ => None
  | S _, [] => Some timeout_error
  | S _, Some err :: _ => Some err
  | S n', None :: results' => receive n' results'
  end.

(** [Update]. *)
Definition Update `{Schedule} (ops : list (FederatedOperation Obj)) : M W (option error) :=
  results ← run_operations (run_order ops);
  mret (receive (length ops) (take (in_time (length ops)) (arrival results))).
End updater.

(** [FederatedUpdater], as its clients see it. *)
Class FederatedUpdater (W Obj : Type) := {
  fu_Update : list (FederatedOperation Obj) → M W (option error);
  fu_Update_nil : ∀ w, fu_Update [] w = (Val None, w)
}.

Lemma Update_nil {W Client Obj : Type} `{Schedule} (get_client : string → result Client)
    (addF updF delF : Client → Obj → M W (option error)) w :
  Update get_client addF updF delF [] w = (Val None, w).
Proof.
  unfold Update. assert (run_order (@nil (FederatedOperation Obj)) = []) as ->; [|reflexivity].
  apply Permutation_nil_r, run_order_perm.
Qed.

(** [NewFederatedUpdater]. *)
Definition NewFederatedUpdater {W Client Obj : Type} `{Schedule} (get_client : string → result Client)
    (addF updF delF : Client → Obj → M W (option error)) : FederatedUpdater W Obj := {|
  fu_Update := Update get_client addF updF delF;
  fu_Update_nil := Update_nil get_client addF updF delF
|}.

(** What every call keeps, the whole keeps. *)
Lemma Update_keeps {W Client Obj : Type} `{Schedule} (R : relation W) `{!PreOrder R}
    (get_client : string → result Client) (addF updF delF : Client → Obj → M W (option error)) ops w r w' :
  (∀ f cl o w r w', f = addF ∨ f = updF ∨ f = delF → f cl o w = (Val r, w') → R w w') →
  Update get_client addF updF delF ops w = (Val r, w') → R w w'.
Proof.
  intros Hf (rs&w1&Hrun&Hr)%bind_val_inv. cbv [mret M_ret] in Hr. injection Hr as _ <-.
  assert (∀ op w r w', run_operation get_client addF updF delF op w = (Val r, w') → R w w') as Hop.
  { intros op v r' v'. unfold run_operation. destruct (get_client _) as [cl|e]; [|intros Hr; by ret_inv Hr].
    destruct (op_type op); [apply Hf; auto|apply Hf; auto|].
    intros (err&v1&Hd&Hr)%bind_val_inv. ret_inv Hr. eapply Hf; [|exact Hd]; auto. }
  revert w rs Hrun. induction (run_order ops) as [|op l IH]; intros w rs; cbn [run_operations]; intros Hrun.
  - by ret_inv Hrun.
  - apply bind_val_inv in Hrun as (e&w2&H1&Hrun). apply bind_val_inv in Hrun as (es&w3&H2&Hrun).
    cbv [mret M_ret] in Hrun. injection Hrun as _ <-. etrans; [by eapply Hop|by eapply IH].
Qed.

(** ** What the member clusters hold *)

(** The contract of the three functions: the cluster a client talks to, what is stored
    there under a key, and what a call that succeeds does.  [same] relates what was sent to
    what the API server stores. *)
Class MemberLaws {W Client Obj : Type}
    (addFunction updateFunction deleteFunction : Client → Obj → M W (option error)) := {
  client_cluster : Client → string;
  obj_key : Obj → string;
  same : Obj → Obj → Prop;
  stored_at : W → string → string → option Obj;
  law_add : ∀ cl o w w', addFunction cl o w = (Val None, w') →
    (∃ o', stored_at w' (client_cluster cl) (obj_key o) = Some o' ∧ same o o') ∧
    (∀ c k, (c, k) ≠ (client_cluster cl, obj_key o) → stored_at w' c k = stored_at w c k);
  law_update : ∀ cl o w w', updateFunction cl o w = (Val None, w') →
    (∃ o', stored_at w' (client_cluster cl) (obj_key o) = Some o' ∧ same o o') ∧
    (∀ c k, (c, k) ≠ (client_cluster cl, obj_key o) → stored_at w' c k = stored_at w c k);
  law_delete : ∀ cl o w w' e, deleteFunction cl o w = (Val e, w') →
    e = None ∨ (∃ e', e = Some e' ∧ IsNotFound e' = true) →
    stored_at w' (client_cluster cl) (obj_key o) = None ∧
    (∀ c k, (c, k) ≠ (client_cluster cl, obj_key o) → stored_at w' c k = stored_at w c k)
}.

Lemma receive_nil n results :
  receive n results = None ↔ n ≤ length results ∧ Forall (λ r, r = None) (take n results).
Proof.
  revert results. induction n as [|n IH]; intros [|[e|] results]; cbn [receive length take].
  - split; [|done]. intros _. split; [lia|constructor].
  - split; [|done]. intros _. split; [lia|constructor].
  - split; [|done]. intros _. split; [lia|constructor].
  - split; [done|]. intros [? _]. lia.
  - split; [done|]. intros [_ [? _]%Forall_cons]. done.
  - rewrite IH, Forall_cons. split; [intros [? ?]|intros (?&?&?)]; split_and!; auto with lia.
Qed.

Section facts.
Context {W Client Obj : Type} (GetClientsetForCluster : string → result Client).
Context (addF updF delF : Client → Obj → M W (option error)) `{L : !MemberLaws addF updF delF}.
Context (clients : ∀ c cl, GetClientsetForCluster c = Ok cl → client_cluster cl = c).
Implicit Types op : FederatedOperation Obj.

Definition op_cell op : string * string := (op_cluster op, obj_key (op_obj op)).

(** What a successful operation leaves in its cell. *)
Definition op_done op (w : W) : Prop :=
  match op_type op with
  | OperationTypeDelete => stored_at w (op_cluster op) (obj_key (op_obj op)) = None
  | _ => ∃ o', stored_at w (op_cluster op) (obj_key (op_obj op)) = Some o' ∧ same (op_obj op) o'
  end.

Lemma run_operation_done op w w' :
  run_operation GetClientsetForCluster addF updF delF op w = (Val None, w') →
  op_done op w' ∧ ∀ c k, (c, k) ≠ op_cell op → stored_at w' c k = stored_at w c k.
Proof using L clients.
  unfold run_operation, op_done, op_cell. destruct (GetClientsetForCluster (op_cluster op)) as [cl|e] eqn:Ec; [|done].
  apply clients in Ec as <-. destruct (op_type op).
  - apply law_add.
  - apply law_update.
  - intros (err&w1&Hd&Hr)%bind_val_inv. cbv [mret M_ret] in Hr. injection Hr as Hr <-.
    apply (law_delete _ _ _ _ _ Hd). destruct err as [e|]; [right|by left]. cbn in Hr.
    exists e. split; [done|]. by destruct (IsNotFound e).
Qed.

Lemma run_operations_length ops w rs w' :
  run_operations GetClientsetForCluster addF updF delF ops w = (Val rs, w') → length rs = length ops.
Proof.
  revert w rs w'. induction ops as [|op ops IH]; intros w rs w'; cbn [run_operations]; intros H.
  - by ret_inv H.
  - apply bind_val_inv in H as (r&w1&_&H). apply bind_val_inv in H as (rs1&w2&H1&H). ret_inv H.
    cbn. f_equal. by eapply IH.
Qed.

Lemma run_operations_done ops w rs w' :
  NoDup (op_cell <$> ops) → Forall (λ r, r = None) rs →
  run_operations GetClientsetForCluster addF updF delF ops w = (Val rs, w') →
  Forall (λ op, op_done op w') ops ∧
  ∀ c k, (c, k) ∉ op_cell <$> ops → stored_at w' c k = stored_at w c k.
Proof using L clients.
  revert w rs w'. induction ops as [|op ops IH]; intros w rs w' Hnd Hrs H; cbn [run_operations] in H.
  - by ret_inv H.
  - apply bind_val_inv in H as (r&w1&H1&H). apply bind_val_inv in H as (rs1&w2&H2&H).
    cbv [mret M_ret] in H. injection H as <- <-. apply Forall_cons in Hrs as [-> Hrs].
    rewrite fmap_cons in Hnd. apply NoDup_cons in Hnd as [Hni Hnd].
    destruct (run_operation_done _ _ _ H1) as [Hd Hf]. destruct (IH _ _ _ Hnd Hrs H2) as [Hds Hfs].
    split.
    + constructor; [|done]. unfold op_done in *. by rewrite (Hfs (op_cluster op) (obj_key (op_obj op))).
    + intros c k [Hne Hnot]%not_elem_of_cons. rewrite (Hfs _ _ Hnot). by apply Hf.
Qed.

Lemma Update_done `{Schedule} ops w w' :
  NoDup (op_cell <$> ops) → Update GetClientsetForCluster addF updF delF ops w = (Val None, w') →
  Forall (λ op, op_done op w') ops ∧
  ∀ c k, (c, k) ∉ op_cell <$> ops → stored_at w' c k = stored_at w c k.
Proof using L clients.
  intros Hnd (rs&w1&Hrun&Hr)%bind_val_inv. cbv [mret M_ret] in Hr. injection Hr as Hr <-.
  apply receive_nil in Hr as [Hlen Hall]. pose proof (run_operations_length _ _ _ _ Hrun) as Hl.
  rewrite run_order_perm in Hl. rewrite length_take, (Permutation_length (arrival_perm _ rs)) in Hlen.
  rewrite take_take, take_ge in Hall by (rewrite (Permutation_length (arrival_perm _ rs)); lia).
  rewrite arrival_perm in Hall. apply run_operations_done in Hrun; [|by rewrite run_order_perm|done].
  destruct Hrun as [Hd Hf]. rewrite run_order_perm in Hd. split; [done|].
  intros c k Hn. apply Hf. by rewrite run_order_perm.
Qed.
End facts.

(** ** Properties *)

(** C27: when [Update] reports no error, every operation has been carried out and nothing
    else: whatever the order in which the goroutines run and answer, each cluster to which
    an object was added or sent as an update holds it, each from which one was deleted does
    not, and everything else the clusters hold is untouched. *)
Theorem Update_applies {W Client Obj : Type} `{Schedule} (GetClientsetForCluster : string → result Client)
    (addF updF delF : Client → Obj → M W (option error)) `{!MemberLaws addF updF delF}
    (ops : list (FederatedOperation Obj)) (w w' : W) :
  (∀ c cl, GetClientsetForCluster c = Ok cl → client_cluster cl = c) →
  NoDup (op_cell addF updF delF <$> ops) →
  Update GetClientsetForCluster addF updF delF ops w = (Val None, w') →
  Forall (λ op, op_done addF updF delF op w') ops ∧
  ∀ c k, (c, k) ∉ op_cell addF updF delF <$> ops → stored_at w' c k = stored_at w c k.
Proof. intros Hc. by apply Update_done. Qed.

Module UpdaterExamples.
(** Clusters in memory: cells that hold a name, a client per cluster, and a schedule that
    runs the operations backwards. *)
Definition cells : Type := gmap (string * string) string.
Definition client (c : string) : result string := Ok c.
Definition set_cell (cl o : string) : M cells (option error) := λ w, (Val None, <[(cl, o) := o]> w).
Definition drop_cell (cl o : string) : M cells (option error) := λ w,
  match w !! (cl, o) with
  | Some _ => (Val None, delete (cl, o) w)
  | None => (Val (Some (StatusError "NotFound" "no such object")), w)
  end.

#[export] Instance backwards : Schedule := {|
  run_order A l := reverse l; run_order_perm A l := reverse_Permutation l;
  arrival A l := reverse l; arrival_perm A l := reverse_Permutation l;
  in_time n := n
|}.

Lemma set_cell_law cl o (w w' : cells) :
  set_cell cl o w = (Val None, w') →
  (∃ o', w' !! (cl, o) = Some o' ∧ o = o') ∧ (∀ c k, (c, k) ≠ (cl, o) → w' !! (c, k) = w !! (c, k)).
Proof.
  unfold set_cell. intros E. assert (<[(cl, o) := o]> w = w') as <- by congruence. split.
  - exists o. split; [apply lookup_insert_eq|done].
  - intros c k Hn. apply lookup_insert_ne. congruence.
Qed.

#[export, refine] Instance cells_laws : MemberLaws set_cell set_cell drop_cell := {|
  client_cluster cl := cl; obj_key o := o; same := eq; stored_at w c k := w !! (c, k)
|}.
Proof.
  - exact set_cell_law.
  - exact set_cell_law.
  - intros cl o w w' e. unfold drop_cell. destruct (w !! (cl, o)) eqn:E; intros [= <- <-] _.
    + split; [apply lookup_delete_eq|]. intros c k Hn. apply lookup_delete_ne. congruence.
    + done.
Defined.

Definition ops : list (FederatedOperation string) :=
  [mkOp OperationTypeAdd "a" "x" "x"; mkOp OperationTypeDelete "b" "x" "x"; mkOp OperationTypeDelete "c" "x" "x"].
Definition before : cells := {[ ("b", "x") := "x"; ("d", "x") := "x" ]}.
Definition after : cells := {[ ("a", "x") := "x"; ("d", "x") := "x" ]}.

Lemma Update_applies_witness :
  Forall (λ op, op_done set_cell set_cell drop_cell op after) ops ∧
  ∀ c k, (c, k) ∉ op_cell set_cell set_cell drop_cell <$> ops → stored_at after c k = stored_at before c k.
Proof.
  apply (Update_applies client set_cell set_cell drop_cell ops before after).
  - intros c cl [= ->]. reflexivity.
  - cbn. apply (bool_decide_unpack _). vm_compute. exact I.
  - vm_compute. reflexivity.
Defined.

(** One failing operation makes the whole fail, but the others are carried out. *)
Example failed_update :
  Update (λ c, if bool_decide (c = "b") then Err (Errorf "not ready") else Ok c) set_cell set_cell drop_cell ops before =
    (Val (Some (Errorf "not ready")), {[ ("a", "x") := "x"; ("b", "x") := "x"; ("d", "x") := "x" ]}).
Proof. vm_compute. reflexivity. Qed.
End UpdaterExamples.
