(* ===== verification/Deletion.v ===== *)
(** Cascading deletion: the finalizers of [federation-controller/util/finalizers] and the
    [DeletionHelper] of [federation-controller/util/deletionhelper], over the federated
    informer and an updater.

    The objects are those of one kind, seen through the accessors of their finalizers.
    [updateObjFunc] is an argument, as in the code.  The error of [meta.Accessor] is that of
    an object without metadata, which API objects do not have.  In the error messages the
    objects and finalizers are left out. *)

From S2P Require Import Prelude GoStrings KubeTypes FedInformer Updater.

Definition FinalizerDeleteFromUnderlyingClusters : string :=
  "federation.kubernetes.io/delete-from-underlying-clusters".
Definition FinalizerOrphanDependents : string := "orphan".

(** [GetFinalizers] and [SetFinalizers] of [metav1.Object]. *)
Class Accessor (Obj : Type) := {
  GetFinalizers : Obj → list string;
  SetFinalizers : list string → Obj → Obj;
  Get_SetFinalizers : ∀ l o, GetFinalizers (SetFinalizers l o) = l
}.

Section finalizers.
Context `{Accessor Obj}.
Implicit Types obj : Obj.

Definition HasFinalizer obj (finalizer : string) : bool :=
  bool_decide (finalizer ∈ (list_to_set (GetFinalizers obj) : gset string)).

(** [AddFinalizers] and [RemoveFinalizers]: the object and whether it was updated. *)
Definition AddFinalizers obj (newFinalizers : gset string) : Obj * bool :=
  let oldFinalizers : gset string := list_to_set (GetFinalizers obj) in
  if bool_decide (newFinalizers ⊆ oldFinalizers) then (obj, false)
  else (SetFinalizers (StringSet_List (oldFinalizers ∪ newFinalizers)) obj, true).
Definition RemoveFinalizers obj (finalizers : gset string) : Obj * bool :=
  let oldFinalizers : gset string := list_to_set (GetFinalizers obj) in
  if bool_decide (size (oldFinalizers ∩ finalizers) = 0) then (obj, false)
  else (SetFinalizers (StringSet_List (oldFinalizers ∖ finalizers)) obj, true).
End finalizers.

Section helper.
Context `{Accessor Obj, GoMapOrder} {W : Type}.
Context (updateObjFunc : Obj → M W (result Obj)) (objNameFunc GetKeyFor : Obj → string).
Context (informer : federatedInformerImpl Obj) (updater : FederatedUpdater W Obj).
Implicit Types obj : Obj.

(** [addFinalizers] and [removeFinalizers]. *)
Definition addFinalizers obj (finalizers : gset string) : M W (result Obj) :=
  let '(obj', isUpdated) := AddFinalizers obj finalizers in
  if negb isUpdated then mret (Ok obj)
  else
    r ← updateObjFunc obj';
    mret (match r with
          | Ok updatedObj => Ok updatedObj
          | Err err => Err (Errorf ("failed to add finalizers: " +:+ error_string err))
          end).
Definition removeFinalizers obj (finalizers : gset string) : M W (result Obj) :=
  let '(obj', isUpdated) := RemoveFinalizers obj finalizers in
  if negb isUpdated then mret (Ok obj)
  else
    r ← updateObjFunc obj';
    mret (match r with
          | Ok updatedObj => Ok updatedObj
          | Err err => Err (Errorf ("failed to remove finalizers: " +:+ error_string err))
          end).

(** [EnsureFinalizers]. *)
Definition EnsureFinalizers obj : M W (result Obj) :=
  let finalizers : gset string :=
    (if HasFinalizer obj FinalizerDeleteFromUnderlyingClusters then ∅ else {[ FinalizerDeleteFromUnderlyingClusters ]}) ∪
    (if HasFinalizer obj FinalizerOrphanDependents then ∅ else {[ FinalizerOrphanDependents ]}) in
  if bool_decide (size finalizers ≠ 0) then addFinalizers obj finalizers else mret (Ok obj).

(** The operations that delete an object from the clusters it was found in; an item of
    another kind fails the type assertion. *)
Fixpoint delete_operations (objName : string) (clusterNsObjs : list (string * stored Obj)) :
    option (list (FederatedOperation Obj)) :=
  match clusterNsObjs with
  | [] => Some []
  | (clusterName, Typed o) :: rest =>
      operations ← delete_operations objName rest;
      Some (mkOp OperationTypeDelete clusterName o objName :: operations)
  | (_, OtherItem) :: _ => None
  end.

(** [HandleObjectInUnderlyingClusters]. *)
Definition HandleObjectInUnderlyingClusters obj : M W (result Obj) :=
  let objName := objNameFunc obj in
  if negb (HasFinalizer obj FinalizerDeleteFromUnderlyingClusters) then mret (Ok obj)
  else if HasFinalizer obj FinalizerOrphanDependents then
    removeFinalizers obj {[ FinalizerDeleteFromUnderlyingClusters; FinalizerOrphanDependents ]}
  else
    match GetUnreadyClusters informer with
    | Err err => mret (Err (Errorf ("failed to get a list of unready clusters: " +:+ error_string err)))
    | Ok unreadyClusters =>
        match delete_operations objName (GetFromAllClusters (GetKeyFor obj) informer) with
        | None => go_panic "interface conversion"
        | Some operations =>
            err ← fu_Update (FederatedUpdater := updater) operations;
            match err with
            | Some err => mret (Err (Errorf ("failed to execute updates for obj " +:+ objName +:+ ": " +:+ error_string err)))
            | None =>
                if bool_decide (0 < length operations) then
                  mret (Err (Errorf ("waiting for object " +:+ objName +:+ " to be deleted from clusters: " +:+
                                     Join (op_cluster <$> operations) ", ")))
                else if bool_decide (length unreadyClusters ≠ 0) then
                  mret (Err (Errorf ("waiting for clusters " +:+ Join (cl_name <$> unreadyClusters) ", " +:+
                                     " to become ready to verify that obj " +:+ objName +:+ " has been deleted")))
                else removeFinalizers obj {[ FinalizerDeleteFromUnderlyingClusters ]}
            end
        end
    end.
End helper.

(** ** Facts *)

Section facts.
Context `{Accessor Obj}.
Implicit Types obj : Obj.

Lemma HasFinalizer_spec obj f : HasFinalizer obj f = true ↔ f ∈ GetFinalizers obj.
Proof. unfold HasFinalizer. by rewrite bool_decide_eq_true, elem_of_list_to_set. Qed.

Lemma HasFinalizer_false obj f : HasFinalizer obj f = false ↔ f ∉ GetFinalizers obj.
Proof. by rewrite <-not_true_iff_false, HasFinalizer_spec. Qed.

Lemma AddFinalizers_spec obj (new : gset string) :
  let '(obj', updated) := AddFinalizers obj new in
  (∀ f, f ∈ GetFinalizers obj' ↔ f ∈ GetFinalizers obj ∨ f ∈ new) ∧
  (updated = false ↔ ∀ f, f ∈ new → f ∈ GetFinalizers obj).
Proof.
  unfold AddFinalizers. case_bool_decide as Hs; (split; [|split; try done]); try set_solver.
  intros f. rewrite Get_SetFinalizers, StringSet_List_elem. set_solver.
Qed.

Lemma RemoveFinalizers_some obj (fs : gset string) f :
  f ∈ fs → f ∈ GetFinalizers obj →
  RemoveFinalizers obj fs = (SetFinalizers (StringSet_List (list_to_set (GetFinalizers obj) ∖ fs)) obj, true).
Proof.
  intros Hf Hg. unfold RemoveFinalizers. rewrite bool_decide_eq_false_2; [done|].
  intros Hz%size_empty_inv. set_solver.
Qed.
End facts.

Lemma EnsureFinalizers_id `{Accessor Obj} {W : Type} (updateObjFunc : Obj → M W (result Obj)) (obj : Obj) w :
  FinalizerDeleteFromUnderlyingClusters ∈ GetFinalizers obj → FinalizerOrphanDependents ∈ GetFinalizers obj →
  EnsureFinalizers updateObjFunc obj w = (Val (Ok obj), w).
Proof. intros H1%HasFinalizer_spec H2%HasFinalizer_spec. unfold EnsureFinalizers. by rewrite H1, H2. Qed.

(** An object that comes back without error is the one given, or what the API server
    answered when it was sent with more finalizers. *)
Lemma EnsureFinalizers_inv `{Accessor Obj} {W : Type} (updateObjFunc : Obj → M W (result Obj)) (obj o : Obj) w w' :
  EnsureFinalizers updateObjFunc obj w = (Val (Ok o), w') →
  o = obj ∨ ∃ l, updateObjFunc (SetFinalizers l obj) w = (Val (Ok o), w').
Proof.
  unfold EnsureFinalizers. case_bool_decide; [|cbv [mret M_ret]; intros E; left; congruence].
  unfold addFinalizers, AddFinalizers. case_bool_decide; cbn [negb]; [cbv [mret M_ret]; intros E; left; congruence|].
  intros ([o'|e]&w1&Hr&E)%bind_val_inv; cbv [mret M_ret] in E; [|done]. injection E as -> ->. right. by eexists.
Qed.

Section helper_facts.
Context `{Accessor Obj, GoMapOrder} {W : Type}.
Context (updateObjFunc : Obj → M W (result Obj)) (objNameFunc GetKeyFor : Obj → string).
Context (informer : federatedInformerImpl Obj) (updater : FederatedUpdater W Obj).

Lemma delete_operations_spec name objs ops :
  delete_operations (Obj := Obj) name objs = Some ops →
  Forall2 (λ co op, op_type op = OperationTypeDelete ∧ op_cluster op = co.1 ∧ co.2 = Typed (op_obj op)) objs ops.
Proof.
  revert ops. induction objs as [|[c [o|]] objs IH]; intros ops; cbn [delete_operations]; [by intros [= <-]| |done].
  intros (ops'&E&[= <-])%bind_Some. constructor; [done|]. by apply IH.
Qed.

Lemma delete_operations_some name objs :
  Forall (λ co, ∃ o : Obj, co.2 = Typed o) objs → is_Some (delete_operations name objs).
Proof.
  induction 1 as [|[c i] objs [o Ho] _ [ops IH]]; [by eexists|]. cbn in Ho. subst i.
  cbn [delete_operations]. rewrite IH. by eexists.
Qed.

Lemma removeFinalizers_some obj (fs : gset string) f w :
  f ∈ fs → f ∈ GetFinalizers obj →
  ∃ g : result Obj → result Obj, (∀ o, g (Ok o) = Ok o) ∧ (∀ e, ∃ e', g (Err e) = Err e') ∧
  removeFinalizers updateObjFunc obj fs w =
    (r ← updateObjFunc (SetFinalizers (StringSet_List (list_to_set (GetFinalizers obj) ∖ fs)) obj); mret (g r)) w.
Proof.
  intros Hf Hg. unfold removeFinalizers. rewrite (RemoveFinalizers_some obj fs f) by done. cbn [negb].
  exists (λ r, match r with Ok o => Ok o | Err e => Err (Errorf ("failed to remove finalizers: " +:+ error_string e)) end).
  split; [done|]. split; [|done]. intros e. by eexists.
Qed.
End helper_facts.

(** ** Properties *)

(** C23: an object leaves the federation only after its dependents: when
    [HandleObjectInUnderlyingClusters] succeeds on an object with the deletion finalizer,
    either the user asked to orphan the dependents, or no cluster holds the object and
    every cluster is ready, so that none can hold it unseen; and then the one change made is
    to remove the finalizers.  While some cluster holds the object, exactly these clusters
    are sent a deletion and the caller is told to come back; while some cluster is not
    ready, nothing is changed. *)
Theorem deletion_gate `{Accessor Obj, GoMapOrder} {W : Type} (updateObjFunc : Obj → M W (result Obj))
    (objNameFunc GetKeyFor : Obj → string) (informer : federatedInformerImpl Obj)
    (updater : FederatedUpdater W Obj) (obj : Obj) (w : W) (unready : list Cluster) :
  GetUnreadyClusters informer = Ok unready →
  FinalizerDeleteFromUnderlyingClusters ∈ GetFinalizers obj →
  let placed := GetFromAllClusters (GetKeyFor obj) informer in
  let orphan := FinalizerOrphanDependents ∈ GetFinalizers obj in
  let run := HandleObjectInUnderlyingClusters updateObjFunc objNameFunc GetKeyFor informer updater obj w in
  (∀ o w', run = (Val (Ok o), w') →
    (orphan ∨ (placed = [] ∧ unready = [])) ∧
    ∃ obj', updateObjFunc obj' w = (Val (Ok o), w') ∧
      ∀ f, f ∈ GetFinalizers obj' ↔ f ∈ GetFinalizers obj ∧
        f ≠ FinalizerDeleteFromUnderlyingClusters ∧ f ≠ FinalizerOrphanDependents) ∧
  (¬ orphan → placed ≠ [] → Forall (λ co, ∃ o, co.2 = Typed o) placed →
    ∃ ops, Forall2 (λ co op, op_type op = OperationTypeDelete ∧ op_cluster op = co.1 ∧ co.2 = Typed (op_obj op)) placed ops ∧
      ∀ err w', fu_Update ops w = (Val err, w') → ∃ e, run = (Val (Err e), w')) ∧
  (¬ orphan → placed = [] → unready ≠ [] → ∃ e, run = (Val (Err e), w)).
Proof.
  intros Hu Hf placed orphan run. subst run. unfold HandleObjectInUnderlyingClusters.
  rewrite (proj2 (HasFinalizer_spec _ _) Hf), Hu. cbn [negb]. split_and!.
  - intros o w' Hr. destruct (HasFinalizer obj FinalizerOrphanDependents) eqn:Eo.
    + split; [left; by apply HasFinalizer_spec|].
      destruct (removeFinalizers_some updateObjFunc obj {[FinalizerDeleteFromUnderlyingClusters; FinalizerOrphanDependents]}
        FinalizerDeleteFromUnderlyingClusters w) as (g&Hok&Herr&E); [set_solver|done|]. rewrite E in Hr.
      apply bind_val_inv in Hr as (r&w1&Hr1&Hr). cbv [mret M_ret] in Hr. injection Hr as Hg <-.
      destruct r as [o'|e]; [|destruct (Herr e); congruence]. rewrite Hok in Hg. injection Hg as ->.
      eexists. split; [exact Hr1|]. intros f. rewrite Get_SetFinalizers, StringSet_List_elem. set_solver.
    + destruct (delete_operations _ _) as [ops|] eqn:Ed; [|done].
      apply bind_val_inv in Hr as ([e|]&w1&Hup&Hr); [done|].
      apply delete_operations_spec in Ed. case_bool_decide as Hl; [done|]. case_bool_decide as Hn; [done|].
      assert (ops = []) as -> by (apply nil_length_inv; lia). apply Forall2_nil_inv_r in Ed.
      assert (unready = []) as -> by (apply nil_length_inv; lia).
      rewrite fu_Update_nil in Hup. injection Hup as <-. split; [by right|].
      destruct (removeFinalizers_some updateObjFunc obj {[FinalizerDeleteFromUnderlyingClusters]}
        FinalizerDeleteFromUnderlyingClusters w) as (g&Hok&Herr&E); [set_solver|done|]. rewrite E in Hr.
      apply bind_val_inv in Hr as (r&w1&Hr1&Hr). cbv [mret M_ret] in Hr. injection Hr as Hg <-.
      destruct r as [o'|e]; [|destruct (Herr e); congruence]. rewrite Hok in Hg. injection Hg as ->.
      eexists. split; [exact Hr1|]. intros f. rewrite Get_SetFinalizers, StringSet_List_elem.
      apply HasFinalizer_false in Eo. split; [|set_solver].
      intros [Hf1 Hf2]%elem_of_difference. split_and!; [set_solver|set_solver|]. intros ->. set_solver.
  - intros Ho Hp Ht. apply HasFinalizer_false in Ho. rewrite Ho.
    destruct (delete_operations_some (objNameFunc obj) _ Ht) as [ops Ed]. fold placed. rewrite Ed.
    apply delete_operations_spec in Ed. exists ops. split; [done|]. intros err w' Hup.
    rewrite (bind_val _ _ _ _ _ Hup). destruct err as [e|]; [by eexists|].
    rewrite bool_decide_eq_true_2; [by eexists|]. rewrite <-(Forall2_length _ _ _ Ed). by destruct placed; cbn; [|lia].
  - intros Ho Hp Hn. apply HasFinalizer_false in Ho. rewrite Ho. fold placed. rewrite Hp. cbn [delete_operations].
    rewrite (bind_val _ _ _ _ _ (fu_Update_nil w)). cbn [length].
    rewrite bool_decide_eq_false_2 by lia. rewrite bool_decide_eq_true_2; [by eexists|]. by destruct unready; cbn.
Qed.

(** Before an object is created anywhere it carries both finalizers: they are sent to
    the API server in one update that keeps the other finalizers, an object that has them
    is not sent again, and an object returned without error has both if the server stores
    what it is sent. *)
Theorem EnsureFinalizers_ensures `{Accessor Obj} {W : Type} (updateObjFunc : Obj → M W (result Obj))
    (obj o : Obj) (w w' : W) :
  (∀ o1 o2 w1 w2, updateObjFunc o1 w1 = (Val (Ok o2), w2) → GetFinalizers o2 = GetFinalizers o1) →
  EnsureFinalizers updateObjFunc obj w = (Val (Ok o), w') →
  (FinalizerDeleteFromUnderlyingClusters ∈ GetFinalizers o ∧ FinalizerOrphanDependents ∈ GetFinalizers o ∧
   ∀ f, f ∈ GetFinalizers obj → f ∈ GetFinalizers o) ∧
  (FinalizerDeleteFromUnderlyingClusters ∈ GetFinalizers obj → FinalizerOrphanDependents ∈ GetFinalizers obj →
   o = obj ∧ w' = w).
Proof.
  intros Hserver. unfold EnsureFinalizers.
  set (fs := ((_ ∪ _) : gset string)).
  assert (∀ f, f ∈ fs ↔ (f ∉ GetFinalizers obj) ∧ (f = FinalizerDeleteFromUnderlyingClusters ∨ f = FinalizerOrphanDependents)) as Hfs.
  { intros f. unfold fs. destruct (HasFinalizer obj FinalizerDeleteFromUnderlyingClusters) eqn:E1,
      (HasFinalizer obj FinalizerOrphanDependents) eqn:E2;
      rewrite ?HasFinalizer_spec, ?HasFinalizer_false in E1; rewrite ?HasFinalizer_spec, ?HasFinalizer_false in E2; set_solver. }
  clearbody fs. case_bool_decide as Hz.
  - assert (fs ≠ ∅) as Hne by (intros E; apply Hz; by rewrite E).
    unfold addFinalizers. pose proof (AddFinalizers_spec obj fs) as Ha.
    destruct (AddFinalizers obj fs) as [obj' [|]] eqn:E; destruct Ha as [Ha Hup]; cbn [negb].
    + intros ([o'|e]&w1&Hr&Hret)%bind_val_inv; [|done]. cbv [mret M_ret] in Hret. injection Hret as -> ->.
      apply Hserver in Hr. rewrite Hr. split.
      * split_and!; [apply Ha|apply Ha|intros f ?; apply Ha; by left].
        -- destruct (decide (FinalizerDeleteFromUnderlyingClusters ∈ GetFinalizers obj)); [by left|right]. apply Hfs. auto.
        -- destruct (decide (FinalizerOrphanDependents ∈ GetFinalizers obj)); [by left|right]. apply Hfs. auto.
      * intros H1 H2. exfalso. apply Hne, set_eq. intros f. rewrite Hfs. set_solver.
    + exfalso. apply Hne, set_eq. intros f. split; [|set_solver]. intros Hf. apply Hfs in Hf as Hf'.
      destruct Hf' as [Hf' _]. exfalso. apply Hf'. by apply (proj1 Hup eq_refl).
  - assert (fs = ∅) as Hfe by (apply leibniz_equiv, size_empty_inv; lia). intros Hr. cbv [mret M_ret] in Hr. injection Hr as -> ->.
    split; [|done]. split_and!; [| |done]; apply dec_stable; intros Hn;
      [assert (FinalizerDeleteFromUnderlyingClusters ∈ fs) by (apply Hfs; auto)
      |assert (FinalizerOrphanDependents ∈ fs) by (apply Hfs; auto)]; set_solver.
Qed.

Module DeletionExamples.
(** Objects that are their finalizers, and an API server that logs what it is sent. *)
#[export] Instance list_accessor : Accessor (list string) := {|
  GetFinalizers l := l; SetFinalizers l _ := l; Get_SetFinalizers l _ := eq_refl
|}.
Definition send (l : list string) : M (list (list string)) (result (list string)) := λ w, (Val (Ok l), w ++ [l]).
Definition log (ops : list (FederatedOperation (list string))) : M (list (list string)) (option error) := λ w,
  (Val None, w ++ ((λ op, [op_cluster op]) <$> ops)).
#[export, refine] Instance logging : FederatedUpdater (list (list string)) (list string) := {| fu_Update := log |}.
Proof. intros w. unfold log. cbn. by rewrite app_nil_r. Defined.

Definition cluster (name status : string) : Cluster :=
  mkCluster (mkObjectMeta name "" "" "" None None None [] "") "" [mkCondition "Ready" status] None "".
Definition holds (objs : gmap string (stored (list string))) (b_status : string) : federatedInformerImpl (list string) :=
  mkFedInformer {[ "a" := Typed (cluster "a" "True"); "b" := Typed (cluster "b" b_status) ]} true
    {[ "a" := mkInformer objs true ]}.
Definition handle (i : federatedInformerImpl (list string)) (l : list string) :=
  HandleObjectInUnderlyingClusters send (λ _, "ns/i") (λ _, "ns/i") i logging l [].

Lemma deletion_gate_witness :
  let i := holds ∅ "True" in
  let obj := [FinalizerDeleteFromUnderlyingClusters] in
  let placed := GetFromAllClusters "ns/i" i in
  let orphan := FinalizerOrphanDependents ∈ GetFinalizers obj in
  (∀ o w', handle i obj = (Val (Ok o), w') →
    (orphan ∨ (placed = [] ∧ @nil Cluster = [])) ∧
    ∃ obj', send obj' [] = (Val (Ok o), w') ∧
      ∀ f, f ∈ GetFinalizers obj' ↔ f ∈ GetFinalizers obj ∧
        f ≠ FinalizerDeleteFromUnderlyingClusters ∧ f ≠ FinalizerOrphanDependents) ∧
  (¬ orphan → placed ≠ [] → Forall (λ co, ∃ o, co.2 = Typed o) placed →
    ∃ ops, Forall2 (λ co op, op_type op = OperationTypeDelete ∧ op_cluster op = co.1 ∧ co.2 = Typed (op_obj op)) placed ops ∧
      ∀ err w', log ops [] = (Val err, w') → ∃ e, handle i obj = (Val (Err e), w')) ∧
  (¬ orphan → placed = [] → @nil Cluster ≠ [] → ∃ e, handle i obj = (Val (Err e), [])).
Proof.
  apply (deletion_gate send (λ _, "ns/i") (λ _, "ns/i") (holds ∅ "True") logging [FinalizerDeleteFromUnderlyingClusters] [] []).
  - vm_compute. reflexivity.
  - apply list_elem_of_here.
Defined.

(** Held in one cluster, held nowhere with a cluster that is not ready, and gone. *)
Example deletion_runs :
  handle (holds {[ "ns/i" := Typed [] ]} "True") [FinalizerDeleteFromUnderlyingClusters] =
    (Val (Err (Errorf "waiting for object ns/i to be deleted from clusters: a")), [["a"]]) ∧
  handle (holds ∅ "False") [FinalizerDeleteFromUnderlyingClusters] =
    (Val (Err (Errorf "waiting for clusters b to become ready to verify that obj ns/i has been deleted")), []) ∧
  handle (holds ∅ "True") ["x"; FinalizerDeleteFromUnderlyingClusters] = (Val (Ok ["x"]), [["x"]]).
Proof. vm_compute. repeat split; reflexivity. Qed.

Lemma EnsureFinalizers_ensures_witness :
  let o := [FinalizerDeleteFromUnderlyingClusters; "orphan"; "x"] in
  (FinalizerDeleteFromUnderlyingClusters ∈ GetFinalizers o ∧ FinalizerOrphanDependents ∈ GetFinalizers o ∧
   ∀ f, f ∈ GetFinalizers ["x"] → f ∈ GetFinalizers o) ∧
  (FinalizerDeleteFromUnderlyingClusters ∈ GetFinalizers ["x"] → FinalizerOrphanDependents ∈ GetFinalizers ["x"] →
   o = ["x"] ∧ [o] = []).
Proof.
  apply (EnsureFinalizers_ensures send ["x"] [FinalizerDeleteFromUnderlyingClusters; "orphan"; "x"] [] [[FinalizerDeleteFromUnderlyingClusters; "orphan"; "x"]]).
  - intros o1 o2 w1 w2. unfold send. intros E. congruence.
  - vm_compute. reflexivity.
Defined.
End DeletionExamples.
