(* ===== verification/Backoff.v ===== *)
(** The back-off manager of the controllers,
    [k8s.io/client-go/util/flowcontrol/backoff.go]: per key, a delay that doubles with
    every failure up to a maximum and is forgotten after a success or a quiet time.
    Durations are [int64] nanoseconds; the clock's readings are arguments. *)

From S2P Require Import Prelude GoStrings.

(** Wrap-around of [int64] arithmetic, and the saturating [Time.Sub]. *)
Definition wrap64 (z : Z) : Z := (z + 2 ^ 63) mod 2 ^ 64 - 2 ^ 63.
Definition time_sub (t u : Z) : Z := Z.max int64_min (Z.min int64_max (t - u)).

Lemma wrap64_id z : (int64_min ≤ z ≤ int64_max)%Z → wrap64 z = z.
Proof. unfold wrap64, int64_min, int64_max. intros ?. rewrite Z.mod_small; lia. Qed.

(** [backoffEntry] and [Backoff]. *)
Record backoffEntry := mkEntry { backoff : Z; lastUpdate : Z }.
Record Backoff := mkBackoff {
  defaultDuration : Z;
  maxDuration : Z;
  perItemBackoff : gmap string backoffEntry
}.

Definition with_entries (m : gmap string backoffEntry) (p : Backoff) : Backoff :=
  mkBackoff (defaultDuration p) (maxDuration p) m.

(** [NewBackOff]. *)
Definition NewBackOff (initial max : Z) : Backoff := mkBackoff initial max ∅.

(** [hasExpired]. *)
Definition hasExpired (eventTime lastUpdate maxDuration : Z) : bool :=
  bool_decide (wrap64 (maxDuration * 2) < time_sub eventTime lastUpdate)%Z.

(** [Get]. *)
Definition Get (id : string) (p : Backoff) : Z :=
  match perItemBackoff p !! id with Some entry => backoff entry | None => 0 end.

(** [Next] at [eventTime]; [now] is the reading of the clock. *)
Definition Next (id : string) (eventTime now : Z) (p : Backoff) : Backoff :=
  let fresh := mkEntry (defaultDuration p) now in
  let entry :=
    match perItemBackoff p !! id with
    | None => fresh
    | Some entry =>
        if hasExpired eventTime (lastUpdate entry) (maxDuration p) then fresh
        else
          let delay := wrap64 (backoff entry * 2) in
          mkEntry (Z.min delay (maxDuration p)) now
    end in
  with_entries (<[id := entry]> (perItemBackoff p)) p.

(** [Reset] and [DeleteEntry]. *)
Definition Reset (id : string) (p : Backoff) : Backoff := with_entries (delete id (perItemBackoff p)) p.
Definition DeleteEntry (id : string) (p : Backoff) : Backoff := Reset id p.

(** [IsInBackOffSince] and [IsInBackOffSinceUpdate]. *)
Definition IsInBackOffSince (id : string) (eventTime now : Z) (p : Backoff) : bool :=
  match perItemBackoff p !! id with
  | None => false
  | Some entry =>
      if hasExpired eventTime (lastUpdate entry) (maxDuration p) then false
      else bool_decide (time_sub now eventTime < backoff entry)%Z
  end.
Definition IsInBackOffSinceUpdate (id : string) (eventTime : Z) (p : Backoff) : bool :=
  match perItemBackoff p !! id with
  | None => false
  | Some entry =>
      if hasExpired eventTime (lastUpdate entry) (maxDuration p) then false
      else bool_decide (time_sub eventTime (lastUpdate entry) < backoff entry)%Z
  end.

(** [GC]. *)
Definition GC (now : Z) (p : Backoff) : Backoff :=
  with_entries
    (filter (λ kv, ¬ (wrap64 (maxDuration p * 2) < time_sub now (lastUpdate kv.2))%Z) (perItemBackoff p)) p.

(** ** Facts *)

(** Durations a back-off manager can be used with. *)
Definition config_ok (p : Backoff) : Prop :=
  (0 < defaultDuration p ≤ maxDuration p ∧ maxDuration p * 2 ≤ int64_max)%Z.

(** Every delay is between the default and the maximum. *)
Definition backoff_inv (p : Backoff) : Prop :=
  config_ok p ∧
  map_Forall (λ _ e, (defaultDuration p ≤ backoff e ≤ maxDuration p)%Z) (perItemBackoff p).

Inductive op := ONext (id : string) (eventTime now : Z) | OReset (id : string) | OGC (now : Z).
Definition run_op (o : op) (p : Backoff) : Backoff :=
  match o with
  | ONext id t now => Next id t now p
  | OReset id => Reset id p
  | OGC now => GC now p
  end.

Lemma wrap64_double p z : config_ok p → (0 ≤ z ≤ maxDuration p)%Z → wrap64 (z * 2) = (z * 2)%Z.
Proof. intros [? ?] ?. apply wrap64_id. unfold int64_min, int64_max in *. lia. Qed.

Lemma run_op_inv o p : backoff_inv p → backoff_inv (run_op o p).
Proof.
  intros [Hc Hm]. destruct o as [id t now|id|now]; split; try exact Hc; intros k e Hk.
  - cbn in Hk. apply lookup_insert_Some in Hk as [[<- <-]|[_ Hk]]; [|by apply (Hm k)].
    destruct Hc as [Hd Hx]. destruct (perItemBackoff p !! id) as [e'|] eqn:E; cbn; [|lia].
    case_match; cbn; [lia|]. specialize (Hm _ _ E). cbn in Hm. rewrite (wrap64_double p) by (done || lia). lia.
  - cbn in Hk. apply lookup_delete_Some in Hk as [_ Hk]. by apply (Hm k).
  - cbn in Hk. apply map_lookup_filter_Some in Hk as [Hk _]. by apply (Hm k).
Qed.

Lemma Get_Next_ne id id' t now p : id ≠ id' → Get id' (Next id t now p) = Get id' p.
Proof. intros Hn. unfold Get, Next. cbn. by rewrite lookup_insert_ne. Qed.

Lemma hasExpired_GC now t p e :
  (now ≤ t)%Z → (wrap64 (maxDuration p * 2) < time_sub now (lastUpdate e))%Z →
  hasExpired t (lastUpdate e) (maxDuration p) = true.
Proof. intros Ht He. unfold hasExpired. rewrite bool_decide_eq_true. unfold time_sub in *. lia. Qed.

(** One failure after another, each at its time. *)
Fixpoint failures (id : string) (times : list Z) (p : Backoff) : Backoff :=
  match times with
  | [] => p
  | t :: ts => failures id ts (Next id t t p)
  end.

(** No two of them are further apart than the quiet time. *)
Fixpoint close (last : Z) (times : list Z) (window : Z) : Prop :=
  match times with
  | [] => True
  | t :: ts => (t - last ≤ window)%Z ∧ close t ts window
  end.

Lemma failures_get id last times e p :
  config_ok p → perItemBackoff p !! id = Some e → lastUpdate e = last →
  (defaultDuration p ≤ backoff e ≤ maxDuration p)%Z → close last times (maxDuration p * 2) →
  Get id (failures id times p) = Z.min (backoff e * 2 ^ Z.of_nat (length times)) (maxDuration p).
Proof.
  intros Hc. revert last e p Hc. induction times as [|t ts IH]; intros last e p Hc He Hl Hb Hcl.
  - cbn. unfold Get. rewrite He. lia.
  - destruct Hcl as [Ht Hcl]. cbn [failures length].
    assert (hasExpired t (lastUpdate e) (maxDuration p) = false) as Hx.
    { unfold hasExpired. apply bool_decide_eq_false_2. destruct Hc as [? ?].
      rewrite wrap64_id by (unfold int64_min, int64_max in *; lia). unfold time_sub, int64_min, int64_max in *. lia. }
    set (e' := mkEntry (Z.min (backoff e * 2) (maxDuration p)) t).
    assert (perItemBackoff (Next id t t p) !! id = Some e') as He'.
    { unfold Next. cbn. rewrite lookup_insert_eq, He, Hx. rewrite (wrap64_double p); [done|done|].
      destruct Hc. lia. }
    rewrite (IH t e'); [|exact Hc|exact He'|done|cbn; destruct Hc; lia|exact Hcl].
    cbn [backoff maxDuration e' Next with_entries]. rewrite Nat2Z.inj_succ, Z.pow_succ_r by lia.
    assert (1 ≤ 2 ^ Z.of_nat (length ts))%Z by (apply Z.pow_le_mono_r with (b := 0%Z) (a := 2%Z); lia).
    destruct Hc. nia.
Qed.

(** C34: delays stay within bounds: from any state in which they do, whatever failures,
    successes and collections follow in whatever order and at whatever times, no delay is
    below the initial or above the maximal one, so that doubling never overflows. *)
Theorem backoff_bounded (ops : list op) (p : Backoff) (id : string) :
  backoff_inv p →
  let p' := foldl (λ q o, run_op o q) p ops in
  backoff_inv p' ∧ (Get id p' = 0 ∨ defaultDuration p ≤ Get id p' ≤ maxDuration p)%Z.
Proof.
  intros Hi. assert (backoff_inv (foldl (λ q o, run_op o q) p ops) ∧
    defaultDuration (foldl (λ q o, run_op o q) p ops) = defaultDuration p ∧
    maxDuration (foldl (λ q o, run_op o q) p ops) = maxDuration p) as (Hi'&Hd&Hm).
  { revert p Hi. induction ops as [|o ops IH]; intros p Hi; [done|]. cbn.
    destruct (IH _ (run_op_inv o p Hi)) as (?&->&->). split_and!; [done|by destruct o..]. }
  split; [done|]. unfold Get. destruct (_ !! id) as [e|] eqn:E; [|by left].
  right. rewrite <-Hd, <-Hm. by apply (proj2 Hi' id).
Qed.

(** The delay doubles: after [n+1] failures of a key in a row, none later than twice
    the maximum after the one before, its delay is the initial one times 2^n, capped at
    the maximum; a success resets it to none; other keys are not affected. *)
Theorem backoff_doubles (p : Backoff) (id : string) (t : Z) (times : list Z) :
  config_ok p → perItemBackoff p !! id = None → close t times (maxDuration p * 2) →
  Get id (failures id (t :: times) p) =
    Z.min (defaultDuration p * 2 ^ Z.of_nat (length times)) (maxDuration p) ∧
  Get id (Reset id (failures id (t :: times) p)) = 0%Z ∧
  (∀ id', id' ≠ id → Get id' (failures id (t :: times) p) = Get id' p).
Proof.
  intros Hc Hn Hcl. split_and!.
  - cbn [failures]. rewrite (failures_get id t times (mkEntry (defaultDuration p) t)); try done.
    + unfold Next. cbn. by rewrite lookup_insert_eq, Hn.
    + cbn. destruct Hc. lia.
  - unfold Get, Reset. cbn. by rewrite lookup_delete_eq.
  - intros id' Hid. generalize (t :: times). intros l. revert p Hc Hn Hcl. intros p _ _ _. revert p.
    induction l as [|u l IH]; intros p; [done|]. cbn. rewrite IH. by apply Get_Next_ne.
Qed.

(** Collection is invisible: a failure that is recorded after [GC] gives the same delay
    as without it, because what [GC] forgets has expired anyway. *)
Theorem GC_transparent (p : Backoff) (id : string) (gc t now : Z) :
  (gc ≤ t)%Z → Get id (Next id t now (GC gc p)) = Get id (Next id t now p).
Proof.
  intros Ht. unfold Get, Next, GC. cbn. rewrite !lookup_insert_eq.
  destruct (perItemBackoff p !! id) as [e|] eqn:E.
  - destruct (decide (wrap64 (maxDuration p * 2) < time_sub gc (lastUpdate e))%Z) as [Hx|Hx].
    + rewrite (proj2 (map_lookup_filter_None _ _ _)); [|right; intros e' E'; simplify_eq; cbn; tauto].
      by rewrite (hasExpired_GC gc) by done.
    + by rewrite (proj2 (map_lookup_filter_Some _ _ _ _) (conj E Hx)).
  - by rewrite (proj2 (map_lookup_filter_None _ _ _)) by (by left).
Qed.

Module BackoffExamples.
(** [flowcontrol.NewBackOff(5*time.Second, time.Minute)]. *)
Definition controller_backoff : Backoff := NewBackOff 5000000000 60000000000.

Lemma controller_backoff_inv : backoff_inv controller_backoff.
Proof. split; [split; [split; reflexivity || discriminate|discriminate]|]. intros k e E. discriminate E. Qed.

Lemma backoff_bounded_witness :
  let p' := foldl (λ q o, run_op o q) controller_backoff [ONext "k" 0 0; ONext "k" 1 1; OGC 2] in
  backoff_inv p' ∧ (Get "k" p' = 0 ∨ defaultDuration controller_backoff ≤ Get "k" p' ≤ maxDuration controller_backoff)%Z.
Proof. exact (backoff_bounded [ONext "k" 0 0; ONext "k" 1 1; OGC 2] controller_backoff "k" controller_backoff_inv). Defined.

Lemma backoff_doubles_witness :
  Get "k" (failures "k" [0; 5; 15; 35; 75]%Z controller_backoff) =
    Z.min (5000000000 * 2 ^ 4) 60000000000 ∧
  Get "k" (Reset "k" (failures "k" [0; 5; 15; 35; 75]%Z controller_backoff)) = 0%Z ∧
  (∀ id', id' ≠ "k" → Get id' (failures "k" [0; 5; 15; 35; 75]%Z controller_backoff) = Get id' controller_backoff).
Proof.
  apply (backoff_doubles controller_backoff "k" 0 [5; 15; 35; 75]%Z).
  - exact (proj1 controller_backoff_inv).
  - reflexivity.
  - repeat split; vm_compute; discriminate.
Defined.

Lemma GC_transparent_witness :
  Get "k" (Next "k" 9 9 (GC 5 controller_backoff)) = Get "k" (Next "k" 9 9 controller_backoff).
Proof. apply (GC_transparent controller_backoff "k" 5 9 9). discriminate. Defined.
End BackoffExamples.
