(* ===== verification/Deliverer.v ===== *)
(** The delaying deliverer of the controllers,
    [federation-controller/util/delaying_deliverer.go]: a heap of items ordered by delivery
    time, at most one per key, with the position of every key.  [container/heap] is
    modelled with it, loop by loop; [None] is an index out of range, which the theorems
    exclude.

    The goroutine [run] owns the heap.  Here a turn of its loop delivers what is due and then
    takes one update; [Channels.v] takes the turn apart, with the channels that it may have to
    wait for. *)

From S2P Require Import Prelude.

(** [DelayingDelivererItem]. *)
Record Item (V : Type) := mkItem { Key : string; Value : V; DeliveryTime : Z }.
Arguments mkItem {V} _ _ _.
Arguments Key {V} _.
Arguments Value {V} _.
Arguments DeliveryTime {V} _.

(** [delivererHeap]. *)
Record delivererHeap (V : Type) := mkHeap { keyPosition : gmap string nat; data : list (Item V) }.
Arguments mkHeap {V} _ _.
Arguments keyPosition {V} _.
Arguments data {V} _.

(** ** The heap *)

Section heap.
Context {V : Type}.
Implicit Types (dh : delivererHeap V) (it : Item V).

(** [Len], [Less], [Swap], [Push] and [Pop]. *)
Definition Len dh : nat := length (data dh).
Definition Less dh (i j : nat) : option bool :=
  a ← data dh !! i; b ← data dh !! j; Some (bool_decide (DeliveryTime a < DeliveryTime b)%Z).
Definition Swap dh (i j : nat) : option (delivererHeap V) :=
  a ← data dh !! i; b ← data dh !! j;
  Some (mkHeap (<[Key b := i]> (<[Key a := j]> (keyPosition dh))) (<[j := a]> (<[i := b]> (data dh)))).
Definition Push_ dh it : delivererHeap V :=
  mkHeap (<[Key it := length (data dh ++ [it]) - 1]> (keyPosition dh)) (data dh ++ [it]).
Definition Pop_ dh : option (Item V * delivererHeap V) :=
  let n := length (data dh) in
  if bool_decide (n = 0) then None
  else item ← data dh !! (n - 1);
       Some (item, mkHeap (delete (Key item) (keyPosition dh)) (take (n - 1) (data dh))).

(** [heap.up]. *)
Fixpoint up (fuel : nat) dh (j : nat) : option (delivererHeap V) :=
  match fuel with
  | 0 => Some dh
  | S fuel' =>
      let i := (j - 1) / 2 in
      if bool_decide (i = j) then Some dh
      else less ← Less dh j i;
           if negb less then Some dh else dh' ← Swap dh i j; up fuel' dh' i
  end.

(** [heap.down]: the heap, and whether the item at [i0] moved. *)
Fixpoint down (fuel : nat) dh (i n : nat) : option (delivererHeap V * nat) :=
  match fuel with
  | 0 => Some (dh, i)
  | S fuel' =>
      let j1 := 2 * i + 1 in
      if bool_decide (n ≤ j1) then Some (dh, i)
      else
        let j2 := j1 + 1 in
        right ← (if bool_decide (j2 < n) then Less dh j2 j1 else Some false);
        let j := if right : bool then j2 else j1 in
        less ← Less dh j i;
        if negb less then Some (dh, i) else dh' ← Swap dh i j; down fuel' dh' j n
  end.

(** [heap.Push], [heap.Pop] and [heap.Fix]. *)
Definition Push dh it : option (delivererHeap V) :=
  let dh' := Push_ dh it in up (Len dh') dh' (Len dh' - 1).
Definition Pop dh : option (Item V * delivererHeap V) :=
  if bool_decide (Len dh = 0) then None
  else
    let n := Len dh - 1 in
    dh1 ← Swap dh 0 n;
    '(dh2, _) ← down (Len dh1) dh1 0 n;
    Pop_ dh2.
Definition Fix dh (i : nat) : option (delivererHeap V) :=
  '(dh', i') ← down (Len dh) dh i (Len dh);
  if bool_decide (i < i') then Some dh' else up (Len dh') dh' i.

(** ** The deliverer *)

(** [deliver]: the items due at [timestamp], in the order they are sent. *)
Fixpoint deliver (fuel : nat) (timestamp : Z) dh : option (list (Item V) * delivererHeap V) :=
  match fuel with
  | 0 => Some ([], dh)
  | S fuel' =>
      match data dh with
      | [] => Some ([], dh)
      | top :: _ =>
          if bool_decide (timestamp < DeliveryTime top)%Z then Some ([], dh)
          else '(item, dh') ← Pop dh;
               '(items, dh'') ← deliver fuel' timestamp dh';
               Some (item :: items, dh'')
      end
  end.

(** The update case of [run]. *)
Definition update dh (item : Item V) : option (delivererHeap V) :=
  match keyPosition dh !! Key item with
  | Some position =>
      old ← data dh !! position;
      if bool_decide (DeliveryTime item < DeliveryTime old)%Z
      then Fix (mkHeap (keyPosition dh) (<[position := item]> (data dh))) position
      else Some dh
  | None => Push dh item
  end.

(** [nextWakeUp] of [run], an hour from [now] when nothing is pending. *)
Definition nextWakeUp (now : Z) dh : Z :=
  match data dh with [] => now + 3600 * 10 ^ 9 | top :: _ => DeliveryTime top end.

(** [NewDelayingDeliverer]. *)
Definition empty_heap : delivererHeap V := mkHeap ∅ [].

(** ** Invariants *)

(** Positions are those of the data; so no key is there twice. *)
Definition pos_ok dh : Prop :=
  ∀ k p, keyPosition dh !! k = Some p ↔ ∃ it, data dh !! p = Some it ∧ Key it = k.

Definition tm dh (i : nat) : Z := default 0%Z (DeliveryTime <$> data dh !! i).
Definition child (i c : nat) : Prop := c = 2 * i + 1 ∨ c = 2 * i + 2.
Definition heap_ok dh : Prop := ∀ i c, child i c → c < Len dh → (tm dh i ≤ tm dh c)%Z.

Record inv dh : Prop := { inv_pos : pos_ok dh; inv_heap : heap_ok dh }.

Lemma pos_ok_inj dh p q a b :
  pos_ok dh → data dh !! p = Some a → data dh !! q = Some b → Key a = Key b → p = q.
Proof.
  intros Hp Ha Hb E. assert (keyPosition dh !! Key a = Some p) as H1 by (apply Hp; eauto).
  assert (keyPosition dh !! Key a = Some q) as H2 by (apply Hp; eauto). congruence.
Qed.

Lemma lookup_swap (l : list (Item V)) i j a b k :
  l !! i = Some a → l !! j = Some b →
  <[j := a]> (<[i := b]> l) !! k = if decide (k = j) then Some a else if decide (k = i) then Some b else l !! k.
Proof.
  intros Hi Hj. apply lookup_lt_Some in Hi as Hi', Hj as Hj'.
  destruct (decide (k = j)) as [->|]; [by rewrite list_lookup_insert_eq by (by rewrite length_insert)|].
  rewrite list_lookup_insert_ne by done.
  destruct (decide (k = i)) as [->|]; [by rewrite list_lookup_insert_eq|by rewrite list_lookup_insert_ne].
Qed.

Lemma Swap_spec dh i j :
  i < Len dh → j < Len dh → pos_ok dh →
  ∃ dh', Swap dh i j = Some dh' ∧ Len dh' = Len dh ∧ pos_ok dh' ∧ data dh' ≡ₚ data dh ∧
    ∀ k, data dh' !! k = if decide (k = j) then data dh !! i else if decide (k = i) then data dh !! j else data dh !! k.
Proof.
  intros Hi Hj Hp. unfold Swap.
  destruct (lookup_lt_is_Some_2 _ _ Hi) as [a Ha], (lookup_lt_is_Some_2 _ _ Hj) as [b Hb].
  rewrite Ha, Hb. cbn [mbind option_bind]. eexists. split; [reflexivity|].
  assert (∀ k, <[j := a]> (<[i := b]> (data dh)) !! k =
    if decide (k = j) then Some a else if decide (k = i) then Some b else data dh !! k) as Hl
    by (intros; by apply lookup_swap).
  split; [unfold Len; cbn; by rewrite !length_insert|]. split; [|split; [|exact Hl]].
  - intros k p. cbn [keyPosition data]. rewrite Hl. split.
    + intros [[<- <-]|[Hk [[<- <-]|[Hk' E]]%lookup_insert_Some]]%lookup_insert_Some.
      * destruct (decide (i = j)) as [->|]; [simplify_eq; eauto|]. rewrite decide_True by done. eauto.
      * rewrite decide_True by done. eauto.
      * apply Hp in E as (it&E&Hit). exists it. split; [|done].
        rewrite !decide_False; [done|intros ->; congruence|intros ->; congruence].
    + intros (it&E&<-). destruct (decide (p = j)) as [->|Hpj]; [|destruct (decide (p = i)) as [->|Hpi]]; simplify_eq.
      * destruct (decide (Key b = Key it)) as [Eq|Hne].
        -- rewrite (pos_ok_inj dh i j it b) by done. rewrite Eq. apply lookup_insert_eq.
        -- rewrite lookup_insert_ne by done. apply lookup_insert_eq.
      * apply lookup_insert_eq.
      * rewrite !lookup_insert_ne; [apply Hp; eauto|intros Eq; apply Hpi|intros Eq; apply Hpj];
          by apply (pos_ok_inj dh p _ it _ Hp E) with (2 := eq_sym Eq) || (symmetry; by eapply pos_ok_inj).
  - cbn [data]. by apply Permutation_insert_swap.
Qed.

(** The times after a swap. *)
Lemma tm_swap dh dh' i j :
  (∀ k, data dh' !! k = if decide (k = j) then data dh !! i else if decide (k = i) then data dh !! j else data dh !! k) →
  ∀ k, tm dh' k = if decide (k = j) then tm dh i else if decide (k = i) then tm dh j else tm dh k.
Proof. intros H k. unfold tm. rewrite H. by repeat case_decide. Qed.

Lemma Less_tm dh i j : i < Len dh → j < Len dh → Less dh i j = Some (bool_decide (tm dh i < tm dh j)%Z).
Proof.
  intros Hi Hj. unfold Less, tm.
  destruct (lookup_lt_is_Some_2 _ _ Hi) as [a ->], (lookup_lt_is_Some_2 _ _ Hj) as [b ->]. done.
Qed.

Lemma child_parent j : j ≠ 0 → child ((j - 1) / 2) j.
Proof.
  intros Hj. unfold child. pose proof (Nat.div_mod_eq (j - 1) 2). pose proof (Nat.mod_upper_bound (j - 1) 2). lia.
Qed.

Lemma child_inj i i' c : child i c → child i' c → i = i'.
Proof. unfold child. lia. Qed.

Lemma child_lt i c : child i c → i < c.
Proof. unfold child. lia. Qed.

(** A heap but for the edge above [j]. *)
Definition up_ok dh (j : nat) : Prop :=
  (∀ i c, child i c → c < Len dh → c ≠ j → (tm dh i ≤ tm dh c)%Z) ∧
  (∀ g c, child g j → child j c → c < Len dh → (tm dh g ≤ tm dh c)%Z).

Lemma up_spec fuel dh j :
  j < fuel → j < Len dh → pos_ok dh → up_ok dh j →
  ∃ dh', up fuel dh j = Some dh' ∧ inv dh' ∧ data dh' ≡ₚ data dh.
Proof.
  revert dh j. induction fuel as [|fuel IH]; intros dh j Hf Hj Hp [H1 H2]; [lia|]. cbn [up].
  case_bool_decide as Hij.
  { exists dh. split_and!; [done| |done]. split; [done|]. intros i c Hc Hl. apply H1; try done.
    intros ->. apply child_lt in Hc as ?. destruct (decide (j = 0)) as [|Hj0]; [lia|].
    apply child_parent, child_lt in Hj0. lia. }
  set (i := (j - 1) / 2) in *. assert (j ≠ 0) as Hj0 by (intros ->; by destruct Hij).
  pose proof (child_parent j Hj0) as Hc. fold i in Hc. pose proof (child_lt _ _ Hc) as Hlt.
  rewrite Less_tm by lia. cbn [mbind option_bind]. case_bool_decide as Hl; cbn [negb].
  2:{ exists dh. split_and!; [done| |done]. split; [done|]. intros x c Hxc Hcl.
      destruct (decide (c = j)) as [->|]; [|by apply H1]. rewrite (child_inj x i j) by done. lia. }
  destruct (Swap_spec dh i j) as (dh1&Hs&HL&Hp1&Hperm&Hk); [lia|lia|done|]. rewrite Hs. cbn [mbind option_bind].
  pose proof (tm_swap _ _ _ _ Hk) as Ht.
  destruct (IH dh1 i) as (dh'&E&Hi&Hperm'); [lia|lia|done| |].
  - split.
    + intros x c Hxc Hcl Hci. rewrite !Ht. rewrite HL in Hcl. pose proof (child_lt _ _ Hxc).
      destruct (decide (c = j)) as [->|Hcj].
      * rewrite (child_inj x i j) by done. rewrite decide_False by lia. rewrite decide_True by done. lia.
      * rewrite (decide_False (P := c = i)) by done. pose proof (H1 x c Hxc Hcl Hcj).
        destruct (decide (x = j)) as [->|]; [by apply H2|]. destruct (decide (x = i)) as [->|]; lia.
    + intros g c Hg Hci Hcl. rewrite !Ht. rewrite HL in Hcl. pose proof (child_lt _ _ Hg). pose proof (child_lt _ _ Hci).
      rewrite (decide_False (P := g = j)), (decide_False (P := g = i)), (decide_False (P := c = i)) by lia.
      assert (tm dh g ≤ tm dh i)%Z by (apply H1; [done|lia|lia]).
      destruct (decide (c = j)) as [->|]; [lia|]. pose proof (H1 i c Hci Hcl). lia.
  - exists dh'. split_and!; [done|done|]. by rewrite Hperm'.
Qed.

(** A heap below [n] but for the edges at [i]. *)
Definition down_ok dh (i n : nat) : Prop :=
  (∀ x c, child x c → c < n → x ≠ i → c ≠ i → (tm dh x ≤ tm dh c)%Z) ∧
  (∀ g c, child g i → child i c → c < n → (tm dh g ≤ tm dh c)%Z).
Definition heap_below dh (n : nat) : Prop := ∀ i c, child i c → c < n → (tm dh i ≤ tm dh c)%Z.

(** The smaller child of [i], as [down] picks it. *)
Lemma down_pick dh i n :
  n ≤ Len dh → 2 * i + 1 < n →
  ∃ j, (right ← (if bool_decide (2 * i + 1 + 1 < n) then Less dh (2 * i + 1 + 1) (2 * i + 1) else Some false);
        Some (if right : bool then 2 * i + 1 + 1 else 2 * i + 1)) = Some j ∧
    child i j ∧ j < n ∧ ∀ c, child i c → c < n → (tm dh j ≤ tm dh c)%Z.
Proof.
  intros Hn Hi. case_bool_decide as H2.
  - rewrite Less_tm by lia. cbn [mbind option_bind]. eexists. split; [reflexivity|].
    case_bool_decide as Hl; (split; [unfold child; lia|]); (split; [lia|]); intros c [-> | ->] Hc;
      replace (2 * i + 2) with (2 * i + 1 + 1) in * by lia; lia.
  - cbn [mbind option_bind]. eexists. split; [reflexivity|]. split; [unfold child; lia|]. split; [lia|].
    intros c [-> | ->] Hc; lia.
Qed.

Lemma down_spec fuel dh i n :
  n ≤ fuel + i → n ≤ Len dh → i < Len dh → pos_ok dh → down_ok dh i n →
  ∃ dh' i', down fuel dh i n = Some (dh', i') ∧ pos_ok dh' ∧ data dh' ≡ₚ data dh ∧
    (∀ k, n ≤ k → i < n → data dh' !! k = data dh !! k) ∧
    ((i' = i ∧ dh' = dh ∧ ∀ c, child i c → c < n → (tm dh i ≤ tm dh c)%Z) ∨ (i < i' ∧ heap_below dh' n)).
Proof.
  revert dh i. induction fuel as [|fuel IH]; intros dh i Hf Hn Hi Hp [H1 H2]; cbn [down].
  { exists dh, i. split_and!; try done. left. split_and!; try done. intros c Hc. apply child_lt in Hc. lia. }
  case_bool_decide as Hleaf.
  { exists dh, i. split_and!; try done. left. split_and!; try done. intros c [-> | ->]; lia. }
  destruct (down_pick dh i n) as (j&Hj&Hc&Hjn&Hmin); [lia|lia|]. pose proof (child_lt _ _ Hc) as Hlt.
  destruct (if bool_decide (2 * i + 1 + 1 < n) then Less dh (2 * i + 1 + 1) (2 * i + 1) else Some false)
    as [right|]; [|done]. cbn [mbind option_bind] in *. apply (inj Some) in Hj. rewrite Hj.
  rewrite Less_tm by lia. cbn [mbind option_bind]. case_bool_decide as Hl; cbn [negb].
  2:{ exists dh, i. split_and!; try done. left. split_and!; try done. intros c Hcc Hcn.
      specialize (Hmin c Hcc Hcn). lia. }
  destruct (Swap_spec dh i j) as (dh1&Hs&HL&Hp1&Hperm&Hk); [lia|lia|done|]. rewrite Hs. cbn [mbind option_bind].
  pose proof (tm_swap _ _ _ _ Hk) as Ht.
  assert (down_ok dh1 j n) as Hd1.
  { split.
    - intros x c Hxc Hcn Hxj Hcj. rewrite !Ht. rewrite (decide_False (P := x = j)), (decide_False (P := c = j)) by done.
      destruct (decide (c = i)) as [->|Hci].
      + pose proof (child_lt _ _ Hxc). rewrite decide_False by lia. by apply H2.
      + destruct (decide (x = i)) as [->|]; [by apply Hmin|by apply H1].
    - intros g c Hg Hjc Hcn. pose proof (child_lt _ _ Hjc). rewrite (child_inj g i j) by done. rewrite !Ht.
      rewrite (decide_False (P := i = j)), (decide_True (P := i = i)), (decide_False (P := c = j)),
        (decide_False (P := c = i)) by lia. apply H1; try done; lia. }
  destruct (IH dh1 j) as (dh'&i'&E&Hp'&Hperm'&Hkeep&Hcase); [lia|lia|lia|done|done|].
  exists dh', i'. split_and!; [done|done|by rewrite Hperm'| |].
  - intros k Hk1 Hk2. rewrite Hkeep by lia. rewrite Hk. by rewrite !decide_False by lia.
  - right. destruct Hcase as [(->&->&Hch)|[? ?]]; [|split; [lia|done]]. split; [done|].
    intros x c Hxc Hcn. destruct Hd1 as [Ha Hb].
    destruct (decide (x = j)) as [->|Hxj]; [by apply Hch|].
    destruct (decide (c = j)) as [->|]; [|by apply Ha].
    rewrite (child_inj x i j) by done. rewrite !Ht. rewrite (decide_False (P := i = j)), !decide_True by lia. lia.
Qed.

(** ** The operations of [container/heap] *)

Lemma heap_top_min dh i : heap_ok dh → i < Len dh → (tm dh 0 ≤ tm dh i)%Z.
Proof.
  intros Hh. induction (lt_wf i) as [i _ IH]. intros Hi. destruct (decide (i = 0)) as [->|Hn]; [lia|].
  pose proof (child_parent i Hn) as Hc. pose proof (child_lt _ _ Hc).
  transitivity (tm dh ((i - 1) / 2)); [apply IH; lia|]. by apply Hh.
Qed.

Lemma tm_lookup dh i it : data dh !! i = Some it → tm dh i = DeliveryTime it.
Proof. intros E. unfold tm. by rewrite E. Qed.

Lemma pos_ok_fresh dh it k :
  pos_ok dh → keyPosition dh !! k = None → it ∈ data dh → Key it ≠ k.
Proof.
  intros Hp Hk [i Hi]%list_elem_of_lookup E. assert (keyPosition dh !! k = Some i) by (apply Hp; eauto). congruence.
Qed.

Lemma Push_spec dh it :
  inv dh → keyPosition dh !! Key it = None →
  ∃ dh', Push dh it = Some dh' ∧ inv dh' ∧ data dh' ≡ₚ it :: data dh.
Proof.
  intros [Hp Hh] Hk. unfold Push. set (dh1 := Push_ dh it).
  assert (Len dh1 = S (Len dh)) as HL by (unfold Len; cbn; rewrite length_app; cbn; lia).
  assert (∀ i, i < Len dh → tm dh1 i = tm dh i) as Ht.
  { intros i Hi. unfold tm. cbn. by rewrite lookup_app_l. }
  assert (pos_ok dh1) as Hp1.
  { intros k p. cbn. rewrite length_app. cbn [length]. split.
    - intros [[<- <-]|[Hn E]]%lookup_insert_Some.
      + exists it. split; [|done]. rewrite lookup_app_r by lia.
        by replace (length (data dh) + 1 - 1 - length (data dh)) with 0 by lia.
      + apply Hp in E as (x&E&?). exists x. split; [|done]. by apply lookup_app_l_Some.
    - intros (x&E&<-). apply lookup_app_Some in E as [E|[Hge E]].
      + rewrite lookup_insert_ne; [apply Hp; eauto|].
        intros Eq. eapply (pos_ok_fresh dh x); [done|exact Hk|by eapply list_elem_of_lookup_2|done].
      + apply list_lookup_singleton_Some in E as [E ->].
        replace p with (length (data dh) + 1 - 1) by lia. apply lookup_insert_eq. }
  destruct (up_spec (Len dh1) dh1 (Len dh1 - 1)) as (dh'&E&Hi&Hperm); [lia|lia|done| |].
  - split; intros i c Hc Hl; [intros Hne|intros Hl2].
    + apply child_lt in Hc as ?. rewrite !Ht by lia. apply Hh; [done|lia].
    + apply child_lt in Hl. lia.
  - exists dh'. split_and!; [done|done|]. rewrite Hperm. cbn. by rewrite Permutation_app_comm.
Qed.

Lemma Pop_spec dh :
  inv dh → data dh ≠ [] →
  ∃ it dh', Pop dh = Some (it, dh') ∧ inv dh' ∧ data dh ≡ₚ it :: data dh' ∧
    head (data dh) = Some it ∧ ∀ x, x ∈ data dh → (DeliveryTime it ≤ DeliveryTime x)%Z.
Proof.
  intros [Hp Hh] Hne. unfold Pop.
  assert (0 < Len dh) as Hl by (unfold Len; destruct (data dh); [done|cbn; lia]).
  rewrite bool_decide_eq_false_2 by lia. set (n := Len dh - 1).
  destruct (Swap_spec dh 0 n) as (dh1&Hs&HL&Hp1&Hperm1&Hk); [lia|lia|done|]. rewrite Hs. cbn [mbind option_bind].
  pose proof (tm_swap _ _ _ _ Hk) as Ht.
  destruct (down_spec (Len dh1) dh1 0 n) as (dh2&i'&E&Hp2&Hperm2&Hkeep&Hcase); [lia|lia|lia|done| |].
  { split.
    - intros x c Hc Hcn Hx Hc0. rewrite !Ht. apply child_lt in Hc as ?.
      rewrite !decide_False by lia. apply Hh; [done|lia].
    - intros g c Hg. apply child_lt in Hg. lia. }
  rewrite E. cbn [mbind option_bind].
  destruct (lookup_lt_is_Some_2 _ _ Hl) as [top Htop].
  assert (data dh2 !! n = Some top) as Hn2.
  { destruct (decide (n = 0)) as [Hn0|Hn0]; [|rewrite Hkeep by lia; by rewrite Hk, decide_True].
    destruct Hcase as [(_&->&_)|[Hlt Hb]]; [by rewrite Hk, decide_True|].
    assert (Len dh2 = 1) as HL2 by (unfold Len in *; rewrite Hperm2, Hperm1; lia).
    apply Permutation_length in Hperm2 as Hlen. rewrite Hn0 in Hk |- *.
    destruct (data dh2) as [|y [|z l]] eqn:E2; try (unfold Len in HL2; rewrite E2 in HL2; cbn in HL2; lia).
    destruct (data dh1) as [|y1 [|z1 l1]] eqn:E1; try (cbn in Hlen; lia).
    apply Permutation_length_1 in Hperm2 as ->. specialize (Hk 0). cbn in Hk. by rewrite <-Htop. }
  assert (Len dh2 = S n) as HL2 by (unfold Len in *; rewrite Hperm2, Hperm1; lia).
  unfold Pop_. unfold Len in HL2. rewrite HL2. rewrite bool_decide_eq_false_2 by lia.
  replace (S n - 1) with n by lia. rewrite Hn2. cbn [mbind option_bind].
  assert (data dh2 = take n (data dh2) ++ [top]) as Hsplit.
  { rewrite <-(take_S_r (data dh2) n top Hn2). rewrite take_ge; [done|]. rewrite HL2. lia. }
  eexists top, _. split; [reflexivity|]. cbn [data]. split_and!.
  - split.
    + intros k p. cbn [keyPosition data]. rewrite lookup_delete_Some. split.
      * intros [Hkn (it&Ep&<-)%Hp2]. exists it. split; [|done]. apply lookup_take_Some. split; [done|].
        apply lookup_lt_Some in Ep as ?. destruct (decide (p = n)) as [->|]; [|lia]. congruence.
      * intros (it&[Ep Hlt]%lookup_take_Some&<-). split; [|apply Hp2; eauto].
        intros Eq. assert (n = p) by (by eapply (pos_ok_inj dh2 n p top it)). lia.
    + intros i c Hc Hcl. unfold Len in Hcl. cbn in Hcl. rewrite length_take in Hcl.
      assert (heap_below dh2 n) as Hb.
      { destruct Hcase as [(_&->&Hch)|[_ Hb]]; [|done]. intros x y Hxy Hy.
        destruct (decide (x = 0)) as [->|]; [by apply Hch|]. rewrite !Ht. apply child_lt in Hxy as ?.
        rewrite !decide_False by lia. apply Hh; [done|lia]. }
      apply child_lt in Hc as ?. unfold tm. cbn. rewrite !lookup_take_lt by lia. by apply Hb; [|lia].
  - rewrite <-Hperm1, <-Hperm2, Hsplit at 1. by rewrite Permutation_app_comm.
  - destruct (data dh); [done|]. cbn in Htop. by injection Htop as ->.
  - intros x [i Hi]%list_elem_of_lookup. rewrite <-(tm_lookup _ _ _ Htop), <-(tm_lookup _ _ _ Hi).
    apply heap_top_min; [done|]. by eapply lookup_lt_Some.
Qed.

Lemma Fix_spec dh p old it :
  inv dh → data dh !! p = Some old → Key it = Key old → (DeliveryTime it ≤ DeliveryTime old)%Z →
  ∃ dh', Fix (mkHeap (keyPosition dh) (<[p := it]> (data dh))) p = Some dh' ∧ inv dh' ∧
    data dh' ≡ₚ <[p := it]> (data dh).
Proof.
  intros [Hp Hh] Hold Hkey Htime. set (dh1 := mkHeap (keyPosition dh) (<[p := it]> (data dh))).
  apply lookup_lt_Some in Hold as Hlt.
  assert (Len dh1 = Len dh) as HL by (unfold Len; cbn; by rewrite length_insert).
  assert (∀ i, tm dh1 i = if decide (i = p) then DeliveryTime it else tm dh i) as Ht.
  { intros i. unfold tm. cbn. case_decide as Hi; [subst; by rewrite list_lookup_insert_eq|].
    by rewrite list_lookup_insert_ne. }
  assert (pos_ok dh1) as Hp1.
  { intros k q. cbn. rewrite (Hp k q). split; intros (x&E&<-).
    - destruct (decide (q = p)) as [->|]; [|rewrite list_lookup_insert_ne by done; eauto].
      simplify_eq. exists it. by rewrite list_lookup_insert_eq.
    - destruct (decide (q = p)) as [->|]; [|rewrite list_lookup_insert_ne in E by done; eauto].
      rewrite list_lookup_insert_eq in E by done. simplify_eq. eauto. }
  assert (tm dh p = DeliveryTime old) as Htp by (by apply tm_lookup).
  assert (down_ok dh1 p (Len dh1)) as Hd.
  { split.
    - intros x c Hc Hcn Hx Hcp. rewrite !Ht. rewrite !decide_False by done. apply Hh; [done|lia].
    - intros g c Hg Hc Hcn. rewrite !Ht. apply child_lt in Hg as ?. apply child_lt in Hc as ?.
      rewrite !decide_False by lia. etransitivity; apply Hh; first [done|lia]. }
  unfold Fix. destruct (down_spec (Len dh1) dh1 p (Len dh1)) as (dh2&i'&E&Hp2&Hperm&_&Hcase);
    [lia|lia|unfold Len in *; cbn in *; lia|done|done|].
  rewrite E. cbn [mbind option_bind]. destruct Hcase as [(->&->&Hch)|[Hi Hb]].
  - rewrite bool_decide_eq_false_2 by lia.
    destruct (up_spec (Len dh1) dh1 p) as (dh'&E'&Hi'&Hperm'); [rewrite HL; exact Hlt|rewrite HL; exact Hlt|done| |eauto].
    destruct Hd as [Ha Hb]. split; [|done]. intros x c Hc Hcl Hne.
    destruct (decide (x = p)) as [->|]; [by apply Hch|by apply Ha].
  - rewrite bool_decide_eq_true_2 by lia. exists dh2. split_and!; [done| |done]. split; [done|].
    intros x c Hc Hcl. apply Hb; [done|]. unfold Len in *. by rewrite <-Hperm.
Qed.

(** ** What is pending *)

(** The item waiting under a key. *)
Definition pending dh (k : string) : option (Item V) := p ← keyPosition dh !! k; data dh !! p.

Lemma pending_spec dh k it : inv dh → pending dh k = Some it ↔ it ∈ data dh ∧ Key it = k.
Proof.
  intros [Hp _]. unfold pending. rewrite bind_Some. split.
  - intros (p&(it'&E&<-)%Hp&E'). simplify_eq. split; [by eapply list_elem_of_lookup_2|done].
  - intros [[p E]%list_elem_of_lookup <-]. exists p. split; [|done]. apply Hp. eauto.
Qed.

Lemma pending_None dh k : inv dh → pending dh k = None ↔ ∀ it, it ∈ data dh → Key it ≠ k.
Proof.
  intros Hi. split.
  - intros Hn it Hit Hk. assert (pending dh k = Some it) by (by apply pending_spec). congruence.
  - intros Hn. destruct (pending dh k) as [it|] eqn:E; [|done].
    apply pending_spec in E as [Hin Hk]; [|done]. by destruct (Hn it Hin).
Qed.

Lemma inv_keys dh : inv dh → NoDup (Key <$> data dh).
Proof.
  intros [Hp _]. apply NoDup_alt. intros i j k Hi Hj.
  apply list_lookup_fmap_Some in Hi as (a&->&Ha). apply list_lookup_fmap_Some in Hj as (b&E&Hb).
  by eapply pos_ok_inj.
Qed.

Lemma empty_inv : inv empty_heap.
Proof.
  split.
  - intros k p. cbn. split; [by rewrite lookup_empty|intros (it&E&_); by rewrite lookup_nil in E].
  - intros i c _ Hc. cbn in Hc. lia.
Qed.

(** Of two items for a key the earlier one is kept; the old one on a tie. *)
Definition earlier (old : option (Item V)) it : Item V :=
  match old with
  | Some o => if bool_decide (DeliveryTime it < DeliveryTime o)%Z then it else o
  | None => it
  end.

Lemma update_run dh it :
  inv dh → ∃ dh', update dh it = Some dh' ∧ inv dh' ∧
    ∀ k, pending dh' k = if decide (k = Key it) then Some (earlier (pending dh k) it) else pending dh k.
Proof.
  intros Hi. unfold update. destruct (keyPosition dh !! Key it) as [p|] eqn:Ek.
  - destruct (proj1 (inv_pos _ Hi _ _) Ek) as (old&Hold&Hkey). rewrite Hold. cbn [mbind option_bind].
    assert (pending dh (Key it) = Some old) as Hpend by (unfold pending; by rewrite Ek).
    case_bool_decide as Ht.
    + destruct (Fix_spec dh p old it) as (dh'&E&Hi'&Hperm); [done|done|done|lia|].
      exists dh'. split_and!; [done|done|]. intros k. apply option_eq. intros x. rewrite pending_spec by done.
      rewrite Hperm. case_decide as Hk.
      * subst k. rewrite Hpend. unfold earlier. rewrite bool_decide_eq_true_2 by done. split.
        -- intros [[q Hq]%list_elem_of_lookup Hkx]. destruct (decide (q = p)) as [->|Hqp].
           ++ rewrite list_lookup_insert_eq in Hq; [done|by eapply lookup_lt_Some].
           ++ rewrite list_lookup_insert_ne in Hq by done. destruct Hqp.
              eapply (pos_ok_inj dh q p); [apply Hi|done|done|congruence].
        -- intros [= <-]. split; [|done]. apply list_elem_of_lookup. exists p. apply list_lookup_insert_eq.
           by eapply lookup_lt_Some.
      * rewrite pending_spec by done. split; intros [[q Hq]%list_elem_of_lookup <-]; (split; [|done]);
          apply list_elem_of_lookup; exists q.
        -- destruct (decide (q = p)) as [->|]; [|by rewrite list_lookup_insert_ne in Hq].
           rewrite list_lookup_insert_eq in Hq by (by eapply lookup_lt_Some). congruence.
        -- rewrite list_lookup_insert_ne; [done|]. intros <-. congruence.
    + exists dh. split_and!; [done|done|]. intros k. case_decide as Hk; [|done]. subst k. rewrite Hpend.
      unfold earlier. by rewrite bool_decide_eq_false_2.
  - destruct (Push_spec dh it Hi Ek) as (dh'&E&Hi'&Hperm). exists dh'. split_and!; [done|done|].
    assert (pending dh (Key it) = None) as Hpend by (unfold pending; by rewrite Ek).
    intros k. apply option_eq. intros x. rewrite pending_spec by done. rewrite Hperm, elem_of_cons. case_decide as Hk.
    + subst k. rewrite Hpend. cbn [earlier]. split.
      * intros [[->|Hx] Hkx]; [done|]. apply (pending_None _ _ Hi) in Hkx; [done|done|done].
      * intros [= <-]. auto.
    + rewrite pending_spec by done. naive_solver.
Qed.

Lemma deliver_run fuel t dh :
  inv dh → Len dh ≤ fuel →
  ∃ items dh', deliver fuel t dh = Some (items, dh') ∧ inv dh' ∧ data dh ≡ₚ items ++ data dh' ∧
    StronglySorted (λ a b, DeliveryTime a ≤ DeliveryTime b)%Z items ∧
    Forall (λ it, DeliveryTime it ≤ t)%Z items ∧ Forall (λ it, t < DeliveryTime it)%Z (data dh').
Proof.
  revert dh. induction fuel as [|fuel IH]; intros dh Hi Hl.
  - exists [], dh. unfold Len in Hl. destruct dh as [kp [|x l]]; cbn in *; [|lia].
    split_and!; [done|done|done|constructor|constructor|constructor].
  - cbn [deliver]. destruct (data dh) as [|top l] eqn:Ed.
    { exists [], dh. rewrite Ed. split_and!; [done|done|done|constructor|constructor|constructor]. }
    destruct (Pop_spec dh Hi) as (it&dh1&Ep&Hi1&Hperm&Hhead&Hmin); [by rewrite Ed|].
    rewrite Ed in Hhead, Hperm, Hmin. injection Hhead as ->.
    case_bool_decide as Ht.
    + exists [], dh. rewrite Ed. split_and!; [done|done|done|constructor|constructor|].
      rewrite Forall_forall. intros x Hx. specialize (Hmin x Hx). lia.
    + rewrite Ep. cbn [mbind option_bind].
      destruct (IH dh1 Hi1) as (items&dh'&E&Hi'&Hp'&Hsort&Hdue&Hleft).
      { unfold Len in *. rewrite Ed in Hl. apply Permutation_length in Hperm. cbn in *. lia. }
      rewrite E. cbn [mbind option_bind]. exists (it :: items), dh'. split_and!; [done|done| | | |done].
      * rewrite Hperm, Hp'. done.
      * constructor; [done|]. rewrite Forall_forall. intros x Hx. apply Hmin. rewrite Hperm, Hp'. set_solver.
      * constructor; [lia|done].
Qed.

(** ** The loop of [run] *)

(** One turn at time [now]: deliver, then possibly one update from the channel. *)
Definition turn (now : Z) (upd : option (Item V)) dh : option (list (Item V) * delivererHeap V) :=
  '(items, dh1) ← deliver (Len dh) now dh;
  match upd with
  | Some it => dh2 ← update dh1 it; Some (items, dh2)
  | None => Some (items, dh1)
  end.

(** The turns of [run], with what each delivers. *)
Inductive run : delivererHeap V → list (Z * option (Item V) * list (Item V)) → delivererHeap V → Prop :=
  | run_nil dh : run dh [] dh
  | run_turn dh now upd items dh1 tr dh2 :
      turn now upd dh = Some (items, dh1) → run dh1 tr dh2 → run dh ((now, upd, items) :: tr) dh2.

Lemma turn_run now upd dh :
  inv dh → ∃ items dh1 dh', deliver (Len dh) now dh = Some (items, dh1) ∧ turn now upd dh = Some (items, dh') ∧
    inv dh1 ∧ inv dh' ∧ data dh ≡ₚ items ++ data dh1 ∧ Forall (λ it, DeliveryTime it ≤ now)%Z items ∧
    Forall (λ it, now < DeliveryTime it)%Z (data dh1) ∧
    ∀ k it, pending dh1 k = Some it → ∃ it', pending dh' k = Some it' ∧ (DeliveryTime it' ≤ DeliveryTime it)%Z.
Proof.
  intros Hi. destruct (deliver_run (Len dh) now dh Hi) as (items&dh1&E&Hi1&Hperm&_&Hdue&Hleft); [lia|].
  unfold turn. rewrite E. cbn [mbind option_bind]. destruct upd as [it|].
  - destruct (update_run dh1 it Hi1) as (dh2&E2&Hi2&Hpend). rewrite E2. cbn [mbind option_bind].
    exists items, dh1, dh2. split_and!; try done. intros k x Hx. rewrite Hpend.
    case_decide; [|exists x; split; [done|lia]].
    rewrite Hx. cbn [earlier]. case_bool_decide; eexists; (split; [reflexivity|lia]).
  - exists items, dh1, dh1. split_and!; try done. intros k x Hx. exists x. split; [done|lia].
Qed.

(** A pending item is delivered by the first turn at or after its time. *)
Lemma run_delivers tr dh dh' k it :
  inv dh → run dh tr dh' → pending dh k = Some it →
  Exists (λ e, DeliveryTime it ≤ e.1.1)%Z tr →
  Exists (λ e, ∃ it', it' ∈ e.2 ∧ Key it' = k ∧ (DeliveryTime it' ≤ DeliveryTime it)%Z) tr.
Proof.
  intros Hi Hr. revert it Hi. induction Hr as [dh|dh now upd items dh1 tr dh2 Ht Hr IH]; intros it Hi Hp Hx;
    [by apply Exists_nil in Hx|].
  destruct (turn_run now upd dh Hi) as (items'&d1&d'&_&Ht'&Hi1&Hi'&Hperm&Hdue&Hleft&Hkeep).
  rewrite Ht in Ht'. injection Ht' as <- <-.
  apply pending_spec in Hp as [Hin Hk]; [|done]. rewrite Hperm, elem_of_app in Hin.
  destruct Hin as [Hin|Hin].
  - apply Exists_cons_hd. exists it. split_and!; [done|done|lia].
  - assert (pending d1 k = Some it) as (it'&Hp'&Hle)%Hkeep by (by apply pending_spec).
    apply Exists_cons_tl. rewrite Forall_forall in Hleft. specialize (Hleft _ Hin).
    apply Exists_cons in Hx as [Hx|Hx]; [cbn in Hx; lia|].
    assert (Exists (λ e, DeliveryTime it' ≤ e.1.1)%Z tr) as Hx'
      by (eapply Exists_impl; [exact Hx|]; cbn; lia).
    apply (IH it' Hi' Hp'), Exists_exists in Hx' as (e&He&x&?&?&?). apply Exists_exists. exists e. split; [done|]. exists x. split_and!; [done|done|lia].
Qed.

Lemma run_not_early tr dh dh' :
  inv dh → run dh tr dh' → inv dh' ∧ Forall (λ e, Forall (λ it, DeliveryTime it ≤ e.1.1)%Z e.2) tr.
Proof.
  intros Hi Hr. induction Hr as [dh|dh now upd items dh1 tr dh2 Ht Hr IH]; [split; [done|constructor]|].
  destruct (turn_run now upd dh Hi) as (items'&d1&d'&_&Ht'&Hi1&Hi'&Hperm&Hdue&Hleft&Hkeep).
  rewrite Ht in Ht'. injection Ht' as <- <-. destruct (IH Hi') as [? ?]. split; [done|]. by constructor.
Qed.
End heap.

(** ** Properties *)

(** Taking an update is exact and never fails: a well-formed heap stays well-formed, and
    under the update's key the item with the earlier time is kept, so that there is one
    item per key and requesting something again never delays it; other keys are left
    alone. *)
Theorem update_keeps_earliest {V : Type} (dh : delivererHeap V) (it : Item V) :
  inv dh → ∃ dh', update dh it = Some dh' ∧ inv dh' ∧ NoDup (Key <$> data dh') ∧
    ∀ k, pending dh' k = if decide (k = Key it) then Some (earlier (pending dh k) it) else pending dh k.
Proof.
  intros Hi. destruct (update_run dh it Hi) as (dh'&E&Hi'&Hp). exists dh'.
  split_and!; [done|done|by apply inv_keys|done].
Qed.

(** [deliver] terminates and delivers exactly what is due: all items with a time at or
    before the timestamp, in the order of their times, and the heap is left well-formed
    with all the others. *)
Theorem deliver_exactly_due {V : Type} (dh : delivererHeap V) (t : Z) :
  inv dh → ∃ items dh', deliver (Len dh) t dh = Some (items, dh') ∧ inv dh' ∧
    data dh ≡ₚ items ++ data dh' ∧
    StronglySorted (λ a b, DeliveryTime a ≤ DeliveryTime b)%Z items ∧
    Forall (λ it, DeliveryTime it ≤ t)%Z items ∧ Forall (λ it, t < DeliveryTime it)%Z (data dh').
Proof. intros Hi. by apply deliver_run. Qed.

(** Requests are served in time: in any run of the deliverer, nothing is delivered
    before its time, and once a request for a key has been taken, an item for that key is
    delivered at the latest in the first turn at or after the requested time, whatever is
    requested in between. *)
Theorem requests_served {V : Type} (tr tr' : list (Z * option (Item V) * list (Item V)))
    (now : Z) (it : Item V) (items : list (Item V)) (dh : delivererHeap V) :
  run empty_heap (tr ++ (now, Some it, items) :: tr') dh →
  Forall (λ e, Forall (λ it, DeliveryTime it ≤ e.1.1)%Z e.2) (tr ++ (now, Some it, items) :: tr') ∧
  (Exists (λ e, DeliveryTime it ≤ e.1.1)%Z tr' →
   Exists (λ e, ∃ it', it' ∈ e.2 ∧ Key it' = Key it ∧ (DeliveryTime it' ≤ DeliveryTime it)%Z) tr').
Proof.
  intros Hr. split; [by apply (run_not_early _ _ _ empty_inv Hr)|].
  remember empty_heap as d0 eqn:Hd0. assert (inv d0) as Hi by (subst; apply empty_inv). clear Hd0.
  remember (tr ++ (now, Some it, items) :: tr') as full eqn:Hf. revert tr Hf.
  induction Hr as [dh|dh now0 upd items0 dh1 tr0 dh2 Ht Hr IH]; intros tr Hf; [by destruct tr|].
  destruct (turn_run now0 upd dh Hi) as (items'&d1&d'&Hdel&Ht'&Hi1&Hi'&_).
  rewrite Ht in Ht'. injection Ht' as <- <-.
  destruct tr as [|e tr]; [|injection Hf as <- Hf; by apply (IH Hi' tr)].
  injection Hf as -> -> -> ->. unfold turn in Ht. rewrite Hdel in Ht. cbn [mbind option_bind] in Ht.
  destruct (update_run d1 it Hi1) as (d2&E2&Hi2&Hpend). rewrite E2 in Ht. cbn [mbind option_bind] in Ht.
  injection Ht as <-. intros Hx.
  assert (∃ it1, pending d2 (Key it) = Some it1 ∧ (DeliveryTime it1 ≤ DeliveryTime it)%Z) as (it1&Hp1&Hle).
  { rewrite Hpend, decide_True by done. eexists. split; [reflexivity|].
    destruct (pending d1 (Key it)); cbn [earlier]; [case_bool_decide; lia|lia]. }
  assert (Exists (λ e, DeliveryTime it1 ≤ e.1.1)%Z tr') as Hx'
    by (eapply Exists_impl; [exact Hx|]; cbn; lia).
  apply (run_delivers _ _ _ _ _ Hi2 Hr Hp1), Exists_exists in Hx' as (e&He&x&?&?&?).
  apply Exists_exists. exists e. split; [done|]. exists x. split_and!; [done|done|lia].
Qed.

Module DelivererExamples.
Definition h3 : delivererHeap nat :=
  mkHeap {["a" := 1; "b" := 0; "c" := 2]} [mkItem "b" 2 3; mkItem "a" 1 5; mkItem "c" 3 9].
Lemma h3_inv : inv h3.
Proof.
  destruct (update_run empty_heap (mkItem "a" 1 5) empty_inv) as (d1&E1&I1&_).
  destruct (update_run d1 (mkItem "b" 2 3) I1) as (d2&E2&I2&_).
  destruct (update_run d2 (mkItem "c" 3 9) I2) as (d3&E3&I3&_).
  vm_compute in E1. injection E1 as <-. vm_compute in E2. injection E2 as <-. vm_compute in E3. injection E3 as <-.
  exact I3.
Qed.

Lemma update_keeps_earliest_witness : ∃ dh', update h3 (mkItem "c" 4 1) = Some dh' ∧ inv dh' ∧ NoDup (Key <$> data dh') ∧
    ∀ k, pending dh' k = if decide (k = Key (mkItem "c" 4 1)) then Some (earlier (pending h3 k) (mkItem "c" 4 1)) else pending h3 k.
Proof. exact (update_keeps_earliest h3 (mkItem "c" 4 1) h3_inv). Defined.

Lemma deliver_exactly_due_witness : ∃ items dh', deliver (Len h3) 5 h3 = Some (items, dh') ∧ inv dh' ∧
    data h3 ≡ₚ items ++ data dh' ∧
    StronglySorted (λ a b, DeliveryTime a ≤ DeliveryTime b)%Z items ∧
    Forall (λ it, DeliveryTime it ≤ 5)%Z items ∧ Forall (λ it, 5 < DeliveryTime it)%Z (data dh').
Proof. exact (deliver_exactly_due h3 5 h3_inv). Defined.

Example deliver_ex : fst <$> deliver (Len h3) 5 h3 = Some [mkItem "b" 2 3%Z; mkItem "a" 1 5%Z].
Proof. vm_compute. reflexivity. Qed.

(** A request for time 5 that is repeated for time 9. *)
Definition trace : list (Z * option (Item nat) * list (Item nat)) :=
  [(0%Z, Some (mkItem "a" 1 5%Z), []); (1%Z, Some (mkItem "a" 2 9%Z), []); (6%Z, None, [mkItem "a" 1 5%Z])].
Lemma requests_served_witness :
  Forall (λ e, Forall (λ it, DeliveryTime it ≤ e.1.1)%Z e.2) trace ∧
  (Exists (λ e, 5 ≤ e.1.1)%Z (drop 1 trace) →
   Exists (λ e, ∃ it', it' ∈ e.2 ∧ Key it' = "a" ∧ (DeliveryTime it' ≤ 5)%Z) (drop 1 trace)).
Proof.
  apply (requests_served [] (drop 1 trace) 0 (mkItem "a" 1 5%Z) [] empty_heap).
  eapply run_turn; [vm_compute; reflexivity|]. eapply run_turn; [vm_compute; reflexivity|].
  eapply run_turn; [vm_compute; reflexivity|]. apply run_nil.
Defined.
End DelivererExamples.
