(* ===== verification/Channels.v ===== *)
(** The delaying deliverer with its channels and goroutines,
    [federation-controller/util/delaying_deliverer.go]: senders put requests into
    [updateChannel], the goroutine [run] moves them to the heap and, when they are due, to
    [targetChannel], and the goroutine of [StartWithHandler] takes them out.  Both channels
    are bounded: a send to a full channel waits, and [None] is an operation that has to wait.

    [Deliverer.v] has the heap and what [run] does to it; here [run] is taken apart at the
    places where it may wait. *)

From S2P Require Import Prelude Deliverer.

(** [make(chan *DelayingDelivererItem, 100)] in [NewDelayingDeliverer], and
    [delayingDelivererUpdateChanCapacity]. *)
Definition targetChannelCapacity : nat := 100.
Definition delayingDelivererUpdateChanCapacity : nat := 1000.

(** Where the goroutine [run] is: in the loop of [deliver(now)], at the send of an item taken
    from the heap, or at its [select]. *)
Inductive run_state (V : Type) :=
  | Delivering (now : Z)
  | Sending (now : Z) (item : Item V)
  | Selecting (now : Z).
Arguments Delivering {V} now.
Arguments Sending {V} now item.
Arguments Selecting {V} now.

(** [DelayingDeliverer]. *)
Record DelayingDeliverer (V : Type) := mkDeliverer {
  targetChannel : list (Item V);
  heap : delivererHeap V;
  updateChannel : list (Item V);
  running : run_state V
}.
Arguments mkDeliverer {V} _ _ _ _.
Arguments targetChannel {V} _.
Arguments heap {V} _.
Arguments updateChannel {V} _.
Arguments running {V} _.

(** The cases of the [select] in [run]. *)
Inductive select_case := TimeAfter | UpdateChannel.

Section deliverer.
Context {V : Type}.
Implicit Types (d : DelayingDeliverer V) (it : Item V).

(** [NewDelayingDeliverer], started at time [now]. *)
Definition NewDelayingDeliverer (now : Z) : DelayingDeliverer V := mkDeliverer [] empty_heap [] (Delivering now).

(** [DeliverAt]. *)
Definition DeliverAt it d : option (DelayingDeliverer V) :=
  if bool_decide (length (updateChannel d) < delayingDelivererUpdateChanCapacity)
  then Some (mkDeliverer (targetChannel d) (heap d) (updateChannel d ++ [it]) (running d))
  else None.

(** The receive of [StartWithHandler]. *)
Definition Receive d : option (Item V * DelayingDeliverer V) :=
  match targetChannel d with
  | [] => None
  | item :: rest => Some (item, mkDeliverer rest (heap d) (updateChannel d) (running d))
  end.

(** One step of [run], with the clock at [time] and the case that [select] takes. *)
Definition tick (time : Z) (c : select_case) d : option (DelayingDeliverer V) :=
  match running d with
  | Delivering now =>
      match data (heap d) with
      | [] => Some (mkDeliverer (targetChannel d) (heap d) (updateChannel d) (Selecting now))
      | top :: _ =>
          if bool_decide (now < DeliveryTime top)%Z
          then Some (mkDeliverer (targetChannel d) (heap d) (updateChannel d) (Selecting now))
          else '(item, h) ← Pop (heap d);
               Some (mkDeliverer (targetChannel d) h (updateChannel d) (Sending now item))
      end
  | Sending now item =>
      if bool_decide (length (targetChannel d) < targetChannelCapacity)
      then Some (mkDeliverer (targetChannel d ++ [item]) (heap d) (updateChannel d) (Delivering now))
      else None
  | Selecting now =>
      if bool_decide (time < now)%Z then None
      else match c with
      | TimeAfter =>
          if bool_decide (time < nextWakeUp now (heap d))%Z then None
          else Some (mkDeliverer (targetChannel d) (heap d) (updateChannel d) (Delivering time))
      | UpdateChannel =>
          match updateChannel d with
          | [] => None
          | item :: rest =>
              h ← update (heap d) item;
              Some (mkDeliverer (targetChannel d) h rest (Delivering time))
          end
      end
  end.

(** ** What is under way *)

(** The clock that [run] has read last, and the item it is sending. *)
Definition clock d : Z := match running d with Delivering now | Sending now _ | Selecting now => now end.
Definition hand d : list (Item V) := match running d with Sending _ item => [item] | _ => [] end.
Definition in_flight d : list (Item V) := updateChannel d ++ data (heap d) ++ hand d ++ targetChannel d.

(** An item serves a request when it has its key and is not later. *)
Definition serves it' it : Prop := Key it' = Key it ∧ (DeliveryTime it' ≤ DeliveryTime it)%Z.

(** The heap is one, and what was taken from it is due. *)
Record deliverer_ok d : Prop := {
  ok_heap : inv (heap d);
  ok_due : Forall (λ it, DeliveryTime it ≤ clock d)%Z (hand d ++ targetChannel d)
}.

Lemma NewDelayingDeliverer_ok now : deliverer_ok (NewDelayingDeliverer now).
Proof. split; [apply empty_inv|constructor]. Qed.

Lemma serves_refl it : serves it it.
Proof. split; [done|lia]. Qed.
Lemma serves_trans a b c : serves a b → serves b c → serves a c.
Proof. intros [? ?] [? ?]. split; [congruence|lia]. Qed.

Lemma DeliverAt_spec it d d' : deliverer_ok d → DeliverAt it d = Some d' →
  deliverer_ok d' ∧ clock d' = clock d ∧ ∀ x, x ∈ in_flight d' ↔ x = it ∨ x ∈ in_flight d.
Proof.
  intros [Hh Hd]. unfold DeliverAt. case_bool_decide; [|done]. intros [= <-]. split_and!; [by split|done|].
  intros x. unfold in_flight, hand. cbn. set_solver.
Qed.

Lemma Receive_spec it d d' : deliverer_ok d → Receive d = Some (it, d') →
  deliverer_ok d' ∧ clock d' = clock d ∧ (DeliveryTime it ≤ clock d)%Z ∧ (∀ x, x ∈ in_flight d ↔ x = it ∨ x ∈ in_flight d').
Proof.
  intros [Hh Hd]. unfold Receive. destruct (targetChannel d) as [|x rest] eqn:E; [done|]. intros [= <- <-].
  apply Forall_app in Hd as [Hd [Hx Hr]%Forall_cons]. split_and!; [|done|done|].
  - split; [done|]. by apply Forall_app.
  - intros y. unfold in_flight, hand. rewrite E. cbn. set_solver.
Qed.

(** A step of [run] drops no request that is not served by what stays. *)
Definition no_loss d d' : Prop :=
  (∀ it, it ∈ in_flight d → ∃ it', it' ∈ in_flight d' ∧ serves it' it) ∧ (∀ it, it ∈ in_flight d' → it ∈ in_flight d).

Lemma no_loss_same d d' : (∀ it, it ∈ in_flight d ↔ it ∈ in_flight d') → no_loss d d'.
Proof. intros Hi. split; intros it Hit; [|by apply Hi]. exists it. split; [by apply Hi|apply serves_refl]. Qed.

Lemma due_later l (t t' : Z) : (t ≤ t')%Z → Forall (λ it, DeliveryTime it ≤ t)%Z l → Forall (λ it : Item V, DeliveryTime it ≤ t')%Z l.
Proof. intros Ht Hl. eapply Forall_impl; [exact Hl|]. cbn. lia. Qed.

(** The update case. *)
Lemma update_no_loss h item h' : inv h → update h item = Some h' →
  inv h' ∧ (∀ it, it = item ∨ it ∈ data h → ∃ it', it' ∈ data h' ∧ serves it' it) ∧
  (∀ it, it ∈ data h' → it = item ∨ it ∈ data h).
Proof.
  intros Hi E. destruct (update_run h item Hi) as (h1&E1&Hi1&Hp). rewrite E in E1. injection E1 as <-.
  split; [done|].
  assert (∃ x, x ∈ data h' ∧ serves x item ∧ ∀ y, y ∈ data h → Key y = Key item → serves x y) as (x&Hx&Hxi&Hxy).
  { exists (earlier (pending h (Key item)) item).
    assert (pending h' (Key item) = Some (earlier (pending h (Key item)) item)) as Hpi by (by rewrite Hp, decide_True).
    apply pending_spec in Hpi as [Hin Hk]; [|done]. split_and!; [done| |].
    - split; [done|]. unfold earlier. destruct (pending h (Key item)); [case_bool_decide; lia|lia].
    - intros y Hy Hky. assert (pending h (Key item) = Some y) as Hpy by (by apply pending_spec).
      split; [congruence|]. rewrite Hpy. unfold earlier. case_bool_decide; lia. }
  assert (∀ it, it ∈ data h → Key it ≠ Key item → it ∈ data h') as Hother.
  { intros it Hit Hk. assert (pending h' (Key it) = Some it) as Hpi.
    { rewrite Hp, decide_False by done. by apply pending_spec. } by apply pending_spec in Hpi as [? _]. }
  split.
  - intros it [->|Hit]; [by exists x|]. destruct (decide (Key it = Key item)) as [Hk|Hk]; [exists x; auto|].
    exists it. split; [by apply Hother|apply serves_refl].
  - intros it Hit. assert (pending h' (Key it) = Some it) as Hpi by (by apply pending_spec). rewrite Hp in Hpi.
    case_decide as Hk.
    + injection Hpi as <-. unfold earlier. destruct (pending h (Key it)) as [o|] eqn:Eo; [|by left].
      apply pending_spec in Eo as [? _]; [|done]. case_bool_decide; auto.
    + apply pending_spec in Hpi as [? _]; [|done]. by right.
Qed.

Lemma tick_spec time c d d' : deliverer_ok d → tick time c d = Some d' →
  deliverer_ok d' ∧ (clock d ≤ clock d')%Z ∧ no_loss d d'.
Proof.
  destruct d as [tg h up [now|now item|now]]; intros [Hh Hd]; unfold tick; cbn [running heap targetChannel updateChannel] in *.
  - destruct (data h) as [|top l] eqn:Eh; [|case_bool_decide as Ht].
    + intros [= <-]. split_and!; [by split|cbn; lia|by apply no_loss_same].
    + intros [= <-]. split_and!; [by split|cbn; lia|by apply no_loss_same].
    + destruct (Pop_spec h Hh) as (it&h'&->&Hh'&Hperm&Hhead&_); [by rewrite Eh|]. cbn [mbind option_bind]. intros [= <-].
      rewrite Eh in Hhead. injection Hhead as ->. split_and!; [|cbn; lia|].
      * split; [done|]. cbn in *. constructor; [lia|done].
      * apply no_loss_same. intros x. unfold in_flight, hand. cbn. rewrite !elem_of_app, Hperm, !elem_of_cons. tauto.
  - case_bool_decide; [|done]. intros [= <-]. split_and!; [|cbn; lia|].
    + split; [done|]. cbn in *. apply Forall_cons in Hd as [? ?]. apply Forall_app. split; [done|by constructor].
    + apply no_loss_same. intros x. unfold in_flight, hand. cbn. set_solver.
  - case_bool_decide as Hn; [done|]. destruct c.
    + case_bool_decide; [done|]. intros [= <-]. split_and!; [|cbn; lia|by apply no_loss_same].
      split; [done|]. cbn in *. apply (due_later _ now); [lia|done].
    + destruct up as [|item rest]; [done|]. destruct (update h item) as [h'|] eqn:Eu; [|done]. cbn [mbind option_bind]. intros [= <-].
      destruct (update_no_loss h item h' Hh Eu) as (Hh'&Hkeep&Hfrom). split_and!; [|cbn; lia|].
      * split; [done|]. cbn in *. apply (due_later _ now); [lia|done].
      * unfold no_loss, in_flight, hand. cbn [heap targetChannel updateChannel running]. split.
        -- intros it. rewrite !elem_of_app, elem_of_cons.
           assert (it = item ∨ it ∈ data h → ∃ it', it' ∈ rest ++ data h' ++ [] ++ tg ∧ serves it' it) as Hu.
           { intros Hit. destruct (Hkeep it Hit) as (y&Hy&?). exists y. split; [|done]. rewrite !elem_of_app. auto. }
           intros [[?|?]|[?|[?|?]]]; [apply Hu; by left| |apply Hu; by right| |];
             (exists it; split; [rewrite !elem_of_app; auto|apply serves_refl]).
        -- intros it. rewrite !elem_of_app, elem_of_cons. intros [?|[Hit|[?|?]]]; [auto| |auto|auto]. destruct (Hfrom it Hit); auto.
Qed.

(** ** Waiting *)

(** Both channels are full and [run] is at a send. *)
Definition full d : Prop :=
  hand d ≠ [] ∧ targetChannelCapacity ≤ length (targetChannel d) ∧
  delayingDelivererUpdateChanCapacity ≤ length (updateChannel d).

Lemma full_blocks d : full d → (∀ time c, tick time c d = None) ∧ ∀ it, DeliverAt it d = None.
Proof.
  intros (Hh&Ht&Hu). split.
  - intros time c. unfold tick, hand in *. destruct (running d); try done. by rewrite bool_decide_eq_false_2 by lia.
  - intros it. unfold DeliverAt. by rewrite bool_decide_eq_false_2 by lia.
Qed.

(** A sender waits for ever only when the deliverer is full. *)
Lemma DeliverAt_waits it d : deliverer_ok d → DeliverAt it d = None → full d ∨ ∃ time c d', tick time c d = Some d'.
Proof.
  intros [Hh Hd]. unfold DeliverAt, full, tick, hand. case_bool_decide as Hl; [done|]. intros _.
  destruct (running d) as [now|now item|now].
  - right. exists 0%Z, TimeAfter. destruct (data (heap d)) as [|top l] eqn:Eh; [eauto|]. case_bool_decide; [eauto|].
    destruct (Pop_spec (heap d) Hh) as (it'&h'&->&_); [by rewrite Eh|]. cbn. eauto.
  - case_bool_decide as Ht; [|left; split_and!; [done|lia|lia]]. right. exists 0%Z, TimeAfter. eauto.
  - right. destruct (updateChannel d) as [|item rest]; [cbn in Hl; unfold delayingDelivererUpdateChanCapacity in Hl; lia|].
    destruct (update_run (heap d) item Hh) as (h'&E&_). exists now, UpdateChannel.
    rewrite bool_decide_eq_false_2 by lia. rewrite E. cbn. eauto.
Qed.

(** With room in the target channel, the loop of [deliver] runs through. *)
Definition tick_step d d' : Prop := ∃ time c, tick time c d = Some d'.

Lemma deliver_ticks fuel now h h' items tg up :
  Len h ≤ fuel → deliver fuel now h = Some (items, h') → length tg + length items ≤ targetChannelCapacity →
  inv h → rtc tick_step (mkDeliverer tg h up (Delivering now)) (mkDeliverer (tg ++ items) h' up (Selecting now)).
Proof.
  revert h tg items. induction fuel as [|fuel IH]; intros h tg items Hl E Hc Hi; cbn [deliver] in E.
  { injection E as <- <-. rewrite app_nil_r. apply rtc_once. exists now, TimeAfter. unfold tick. cbn.
    unfold Len in Hl. by destruct (data h); [|cbn in Hl; lia]. }
  destruct (data h) as [|top l] eqn:Eh.
  { injection E as <- <-. rewrite app_nil_r. apply rtc_once. exists now, TimeAfter. unfold tick. cbn. by rewrite Eh. }
  case_bool_decide as Ht.
  { injection E as <- <-. rewrite app_nil_r. apply rtc_once. exists now, TimeAfter. unfold tick. cbn.
    by rewrite Eh, bool_decide_eq_true_2. }
  destruct (Pop_spec h Hi) as (it&h1&Ep&Hi1&Hperm&_); [by rewrite Eh|]. rewrite Ep in E. cbn [mbind option_bind] in E.
  destruct (deliver fuel now h1) as [[items' h2]|] eqn:Ed; [|done]. cbn [mbind option_bind] in E. injection E as <- <-. cbn in Hc.
  eapply rtc_l; [exists now, TimeAfter; unfold tick; cbn; rewrite Eh, bool_decide_eq_false_2, Ep by done; cbn; reflexivity|].
  eapply rtc_l; [exists now, TimeAfter; unfold tick; cbn; rewrite bool_decide_eq_true_2 by lia; reflexivity|].
  replace (tg ++ it :: items') with ((tg ++ [it]) ++ items') by (by rewrite <-app_assoc).
  apply IH; [|done|rewrite length_app; cbn; lia|done].
  unfold Len in *. apply Permutation_length in Hperm. cbn in Hperm. lia.
Qed.
End deliverer.

(** ** Runs *)

(** What happens to a deliverer: a sender puts a request in, the handler takes an item, or
    [run] goes on, at some time. *)
Inductive move (V : Type) := Put (it : Item V) | Take | Tick (time : Z) (c : select_case).
Arguments Put {V} it.
Arguments Take {V}.
Arguments Tick {V} time c.

Section runs.
Context {V : Type}.
Implicit Types (d : DelayingDeliverer V) (it : Item V) (m : move V).

(** [run] wakes up although nothing is pending: the hour of [nextWakeUp] is over. *)
Definition idle m d : bool :=
  match m, running d, data (heap d) with Tick _ TimeAfter, Selecting _, [] => true | _, _, _ => false end.
Definition put m : list (Item V) := match m with Put it => [it] | _ => [] end.

(** The items taken by a move, with the clock of [run], and what is left. *)
Definition move_step m d : option (list (Item V * Z) * DelayingDeliverer V) :=
  match m with
  | Put it => d' ← DeliverAt it d; Some ([], d')
  | Take => '(it, d') ← Receive d; Some ([(it, clock d)], d')
  | Tick time c => d' ← tick time c d; Some ([], d')
  end.

(** A run: what was taken, how often [run] woke up for nothing, and what is left. *)
Fixpoint moves (ms : list (move V)) d : option (list (Item V * Z) * nat * DelayingDeliverer V) :=
  match ms with
  | [] => Some ([], 0, d)
  | m :: ms =>
      '(l, d1) ← move_step m d;
      '(l', n, d2) ← moves ms d1;
      Some (l ++ l', (if idle m d then 1 else 0) + n, d2)
  end.

(** How many moves are left at most, when nothing else is put in. *)
Definition potential d : nat :=
  9 * length (updateChannel d) + 5 * Len (heap d) + 5 * length (hand d) + length (targetChannel d) +
  match running d, data (heap d) with
  | Delivering now, top :: _ => if bool_decide (now < DeliveryTime top)%Z then 3 else 1
  | Delivering _, [] => 1
  | Sending _ _, _ => 0
  | Selecting _, _ :: _ => 2
  | Selecting _, [] => 0
  end.

Lemma update_length (h : delivererHeap V) item h' : inv h → update h item = Some h' → Len h' ≤ S (Len h).
Proof.
  intros Hi E. destruct (update_no_loss h item h' Hi E) as (Hi'&_&Hfrom).
  apply (submseteq_length (data h') (item :: data h)), NoDup_submseteq.
  - eapply NoDup_fmap_1, inv_keys, Hi'.
  - intros x Hx. apply elem_of_cons. by apply Hfrom.
Qed.

Lemma delivering_potential now (h : delivererHeap V) :
  match data h with top :: _ => if bool_decide (now < DeliveryTime top)%Z then 3 else 1 | [] => 1 end ≤ 3.
Proof. destruct (data h); [lia|]. case_bool_decide; lia. Qed.

Lemma tick_potential time c d d' : deliverer_ok d → tick time c d = Some d' →
  S (potential d') ≤ potential d + if idle (Tick time c) d then 2 else 0.
Proof.
  destruct d as [tg h up [now|now item|now]]; intros [Hh _]; unfold tick, potential, idle, hand; cbn [running heap targetChannel updateChannel] in *.
  - destruct (data h) as [|top l] eqn:Eh; [|case_bool_decide as Ht].
    + intros [= <-]. cbn. rewrite Eh. cbn. lia.
    + intros [= <-]. cbn. rewrite Eh. cbn. lia.
    + destruct (Pop_spec h Hh) as (it&h'&->&_&Hperm&_); [by rewrite Eh|]. cbn [mbind option_bind]. intros [= <-].
      apply Permutation_length in Hperm. unfold Len in *. cbn in *. lia.
  - case_bool_decide; [|done]. intros [= <-]. cbn. rewrite length_app. cbn.
    pose proof (delivering_potential now h). lia.
  - case_bool_decide; [done|]. destruct c.
    + unfold nextWakeUp. case_bool_decide as Ht; [done|]. intros [= <-]. cbn.
      destruct (data h) as [|top l]; cbn; [lia|]. rewrite bool_decide_eq_false_2 by done. lia.
    + destruct up as [|item rest]; [done|]. destruct (update h item) as [h'|] eqn:Eu; [|done]. cbn [mbind option_bind]. intros [= <-].
      cbn. pose proof (update_length h item h' Hh Eu). pose proof (delivering_potential time h'). destruct (data h); lia.
Qed.

(** One move: what it does with the requests, and how much nearer the end is. *)
Record moved m d l d' : Prop := {
  moved_ok : deliverer_ok d';
  moved_kept : ∀ it, it ∈ put m ++ in_flight d →
    ∃ it', serves it' it ∧ (it' ∈ l.*1 ∨ it' ∈ in_flight d');
  moved_from : ∀ it, it ∈ l.*1 ∨ it ∈ in_flight d' → it ∈ put m ++ in_flight d;
  moved_due : Forall (λ p, DeliveryTime p.1 ≤ p.2)%Z l;
  moved_potential : S (potential d') ≤ potential d + 10 * length (put m) + if idle m d then 2 else 0
}.
Lemma move_moved m d l d' : deliverer_ok d → move_step m d = Some (l, d') → moved m d l d'.
Proof.
  intros Hok. destruct m as [it| |time c]; cbn [move_step].
  - destruct (DeliverAt it d) as [d1|] eqn:E; [|done]. cbn. intros [= <- <-].
    destruct (DeliverAt_spec it d d1 Hok E) as (Hok1&_&Hin). split; cbn [put idle]; try done.
    + intros x Hx. exists x. split; [apply serves_refl|right]. apply Hin. set_solver.
    + intros x [Hx|Hx]; [by apply not_elem_of_nil in Hx|]. apply Hin in Hx. set_solver.
    + unfold DeliverAt in E. case_bool_decide; [|done]. injection E as <-. unfold potential, hand. cbn. rewrite length_app. cbn. lia.
  - destruct (Receive d) as [[x d1]|] eqn:E; [|done]. cbn. intros [= <- <-].
    destruct (Receive_spec x d d1 Hok E) as (Hok1&_&Hdue&Hin). split; cbn [put idle]; try done.
    + intros y Hy%Hin. exists y. split; [apply serves_refl|]. cbn. set_solver.
    + intros y Hy. apply Hin. cbn in Hy. set_solver.
    + constructor; [exact Hdue|constructor].
    + unfold Receive in E. unfold potential, hand. destruct (targetChannel d) as [|y rest]; [done|]. injection E as -> <-. cbn. lia.
  - destruct (tick time c d) as [d1|] eqn:E; [|done]. cbn [mbind option_bind]. intros [= <- <-].
    destruct (tick_spec time c d d1 Hok E) as (Hok1&_&[Hkeep Hback]). split; cbn [put]; try done.
    + intros x (y&Hy&Hs)%Hkeep. exists y. auto.
    + intros x [Hx|Hx]; [by apply not_elem_of_nil in Hx|]. by apply Hback.
    + pose proof (tick_potential time c d d1 Hok E). cbn [length]. lia.
Qed.

Lemma kept_trans (p ps a a1 a2 t1 t2 : list (Item V)) :
  (∀ it, it ∈ p ++ a → ∃ it', serves it' it ∧ (it' ∈ t1 ∨ it' ∈ a1)) →
  (∀ it, it ∈ ps ++ a1 → ∃ it', serves it' it ∧ (it' ∈ t2 ∨ it' ∈ a2)) →
  ∀ it, it ∈ p ++ ps ++ a → ∃ it', serves it' it ∧ (it' ∈ t1 ++ t2 ∨ it' ∈ a2).
Proof.
  intros H1 H2 it Hit.
  assert (∀ x, serves x it → x ∈ ps ∨ x ∈ a1 → ∃ it', serves it' it ∧ (it' ∈ t1 ++ t2 ∨ it' ∈ a2)) as Hnext.
  { intros x Hs Hx%elem_of_app. destruct (H2 x Hx) as (y&?&?). exists y. split; [by eapply serves_trans|set_solver]. }
  rewrite !elem_of_app in Hit. destruct Hit as [Hit|[Hit|Hit]].
  2: apply (Hnext it (serves_refl it)); by left.
  all: destruct (H1 it) as (x&Hs&[Hx|Hx]); [set_solver|exists x; set_solver|apply (Hnext x Hs); by right].
Qed.

(** A whole run. *)
Lemma moves_moved ms d l n d' : deliverer_ok d → moves ms d = Some (l, n, d') →
  deliverer_ok d' ∧
  (∀ it, it ∈ concat (put <$> ms) ++ in_flight d → ∃ it', serves it' it ∧ (it' ∈ l.*1 ∨ it' ∈ in_flight d')) ∧
  (∀ it, it ∈ l.*1 ∨ it ∈ in_flight d' → it ∈ concat (put <$> ms) ++ in_flight d) ∧
  Forall (λ p, DeliveryTime p.1 ≤ p.2)%Z l ∧
  length ms + potential d' ≤ potential d + 10 * length (concat (put <$> ms)) + 2 * n.
Proof.
  revert d l n. induction ms as [|m ms IH]; intros d l n Hok; cbn [moves].
  { intros [= <- <- <-]. cbn. split_and!; [done| | |constructor|lia].
    - intros it Hit. exists it. split; [apply serves_refl|by right].
    - intros it [Hit|Hit]; [by apply not_elem_of_nil in Hit|done]. }
  destruct (move_step m d) as [[l1 d1]|] eqn:E; [|done]. cbn [mbind option_bind].
  destruct (moves ms d1) as [[[l2 n2] d2]|] eqn:Em; [|done]. cbn [mbind option_bind]. intros [= <- <- <-].
  destruct (move_moved m d l1 d1 Hok E) as [Hok1 Hk Hf Hd Hp]. destruct (IH d1 l2 n2 Hok1 Em) as (Hok2&Hk2&Hf2&Hd2&Hp2).
  change (concat (put <$> m :: ms)) with (put m ++ concat (put <$> ms)). split_and!; [done| | |by apply Forall_app|].
  - rewrite <-app_assoc, fmap_app. by apply (kept_trans _ _ _ (in_flight d1)).
  - rewrite <-app_assoc, fmap_app. intros it. rewrite !elem_of_app. pose proof (Hf it) as H1. pose proof (Hf2 it) as H2.
    rewrite elem_of_app in H1, H2. tauto.
  - rewrite length_app. cbn [length]. destruct (idle m d); lia.
Qed.

(** While something is in flight, the handler can take an item, or [run] can go on and not
    for nothing, at any time that the clock may show when everything is due. *)
Lemma move_possible d t : deliverer_ok d → in_flight d ≠ [] →
  (clock d ≤ t)%Z → Forall (λ it, DeliveryTime it ≤ t)%Z (data (heap d)) →
  ∃ m l d', m ∈ [Take; Tick t TimeAfter; Tick t UpdateChannel] ∧ idle m d = false ∧ move_step m d = Some (l, d').
Proof.
  assert (∀ c, (Tick t c : move V) ∈ [Take; Tick t TimeAfter; Tick t UpdateChannel]) as Htick by (intros []; rewrite !elem_of_cons; auto).
  intros [Hi _] Hne Hc Hdue. destruct (targetChannel d) as [|x tg] eqn:Etg.
  2:{ eexists Take, _, _. split_and!; [apply list_elem_of_here|done|]. cbn. unfold Receive. by rewrite Etg. }
  assert (∀ c d', tick t c d = Some d' → idle (Tick t c) d = false →
    ∃ m l d', m ∈ [Take; Tick t TimeAfter; Tick t UpdateChannel] ∧ idle m d = false ∧ move_step m d = Some (l, d')) as Hgo.
  { intros c d' E Hidle. exists (Tick t c), [], d'. split_and!; [apply Htick|done|]. cbn. by rewrite E. }
  clear Htick. destruct d as [tg h up [now|now item|now]]; cbn [targetChannel heap clock running] in *; subst tg.
  - destruct (data h) as [|top l] eqn:Eh; [|destruct (decide (now < DeliveryTime top)%Z) as [Hd|Hd]].
    + apply (Hgo TimeAfter (mkDeliverer [] h up (Selecting now))); [|done]. unfold tick. cbn. by rewrite Eh.
    + apply (Hgo TimeAfter (mkDeliverer [] h up (Selecting now))); [|done]. unfold tick. cbn. by rewrite Eh, bool_decide_eq_true_2.
    + destruct (Pop_spec h Hi) as (it&h1&Ep&_); [by rewrite Eh|].
      apply (Hgo TimeAfter (mkDeliverer [] h1 up (Sending now it))); [|done].
      unfold tick. cbn. by rewrite Eh, bool_decide_eq_false_2, Ep.
  - by apply (Hgo TimeAfter (mkDeliverer [item] h up (Delivering now))).
  - destruct up as [|item rest].
    + destruct (data h) as [|top l] eqn:Eh; [unfold in_flight, hand in Hne; cbn in Hne; by rewrite Eh in Hne|].
      apply Forall_cons in Hdue as [Htop _]. apply (Hgo TimeAfter (mkDeliverer [] h [] (Delivering t))).
      * unfold tick, nextWakeUp. cbn. by rewrite Eh, !bool_decide_eq_false_2 by lia.
      * unfold idle. cbn. by rewrite Eh.
    + destruct (update_run h item Hi) as (h1&Eu&_).
      apply (Hgo UpdateChannel (mkDeliverer [] h1 rest (Delivering t))); [|done].
      unfold tick. cbn. by rewrite bool_decide_eq_false_2, Eu by lia.
Qed.
End runs.

(** ** Properties *)

(** C33: the deliverer is live, however its senders, its handler, the goroutine [run] with its
    [select], the clock and the full channels go on.  In every run, each request that was
    under way or has been put in is served by an item that was taken, or by one that is
    still under way; what was taken had been asked for, and was due by the clock of [run].
    The run cannot go on for ever without that: the number of moves is bounded by what is
    under way at the start, what is put in, and how often [run] woke up with nothing
    pending.  And while something is under way, a move that is not such a wake-up is
    possible, at any time from which everything pending is due. *)
Theorem deliverer_live {V : Type} (ms : list (move V)) (d d' : DelayingDeliverer V) (l : list (Item V * Z)) (n : nat) :
  deliverer_ok d → moves ms d = Some (l, n, d') →
  (∀ it, it ∈ concat (put <$> ms) ++ in_flight d → ∃ it', serves it' it ∧ (it' ∈ l.*1 ∨ it' ∈ in_flight d')) ∧
  (∀ it t, (it, t) ∈ l → it ∈ concat (put <$> ms) ++ in_flight d ∧ (DeliveryTime it ≤ t)%Z) ∧
  length ms ≤ 9 * length (in_flight d) + 3 + 10 * length (concat (put <$> ms)) + 2 * n ∧
  (in_flight d' ≠ [] → ∀ t, (clock d' ≤ t)%Z → Forall (λ it, DeliveryTime it ≤ t)%Z (data (heap d')) →
    ∃ m l1 d1, m ∈ [Take; Tick t TimeAfter; Tick t UpdateChannel] ∧ idle m d' = false ∧ move_step m d' = Some (l1, d1)).
Proof.
  intros Hok Hr. destruct (moves_moved ms d l n d' Hok Hr) as (Hok'&Hk&Hf&Hd&Hp). split_and!.
  - exact Hk.
  - intros it t Hit. split; [|by rewrite Forall_forall in Hd; apply (Hd (it, t))].
    apply Hf. left. apply list_elem_of_fmap. by exists (it, t).
  - enough (potential d ≤ 9 * length (in_flight d) + 3) by lia. unfold potential, in_flight, Len. rewrite !length_app.
    destruct (running d), (data (heap d)); try case_bool_decide; cbn; lia.
  - intros Hne t Hc Hdue. by apply move_possible.
Qed.

Module ChannelsExamples.
(** Two requests for a key, the later first, and one for another. *)
Definition busy : DelayingDeliverer nat :=
  mkDeliverer [mkItem "c" 0 1] empty_heap [mkItem "a" 1 9; mkItem "b" 2 5; mkItem "a" 3 4] (Selecting 2).
Lemma busy_ok : deliverer_ok busy.
Proof. split; [apply empty_inv|]. cbn. constructor; [cbn; lia|constructor]. Qed.

(** One more request comes, and everything is taken, the earlier of the two for the key a. *)
Definition keep_taking : list (move nat) :=
  [Tick 2 UpdateChannel; Put (mkItem "c" 4 7); Tick 2 TimeAfter; Take; Tick 2 UpdateChannel; Tick 2 TimeAfter;
   Tick 3 UpdateChannel; Tick 3 TimeAfter; Tick 9 UpdateChannel] ++
  concat (replicate 3 [Tick 9 TimeAfter; Tick 9 TimeAfter; Take]).
Definition left_over : DelayingDeliverer nat := default busy (snd <$> moves keep_taking busy).
Definition taken : list (Item nat * Z) := default [] ((λ r, r.1.1) <$> moves keep_taking busy).
Example all_taken : ((λ p, (Value p.1, p.2)) <$> taken : list (nat * Z)) = [(0, 2%Z); (3, 9%Z); (2, 9%Z); (4, 9%Z)] ∧ in_flight left_over = [].
Proof. split; vm_compute; reflexivity. Qed.

Lemma deliverer_live_witness :
  (∀ it, it ∈ concat (put <$> keep_taking) ++ in_flight busy → ∃ it', serves it' it ∧ (it' ∈ taken.*1 ∨ it' ∈ in_flight left_over)) ∧
  length keep_taking ≤ 49.
Proof.
  destruct (deliverer_live keep_taking busy left_over taken 0 busy_ok) as (H1&_&H3&_).
  - vm_compute. reflexivity.
  - split; [exact H1|exact H3].
Defined.
End ChannelsExamples.
