(* ===== verification/IngressController.v ===== *)
(** The ingress controller, [pkg/controller/ingress/ingress_controller.go]: what it keeps,
    how it asks for another look at an object, and [reconcileIngress], which brings one
    ingress to the member clusters.

    The state has what the handlers read and write: the two federated informers and the
    store of federated ingresses (caches, which the reflectors fill), the two back-off
    managers, the requests sent to the three delivering queues, and [apis], the world
    behind the API servers.  Between two events a handler sees the caches as they are: an
    answer of an API server shows there only when a later event brings it.  A deep copy
    gives an equal value and no error; events for users and logging are left out. *)

From S2P Require Import Prelude GoStrings KubeTypes LbStatus ClusterSelector FedInformer Updater Deletion Backoff Deliverer.

Definition allClustersKey : string := ".ALL_CLUSTERS".
Definition globalIngressType : string := "kubernetes.io/ingress.global-type".
Definition staticIPNameKeyWritable : string := "kubernetes.io/ingress.global-static-ip-name".
Definition staticIPNameKeyReadonly : string := "ingress.kubernetes.io/static-ip".
Definition firstClusterAnnotation : string := "ingress.federation.kubernetes.io/first-cluster".

Definition Second : Z := 1000000000.
Definition ingressReviewDelay : Z := 10 * Second.
Definition configMapReviewDelay : Z := 10 * Second.
Definition clusterAvailableDelay : Z := 5 * Second.
Definition clusterUnavailableDelay : Z := 5 * Second.
Definition smallDelay : Z := 3 * Second.

(** The API servers of the federation and of its members, and the clock. *)
Class Kubernetes (W : Type) := {
  Clientset : Type;
  clientFactory : Cluster → result Clientset;
  Now : M W Z;
  Ingresses_Update : Ingress → M W (result Ingress);
  Ingresses_UpdateStatus : Ingress → M W (result Ingress);
  Ingresses_Delete : string → string → M W (option error);
  Clusters_Update : Cluster → M W (result Cluster);
  member_create_ingress : Clientset → Ingress → M W (option error);
  member_update_ingress : Clientset → Ingress → M W (option error);
  member_delete_ingress : Clientset → Ingress → M W (option error);
  member_create_configmap : Clientset → ConfigMap → M W (option error);
  member_update_configmap : Clientset → ConfigMap → M W (option error);
  member_delete_configmap : Clientset → ConfigMap → M W (option error)
}.

(** [IngressController]. *)
Record IngressController (W : Type) := mkIC {
  ingressInformerStore : Store Ingress;
  ingressFederatedInformer : federatedInformerImpl Ingress;
  configMapFederatedInformer : federatedInformerImpl ConfigMap;
  ingressBackoff : Backoff;
  configMapBackoff : Backoff;
  ingressDeliverer : list (Item NamespacedName);
  clusterDeliverer : list (Item unit);
  configMapDeliverer : list (Item unit);
  apis : W
}.
Arguments mkIC {W} _ _ _ _ _ _ _ _ _.
Arguments ingressInformerStore {W} _.
Arguments ingressFederatedInformer {W} _.
Arguments configMapFederatedInformer {W} _.
Arguments ingressBackoff {W} _.
Arguments configMapBackoff {W} _.
Arguments ingressDeliverer {W} _.
Arguments clusterDeliverer {W} _.
Arguments configMapDeliverer {W} _.
Arguments apis {W} _.

Section setters.
Context {W : Type}.
Implicit Types ic : IngressController W.
Definition set_apis w ic : IngressController W :=
  mkIC (ingressInformerStore ic) (ingressFederatedInformer ic) (configMapFederatedInformer ic) (ingressBackoff ic)
    (configMapBackoff ic) (ingressDeliverer ic) (clusterDeliverer ic) (configMapDeliverer ic) w.
Definition set_ingressBackoff b ic : IngressController W :=
  mkIC (ingressInformerStore ic) (ingressFederatedInformer ic) (configMapFederatedInformer ic) b
    (configMapBackoff ic) (ingressDeliverer ic) (clusterDeliverer ic) (configMapDeliverer ic) (apis ic).
Definition set_configMapBackoff b ic : IngressController W :=
  mkIC (ingressInformerStore ic) (ingressFederatedInformer ic) (configMapFederatedInformer ic) (ingressBackoff ic)
    b (ingressDeliverer ic) (clusterDeliverer ic) (configMapDeliverer ic) (apis ic).
Definition set_configMapFederatedInformer i ic : IngressController W :=
  mkIC (ingressInformerStore ic) (ingressFederatedInformer ic) i (ingressBackoff ic)
    (configMapBackoff ic) (ingressDeliverer ic) (clusterDeliverer ic) (configMapDeliverer ic) (apis ic).
Definition request_ingress it ic : IngressController W :=
  mkIC (ingressInformerStore ic) (ingressFederatedInformer ic) (configMapFederatedInformer ic) (ingressBackoff ic)
    (configMapBackoff ic) (ingressDeliverer ic ++ [it]) (clusterDeliverer ic) (configMapDeliverer ic) (apis ic).
Definition request_cluster it ic : IngressController W :=
  mkIC (ingressInformerStore ic) (ingressFederatedInformer ic) (configMapFederatedInformer ic) (ingressBackoff ic)
    (configMapBackoff ic) (ingressDeliverer ic) (clusterDeliverer ic ++ [it]) (configMapDeliverer ic) (apis ic).
Definition request_configmap it ic : IngressController W :=
  mkIC (ingressInformerStore ic) (ingressFederatedInformer ic) (configMapFederatedInformer ic) (ingressBackoff ic)
    (configMapBackoff ic) (ingressDeliverer ic) (clusterDeliverer ic) (configMapDeliverer ic ++ [it]) (apis ic).
End setters.

#[export] Instance ingress_accessor : Accessor Ingress := {|
  GetFinalizers i := Finalizers (ing_meta i);
  SetFinalizers l i := ing_with_meta (with_finalizers l (ing_meta i)) i;
  Get_SetFinalizers l i := eq_refl
|}.

(** [cache.MetaNamespaceKeyFunc]. *)
Definition MetaNamespaceKeyFunc (i : Ingress) : string :=
  let m := ing_meta i in
  if bool_decide (Namespace m = "") then Name m else Namespace m +:+ "/" +:+ Name m.

(** A new [Ingress] with this metadata and specification. *)
Definition new_ingress (m : ObjectMeta) (s : IngressSpec) : Ingress := mkIngress m s (mkLBS []).

(** The metadata of an update: that of the cluster's ingress, with the annotations and
    labels of the federated one merged onto it. *)
Definition merged_meta (base cluster : ObjectMeta) : ObjectMeta :=
  with_labels (map_merge (Labels base) (map_make (Labels cluster)))
    (with_annotations (map_merge (Annotations base) (map_make (Annotations cluster))) cluster).

(** An ingress with one annotation set, on a map made when there is none. *)
Definition annotate (ingress : Ingress) (key value : string) : Ingress :=
  let meta := ing_meta ingress in
  ing_with_meta (with_annotations (Some (<[key := value]> (default ∅ (Annotations meta)))) meta) ingress.

Section controller.
Context `{Kubernetes W, GoMapOrder, Schedule}.
Abbreviation IC := (IngressController W).

(** A call of an API server. *)
Definition call {A} (m : M W A) : M IC A := zoom apis set_apis m.

(** [DeliverAfter] of the three queues. *)
Definition ingress_DeliverAfter (key : string) (value : NamespacedName) (delay : Z) : M IC unit :=
  t ← call Now; modify (request_ingress (mkItem key value (t + delay)%Z)).
Definition cluster_DeliverAfter (key : string) (delay : Z) : M IC unit :=
  t ← call Now; modify (request_cluster (mkItem key tt (t + delay)%Z)).
Definition configmap_DeliverAfter (key : string) (delay : Z) : M IC unit :=
  t ← call Now; modify (request_configmap (mkItem key tt (t + delay)%Z)).

(** [deliverIngress]. *)
Definition deliverIngress (ingress : NamespacedName) (delay : Z) (failed : bool) : M IC unit :=
  let key := nn_string ingress in
  delay ← (if failed then
             eventTime ← call Now;
             now ← call Now;
             modify (λ ic, set_ingressBackoff (Next key eventTime now (ingressBackoff ic)) ic) ≫= λ _,
             gets (λ ic, wrap64 (delay + Get key (ingressBackoff ic)))%Z
           else
             modify (λ ic, set_ingressBackoff (Reset key (ingressBackoff ic)) ic) ≫= λ _,
             mret delay);
  ingress_DeliverAfter key ingress delay.
Definition deliverIngressObj (obj : Ingress) (delay : Z) (failed : bool) : M IC unit :=
  deliverIngress (nn_of_meta (ing_meta obj)) delay failed.

(** [deliverConfigMap]. *)
Definition deliverConfigMap (cluster : string) (delay : Z) (failed : bool) : M IC unit :=
  delay ← (if failed then
             eventTime ← call Now;
             now ← call Now;
             modify (λ ic, set_configMapBackoff (Next cluster eventTime now (configMapBackoff ic)) ic) ≫= λ _,
             gets (λ ic, wrap64 (delay + Get cluster (configMapBackoff ic)))%Z
           else
             modify (λ ic, set_configMapBackoff (Reset cluster (configMapBackoff ic)) ic) ≫= λ _,
             mret delay);
  configmap_DeliverAfter cluster delay.

(** [isSynced]. *)
Definition informer_synced {Obj} (f : federatedInformerImpl Obj) : bool :=
  ClustersSynced f &&
  match GetReadyClusters f with
  | Ok clusters => Store_ClustersSynced clusters f
  | Err _ => false
  end.
Definition isSynced (ic : IC) : bool :=
  informer_synced (ingressFederatedInformer ic) && informer_synced (configMapFederatedInformer ic).

(** [reconcileIngressesOnClusterChange]: it goes on when the stores are not synced. *)
Definition reconcileIngressesOnClusterChange (clusterName : string) : M IC unit :=
  ic ← get;
  (if negb (isSynced ic) then cluster_DeliverAfter clusterName clusterAvailableDelay else mret tt) ≫= λ _,
  for_each (range_order (ingressInformerStore ic)).*2 (λ obj,
    match obj with
    | Typed ingress => deliverIngress (nn_of_meta (ing_meta ingress)) smallDelay false
    | OtherItem => go_panic "interface conversion"
    end).

(** [isClusterReady]. *)
Definition isClusterReady (clusterName : string) (ic : IC) : bool :=
  match GetReadyCluster clusterName (ingressFederatedInformer ic) with
  | Ok (Some _) => true
  | _ => false
  end.

(** [updateAnnotationOnIngress]. *)
Definition updateAnnotationOnIngress (ingress : Ingress) (key value : string) : M IC unit :=
  let ingress := annotate ingress key value in
  let ingressName := nn_of_meta (ing_meta ingress) in
  r ← call (Ingresses_Update ingress);
  match r with
  | Err _ => deliverIngress ingressName ingressReviewDelay true
  | Ok _ => deliverIngress ingressName smallDelay false
  end.

(** [federatedIngressUpdater] and the deletion helper made with it. *)
Definition federatedIngressUpdater (ic : IC) : FederatedUpdater W Ingress :=
  NewFederatedUpdater (λ c, GetClientsetForCluster clientFactory c (ingressFederatedInformer ic))
    member_create_ingress member_update_ingress member_delete_ingress.
Definition objName (i : Ingress) : string := Namespace (ing_meta i) +:+ "/" +:+ Name (ing_meta i).

(** [delete]. *)
Definition delete_ingress (ingress : Ingress) : M IC (option error) :=
  ic ← get;
  r ← call (HandleObjectInUnderlyingClusters Ingresses_Update objName MetaNamespaceKeyFunc
              (ingressFederatedInformer ic) (federatedIngressUpdater ic) ingress);
  match r with
  | Err err => mret (Some err)
  | Ok _ =>
      err ← call (Ingresses_Delete (Namespace (ing_meta ingress)) (Name (ing_meta ingress)));
      mret (e ← err;
            if IsNotFound e then None else Some (Errorf ("failed to delete ingress: " +:+ error_string e)))
  end.

(** ** [reconcileIngress] *)

(** What the loop over the clusters collects: the operations, and the load balancer status
    of every cluster that has one. *)
Definition plan : Type := list (FederatedOperation Ingress) * gmap string (list LoadBalancerStatus).

(** The loop goes on with [continue], or the function returns after [exit]. *)
Definition continue (p : plan) : M IC (plan + unit) := mret (inl p).
Definition exit (m : M IC unit) : M IC (plan + unit) := m ≫= λ _, mret (inr tt).

(** [case !clusterIngressFound && send]. *)
Definition plan_create (ingress : NamespacedName) (baseIngress : Ingress) (cluster : Cluster) (p : plan) :
    M IC (plan + unit) :=
  let annotations := Annotations (ing_meta baseIngress) in
  let baseIPAnnotationExists := bool_decide (is_Some (map_get annotations staticIPNameKeyWritable)) in
  let baseGlobalTypeExists := bool_decide (is_Some (map_get annotations globalIngressType)) in
  let firstClusterExists := bool_decide (is_Some (map_get annotations firstClusterAnnotation)) in
  let firstClusterName := map_get_str annotations firstClusterAnnotation in
  let desiredIngress := new_ingress (DeepCopyRelevantObjectMeta (ing_meta baseIngress)) (ing_spec baseIngress) in
  ic ← get;
  let haveFirstCluster := firstClusterExists && bool_decide (firstClusterName ≠ "") && isClusterReady firstClusterName ic in
  if negb haveFirstCluster then
    exit (updateAnnotationOnIngress baseIngress firstClusterAnnotation (cl_name cluster))
  else if baseIPAnnotationExists || negb baseGlobalTypeExists || bool_decide (firstClusterName = cl_name cluster) then
    continue (p.1 ++ [mkOp OperationTypeAdd (cl_name cluster) desiredIngress (nn_string ingress)], p.2)
  else continue p.

(** The transfer of a load balancer status to the federated ingress. *)
Definition copy_status (ingress : NamespacedName) (baseIngress : Ingress) (lbstatus : LoadBalancerStatus) : M IC unit :=
  r ← call (Ingresses_UpdateStatus (ing_with_status lbstatus baseIngress));
  match r with
  | Err _ => deliverIngress ingress ingressReviewDelay true
  | Ok _ => deliverIngress ingress smallDelay false
  end.

(** [case clusterIngressFound && send]. *)
Definition plan_update (ingress : NamespacedName) (baseIngress : Ingress) (cluster : Cluster)
    (clusterIngress : Ingress) (p : plan) : M IC (plan + unit) :=
  let baseIPAnnotationExists := bool_decide (is_Some (map_get (Annotations (ing_meta baseIngress)) staticIPNameKeyWritable)) in
  let clusterIPNameExists := bool_decide (is_Some (map_get (Annotations (ing_meta clusterIngress)) staticIPNameKeyReadonly)) in
  let clusterIPName := map_get_str (Annotations (ing_meta clusterIngress)) staticIPNameKeyReadonly in
  let baseLBStatusExists := bool_decide (0 < length (LBIngress (ing_status baseIngress))) in
  let clusterLBStatusExists := bool_decide (0 < length (LBIngress (ing_status clusterIngress))) in
  if negb baseIPAnnotationExists && clusterIPNameExists then
    exit (updateAnnotationOnIngress baseIngress staticIPNameKeyWritable clusterIPName)
  else if negb baseLBStatusExists && clusterLBStatusExists then
    exit (copy_status ingress baseIngress (ing_status clusterIngress))
  else
    let globalLbStat :=
      if clusterLBStatusExists
      then <[cl_name cluster := default [] (p.2 !! cl_name cluster) ++ [ing_status clusterIngress]]> p.2
      else p.2 in
    if ObjectMetaAndSpecEquivalent baseIngress clusterIngress then continue (p.1, globalLbStat)
    else
      let desiredIngress :=
        new_ingress (merged_meta (ing_meta baseIngress) (ing_meta clusterIngress)) (ing_spec baseIngress) in
      continue (p.1 ++ [mkOp OperationTypeUpdate (cl_name cluster) desiredIngress (nn_string ingress)], globalLbStat).

(** The body of the loop. *)
Definition reconcile_cluster (ingress : NamespacedName) (baseIngress : Ingress) (p : plan) (cluster : Cluster) :
    M IC (plan + unit) :=
  ic ← get;
  let clusterIngressObj := GetByKey (cl_name cluster) (nn_string ingress) (ingressFederatedInformer ic) in
  match SendToCluster (Labels (cl_meta cluster)) (Annotations (ing_meta baseIngress)) with
  | Err _ => exit (mret tt)
  | Ok send =>
      match clusterIngressObj, send with
      | None, true => plan_create ingress baseIngress cluster p
      | Some _, false =>
          let desiredIngress := new_ingress (ing_meta baseIngress) (ing_spec baseIngress) in
          continue (p.1 ++ [mkOp OperationTypeDelete (cl_name cluster) desiredIngress (nn_string ingress)], p.2)
      | Some (Typed clusterIngress), true => plan_update ingress baseIngress cluster clusterIngress p
      | Some OtherItem, true => go_panic "interface conversion"
      | None, false => continue p
      end
  end.

(** After the loop. *)
Definition propagate (ingress : NamespacedName) (baseIngress : Ingress) (p : plan) : M IC unit :=
  let '(operations, globalLbStat) := p in
  let globalLbStatStr := BuildGlobalLbStatusAnnotation globalLbStat in
  match map_get (Annotations (ing_meta baseIngress)) globalIngressLBStatus with
  | Some baseGlobalLBStatus =>
      if bool_decide (globalLbStatStr ≠ baseGlobalLBStatus)
      then updateAnnotationOnIngress baseIngress globalIngressLBStatus globalLbStatStr
      else if bool_decide (length operations = 0) then mret tt
      else
        ic ← get;
        err ← call (fu_Update (FederatedUpdater := federatedIngressUpdater ic) operations);
        match err with
        | Some _ => deliverIngress ingress ingressReviewDelay true
        | None => deliverIngress ingress ingressReviewDelay false
        end
  | None => updateAnnotationOnIngress baseIngress globalIngressLBStatus globalLbStatStr
  end.

(** From the call of [GetReadyClusters] on. *)
Definition sync_clusters (ingress : NamespacedName) (baseIngress : Ingress) : M IC unit :=
  ic ← get;
  match GetReadyClusters (ingressFederatedInformer ic) with
  | Err _ => deliverIngress ingress clusterAvailableDelay false
  | Ok clusters =>
      r ← for_range clusters ([], ∅) (reconcile_cluster ingress baseIngress);
      match r with
      | inl p => propagate ingress baseIngress p
      | inr _ => mret tt
      end
  end.

Definition reconcileIngress (ingress : NamespacedName) : M IC unit :=
  ic ← get;
  if negb (isSynced ic) then deliverIngress ingress clusterAvailableDelay false
  else
    match ingressInformerStore ic !! nn_string ingress with
    | None => mret tt
    | Some OtherItem => go_panic "invalid memory address or nil pointer dereference"
    | Some (Typed baseIngress) =>
        if bool_decide (DeletionTimestamp (ing_meta baseIngress) ≠ None) then
          err ← delete_ingress baseIngress;
          match err with
          | Some _ => deliverIngress ingress 0 true
          | None => mret tt
          end
        else
          r ← call (EnsureFinalizers Ingresses_Update baseIngress);
          match r with
          | Err _ => deliverIngress ingress 0 true
          | Ok updatedIngress => sync_clusters ingress updatedIngress
          end
    end.
End controller.
