(* ===== verification/Federation.v ===== *)
(** The federated informer of [FedInformer.v] with its informers ([Informer.v]) inside: the
    informer on clusters, whose handlers start and stop an informer on the objects of every
    ready cluster, as [NewFederatedInformer], [addCluster] and [deleteCluster] of
    [federation-controller/util/federated_informer.go] put them together.

    [FedInformer.v] says what happens to its stores; here the events are what reflectors read
    and what the loops of the informers process, and [view] is what [FedInformer.v] sees. *)

From S2P Require Import Prelude GoStrings KubeTypes Handlers Informer FedInformer IngressController.

(** [clusterInformer] and [targetInformers]. *)
Record federation (Obj : Type) := mkFederation {
  clusterInformer : Informer.informer Cluster;
  targets : gmap string (Informer.informer Obj)
}.
Arguments mkFederation {Obj} _ _.
Arguments clusterInformer {Obj} _.
Arguments targets {Obj} _.

(** An operation of the informer on clusters or of a target informer. *)
Inductive fed_op (Obj : Type) := ClusterOp (o : op Cluster) | TargetOp (clusterName : string) (o : op Obj).
Arguments ClusterOp {Obj} o.
Arguments TargetOp {Obj} clusterName o.

(** What is called: a handler of the informer on clusters, a lifecycle function, or the handler of
    a target informer. *)
Inductive fed_call (Obj : Type) :=
  | Heard (n : notification Cluster)
  | Lifecycle (l : lifecycle)
  | Told (clusterName : string) (n : notification Obj).
Arguments Heard {Obj} n.
Arguments Lifecycle {Obj} l.
Arguments Told {Obj} clusterName n.

Section federation.
Context {Obj Client : Type} `{GoMapOrder} (keyFunc : Obj → string) (clientFactory : Cluster → result Client).
Implicit Types F : federation Obj.

Definition with_clusterInformer (i : Informer.informer Cluster) F : federation Obj := mkFederation i (targets F).
Definition with_targetInformers (t : gmap string (Informer.informer Obj)) F : federation Obj := mkFederation (clusterInformer F) t.

(** Its stores, and which of them have synced. *)
Definition view_target (i : Informer.informer Obj) : FedInformer.informer Obj :=
  mkInformer (Typed <$> clientState i) (Informer.HasSynced (fifo i)).
Definition view F : federatedInformerImpl Obj :=
  mkFedInformer (Typed <$> clientState (clusterInformer F)) (Informer.HasSynced (fifo (clusterInformer F)))
    (view_target <$> targets F).

(** [addCluster] and [deleteCluster]. *)
Definition start_target (cluster : Cluster) F : federation Obj :=
  match GetClientsetForCluster clientFactory (cl_name cluster) (view F) with
  | Ok _ => with_targetInformers (<[cl_name cluster := NewInformer]> (targets F)) F
  | Err _ => F
  end.
Definition stop_target (cluster : Cluster) F : federation Obj :=
  with_targetInformers (delete (cl_name cluster) (targets F)) F.

(** The handlers of the informer on clusters: [DeleteFunc], which heeds clusters only,
    [AddFunc] and [UpdateFunc]. *)
Definition on_cluster (n : notification Cluster) F : federation Obj * list lifecycle :=
  match n with
  | OnDelete (Object oldCluster) => (stop_target oldCluster F, [ClusterUnavailable oldCluster])
  | OnDelete (DeletedFinalStateUnknown _ _) => (F, [])
  | OnAdd curCluster =>
      if FedInformer.isClusterReady curCluster then (start_target curCluster F, [ClusterAvailable curCluster]) else (F, [])
  | OnUpdate oldCluster curCluster =>
      if cluster_changed oldCluster curCluster then
        let F1 := stop_target oldCluster F in
        if FedInformer.isClusterReady curCluster
        then (start_target curCluster F1, [ClusterUnavailable oldCluster; ClusterAvailable curCluster])
        else (F1, [ClusterUnavailable oldCluster])
      else (F, [])
  end.

(** [Process] of the informer on clusters: a delta changes the store, then the handler is
    called. *)
Fixpoint on_clusters (notes : list (notification Cluster)) F : federation Obj * list (fed_call Obj) :=
  match notes with
  | [] => (F, [])
  | n :: notes =>
      let '(F1, l) := on_cluster n F in
      let '(F2, calls) := on_clusters notes F1 in (F2, Heard n :: (Lifecycle <$> l) ++ calls)
  end.
Fixpoint process_clusters (ds : Deltas Cluster) F : federation Obj * list (fed_call Obj) :=
  match ds with
  | [] => (F, [])
  | d :: ds =>
      let i := clusterInformer F in
      let '(s, notes) := process_delta cl_name d (clientState i) in
      let '(F1, c1) := on_clusters notes (with_clusterInformer (mkInf s (fifo i)) F) in
      let '(F2, c2) := process_clusters ds F1 in (F2, c1 ++ c2)
  end.

(** One operation. *)
Definition fed_step (o : fed_op Obj) F : federation Obj * list (fed_call Obj) :=
  let i := clusterInformer F in
  match o with
  | ClusterOp ProcessOne =>
      let '(item, q) := Pop (fifo i) in
      let F1 := with_clusterInformer (mkInf (clientState i) q) F in
      match item with None => (F1, []) | Some ds => process_clusters ds F1 end
  | ClusterOp o => (with_clusterInformer (Informer.step cl_name o i).1 F, [])
  | TargetOp n o =>
      match targets F !! n with
      | None => (F, [])
      | Some t =>
          let '(t', notes) := Informer.step keyFunc o t in
          (with_targetInformers (<[n := t']> (targets F)) F, Told n <$> notes)
      end
  end.
Fixpoint fed_run (ops : list (fed_op Obj)) F : federation Obj * list (fed_call Obj) :=
  match ops with
  | [] => (F, [])
  | o :: ops => let '(F1, c1) := fed_step o F in let '(F2, c2) := fed_run ops F1 in (F2, c1 ++ c2)
  end.

(** [NewFederatedInformer]. *)
Definition NewFederation : federation Obj := mkFederation NewInformer ∅.

(** A reflector lists before it watches: an informer that has read nothing lists, or has
    nothing to process or to sync yet. *)
Definition idle_or_list {A} (o : op A) (i : Informer.informer A) : Prop :=
  populated (fifo i) = false → (∃ l, o = Relist l) ∨ o = ProcessOne ∨ o = ResyncTimer.
Definition lists_first (o : fed_op Obj) F : Prop :=
  match o with
  | ClusterOp o => idle_or_list o (clusterInformer F)
  | TargetOp n o => ∀ t, targets F !! n = Some t → idle_or_list o t
  end.
Fixpoint all_list_first (ops : list (fed_op Obj)) F : Prop :=
  match ops with [] => True | o :: ops => lists_first o F ∧ all_list_first ops (fed_step o F).1 end.
End federation.
Arguments NewFederation {Obj}.

(** ** The events that [FedInformer.v] sees *)

Section facts.
Context {Obj Client : Type} `{GoMapOrder} (keyFunc : Obj → string) (clientFactory : Cluster → result Client).
Implicit Types F : federation Obj.
Abbreviation fed_step := (fed_step keyFunc clientFactory).
Abbreviation fed_run := (fed_run keyFunc clientFactory).
Abbreviation events_run := (FedInformer.run clientFactory).

Definition event_of (n : notification Cluster) : event Obj :=
  match n with
  | OnAdd c => WatchAdd c
  | OnUpdate _ c => WatchUpdate c
  | OnDelete (Object c) => WatchDelete c
  | OnDelete (DeletedFinalStateUnknown k _) => WatchDeleteMissed k
  end.
Definition lifecycles (calls : list (fed_call Obj)) : list lifecycle :=
  omap (λ c, match c with Lifecycle l => Some l | _ => None end) calls.
Definition heard (calls : list (fed_call Obj)) : list (notification Cluster) :=
  omap (λ c, match c with Heard n => Some n | _ => None end) calls.
Definition told (n : string) (calls : list (fed_call Obj)) : list (notification Obj) :=
  omap (λ c, match c with Told n' x => if decide (n' = n) then Some x else None | _ => None end) calls.

(** All informers are well-formed. *)
Record federation_ok F : Prop := {
  ok_clusters : inf_ok cl_name (clusterInformer F);
  ok_targets : map_Forall (λ _ t, inf_ok keyFunc t) (targets F)
}.

Lemma events_run_app es1 es2 (f : federatedInformerImpl Obj) :
  events_run (es1 ++ es2) f =
    (let '(f1, l1) := events_run es1 f in let '(f2, l2) := events_run es2 f1 in (f2, l1 ++ l2)).
Proof.
  revert f. induction es1 as [|e es1 IH]; intros f; cbn [app FedInformer.run]; [by destruct (events_run es2 f)|].
  destruct (FedInformer.step clientFactory f e) as [f0 l0]. rewrite IH.
  destruct (events_run es1 f0) as [f1 l1]. destruct (events_run es2 f1) as [f2 l2]. by rewrite app_assoc.
Qed.

Lemma lifecycles_app l1 l2 : lifecycles (l1 ++ l2) = lifecycles l1 ++ lifecycles l2.
Proof. apply omap_app. Qed.
Lemma heard_app l1 l2 : heard (l1 ++ l2) = heard l1 ++ heard l2.
Proof. apply omap_app. Qed.
Lemma told_app n l1 l2 : told n (l1 ++ l2) = told n l1 ++ told n l2.
Proof. apply omap_app. Qed.
(** What one call of the handler of clusters brings. *)
Lemma heard_calls n l : lifecycles (Heard n :: (Lifecycle <$> l)) = l ∧ heard (Heard n :: (Lifecycle <$> l)) = [n] ∧
  ∀ m, told m (Heard n :: (Lifecycle <$> l)) = [].
Proof.
  unfold lifecycles, heard, told. cbn. split_and!.
  - induction l as [|x l IH]; cbn; [done|by rewrite IH].
  - f_equal. by induction l.
  - intros m. by induction l.
Qed.

Lemma view_start c F : view (start_target clientFactory c F) = addCluster clientFactory c (view F).
Proof.
  unfold start_target, addCluster. destruct (GetClientsetForCluster _ _ _); [|done].
  unfold view, with_targets, with_targetInformers. cbn. by rewrite fmap_insert.
Qed.
Lemma view_stop c F : view (stop_target c F) = deleteCluster c (view F).
Proof. unfold view, stop_target, deleteCluster, with_targets, with_targetInformers. cbn. by rewrite fmap_delete. Qed.

(** The handler of clusters, called after the store has changed, is a step on the stores. *)
Lemma on_cluster_view n (s : gmap string Cluster) F :
  fits cl_name n s → clientState (clusterInformer F) = learn cl_name n s →
  FedInformer.step clientFactory (with_clusters (Typed <$> s) (view F)) (event_of n) =
    (let '(F', l) := on_cluster clientFactory n F in (view F', l)).
Proof.
  intros Hfit Hs. assert (∀ g, with_clusters (Typed <$> clientState (clusterInformer F)) (with_clusters g (view F)) = view F) as Hv by done.
  rewrite Hs in Hv. destruct n as [c|old c|[c|k o]]; cbn [event_of FedInformer.step fits learn on_cluster] in *.
  - assert (clusterStore (with_clusters (Typed <$> s) (view F)) !! cl_name c = None) as -> by (cbn; by rewrite lookup_fmap, Hfit).
    cbn [clusterStore with_clusters]. rewrite <-fmap_insert, Hv. unfold onAdd.
    destruct (FedInformer.isClusterReady c); [by rewrite <-view_start|done].
  - assert (clusterStore (with_clusters (Typed <$> s) (view F)) !! cl_name c = Some (Typed old)) as -> by (cbn; by rewrite lookup_fmap, Hfit).
    cbn [clusterStore with_clusters]. rewrite <-fmap_insert, Hv. unfold onUpdate.
    destruct (cluster_changed old c); [|done]. cbv zeta. rewrite <-view_stop.
    destruct (FedInformer.isClusterReady c); [by rewrite <-view_start|done].
  - unfold onDelete. cbn [clusterStore with_clusters]. rewrite <-fmap_delete. cbn [KeyOf] in Hv. by rewrite Hv, <-view_stop.
  - cbn [clusterStore with_clusters]. rewrite <-fmap_delete. cbn [KeyOf] in Hv. by rewrite Hv.
Qed.

Lemma on_cluster_same n F : clusterInformer (on_cluster clientFactory n F).1 = clusterInformer F.
Proof.
  assert (∀ c (G : federation Obj), clusterInformer (start_target clientFactory c G) = clusterInformer G) as Hs.
  { intros c G. unfold start_target. by destruct (GetClientsetForCluster _ _ _). }
  destruct n as [c|old c|[c|k o]]; cbn; [| |done..].
  - by destruct (FedInformer.isClusterReady c); [apply Hs|].
  - destruct (cluster_changed old c); [|done]. destruct (FedInformer.isClusterReady c); cbn; by rewrite ?Hs.
Qed.
(** A handler starts new informers, stops some, and leaves the others alone. *)
Lemma on_cluster_targets n F m : targets (on_cluster clientFactory n F).1 !! m = Some NewInformer ∨
  targets (on_cluster clientFactory n F).1 !! m = None ∨ targets (on_cluster clientFactory n F).1 !! m = targets F !! m.
Proof.
  assert (∀ c (G : federation Obj), targets (start_target clientFactory c G) !! m = Some NewInformer ∨ targets (start_target clientFactory c G) !! m = targets G !! m) as Hs.
  { intros c G. unfold start_target. destruct (GetClientsetForCluster _ _ _); [|auto]. cbn.
    destruct (decide (m = cl_name c)) as [->|]; [left; apply lookup_insert_eq|right; by rewrite lookup_insert_ne]. }
  assert (∀ c, targets (stop_target c F) !! m = None ∨ targets (stop_target c F) !! m = targets F !! m) as Hd.
  { intros c. cbn. destruct (decide (m = cl_name c)) as [->|]; [left; apply lookup_delete_eq|right; by rewrite lookup_delete_ne]. }
  destruct n as [c|old c|[c|k o]]; cbn; [| | |auto].
  - destruct (FedInformer.isClusterReady c); cbn; [|auto]. destruct (Hs c F); auto.
  - destruct (cluster_changed old c); [|auto]. destruct (FedInformer.isClusterReady c); cbn [fst]; [|auto].
    destruct (Hs c (stop_target old F)) as [|Hx]; [auto|]. right. destruct (Hd old) as [Hy|Hy]; [left|right]; congruence.
  - destruct (Hd c); auto.
Qed.

(** One delta after the other. *)
Lemma process_clusters_view k ds F :
  Forall (delta_ok cl_name k) ds → keyed cl_name (clientState (clusterInformer F)) →
  let '(F', calls) := process_clusters clientFactory ds F in
  let '(s, notes) := process cl_name ds (clientState (clusterInformer F)) in
  clusterInformer F' = mkInf s (fifo (clusterInformer F)) ∧ heard calls = notes ∧
  events_run (event_of <$> notes) (view F) = (view F', lifecycles calls) ∧
  (∀ m, targets F' !! m = Some NewInformer ∨ targets F' !! m = None ∨ targets F' !! m = targets F !! m) ∧
  ∀ m, told m calls = [].
Proof.
  intros Hd. revert F. induction Hd as [|d ds Hd _ IH]; intros F Hs; cbn [process_clusters process].
  { split_and!; try done; [by destruct F as [[] ?]|auto]. }
  destruct (process_delta_spec cl_name k d _ Hd Hs) as (n&s1&->&_&Hfit&Hs1&Hk1&_).
  set (F0 := with_clusterInformer (mkInf s1 (fifo (clusterInformer F))) F). cbn [on_clusters].
  pose proof (on_cluster_view n (clientState (clusterInformer F)) F0 Hfit Hs1) as Hv.
  pose proof (on_cluster_same n F0) as Hc. pose proof (λ m, on_cluster_targets n F0 m) as Ht.
  destruct (on_cluster clientFactory n F0) as [F1 l]. cbn [fst] in Hc, Ht.
  assert (clientState (clusterInformer F1) = s1) as Hs1' by (by rewrite Hc).
  specialize (IH F1). rewrite Hs1' in IH. specialize (IH Hk1).
  destruct (process_clusters clientFactory ds F1) as [F2 calls]. destruct (process cl_name ds s1) as [s2 notes].
  destruct IH as (Hi&Hh&Hr&Ht2&Htold). rewrite app_nil_r. split_and!.
  - by rewrite Hi, Hc.
  - by rewrite heard_app, (proj1 (proj2 (heard_calls n l))), Hh.
  - change ([n] ++ notes) with (n :: notes). rewrite fmap_cons. cbn [FedInformer.run].
    change (view F) with (with_clusters (Typed <$> clientState (clusterInformer F)) (view F0)).
    rewrite Hv, Hr, lifecycles_app. by rewrite (proj1 (heard_calls n l)).
  - intros m. destruct (Ht2 m) as [|[|E]]; [auto..|]. rewrite E. apply Ht.
  - intros m. rewrite told_app, Htold, app_nil_r. apply (heard_calls n l).
Qed.

(** ** Steps *)

Definition sync_events (b : bool) : list (event Obj) := if b then [ClusterListSynced] else [].
Lemma sync_run b (f : federatedInformerImpl Obj) : (clusterSynced f = true → b = true) →
  events_run (sync_events b) f = (mkFedInformer (clusterStore f) b (targetInformers f), []).
Proof. destruct f as [c sy t]. cbn. destruct b; [done|]. destruct sy; [by intros E; specialize (E eq_refl)|done]. Qed.

(** The informer on clusters goes its own way, and its handlers are steps on the stores. *)
Lemma cluster_step o F : federation_ok F →
  let '(F', calls) := fed_step (ClusterOp o) F in
  let '(i, notes) := Informer.step cl_name o (clusterInformer F) in
  clusterInformer F' = i ∧ heard calls = notes ∧
  events_run (sync_events (Informer.HasSynced (fifo i)) ++ (event_of <$> notes)) (view F) = (view F', lifecycles calls) ∧
  (∀ m, targets F' !! m = Some NewInformer ∨ targets F' !! m = None ∨ targets F' !! m = targets F !! m) ∧
  ∀ m, told m calls = [].
Proof.
  intros [Hc _]. pose proof (step_synced cl_name o _ Hc) as Hsync.
  assert (∀ i, (Informer.HasSynced (fifo (clusterInformer F)) = true → Informer.HasSynced (fifo i) = true) →
    clientState i = clientState (clusterInformer F) →
    events_run (sync_events (Informer.HasSynced (fifo i))) (view F) = (view (with_clusterInformer i F), [])) as Hview.
  { intros i Hi Hs. rewrite sync_run by done. unfold view. cbn. by rewrite Hs. }
  destruct (process_or_not o) as [->|Ho].
  - cbn [Federation.fed_step Informer.step] in *. pose proof (pop_first cl_name _ (ok_fifo _ _ Hc)) as HP.
    destruct (queue (fifo (clusterInformer F))) as [|k q] eqn:Eq.
    + rewrite HP in *. cbn [fmap list_fmap]. rewrite app_nil_r. rewrite Hview by done.
      destruct F as [[s f] t]. split_and!; auto.
    + destruct HP as (ds&Ei&HP). rewrite HP in *. destruct (ok_deltas _ _ (ok_fifo _ _ Hc) _ _ Ei) as [_ Hd].
      set (f' := mkDeltaFIFO _ q _ _) in *. set (F0 := with_clusterInformer (mkInf (clientState (clusterInformer F)) f') F).
      pose proof (process_clusters_view k ds F0 Hd (ok_state _ _ Hc)) as Hp. cbn [clusterInformer F0 with_clusterInformer clientState fifo] in Hp.
      destruct (process_clusters clientFactory ds F0) as [F' calls]. destruct (process cl_name ds _) as [s' notes].
      destruct Hp as (Hi&Hh&Hr&Ht&Htold). split_and!; try done. rewrite events_run_app.
      change (fifo (mkInf s' f')) with (fifo (mkInf (clientState (clusterInformer F)) f')). rewrite Hview by done.
      fold F0. by rewrite Hr.
  - destruct (step_queue cl_name o _ Hc Ho) as (f'&E&_). cbn [Federation.fed_step]. rewrite E in *. cbn [fst] in *.
    cbn [fmap list_fmap]. rewrite app_nil_r. destruct o; try done; (split_and!; [done|done|by apply Hview|auto|done]).
Qed.

(** So does every target informer. *)
Lemma target_step n o F : federation_ok F →
  let '(F', calls) := fed_step (TargetOp n o) F in
  clusterInformer F' = clusterInformer F ∧ heard calls = [] ∧
  (∃ es, events_run es (view F) = (view F', lifecycles calls) ∧ ∀ k, WatchDeleteMissed k ∉ es) ∧
  ∀ m t', targets F' !! m = Some t' → ∃ t, targets F !! m = Some t ∧
    (t', told m calls) = if decide (m = n) then Informer.step keyFunc o t else (t, []).
Proof.
  intros [_ Ht]. cbn [Federation.fed_step]. destruct (targets F !! n) as [t|] eqn:En.
  - pose proof (step_synced keyFunc o _ (Ht _ _ En)) as Hsync.
    destruct (Informer.step keyFunc o t) as [t' notes] eqn:Eo. cbn [fst] in Hsync.
    assert (∀ m, told m (Told n <$> notes) = if decide (m = n) then notes else []) as Htold.
    { intros m. unfold told. clear -m. induction notes as [|x l IH]; cbn; [by destruct (decide _)|].
      rewrite IH. destruct (decide (n = m)), (decide (m = n)); congruence || done. }
    assert (lifecycles (Told n <$> notes) = [] ∧ heard (Told n <$> notes) = []) as [-> Hh].
    { unfold lifecycles, heard. clear. by split; induction notes. }
    split_and!; [done|exact Hh| |].
    + exists (TargetChange n (Typed <$> clientState t') :: (if Informer.HasSynced (fifo t') then [TargetSynced n] else [])).
      split; [|intros k; destruct (Informer.HasSynced (fifo t')); rewrite ?not_elem_of_cons; split_and?; try done; apply not_elem_of_nil].
      assert (∀ g, alter g n (view_target <$> targets F) = <[n := g (view_target t)]> (view_target <$> targets F)) as Ha.
      { intros g. apply map_eq. intros m. destruct (decide (m = n)) as [->|].
        - rewrite lookup_alter_eq, lookup_insert_eq, lookup_fmap, En. done.
        - by rewrite lookup_alter_ne, lookup_insert_ne. }
      unfold view, with_targetInformers. cbn. rewrite Ha, fmap_insert. destruct (Informer.HasSynced (fifo t')) eqn:Es; cbn.
      * unfold with_targets. cbn. repeat f_equal. apply map_eq. intros m. destruct (decide (m = n)) as [->|].
        -- rewrite lookup_alter_eq, !lookup_insert_eq. cbn. unfold view_target. by rewrite Es.
        -- by rewrite lookup_alter_ne, !lookup_insert_ne.
      * unfold with_targets. cbn. repeat f_equal. unfold view_target. rewrite Es. f_equal.
        destruct (Informer.HasSynced (fifo t)); [by specialize (Hsync eq_refl)|done].
    + intros m t2. cbn. rewrite Htold. destruct (decide (m = n)) as [->|Hm].
      * rewrite lookup_insert_eq. intros [= <-]. exists t. by rewrite Eo.
      * rewrite lookup_insert_ne by done. intros E. by exists t2.
  - split_and!; [done|done|by exists []; split; [|intros k; apply not_elem_of_nil]|].
    intros m t Et. exists t. split; [done|]. rewrite decide_False by congruence. done.
Qed.

Lemma fed_step_ok o F : federation_ok F → federation_ok (fed_step o F).1.
Proof.
  intros Hok. pose proof Hok as [Hc Ht]. destruct o as [o|n o].
  - pose proof (cluster_step o F Hok) as Hs. pose proof (Informer.step_ok cl_name o _ Hc) as Hi.
    destruct (fed_step (ClusterOp o) F) as [F' calls]. destruct (Informer.step cl_name o _) as [i notes].
    destruct Hs as (Ei&_&_&Hm&_). split; [cbn; rewrite Ei; apply Hi|]. intros m t E. cbn in E.
    destruct (Hm m) as [E'|[E'|E']]; rewrite E' in E.
    + injection E as <-. apply NewInformer_ok.
    + discriminate E.
    + exact (Ht _ _ E).
  - pose proof (target_step n o F Hok) as Hs. destruct (fed_step (TargetOp n o) F) as [F' calls].
    destruct Hs as (Ei&_&_&Hm). split; [cbn; by rewrite Ei|]. intros m t' E. destruct (Hm m t' E) as (t&Et&Es).
    specialize (Ht _ _ Et). destruct (decide (m = n)); [|by injection Es as -> _].
    pose proof (Informer.step_ok keyFunc o t Ht) as Hi. rewrite <-Es in Hi. apply Hi.
Qed.

Lemma NewFederation_ok : federation_ok NewFederation.
Proof. split; [apply NewInformer_ok|apply map_Forall_empty]. Qed.

Lemma fed_run_snoc ops o F :
  fed_run (ops ++ [o]) F = (let '(F1, c1) := fed_run ops F in let '(F2, c2) := fed_step o F1 in (F2, c1 ++ c2)).
Proof.
  revert F. induction ops as [|o' ops IH]; intros F; cbn [app Federation.fed_run].
  - destruct (fed_step o F). by rewrite app_nil_r.
  - destruct (fed_step o' F) as [F0 c0]. rewrite IH. destruct (fed_run ops F0) as [F1 c1]. destruct (fed_step o F1). by rewrite app_assoc.
Qed.
Lemma all_list_first_snoc ops o F : all_list_first keyFunc clientFactory (ops ++ [o]) F ↔
  all_list_first keyFunc clientFactory ops F ∧ lists_first o (fed_run ops F).1.
Proof.
  revert F. induction ops as [|o' ops IH]; intros F; cbn [app all_list_first Federation.fed_run]; [naive_solver|].
  rewrite IH. destruct (fed_step o' F) as [F0 c0]. cbn [fst]. destruct (fed_run ops F0). naive_solver.
Qed.

(** A run is a history of the stores. *)
Lemma fed_run_view ops F : federation_ok F →
  let '(F', calls) := fed_run ops F in
  federation_ok F' ∧ ∃ es, events_run es (view F) = (view F', lifecycles calls) ∧
    ∀ k, WatchDeleteMissed k ∈ es → ∃ x, OnDelete (DeletedFinalStateUnknown k x) ∈ heard calls.
Proof.
  revert F. induction ops as [|o ops IH]; intros F Hok; cbn [Federation.fed_run].
  { split; [done|]. exists []. split; [done|]. by intros k ?%not_elem_of_nil. }
  pose proof (fed_step_ok o F Hok) as Hok1.
  assert (∃ es, events_run es (view F) = (view (fed_step o F).1, lifecycles (fed_step o F).2) ∧
    ∀ k, WatchDeleteMissed k ∈ es → ∃ x, OnDelete (DeletedFinalStateUnknown k x) ∈ heard (fed_step o F).2) as (es1&E1&Hk1).
  { destruct o as [o|n o].
    - pose proof (cluster_step o F Hok) as Hs. destruct (fed_step (ClusterOp o) F) as [F1 c1].
      destruct (Informer.step cl_name o _) as [i notes]. destruct Hs as (_&Hh&Hs&_). eexists. split; [exact Hs|]. cbn [snd]. rewrite Hh.
      intros k [Hk|([c|old c|[c|k' x]]&Ek&Hk)%list_elem_of_fmap]%elem_of_app; try discriminate Ek.
      + unfold sync_events in Hk. destruct (Informer.HasSynced _); [|by apply not_elem_of_nil in Hk].
        apply list_elem_of_singleton in Hk. discriminate Hk.
      + injection Ek as ->. by exists x.
    - pose proof (target_step n o F Hok) as Hs. destruct (fed_step (TargetOp n o) F) as [F1 c1].
      destruct Hs as (_&_&(es&Hs&Hk)&_). exists es. split; [done|]. intros k Hin. by destruct (Hk k). }
  destruct (fed_step o F) as [F1 c1]. cbn in Hok1, E1, Hk1. specialize (IH F1 Hok1).
  destruct (fed_run ops F1) as [F2 c2]. destruct IH as (Hok2&es2&E2&Hk2). split; [done|]. exists (es1 ++ es2).
  rewrite events_run_app, E1, E2, lifecycles_app, heard_app. split; [done|].
  intros k [Hk|Hk]%elem_of_app; [destruct (Hk1 k Hk) as [x Hx]|destruct (Hk2 k Hk) as [x Hx]]; exists x; apply elem_of_app; auto.
Qed.

(** ** Where an informer comes from *)

Definition cluster_op (o : fed_op Obj) : option (op Cluster) := match o with ClusterOp o => Some o | _ => None end.
Definition target_op (m : string) (o : fed_op Obj) : option (op Obj) :=
  match o with TargetOp n o => if decide (n = m) then Some o else None | _ => None end.

(** An informer is new, or what became of a new one by a list among the operations and what
    came after it; its handler was called accordingly. *)
Definition grew {A} (kf : A → string) (lift : op A → fed_op Obj) (sel : fed_op Obj → option (op A))
    (ops : list (fed_op Obj)) (i : Informer.informer A) (calls : list (notification A)) : Prop :=
  i = NewInformer ∨ ∃ ops1 l ops2 notes, ops = ops1 ++ lift (Relist l) :: ops2 ∧
    Informer.run kf (Relist l :: omap sel ops2) NewInformer = (i, notes) ∧ notes `suffix_of` calls.

Lemma informer_run_snoc {A} (kf : A → string) os o (i : Informer.informer A) :
  Informer.run kf (os ++ [o]) i =
    (let '(i1, n1) := Informer.run kf os i in let '(i2, n2) := Informer.step kf o i1 in (i2, n1 ++ n2)).
Proof.
  revert i. induction os as [|o' os IH]; intros i; cbn [app Informer.run].
  - destruct (Informer.step kf o i). by rewrite app_nil_r.
  - destruct (Informer.step kf o' i) as [i0 n0]. rewrite IH. destruct (Informer.run kf os i0) as [i1 n1].
    destruct (Informer.step kf o i1). by rewrite app_assoc.
Qed.

Lemma grew_other {A} (kf : A → string) lift sel ops o i calls :
  sel o = None → grew kf lift sel ops i calls → grew kf lift sel (ops ++ [o]) i calls.
Proof.
  intros Ho [->|(ops1&l&ops2&notes&->&Hr&Hs)]; [by left|]. right. exists ops1, l, (ops2 ++ [o]), notes.
  rewrite omap_app. cbn. rewrite Ho, app_nil_r, <-app_assoc. done.
Qed.
Lemma grew_step {A} (kf : A → string) lift sel ops x i calls :
  sel (lift x) = Some x → idle_or_list x i → grew kf lift sel ops i calls →
  let '(i', notes) := Informer.step kf x i in grew kf lift sel (ops ++ [lift x]) i' (calls ++ notes).
Proof.
  intros Hx Hidle [->|(ops1&l&ops2&notes&->&Hr&Hs)].
  - destruct (Hidle eq_refl) as [[l ->]|Hno]; [|rewrite unlisted_step by done; by left].
    destruct (Informer.step kf (Relist l) NewInformer) as [i' notes] eqn:E. right. exists ops, l, [], notes.
    cbn [omap list_omap Informer.run]. rewrite E, app_nil_r. split_and!; [done|done|by exists calls].
  - destruct (Informer.step kf x i) as [i' notes'] eqn:E. right. exists ops1, l, (ops2 ++ [lift x]), (notes ++ notes').
    split_and!; [by rewrite <-app_assoc| |by apply suffix_app].
    change (Relist l :: omap sel (ops2 ++ [lift x])) with ([Relist l] ++ omap sel (ops2 ++ [lift x])).
    rewrite omap_app. cbn [omap list_omap]. rewrite Hx, app_assoc, informer_run_snoc.
    change ([Relist l] ++ omap sel ops2) with (Relist l :: omap sel ops2). by rewrite Hr, E.
Qed.

Lemma fed_run_grew ops : all_list_first keyFunc clientFactory ops NewFederation →
  let '(F, calls) := fed_run ops NewFederation in
  grew cl_name ClusterOp cluster_op ops (clusterInformer F) (heard calls) ∧
  ∀ m t, targets F !! m = Some t → grew keyFunc (TargetOp m) (target_op m) ops t (told m calls).
Proof.
  induction ops as [|o ops IH] using rev_ind; [by split; [left|]|].
  intros [Hl Ho]%all_list_first_snoc. specialize (IH Hl). rewrite fed_run_snoc.
  pose proof (fed_run_view ops NewFederation NewFederation_ok) as Hv.
  destruct (fed_run ops NewFederation) as [F calls]. destruct Hv as [Hok _], IH as [Hc Ht]. cbn [fst] in Ho.
  destruct o as [o|n o].
  - pose proof (cluster_step o F Hok) as Hs. pose proof (grew_step cl_name ClusterOp cluster_op ops o _ _ eq_refl Ho Hc) as Hg.
    destruct (fed_step (ClusterOp o) F) as [F1 c1]. destruct (Informer.step cl_name o _) as [i notes].
    destruct Hs as (Ei&Eh&_&Hm&Htold). rewrite heard_app, Ei, Eh. split; [done|]. intros m t E.
    rewrite told_app, Htold, app_nil_r. destruct (Hm m) as [E'|[E'|E']]; rewrite E' in E; [|discriminate E|].
    + injection E as <-. by left.
    + apply grew_other; [done|by apply Ht].
  - pose proof (target_step n o F Hok) as Hs. destruct (fed_step (TargetOp n o) F) as [F1 c1].
    destruct Hs as (Ei&Eh&_&Hm). rewrite heard_app, Ei, Eh, app_nil_r. split; [by apply grew_other|]. intros m t' E.
    destruct (Hm m t' E) as (t&Et&Es). rewrite told_app. specialize (Ht m t Et). destruct (decide (m = n)) as [->|Hne].
    + pose proof (grew_step keyFunc (TargetOp n) (target_op n) ops o t (told n calls)) as Hg. rewrite <-Es in Hg.
      apply Hg; [cbn; by rewrite decide_True|by apply Ho|done].
    + injection Es as -> ->. rewrite app_nil_r. apply grew_other; [|done]. cbn. by rewrite decide_False by congruence.
Qed.

(** A synced informer has been told of the first list. *)
Lemma grew_synced {A} (kf : A → string) lift sel ops i calls :
  grew kf lift sel ops i calls → Informer.HasSynced (fifo i) = true →
  ∃ ops1 l ops2, ops = ops1 ++ lift (Relist l) :: ops2 ∧ i = (Informer.run kf (Relist l :: omap sel ops2) NewInformer).1 ∧
    ∀ o, o ∈ l → ∃ n, n ∈ calls ∧ note_key kf n = kf o.
Proof.
  intros [->|(ops1&l&ops2&notes&->&Hr&[before ->])] Hs; [discriminate Hs|]. exists ops1, l, ops2.
  pose proof (first_list_told kf l (omap sel ops2)) as Ht. rewrite Hr in Ht |- *. split_and!; [done|done|].
  intros o Ho. destruct (Ht Hs o Ho) as (n&Hn&?). exists n. split; [|done]. apply elem_of_app. by right.
Qed.

(** Everything was read: the clusters listed first were handled, there are informers for the
    ready clusters only, and each was told of its first list and goes on from there. *)
Definition all_read (ops : list (fed_op Obj)) F (calls : list (fed_call Obj)) : Prop :=
  (∃ ops1 l ops2, ops = ops1 ++ ClusterOp (Relist l) :: ops2 ∧
     ∀ c, c ∈ l → ∃ n, n ∈ heard calls ∧ note_key cl_name n = cl_name c) ∧
  (∀ m, is_Some (targets F !! m) ↔ ∃ c, ready_in (view F) m c) ∧
  (∀ m t, targets F !! m = Some t → ∃ ops1 l ops2, ops = ops1 ++ TargetOp m (Relist l) :: ops2 ∧
     t = (Informer.run keyFunc (Relist l :: omap (target_op m) ops2) NewInformer).1 ∧
     ∀ o, o ∈ l → ∃ n, n ∈ told m calls ∧ note_key keyFunc n = keyFunc o).

(** What it means that the stores are synced, which the controller waits for. *)
Lemma synced_all_read ops :
  all_list_first keyFunc clientFactory ops NewFederation →
  let '(F, calls) := fed_run ops NewFederation in
  informer_synced (view F) = true → all_read ops F calls.
Proof.
  intros Hl. pose proof (fed_run_grew ops Hl) as Hg.
  pose proof (fed_run_view ops NewFederation NewFederation_ok) as Hr.
  destruct (fed_run ops NewFederation) as [F calls]. destruct Hg as [Hc Ht], Hr as (_&es&Hr&_).
  destruct (run_targets clientFactory es _ (new_targets_cover clientFactory)) as [Hcov _].
  change (view NewFederation) with (NewFederatedInformer (Obj := Obj)) in Hr. rewrite Hr in Hcov. cbn [fst] in Hcov.
  intros [Hcs Hts]%andb_true_iff. destruct (GetReadyClusters_spec (view F) (proj1 Hcov)) as (clusters&E&Hin). rewrite E in Hts.
  pose proof (synced_exact clientFactory (view F) clusters Hcov E Hts) as Hex.
  assert (∀ m, is_Some (targetInformers (view F) !! m) ↔ is_Some (targets F !! m)) as Hdom by (intros m; cbn; by rewrite lookup_fmap, fmap_is_Some).
  split; [|split].
  - destruct (grew_synced _ _ _ _ _ _ Hc Hcs) as (ops1&l&ops2&Eo&_&Hh). by exists ops1, l, ops2.
  - intros m. rewrite <-Hdom. split; [apply Hex|]. intros [c Hm].
    destruct (proj1 Hcov m _ (proj1 Hm)) as (c'&[= <-]&Hn).
    apply andb_true_iff in Hts as [_ Hall%all_synced_spec]. rewrite Forall_forall in Hall.
    destruct (Hall c) as (i&Ei&_); [apply Hin; by rewrite Hn|]. rewrite <-Hn. by exists i.
  - intros m t Et. eapply grew_synced; [by apply Ht|]. destruct (Hex m) as [c Hm]; [rewrite Hdom; eauto|].
    destruct (proj1 Hcov m _ (proj1 Hm)) as (c'&[= <-]&Hn).
    apply andb_true_iff in Hts as [_ Hall%all_synced_spec]. rewrite Forall_forall in Hall.
    destruct (Hall c) as (i&Ei&Hi); [apply Hin; by rewrite Hn|]. rewrite Hn in Ei. cbn in Ei. rewrite lookup_fmap, Et in Ei.
    by injection Ei as <-.
Qed.
End facts.

(** ** Properties *)

(** C31: the federated informer is what [FedInformer.v] takes it for: whatever the reflectors of
    the clusters and of their objects read and at whatever pace the informers work it off,
    the stores and the calls of the lifecycle functions are those of a history of events on
    the stores; and a cluster's deletion is missed in it only when the informer on clusters
    called its handler with a [cache.DeletedFinalStateUnknown]. *)
Theorem federation_refines {Obj Client : Type} `{GoMapOrder} (keyFunc : Obj → string)
    (clientFactory : Cluster → result Client) (ops : list (fed_op Obj)) :
  let '(F, calls) := fed_run keyFunc clientFactory ops NewFederation in
  ∃ events, FedInformer.run clientFactory events NewFederatedInformer = (view F, lifecycles calls) ∧
    ∀ n, WatchDeleteMissed n ∈ events → ∃ x, OnDelete (DeletedFinalStateUnknown n x) ∈ heard calls.
Proof.
  pose proof (fed_run_view keyFunc clientFactory ops NewFederation (NewFederation_ok keyFunc)) as Hr.
  destruct (fed_run keyFunc clientFactory ops NewFederation) as [F calls]. destruct Hr as (_&es&Hr&Hm). by exists es.
Qed.

Module FederationExamples.
Import InformerExamples FedInformerExamples.

(** Two clusters are listed, and the second becomes ready; the objects of both are listed. *)
Definition joining : list (fed_op obj) :=
  [ClusterOp (Relist [cluster "a" "True"; cluster "b" "False"]); ClusterOp ProcessOne; ClusterOp ProcessOne;
   TargetOp "a" (Relist [("x", 1); ("y", 1)]); TargetOp "a" ProcessOne;
   ClusterOp (WatchModified (cluster "b" "True")); ClusterOp ProcessOne; TargetOp "b" ProcessOne;
   TargetOp "b" (Relist []); TargetOp "a" ProcessOne; TargetOp "a" (WatchModified ("x", 2))].

Lemma joining_lists_first : all_list_first key factory joining NewFederation.
Proof.
  unfold joining. cbn [all_list_first lists_first].
  split_and!; try exact I; try (intros _; left; eexists; reflexivity); try (intros _; right; left; reflexivity);
    try (intros E; vm_compute in E; discriminate E);
    intros t E Hp; try (left; eexists; reflexivity); try (right; left; reflexivity).
  vm_compute in E. injection E as <-. discriminate Hp.
Qed.

(** What was read when the stores count as synced. *)
Example joining_read :
  let '(F, calls) := fed_run key factory joining NewFederation in informer_synced (view F) = true → all_read key joining F calls.
Proof. apply (synced_all_read key factory joining), joining_lists_first. Qed.

Definition after (ops : list (fed_op obj)) : federation obj := (fed_run key factory (joining ++ ops) NewFederation).1.

(** Then the stores count as synced, and not before the objects of [b] were listed. *)
Example joining_synced : informer_synced (view (after [])) = true.
Proof. vm_compute. reflexivity. Qed.
Example not_synced_before :
  informer_synced (view (fed_run key factory (take 8 joining) NewFederation).1) = false.
Proof. vm_compute. reflexivity. Qed.

(** A cluster that is deleted is forgotten.  When the watch broke and the deletion is only
    seen in the next list, its informer stays, and the stores do not count as synced. *)
Example deletion_seen :
  let F := after [ClusterOp (WatchDeleted (cluster "a" "True")); ClusterOp ProcessOne] in
  targets F !! "a" = None ∧ informer_synced (view F) = true.
Proof. split; vm_compute; reflexivity. Qed.
Example deletion_missed :
  let F := after [ClusterOp (Relist [cluster "b" "True"]); ClusterOp ProcessOne; ClusterOp ProcessOne] in
  clusterStore (view F) !! "a" = None ∧ is_Some (targets F !! "a") ∧ informer_synced (view F) = false.
Proof. split_and!; [vm_compute; reflexivity| |vm_compute; reflexivity]. eexists. vm_compute. reflexivity. Qed.
End FederationExamples.
