(* ===== verification/DnsFeed.v ===== *)
(** From the API server to DNS: the DNS controller of [DnsRunner.v] fed by the informer of
    [Informer.v], as [newIngressDNSController] of [pkg/controller/ingress/dns/dns.go] puts
    them together.  The informer keeps pointers to ingresses. *)

From S2P Require Import Prelude GoStrings GoNet KubeTypes LbStatus DnsProvider WorkQueue DnsUtil IngressDns IngressDnsFacts IngressDnsProcess Handlers Informer DnsRunner IngressController.

Section feed.
Context `{GoMapOrder} (deref : positive → Ingress).

(** The key of an ingress in the informer's store. *)
Definition ingressKeyFunc (p : positive) : string := MetaNamespaceKeyFunc (deref p).

(** The calls of the handler in a run of the DNS controller. *)
Definition watched (evs : list dns_event) : list (watch_event positive) :=
  omap (λ e, match e with Watch e => Some e | _ => None end) evs.

(** What the calls of an informer put into the work queue. *)
Definition put (notes : list (notification positive)) : list positive :=
  omap (changed_object (pointee_equal deref)) (omap watch_event_of notes).

Lemma notified_watched evs : notified deref evs = omap (changed_object (pointee_equal deref)) (watched evs).
Proof.
  unfold notified, watched. induction evs as [|[e|x|x|] evs IH]; cbn; [done| |done..].
  destruct (changed_object (pointee_equal deref) e); [by rewrite IH|done].
Qed.

Lemma put_snoc notes n : put (notes ++ [n]) = put notes ++ put [n].
Proof. unfold put. by rewrite !omap_app. Qed.

Lemma tells_snoc {A} (keyFunc : A → string) ns n s s' :
  tells keyFunc (ns ++ [n]) s s' → ∃ s1, tells keyFunc ns s s1 ∧ fits keyFunc n s1 ∧ s' = learn keyFunc n s1.
Proof.
  revert s. induction ns as [|n0 ns IH]; intros s; cbn [app tells].
  - intros [Hf ->]. by exists s.
  - intros [Hf Ht]. destruct (IH _ Ht) as (s1&?&?&?). by exists s1.
Qed.

(** An object with another key is put behind. *)
Lemma put_other k l1 x l2 n : (∀ y, y ∈ l2 → ingressKeyFunc y ≠ k) → note_key ingressKeyFunc n ≠ k →
  ∃ l3, l1 ++ x :: l2 ++ put [n] = l1 ++ x :: l3 ∧ ∀ y, y ∈ l3 → ingressKeyFunc y ≠ k.
Proof.
  intros Hl Hn. exists (l2 ++ put [n]). split; [done|]. intros y [Hy|Hy]%elem_of_app; [by apply Hl|].
  assert (put [n] = [] ∨ ∃ z, put [n] = [z] ∧ ingressKeyFunc z = note_key ingressKeyFunc n) as [E|(z&E&Hz)].
  { destruct n as [o|old o|[o|k' [o|]]]; unfold put; cbn; eauto. destruct (pointee_equal deref old o); cbn; eauto. }
  - rewrite E in Hy. by apply not_elem_of_nil in Hy.
  - rewrite E in Hy. apply list_elem_of_singleton in Hy as ->. by rewrite Hz.
Qed.

(** What the store holds was put last of its key, or an object that looks the same. *)
Lemma stored_put_last notes s k p :
  tells ingressKeyFunc notes ∅ s → s !! k = Some p →
  ∃ l1 x l2, put notes = l1 ++ x :: l2 ∧ deref x = deref p ∧ ∀ y, y ∈ l2 → ingressKeyFunc y ≠ k.
Proof.
  revert s p. induction notes as [|n notes IH] using rev_ind; intros s p; [by intros ->|].
  intros (s1&Ht&Hf&->)%tells_snoc Hp. rewrite put_snoc.
  destruct (decide (note_key ingressKeyFunc n = k)) as [Hk|Hk].
  - destruct n as [o|old o|d]; cbn in Hk, Hp, Hf.
    + rewrite Hk, lookup_insert_eq in Hp. injection Hp as ->. exists (put notes), p, []. split_and!; [done|done|].
      by intros y ?%not_elem_of_nil.
    + rewrite Hk, lookup_insert_eq in Hp. injection Hp as ->. rewrite Hk in Hf.
      destruct (pointee_equal deref old p) eqn:E.
      * destruct (IH s1 old Ht Hf) as (l1&x&l2&El&Hx&Hl). exists l1, x, l2. unfold put at 2. cbn. rewrite E. cbn.
        rewrite app_nil_r. split_and!; [done| |done]. unfold pointee_equal in E. apply bool_decide_eq_true in E. congruence.
      * exists (put notes), p, []. unfold put at 2. cbn. rewrite E. split_and!; [done|done|]. by intros y ?%not_elem_of_nil.
    + by rewrite Hk, lookup_delete_eq in Hp.
  - assert (s1 !! k = Some p) as Hp1.
    { destruct n as [o|old o|d]; cbn in Hk, Hp; [by rewrite lookup_insert_ne in Hp..|by rewrite lookup_delete_ne in Hp]. }
    destruct (IH s1 p Ht Hp1) as (l1&x&l2&El&Hx&Hl).
    destruct (put_other k l1 x l2 n Hl Hk) as (l3&E3&Hl3). exists l1, x, l3.
    rewrite El, <-app_assoc. cbn. by split_and!.
Qed.
End feed.

(** ** Properties *)

(** C6: DNS follows the API server: when the informer has worked off its queue and the worker
    of the DNS controller has nothing left to do, then for every ingress that the reflector
    has read last, the names of all its clusters hold what the ingress calls for, whatever
    was listed, changed, created and deleted before and in whatever order the informer, the
    queue and the worker went on; provided that the provider is up, that every change
    brought an object of its own, and that the lists were read right ([clean]). *)
Theorem dns_follows_server {St Zone RRset CS : Type} `{Z : ZoneRrsets St Zone RRset CS} `{!ZoneLaws St Zone RRset CS}
    `{Resolver} `{StableClusters St} `{O : MapOrder} `{GoMapOrder} (idc : IngressDNSController Zone) (deref : positive → Ingress)
    (I : St → Prop) (s0 : St) (ops : list (op positive)) (evs : list dns_event) (r : runner St) :
  provider_up I (dnsZone idc) → (∀ cn cl, registry cn = Ok cl → Zones cl ≠ Some []) → I s0 →
  clean (ingressKeyFunc deref) ops NewInformer →
  let '(i, notes) := run (ingressKeyFunc deref) ops NewInformer in
  watched evs = omap watch_event_of notes →
  dns_run idc deref 1 (started s0) evs r → StopCh ∉ evs → NoDup (notified deref evs) →
  (∀ y, y ∈ notified deref evs → dotless_name (deref y)) →
  Informer.queue (fifo i) = [] → idle r →
  ∀ k p m, reads (ingressKeyFunc deref) ops !! k = Some p → publishable (St := St) (deref p) m →
    ∀ cn, cn ∈ dom m → placed idc (deref p) m (world r) cn.
Proof.
  intros up Hz HI Hclean.
  pose proof (run_ok (ingressKeyFunc deref) ops NewInformer (NewInformer_ok _)) as Hok.
  pose proof (run_expected (ingressKeyFunc deref) ops NewInformer ∅ (NewInformer_ok _) Hclean) as He.
  destruct (run (ingressKeyFunc deref) ops NewInformer) as [i notes]. destruct Hok as [Hok Ht]. cbn in He.
  intros Hw Hr Hstop Hnd Hdot Hq Hidle k p m Hp P cn Hcn.
  assert (clientState i !! k = Some p) as Hk.
  { rewrite <-Hp. unfold reads. rewrite <-He by done. unfold expected.
    assert (items (fifo i) !! k = None) as ->; [|done].
    apply eq_None_not_Some. intros Hin%(ok_items _ _ (ok_fifo _ _ Hok)). rewrite Hq in Hin. by apply not_elem_of_nil in Hin. }
  destruct (stored_put_last deref notes _ k p Ht Hk) as (l1&x&l2&El&Hx&Hl).
  assert (notified deref evs = l1 ++ x :: l2) as En by (by rewrite notified_watched, Hw, <-El).
  rewrite <-Hx in P |- *. eapply idle_placed; try done. intros y Hy Enn. apply (Hl y Hy).
  destruct (ok_state _ _ Hok k p Hk). unfold ingressKeyFunc, MetaNamespaceKeyFunc, nn_of_meta in *. cbv zeta.
  rewrite <-Hx. by injection Enn as -> ->.
Qed.

Module DnsFeedExamples.
Import LbStatusExamples IngressDnsExamples IngressDnsProcessExamples DnsRunnerExamples.
#[local] Existing Instances MemZone.ops MemZone.rrsets MemZone.laws.
#[local] Existing Instances resolver stable key_order.
#[local] Instance known_clusters : FedClusters MemZone.St := fed.

(** An ingress is listed, gets its status, and is resynced. *)
Definition server_history : list (op positive) :=
  [Relist [1%positive]; ProcessOne; WatchModified 2%positive; ProcessOne; ResyncTimer; ProcessOne].

(** The worker processes both versions; the resync changes nothing. *)
Definition events : list dns_event := first_two ++ [Watch (Updated 2%positive 2%positive)].
Lemma server_events_run : dns_run idc version 1 (started empty_zone) events settled.
Proof.
  eapply run_snoc; [exact first_two_run|]. apply (step_watch _ _ _ _ New New). vm_compute. reflexivity.
Qed.

Lemma server_history_clean : clean (ingressKeyFunc version) server_history NewInformer.
Proof.
  unfold server_history. cbn [clean]. split_and!; try exact I. apply drained_clean; [apply NewInformer_ok|done].
Qed.

Lemma dns_follows_server_witness :
  reads (ingressKeyFunc version) server_history !! "ns/w" = Some 2%positive ∧
  ∀ cn, cn ∈ dom statuses → placed idc (version 2) statuses (world settled) cn.
Proof.
  split; [vm_compute; reflexivity|].
  assert (∀ cn cl, registry (St := MemZone.St) cn = Ok cl → Zones cl ≠ Some []) as Hz.
  { intros cn cl E. cbn in E. unfold clusters in E.
    repeat (case_bool_decide; [injection E as <-; discriminate|]). discriminate E. }
  pose proof (dns_follows_server idc version _ empty_zone server_history events settled reachable_up Hz eq_refl server_history_clean) as Hf.
  destruct (run (ingressKeyFunc version) server_history NewInformer) as [i notes] eqn:Er.
  apply (Hf) with (k := "ns/w").
  - replace notes with (run (ingressKeyFunc version) server_history NewInformer).2 by (by rewrite Er). vm_compute. reflexivity.
  - exact server_events_run.
  - unfold events, first_two. cbn [app]. intros Hin.
    repeat (apply elem_of_cons in Hin as [Hin|Hin]; [discriminate Hin|]). by apply not_elem_of_nil in Hin.
  - change (NoDup [1%positive; 2%positive]). apply NoDup_cons. split; [|apply NoDup_singleton].
    intros E%list_elem_of_singleton. discriminate E.
  - intros y _. split; destruct y as [[| |]|[| |]|]; vm_compute; reflexivity.
  - replace i with (run (ingressKeyFunc version) server_history NewInformer).1 by (by rewrite Er). vm_compute. reflexivity.
  - by split.
  - vm_compute. reflexivity.
  - exact annotated_publishable.
Defined.
End DnsFeedExamples.
