(* ===== verification/ConfigMaps.v ===== *)
(** The ingress UID, [pkg/controller/ingress/ingress_controller.go]: every cluster's config
    map [kube-system/ingress-uid] gets the UID of one elected master cluster, and a provider
    UID of its own.  A cluster's UID is an annotation on the federation's [Cluster] object.

    [reconcileConfigMap] writes into the config map it is given, which is the object in the
    informer's cache: the model writes to the cache, at the place the object came from.
    The handlers run one at a time (the deliverer has one handler goroutine and the master
    election has a lock). *)

From S2P Require Import Prelude GoStrings KubeTypes Md5 FedInformer Updater Backoff Deliverer IngressController.

Definition uidAnnotationKey : string := "kubernetes.io/ingress.uid".
Definition uidConfigMapName : string := "ingress-uid".
Definition uidConfigMapNamespace : string := "kube-system".
Definition uidKey : string := "uid".
Definition providerUidKey : string := "provider-uid".
Definition uidConfigMapNamespacedName : NamespacedName := mkNsName uidConfigMapNamespace uidConfigMapName.

(** A cluster with its UID annotation set, on a map made when there is none. *)
Definition annotate_cluster (cluster : Cluster) (uid : string) : Cluster :=
  let meta := cl_meta cluster in
  cl_with_meta (with_annotations (Some (<[uidAnnotationKey := uid]> (default ∅ (Annotations meta)))) meta) cluster.

(** The first cluster with a UID. *)
Fixpoint first_master (clusters : list Cluster) : option (Cluster * string) :=
  match clusters with
  | [] => None
  | c :: rest =>
      match map_get (Annotations (cl_meta c)) uidAnnotationKey with
      | Some UID => if bool_decide (UID ≠ "") then Some (c, UID) else first_master rest
      | None => first_master rest
      end
  end.

(** The cached config map of a cluster, replaced by what was written into it. *)
Definition cache_write (clusterName key : string) (cm : ConfigMap) (f : federatedInformerImpl ConfigMap) :
    federatedInformerImpl ConfigMap :=
  with_targets (alter (λ i, mkInformer (<[key := Typed cm]> (inf_store i)) (HasSynced i)) clusterName (targetInformers f)) f.

Section configmaps.
Context `{Kubernetes W, GoMapOrder, Schedule}.
Abbreviation IC := (IngressController W).

(** [getMasterCluster]. *)
Definition getMasterCluster (ic : IC) : result (Cluster * string) :=
  match GetReadyClusters (configMapFederatedInformer ic) with
  | Err err => Err err
  | Ok clusters =>
      match first_master clusters with
      | Some master => Ok master
      | None => Err (Errorf ("Failed to find master cluster with annotation " +:+ uidAnnotationKey))
      end
  end.

(** [updateClusterIngressUIDToMasters]. *)
Definition updateClusterIngressUIDToMasters (cluster : Cluster) (fallbackUID : string) : M IC (result string) :=
  ic ← get;
  match getMasterCluster ic with
  | Ok (masterCluster, masterUID) =>
      if bool_decide (cl_name masterCluster ≠ cl_name cluster) then
        r ← call (Clusters_Update (annotate_cluster cluster masterUID));
        mret (match r with Err err => Err err | Ok _ => Ok masterUID end)
      else mret (Ok (map_get_str (Annotations (cl_meta cluster)) uidAnnotationKey))
  | Err err =>
      if bool_decide (fallbackUID ≠ "") then
        r ← call (Clusters_Update (annotate_cluster cluster fallbackUID));
        mret (match r with Err err => Err err | Ok _ => Ok fallbackUID end)
      else mret (Err err)
  end.

(** [federatedConfigMapUpdater]. *)
Definition federatedConfigMapUpdater (ic : IC) : FederatedUpdater W ConfigMap :=
  NewFederatedUpdater (λ c, GetClientsetForCluster clientFactory c (configMapFederatedInformer ic))
    member_create_configmap member_update_configmap member_delete_configmap.

(** [reconcileConfigMap]; [key] is where the config map is cached. *)
Definition reconcileConfigMap (cluster : Cluster) (key : string) (configMap : ConfigMap) : M IC unit :=
  let configMapNsName := nn_of_meta (cm_meta configMap) in
  let clusterIngressUID := map_get_str (Annotations (cl_meta cluster)) uidAnnotationKey in
  let clusterIngressUIDExists := bool_decide (is_Some (map_get (Annotations (cl_meta cluster)) uidAnnotationKey)) in
  let configMapUID := map_get_str (Data configMap) uidKey in
  r ← (if negb clusterIngressUIDExists || bool_decide (clusterIngressUID = "")
       then updateClusterIngressUIDToMasters cluster configMapUID
       else mret (Ok clusterIngressUID));
  match r with
  | Err _ => mret tt
  | Ok clusterIngressUID =>
      let providerUid := getProviderUid (cl_name cluster) in
      let configMapProviderUid := map_get_str (Data configMap) providerUidKey in
      if bool_decide (configMapUID = clusterIngressUID) && bool_decide (configMapProviderUid = providerUid) then mret tt
      else
        match map_set (Data configMap) uidKey clusterIngressUID with
        | None => go_panic "assignment to entry in nil map"
        | Some d =>
            let configMap := cm_with_data (map_merge (Some {[ providerUidKey := providerUid ]}) d) configMap in
            modify (λ ic, set_configMapFederatedInformer
                            (cache_write (cl_name cluster) key configMap (configMapFederatedInformer ic)) ic) ≫= λ _,
            ic ← get;
            err ← call (fu_Update (FederatedUpdater := federatedConfigMapUpdater ic)
                    [mkOp OperationTypeUpdate (cl_name cluster) configMap (nn_string configMapNsName)]);
            match err with
            | Some _ => configmap_DeliverAfter (cl_name cluster) configMapReviewDelay
            | None => mret tt
            end
        end
  end.

(** [reconcileConfigMapForCluster]. *)
Definition reconcileConfigMapForCluster (clusterName : string) : M IC unit :=
  ic ← get;
  if negb (isSynced ic) then configmap_DeliverAfter clusterName clusterAvailableDelay
  else if bool_decide (clusterName = allClustersKey) then
    match GetReadyClusters (configMapFederatedInformer ic) with
    | Err _ => configmap_DeliverAfter clusterName clusterAvailableDelay
    | Ok clusters => for_each clusters (λ cluster, configmap_DeliverAfter (cl_name cluster) 0)
    end
  else
    match GetReadyCluster clusterName (configMapFederatedInformer ic) with
    | Err _ | Ok None => configmap_DeliverAfter clusterName clusterAvailableDelay
    | Ok (Some cluster) =>
        let key := nn_string uidConfigMapNamespacedName in
        match GetByKey (cl_name cluster) key (configMapFederatedInformer ic) with
        | None => configmap_DeliverAfter clusterName configMapReviewDelay
        | Some OtherItem => mret tt
        | Some (Typed configMap) => reconcileConfigMap cluster key configMap
        end
    end.

(** The handlers that [Run] gives to the three deliverers. *)
Definition handle_ingress (item : Item NamespacedName) : M IC unit := reconcileIngress (Value item).
Definition handle_cluster (item : Item unit) : M IC unit :=
  reconcileIngressesOnClusterChange (Key item) ≫= λ _, reconcileConfigMapForCluster (Key item).
Definition handle_configmap (item : Item unit) : M IC unit := reconcileConfigMapForCluster (Key item).
End configmaps.
