(* ===== verification/Cloud.v ===== *)
(** API servers in memory: an instance of [Kubernetes] that stores what it is sent, with the
    contract of the member clusters.  The examples run the controllers on it. *)

From S2P Require Import Prelude GoStrings KubeTypes FedInformer Updater Deletion IngressController.

(** What the servers hold: ingresses and config maps of the members by cluster and key,
    ingresses and clusters of the federation; and whether updates are refused. *)
Record cloud := mkCloud {
  cells : gmap (string * string) Ingress;
  configs : gmap (string * string) ConfigMap;
  fed_ingresses : gmap string Ingress;
  fed_clusters : gmap string Cluster;
  broken : bool
}.

Definition refused : error := StatusError "Conflict" "the object has been modified".

(** An update of the servers, unless they are broken. *)
Definition store_ingress (n : string) (i : Ingress) : M cloud (option error) := λ w,
  if broken w then (Val (Some refused), w)
  else (Val None, mkCloud (<[(n, objName i) := i]> (cells w)) (configs w) (fed_ingresses w) (fed_clusters w) (broken w)).
Definition drop_ingress (n : string) (i : Ingress) : M cloud (option error) := λ w,
  match cells w !! (n, objName i) with
  | None => (Val (Some (StatusError "NotFound" "no such ingress")), w)
  | Some _ => (Val None, mkCloud (delete (n, objName i) (cells w)) (configs w) (fed_ingresses w) (fed_clusters w) (broken w))
  end.
Definition cm_key (cm : ConfigMap) : string := nn_string (nn_of_meta (cm_meta cm)).
Definition store_config (n : string) (cm : ConfigMap) : M cloud (option error) := λ w,
  if broken w then (Val (Some refused), w)
  else (Val None, mkCloud (cells w) (<[(n, cm_key cm) := cm]> (configs w)) (fed_ingresses w) (fed_clusters w) (broken w)).
Definition drop_config (n : string) (cm : ConfigMap) : M cloud (option error) := λ w,
  (Val None, mkCloud (cells w) (delete (n, cm_key cm) (configs w)) (fed_ingresses w) (fed_clusters w) (broken w)).
Definition store_fed (i : Ingress) : M cloud (result Ingress) := λ w,
  if broken w then (Val (Err refused), w)
  else (Val (Ok i), mkCloud (cells w) (configs w) (<[objName i := i]> (fed_ingresses w)) (fed_clusters w) (broken w)).
Definition drop_fed (ns name : string) : M cloud (option error) := λ w,
  (Val None, mkCloud (cells w) (configs w) (delete (ns +:+ "/" +:+ name) (fed_ingresses w)) (fed_clusters w) (broken w)).
Definition store_cluster (c : Cluster) : M cloud (result Cluster) := λ w,
  if broken w then (Val (Err refused), w)
  else (Val (Ok c), mkCloud (cells w) (configs w) (fed_ingresses w) (<[cl_name c := c]> (fed_clusters w)) (broken w)).

#[export] Instance cloud_kubernetes : Kubernetes cloud := {|
  Clientset := string;
  clientFactory c := Ok (cl_name c);
  Now := λ w, (Val 0%Z, w);
  Ingresses_Update := store_fed;
  Ingresses_UpdateStatus := store_fed;
  Ingresses_Delete := drop_fed;
  Clusters_Update := store_cluster;
  member_create_ingress := store_ingress;
  member_update_ingress := store_ingress;
  member_delete_ingress := drop_ingress;
  member_create_configmap := store_config;
  member_update_configmap := store_config;
  member_delete_configmap := drop_config
|}.

(** Goroutines run and answer in order, and in time. *)
#[export] Instance in_order : Schedule := {|
  run_order A l := l; run_order_perm A l := Permutation_refl l;
  arrival A l := l; arrival_perm A l := Permutation_refl l;
  in_time n := n
|}.

Lemma store_ingress_law n i w w' :
  store_ingress n i w = (Val None, w') →
  (∃ o', cells w' !! (n, objName i) = Some o' ∧ i = o') ∧
  (∀ c k, (c, k) ≠ (n, objName i) → cells w' !! (c, k) = cells w !! (c, k)).
Proof.
  unfold store_ingress. destruct (broken w); [done|]. intros E. injection E as <-. cbn. split.
  - exists i. by rewrite lookup_insert_eq.
  - intros c k Hn. rewrite lookup_insert_ne; congruence.
Qed.

#[export, refine] Instance cloud_laws :
  MemberLaws (W := cloud) member_create_ingress member_update_ingress member_delete_ingress := {|
  client_cluster := (λ cl : string, cl); obj_key := objName; same := eq;
  stored_at w c k := cells w !! (c, k)
|}.
Proof.
  - exact store_ingress_law.
  - exact store_ingress_law.
  - intros n i w w' e. cbn [member_delete_ingress cloud_kubernetes]. unfold drop_ingress.
    destruct (cells w !! (n, objName i)) eqn:E; intros Hr _.
    + injection Hr as <- <-. cbn. split; [by rewrite lookup_delete_eq|].
      intros c k Hn. rewrite lookup_delete_ne; congruence.
    + injection Hr as <- <-. done.
Defined.
