(* ===== verification/IngressControllerFacts.v ===== *)
(** What [reconcileIngress] does: a verdict per cluster that says what the loop does there,
    the plan the loop collects, and the theorems on creation, updates, deletion, the
    published status and redelivery. *)

From S2P Require Import Prelude GoStrings Json KubeTypes LbStatus ClusterSelector FedInformer Updater Deletion Backoff Deliverer IngressController Cloud.

(** ** Verdicts *)

(** Why the loop is left: an annotation to write on the federated ingress, a status to copy
    to it, or a selector that cannot be read. *)
Inductive action := Annotate (key value : string) | CopyStatus (s : LoadBalancerStatus) | GiveUp.

(** What the loop does with a cluster. *)
Inductive verdict :=
  | Continue (op : option (FederatedOperation Ingress)) (status : option LoadBalancerStatus)
  | Exit (a : action)
  | Crash.

Definition has_annotation (base : Ingress) (key : string) : Prop := is_Some (map_get (Annotations (ing_meta base)) key).
#[export] Instance has_annotation_dec base key : Decision (has_annotation base key).
Proof. unfold has_annotation. apply _. Defined.
Definition annotation (base : Ingress) (key : string) : string := map_get_str (Annotations (ing_meta base)) key.

Definition lb_exists (i : Ingress) : bool := bool_decide (LBIngress (ing_status i) ≠ []).
Definition lb_of (i : Ingress) : option LoadBalancerStatus := if lb_exists i then Some (ing_status i) else None.

Section facts.
Context `{Kubernetes W, GoMapOrder, Schedule}.
Implicit Types (ic : IngressController W) (base : Ingress) (c : Cluster).

(** A first cluster is elected, and it is ready. *)
Definition elected ic base : Prop :=
  ∃ n, map_get (Annotations (ing_meta base)) firstClusterAnnotation = Some n ∧ n ≠ "" ∧ isClusterReady n ic = true.
#[export] Instance elected_dec ic base : Decision (elected ic base).
Proof.
  refine (match map_get (Annotations (ing_meta base)) firstClusterAnnotation as o
            return map_get (Annotations (ing_meta base)) firstClusterAnnotation = o → _ with
          | Some n => λ E, cast_if (decide (n ≠ "" ∧ isClusterReady n ic = true))
          | None => λ E, right _ end eq_refl).
  - exists n. tauto.
  - intros (n'&E'&?). rewrite E in E'. injection E' as <-. tauto.
  - intros (n'&E'&_). congruence.
Defined.

(** A cluster may create the ingress: the static IP is known, or none is asked for, or it is
    the first cluster. *)
Definition may_create base c : Prop :=
  has_annotation base staticIPNameKeyWritable ∨ ¬ has_annotation base globalIngressType ∨
  annotation base firstClusterAnnotation = cl_name c.
#[export] Instance may_create_dec base c : Decision (may_create base c).
Proof. unfold may_create. apply _. Defined.

Definition create_op (ingress : NamespacedName) base c : FederatedOperation Ingress :=
  mkOp OperationTypeAdd (cl_name c) (new_ingress (DeepCopyRelevantObjectMeta (ing_meta base)) (ing_spec base)) (nn_string ingress).
Definition update_op (ingress : NamespacedName) base c (ci : Ingress) : FederatedOperation Ingress :=
  mkOp OperationTypeUpdate (cl_name c) (new_ingress (merged_meta (ing_meta base) (ing_meta ci)) (ing_spec base)) (nn_string ingress).
Definition delete_op (ingress : NamespacedName) base c : FederatedOperation Ingress :=
  mkOp OperationTypeDelete (cl_name c) (new_ingress (ing_meta base) (ing_spec base)) (nn_string ingress).

Definition held ic (ingress : NamespacedName) c : option (stored Ingress) :=
  GetByKey (cl_name c) (nn_string ingress) (ingressFederatedInformer ic).
Definition sent base c : result bool := SendToCluster (Labels (cl_meta c)) (Annotations (ing_meta base)).

Definition classify ic (ingress : NamespacedName) base c : verdict :=
  match sent base c with
  | Err _ => Exit GiveUp
  | Ok true =>
      match held ic ingress c with
      | None =>
          if decide (elected ic base) then
            Continue (if decide (may_create base c) then Some (create_op ingress base c) else None) None
          else Exit (Annotate firstClusterAnnotation (cl_name c))
      | Some OtherItem => Crash
      | Some (Typed ci) =>
          if decide (has_annotation ci staticIPNameKeyReadonly ∧ ¬ has_annotation base staticIPNameKeyWritable) then
            Exit (Annotate staticIPNameKeyWritable (annotation ci staticIPNameKeyReadonly))
          else if lb_exists ci && negb (lb_exists base) then Exit (CopyStatus (ing_status ci))
          else Continue (if ObjectMetaAndSpecEquivalent base ci then None else Some (update_op ingress base c ci)) (lb_of ci)
      end
  | Ok false =>
      Continue (match held ic ingress c with None => None | Some _ => Some (delete_op ingress base c) end) None
  end.

Definition perform (ingress : NamespacedName) base (a : action) : M (IngressController W) unit :=
  match a with
  | Annotate key value => updateAnnotationOnIngress base key value
  | CopyStatus s => copy_status ingress base s
  | GiveUp => mret tt
  end.

Definition add_status c (st : option LoadBalancerStatus) (lb : gmap string (list LoadBalancerStatus)) :=
  match st with
  | Some s => <[cl_name c := default [] (lb !! cl_name c) ++ [s]]> lb
  | None => lb
  end.
Definition absorb ic ingress base (p : plan) c : plan :=
  match classify ic ingress base c with
  | Continue op st => (p.1 ++ option_list op, add_status c st p.2)
  | _ => p
  end.

Lemma lb_exists_length i : bool_decide (0 < length (LBIngress (ing_status i))) = lb_exists i.
Proof. unfold lb_exists. apply bool_decide_ext. destruct (LBIngress (ing_status i)); cbn; split; (done || lia). Qed.

Lemma elected_bool ic base :
  bool_decide (is_Some (map_get (Annotations (ing_meta base)) firstClusterAnnotation)) &&
  bool_decide (map_get_str (Annotations (ing_meta base)) firstClusterAnnotation ≠ "") &&
  isClusterReady (map_get_str (Annotations (ing_meta base)) firstClusterAnnotation) ic = bool_decide (elected ic base).
Proof.
  apply eq_bool_prop_intro. rewrite !Is_true_true, !andb_true_iff, !bool_decide_eq_true. unfold elected, map_get_str.
  destruct (map_get _ _) as [n|]; cbn; naive_solver.
Qed.

Lemma reconcile_cluster_eq ic ingress base c p :
  reconcile_cluster ingress base p c ic =
  match classify ic ingress base c with
  | Continue op st => (Val (inl (p.1 ++ option_list op, add_status c st p.2)), ic)
  | Exit a => exit (perform ingress base a) ic
  | Crash => (Panic "interface conversion", ic)
  end.
Proof.
  unfold reconcile_cluster. rewrite (bind_val get _ ic ic ic eq_refl). fold (held ic ingress c) (sent base c).
  unfold classify. destruct (sent base c) as [[|]|e]; [| |done].
  - destruct (held ic ingress c) as [[ci|]|]; [|done|].
    + unfold plan_update. fold (has_annotation base staticIPNameKeyWritable) (has_annotation ci staticIPNameKeyReadonly).
      rewrite !lb_exists_length.
      destruct (decide (_ ∧ _)) as [[Hr Hw]|Hn].
      * by rewrite (bool_decide_eq_false_2 _ Hw), (bool_decide_eq_true_2 _ Hr).
      * replace (negb _ && _) with false.
        2:{ symmetry. apply not_true_iff_false. rewrite andb_true_iff, negb_true_iff, bool_decide_eq_false, bool_decide_eq_true. tauto. }
        rewrite andb_comm. destruct (lb_exists ci) eqn:El, (lb_exists base); cbn [negb andb]; try done;
          unfold lb_of; rewrite El; destruct (ObjectMetaAndSpecEquivalent base ci); cbn; by rewrite ?app_nil_r.
    + unfold plan_create. rewrite (bind_val get _ ic ic ic eq_refl), elected_bool.
      destruct (decide (elected ic base)) as [He|He];
        [rewrite (bool_decide_eq_true_2 _ He)|rewrite (bool_decide_eq_false_2 _ He)]; cbn [negb]; [|done].
      replace (_ || _ || _) with (bool_decide (may_create base c)).
      2:{ apply eq_bool_prop_intro. rewrite !Is_true_true, !orb_true_iff, negb_true_iff, !bool_decide_eq_true, bool_decide_eq_false.
          unfold may_create, has_annotation, annotation. tauto. }
      destruct (decide (may_create base c)) as [Hm|Hm];
        [rewrite (bool_decide_eq_true_2 _ Hm)|rewrite (bool_decide_eq_false_2 _ Hm)]; cbn; [done|].
      by rewrite app_nil_r; destruct p.
  - destruct (held ic ingress c) as [[]|]; cbn; [done|done|]. by rewrite app_nil_r; destruct p.
Qed.

(** ** The loop *)

Definition continues ic ingress base c : Prop := ∃ op st, classify ic ingress base c = Continue op st.

Lemma loop_continues ic ingress base cs p :
  (∀ c, c ∈ cs → continues ic ingress base c) →
  for_range cs p (reconcile_cluster ingress base) ic = (Val (inl (foldl (absorb ic ingress base) p cs)), ic).
Proof.
  revert p. induction cs as [|c cs IH]; intros p Hc; [done|]. cbn [for_range].
  destruct (Hc c ltac:(set_solver)) as (op&st&E).
  rewrite (bind_val _ _ ic (inl (absorb ic ingress base p c)) ic).
  - cbn [foldl]. apply IH. set_solver.
  - rewrite reconcile_cluster_eq. unfold absorb. by rewrite E.
Qed.

Lemma loop_inv ic ingress base cs p r ic' :
  for_range cs p (reconcile_cluster ingress base) ic = (Val r, ic') →
  match r with
  | inl p' => (∀ c, c ∈ cs → continues ic ingress base c) ∧ p' = foldl (absorb ic ingress base) p cs ∧ ic' = ic
  | inr _ => ∃ c a, c ∈ cs ∧ classify ic ingress base c = Exit a ∧ perform ingress base a ic = (Val tt, ic')
  end.
Proof.
  revert p. induction cs as [|c cs IH]; intros p; cbn [for_range]; intros Hr.
  - ret_inv Hr. split; [set_solver|done].
  - apply bind_val_inv in Hr as (x&ic1&Hb&Hr). rewrite reconcile_cluster_eq in Hb.
    destruct (classify ic ingress base c) as [op st|a|] eqn:E; [| |done].
    + injection Hb as <- <-. apply IH in Hr. destruct r as [p'|[]].
      * destruct Hr as (Hc&Hp&->). split_and!; [|by rewrite Hp; cbn; unfold absorb; rewrite E|done].
        intros c' [->|?]%elem_of_cons; [by exists op, st|auto].
      * destruct Hr as (c'&a&?&?&?). exists c', a. set_solver.
    + unfold exit in Hb. apply bind_val_inv in Hb as ([]&ic2&Hb&Hx). cbv [mret M_ret] in Hx. injection Hx as <- ->.
      cbv [mret M_ret] in Hr. injection Hr as <- ->. exists c, a. set_solver.
Qed.

(** ** The plan *)

Definition op_at ic ingress base c : option (FederatedOperation Ingress) :=
  match classify ic ingress base c with Continue op _ => op | _ => None end.
Definition status_at ic ingress base c : option LoadBalancerStatus :=
  match classify ic ingress base c with Continue _ st => st | _ => None end.

Lemma absorb_ops ic ingress base cs p :
  (foldl (absorb ic ingress base) p cs).1 = p.1 ++ omap (op_at ic ingress base) cs.
Proof.
  revert p. induction cs as [|c cs IH]; intros p; cbn [foldl]; [by rewrite app_nil_r|].
  rewrite IH. unfold absorb, op_at. rewrite omap_cons_list.
  destruct (classify ic ingress base c) as [[op|] st|a|]; cbn; by rewrite ?app_nil_r, <-?app_assoc.
Qed.

Lemma absorb_status ic ingress base cs p n :
  NoDup (cl_name <$> cs) → (∀ c, c ∈ cs → p.2 !! cl_name c = None) →
  (foldl (absorb ic ingress base) p cs).2 !! n =
    match list_find (λ c, cl_name c = n ∧ is_Some (status_at ic ingress base c)) cs with
    | Some (_, c) => (λ s, [s]) <$> status_at ic ingress base c
    | None => p.2 !! n
    end.
Proof.
  revert p. induction cs as [|c cs IH]; intros p Hnd Hp; [done|]. rewrite fmap_cons in Hnd. apply NoDup_cons in Hnd as [Hni Hnd].
  cbn [foldl]. assert ((absorb ic ingress base p c).2 = add_status c (status_at ic ingress base c) p.2) as Ea.
  { unfold absorb, status_at. by destruct (classify ic ingress base c). }
  assert (∀ m, m ≠ cl_name c → add_status c (status_at ic ingress base c) p.2 !! m = p.2 !! m) as Hne.
  { intros m Hm. unfold add_status. destruct (status_at _ _ _ _); [|done]. by rewrite lookup_insert_ne. }
  rewrite IH; [|done|].
  - rewrite Ea. cbn [list_find]. case_decide as Hc.
    + destruct Hc as [<- [s Hs]]. rewrite Hs. rewrite (proj2 (list_find_None _ _)).
      * cbn. rewrite lookup_insert_eq. by rewrite (Hp c) by set_solver.
      * apply Forall_forall. intros c' Hc' [Hn _]. apply Hni. rewrite <-Hn. by apply list_elem_of_fmap_2.
    + destruct (list_find _ cs) as [[i c']|] eqn:Ef; cbn; [done|].
      destruct (decide (n = cl_name c)) as [->|Hn]; [|by apply Hne].
      destruct (status_at ic ingress base c) eqn:Es; [|done]. exfalso. apply Hc. by split; [|eexists].
  - intros c' Hc'. rewrite Ea, Hne; [apply Hp; set_solver|]. intros Hn. apply Hni. rewrite <-Hn. by apply list_elem_of_fmap_2.
Qed.

(** What the controller is to do in a cluster: create the ingress where it is wanted and may
    be created, once a first cluster is elected; update it where it is wanted and differs;
    delete it where it is not wanted. *)
Inductive needs ic (ingress : NamespacedName) base c : FederatedOperation Ingress → Prop :=
  | needs_create : sent base c = Ok true → held ic ingress c = None → elected ic base → may_create base c →
      needs ic ingress base c (create_op ingress base c)
  | needs_update ci : sent base c = Ok true → held ic ingress c = Some (Typed ci) →
      ObjectMetaAndSpecEquivalent base ci = false → needs ic ingress base c (update_op ingress base c ci)
  | needs_delete i : sent base c = Ok false → held ic ingress c = Some i →
      needs ic ingress base c (delete_op ingress base c).

Lemma op_at_needs ic ingress base c op :
  continues ic ingress base c → op_at ic ingress base c = Some op ↔ needs ic ingress base c op.
Proof.
  intros (op'&st&E). unfold op_at. rewrite E. unfold classify in E.
  destruct (sent base c) as [[|]|e] eqn:Es; [| |done].
  - destruct (held ic ingress c) as [[ci|]|] eqn:Eh; [|done|].
    + destruct (decide _); [done|]. destruct (_ && _); [done|]. injection E as <- _.
      destruct (ObjectMetaAndSpecEquivalent base ci) eqn:Eq; split; try done.
      * intros Hn. inversion Hn; subst; congruence.
      * intros [= <-]. by apply (needs_update _ _ _ _ ci).
      * intros Hn. inversion Hn; subst; congruence.
    + destruct (decide (elected ic base)); [|done]. injection E as <- _.
      destruct (decide (may_create base c)); split; try done.
      * intros [= <-]. by apply needs_create.
      * intros Hn. inversion Hn; subst; congruence.
      * intros Hn. inversion Hn; subst; congruence.
  - injection E as <- _. destruct (held ic ingress c) eqn:Eh; split; try done.
    + intros [= <-]. by eapply needs_delete.
    + intros Hn. inversion Hn; subst; congruence.
    + intros Hn. inversion Hn; subst; congruence.
Qed.

Lemma needs_cluster ic ingress base c op : needs ic ingress base c op → op_cluster op = cl_name c.
Proof. by intros []. Qed.

Lemma omap_needs ic ingress base (cs : list Cluster) op :
  (∀ c, c ∈ cs → continues ic ingress base c) →
  op ∈ omap (op_at ic ingress base) cs ↔ ∃ c, c ∈ cs ∧ needs ic ingress base c op.
Proof.
  intros Hc. rewrite list_elem_of_omap. split; intros (c&Hin&Hn); exists c; (split; [done|]); by apply op_at_needs; [apply Hc|].
Qed.

Lemma omap_clusters_NoDup ic ingress base (cs : list Cluster) :
  NoDup (cl_name <$> cs) → (∀ c, c ∈ cs → continues ic ingress base c) →
  NoDup (op_cluster <$> omap (op_at ic ingress base) cs).
Proof.
  induction cs as [|c cs IH]; intros Hnd Hc; [constructor|]. rewrite fmap_cons in Hnd. apply NoDup_cons in Hnd as [Hni Hnd].
  rewrite omap_cons_list. destruct (op_at ic ingress base c) as [op|] eqn:E; [|apply IH; [done|set_solver]].
  rewrite fmap_app. cbn [option_list fmap list_fmap app]. apply NoDup_cons. split; [|apply IH; [done|set_solver]].
  apply op_at_needs in E; [|apply Hc; set_solver]. rewrite (needs_cluster _ _ _ _ _ E).
  intros (op'&En&Hop)%list_elem_of_fmap. apply omap_needs in Hop as (c'&Hc'&Hn'); [|set_solver].
  apply Hni, list_elem_of_fmap. exists c'. split; [|done]. rewrite En. by eapply needs_cluster.
Qed.
End facts.

(** ** Delivery *)

Section delivery.
Context `{Kubernetes W, GoMapOrder, Schedule}.
Implicit Types ic : IngressController W.

(** What [time.Now()] says, called again and again. *)
Inductive readings : W → list Z → W → Prop :=
  | readings_nil w : readings w [] w
  | readings_cons w t w1 ts w2 : Now w = (Val t, w1) → readings w1 ts w2 → readings w (t :: ts) w2.
Lemma readings_app w ts w1 ts' w2 : readings w ts w1 → readings w1 ts' w2 → readings w (ts ++ ts') w2.
Proof. induction 1; [done|]. intros ?. econstructor; [done|auto]. Qed.

Lemma call_inv {A} (m : M W A) ic a ic' :
  call m ic = (Val a, ic') → ∃ w', m (apis ic) = (Val a, w') ∧ ic' = set_apis w' ic.
Proof. unfold call, zoom. destruct (m (apis ic)) as [o w']. intros [= -> <-]. by exists w'. Qed.

Lemma call_run {A} (m : M W A) ic a w' : m (apis ic) = (Val a, w') → call m ic = (Val a, set_apis w' ic).
Proof. unfold call, zoom. by intros ->. Qed.

(** The ingress has been asked for again, to be looked at between [lo] and [hi] from the
    time of asking. *)
Definition requested (ingress : NamespacedName) (lo hi : Z) ic ic' : Prop :=
  ∃ t d w0 w1, Now w0 = (Val t, w1) ∧ (lo ≤ d ≤ hi)%Z ∧
    ingressDeliverer ic' = ingressDeliverer ic ++ [mkItem (nn_string ingress) ingress (t + d)%Z].

(** The back-off manager of the controller, in a state it can be in. *)
Definition backoff_ok ic : Prop :=
  backoff_inv (ingressBackoff ic) ∧ defaultDuration (ingressBackoff ic) = (5 * Second)%Z ∧
  maxDuration (ingressBackoff ic) = (60 * Second)%Z.

Definition in_backoff (ingress : NamespacedName) ic : Prop :=
  is_Some (perItemBackoff (ingressBackoff ic) !! nn_string ingress).

(** A reading of the clock. *)
Definition tick (w w' : W) : Prop := ∃ t, Now w = (Val t, w').

Lemma deliverIngress_run ingress delay failed ic ic' :
  backoff_ok ic → (0 ≤ delay ≤ 10 * Second)%Z → deliverIngress ingress delay failed ic = (Val tt, ic') →
  requested ingress (if failed then delay + 5 * Second else delay) (if failed then delay + 60 * Second else delay) ic ic' ∧
  backoff_ok ic' ∧ (in_backoff ingress ic' ↔ failed = true) ∧
  rtc tick (apis ic) (apis ic').
Proof.
  intros (Hb&Hd&Hm) Hdel. unfold deliverIngress, ingress_DeliverAfter, in_backoff.
  assert (∀ n w0 t0, backoff_inv (Next (nn_string ingress) n t0 (ingressBackoff (set_apis w0 ic)))) as Hnext
    by (intros n w0 t0; apply (run_op_inv (ONext (nn_string ingress) n t0) _ Hb)).
  destruct failed; intros Hr.
  - apply bind_val_inv in Hr as (d&ic1&Hd1&Hr).
    apply bind_val_inv in Hd1 as (t1&ic2&Ht1&Hd1). apply call_inv in Ht1 as (w1&Ht1&->).
    apply bind_val_inv in Hd1 as (t2&ic3&Ht2&Hd1). apply call_inv in Ht2 as (w2&Ht2&->).
    apply bind_val_inv in Hd1 as ([]&ic4&[= <-]&Hd1). cbv [gets] in Hd1. injection Hd1 as Hd1 <-.
    apply bind_val_inv in Hr as (t3&ic5&Ht3&[= <-]). apply call_inv in Ht3 as (w3&Ht3&->).
    cbn in *. set (b' := Next _ _ _ _) in *.
    assert ((defaultDuration b' ≤ Get (nn_string ingress) b' ≤ maxDuration b')%Z) as Hg.
    { unfold Get. assert (∃ e, perItemBackoff b' !! nn_string ingress = Some e) as [e He]
        by (subst b'; unfold Next; cbn; rewrite lookup_insert_eq; by eexists).
      rewrite He. apply (proj2 (Hnext t1 (apis ic) t2) (nn_string ingress) e He). }
    replace (defaultDuration b') with (5 * Second)%Z in Hg by (by rewrite <-Hd).
    replace (maxDuration b') with (60 * Second)%Z in Hg by (by rewrite <-Hm).
    rewrite wrap64_id in Hd1 by (unfold int64_min, int64_max, Second in *; lia).
    split_and!.
    + exists t3, d, w2, w3. split_and!; [done|lia|lia|done].
    + split; [apply (Hnext t1 (apis ic) t2)|done].
    + split; [done|]. intros _. subst b'. unfold Next. cbn. rewrite lookup_insert_eq. by eexists.
    + eapply rtc_l; [by exists t1|]. eapply rtc_l; [by exists t2|]. apply rtc_once. by exists t3.
  - apply bind_val_inv in Hr as (d&ic1&Hd1&Hr). apply bind_val_inv in Hd1 as ([]&ic4&[= <-]&Hd1).
    cbv [mret M_ret] in Hd1. injection Hd1 as <- <-.
    apply bind_val_inv in Hr as (t3&ic5&Ht3&[= <-]). apply call_inv in Ht3 as (w3&Ht3&->). cbn in *.
    split_and!.
    + exists t3, delay, (apis ic), w3. split_and!; [done|lia|lia|done].
    + split; [apply (run_op_inv (OReset (nn_string ingress)) _ Hb)|done].
    + rewrite lookup_delete_eq. split; [by intros []|done].
    + apply rtc_once. by exists t3.
Qed.

Lemma requested_mono ingress lo hi lo' hi' ic ic' :
  (lo' ≤ lo)%Z → (hi ≤ hi')%Z → requested ingress lo hi ic ic' → requested ingress lo' hi' ic ic'.
Proof. intros ? ? (t&d&w0&w1&?&?&?). exists t, d, w0, w1. split_and!; [done|lia|lia|done]. Qed.

(** Every delivery the controller makes is within [delay] and seventy seconds. *)
Lemma deliver_soon ingress delay failed ic ic' :
  backoff_ok ic → (0 ≤ delay ≤ 10 * Second)%Z → deliverIngress ingress delay failed ic = (Val tt, ic') →
  requested ingress delay (70 * Second) ic ic' ∧ backoff_ok ic'.
Proof.
  intros Hb Hd Hr. destruct (deliverIngress_run _ _ _ _ _ Hb Hd Hr) as (Hq&Hb'&_). split; [|done].
  destruct failed; eapply requested_mono; try exact Hq; unfold Second in *; lia.
Qed.

(** The answer of an API server is always followed by a delivery. *)
Lemma answered {A} (m : M W (result A)) ingress ic ic' :
  backoff_ok ic →
  (r ← call m; match r with
               | Err _ => deliverIngress ingress ingressReviewDelay true
               | Ok _ => deliverIngress ingress smallDelay false
               end) ic = (Val tt, ic') →
  requested ingress (3 * Second) (70 * Second) ic ic' ∧ backoff_ok ic'.
Proof.
  intros Hb (r&ic1&Hr&Hd)%bind_val_inv. apply call_inv in Hr as (w1&_&->).
  assert (backoff_ok (set_apis w1 ic)) as Hb1 by exact Hb.
  assert (∀ delay failed, (3 * Second ≤ delay ≤ 10 * Second)%Z →
    deliverIngress ingress delay failed (set_apis w1 ic) = (Val tt, ic') →
    requested ingress (3 * Second) (70 * Second) ic ic' ∧ backoff_ok ic') as Hsoon.
  { intros delay failed Hdel Hrun. apply deliver_soon in Hrun as [Hq ?]; [|done|unfold Second in *; lia].
    split; [|done]. eapply requested_mono; [|reflexivity|exact Hq]. lia. }
  destruct r; (eapply Hsoon; [|exact Hd]); unfold ingressReviewDelay, smallDelay, Second; lia.
Qed.

Lemma updateAnnotation_run base key value ic ic' :
  backoff_ok ic → updateAnnotationOnIngress base key value ic = (Val tt, ic') →
  requested (nn_of_meta (ing_meta base)) (3 * Second) (70 * Second) ic ic' ∧ backoff_ok ic'.
Proof. intros Hb. by apply answered. Qed.

Lemma copy_status_run ingress base s ic ic' :
  backoff_ok ic → copy_status ingress base s ic = (Val tt, ic') →
  requested ingress (3 * Second) (70 * Second) ic ic' ∧ backoff_ok ic'.
Proof. intros Hb. by apply answered. Qed.

(** ** Properties of one review *)

(** Nothing is left to do for a base ingress: every cluster is as it should be, and the
    published status is current. *)
Definition up_to_date ic ingress base : Prop :=
  ∃ cs, GetReadyClusters (ingressFederatedInformer ic) = Ok cs ∧
    (∀ c, c ∈ cs → continues ic ingress base c ∧ ∀ op, ¬ needs ic ingress base c op) ∧
    map_get (Annotations (ing_meta base)) globalIngressLBStatus =
      Some (BuildGlobalLbStatusAnnotation (foldl (absorb ic ingress base) ([], ∅) cs).2).
Definition bad_selector ic base : Prop :=
  ∃ cs c e, GetReadyClusters (ingressFederatedInformer ic) = Ok cs ∧ c ∈ cs ∧ sent base c = Err e.

Lemma needs_apis w ic ingress base c op : needs ic ingress base c op → needs (set_apis w ic) ingress base c op.
Proof. intros []; [by apply needs_create|by apply needs_update|by eapply needs_delete]. Qed.
Lemma up_to_date_apis w ic ingress base : up_to_date (set_apis w ic) ingress base → up_to_date ic ingress base.
Proof.
  intros (cs&Hr&Hc&Hs). exists cs. split; [exact Hr|]. split; [|exact Hs].
  intros c Hin. destruct (Hc c Hin) as [Hcont Hn]. split; [exact Hcont|].
  intros op Hop. by apply (Hn op), needs_apis.
Qed.

Lemma classify_GiveUp ic ingress base c : classify ic ingress base c = Exit GiveUp → ∃ e, sent base c = Err e.
Proof. unfold classify. destruct (sent base c) as [[|]|e]; [| |by exists e]; repeat case_match; by intros [=]. Qed.

Lemma sync_clusters_run ingress base ic ic' :
  backoff_ok ic → nn_of_meta (ing_meta base) = ingress → sync_clusters ingress base ic = (Val tt, ic') →
  backoff_ok ic' ∧
  (requested ingress (3 * Second) (70 * Second) ic ic' ∨
   (ic' = ic ∧ (bad_selector ic base ∨ up_to_date ic ingress base))).
Proof.
  intros Hb Hn Hr. unfold sync_clusters in Hr. rewrite (bind_val get _ ic ic ic eq_refl) in Hr.
  destruct (GetReadyClusters _) as [cs|e] eqn:Ec.
  2:{ apply deliver_soon in Hr as [Hq Hb']; [|done|unfold clusterAvailableDelay, Second; lia].
      split; [done|left]. eapply requested_mono; [| |exact Hq]; unfold clusterAvailableDelay, Second; lia. }
  apply bind_val_inv in Hr as (r&ic1&Hl&Hr). apply loop_inv in Hl. destruct r as [p|[]].
  - destruct Hl as (Hc&->&->). unfold propagate in Hr. pose proof (absorb_ops ic ingress base cs ([], ∅)) as Ho.
    destruct (foldl _ _ cs) as [ops lb] eqn:Ef. cbn [fst app] in Ho.
    destruct (map_get _ _) as [old|] eqn:Eo.
    + case_bool_decide as Hneq.
      { apply updateAnnotation_run in Hr as [Hq ?]; [|done]. rewrite Hn in Hq. by split; [|left]. }
      case_bool_decide as Hz.
      { cbv [mret M_ret] in Hr. injection Hr as <-. split; [done|right]. split; [done|right].
        exists cs. split; [done|]. split.
        - intros c Hin. split; [by apply Hc|]. intros op Hop. apply nil_length_inv in Hz. subst ops.
          assert (op ∈ omap (op_at ic ingress base) cs) as Hin' by (apply omap_needs; eauto).
          rewrite Hz in Hin'. by apply not_elem_of_nil in Hin'.
        - rewrite Ef, Eo. f_equal. symmetry. exact Hneq. }
      rewrite (bind_val get _ ic ic ic eq_refl) in Hr. apply bind_val_inv in Hr as (err&ic2&Hu&Hr).
      apply call_inv in Hu as (w&_&->).
      destruct err; apply deliver_soon in Hr as [Hq ?]; try exact Hb; try (unfold ingressReviewDelay, Second; lia);
        (split; [done|left]); (eapply requested_mono; [| |exact Hq]); unfold ingressReviewDelay, Second; lia.
    + apply updateAnnotation_run in Hr as [Hq ?]; [|done]. rewrite Hn in Hq. by split; [|left].
  - cbv [mret M_ret] in Hr. injection Hr as ->. destruct Hl as (c&a&Hin&Ha&Hp). destruct a as [k v|s|]; cbn in Hp.
    + apply updateAnnotation_run in Hp as [Hq ?]; [|done]. rewrite Hn in Hq. by split; [|left].
    + apply copy_status_run in Hp as [Hq ?]; [|done]. by split; [|left].
    + cbv [mret M_ret] in Hp. injection Hp as <-. split; [done|right]. split; [done|left].
      apply classify_GiveUp in Ha as [e He]. by exists cs, c, e.
Qed.
End delivery.

(** ** What the member clusters end up with *)

Lemma equivalent_names (a b : ObjectMeta) : ObjectMetaEquivalent a b = true → Name a = Name b ∧ Namespace a = Namespace b.
Proof. intros Hab%ObjectMetaEquivalent_spec. tauto. Qed.

(** An object carries a federated one: the specification is the same, and so are all labels
    and annotations that the federated one has. *)
Definition carries (base o : Ingress) : Prop :=
  ing_spec o = ing_spec base ∧
  (∀ k v, map_get (Labels (ing_meta base)) k = Some v → map_get (Labels (ing_meta o)) k = Some v) ∧
  (∀ k v, map_get (Annotations (ing_meta base)) k = Some v → map_get (Annotations (ing_meta o)) k = Some v).

Lemma merged_get (base cluster : gomap string) k :
  map_get (map_merge base (map_make cluster)) k =
    match map_get base k with Some v => Some v | None => map_get cluster k end.
Proof. rewrite map_get_merge by (by eexists). by rewrite map_get_make. Qed.

Lemma create_carries base : carries base (new_ingress (DeepCopyRelevantObjectMeta (ing_meta base)) (ing_spec base)).
Proof. by split_and!. Qed.
Lemma update_carries base ci : carries base (new_ingress (merged_meta (ing_meta base) (ing_meta ci)) (ing_spec base)).
Proof. split_and!; [done| |]; intros k v E; cbn [merged_meta new_ingress with_labels with_annotations ing_meta Labels Annotations];
  by rewrite merged_get, E. Qed.
Lemma equivalent_carries base ci : ObjectMetaAndSpecEquivalent base ci = true → carries base ci.
Proof.
  unfold ObjectMetaAndSpecEquivalent. rewrite andb_true_iff, ObjectMetaEquivalent_spec, bool_decide_eq_true.
  intros [(_&_&Hl&Ha) Hs]. split_and!; [done| |]; intros k v <-; [by rewrite Hl|by rewrite Ha].
Qed.

Section converge.
Context `{K : Kubernetes W, GoMapOrder, Schedule}.
Context `{L : !MemberLaws member_create_ingress member_update_ingress member_delete_ingress}.
Implicit Types (ic : IngressController W) (base : Ingress) (c : Cluster).

(** The contract of the member clusters: clients talk to their cluster, objects are stored
    under their names, with the specification, labels and annotations they were sent with,
    and reading the clock changes nothing. *)
Record member_contract : Prop := {
  mc_client : ∀ c cs, clientFactory c = Ok cs → client_cluster cs = cl_name c;
  mc_key : ∀ o, obj_key o = objName o;
  mc_same : ∀ o o', same o o' → ing_spec o' = ing_spec o ∧
    (∀ k, map_get (Labels (ing_meta o')) k = map_get (Labels (ing_meta o)) k) ∧
    (∀ k, map_get (Annotations (ing_meta o')) k = map_get (Annotations (ing_meta o)) k);
  mc_now : ∀ w t w', Now w = (Val t, w') → ∀ n k, stored_at w' n k = stored_at w n k
}.

(** The caches of an ingress show what the clusters hold. *)
Record cache_accurate ic (ingress : NamespacedName) : Prop := {
  ca_clusters : clusters_wf (clusterStore (ingressFederatedInformer ic));
  ca_held : ∀ c, ready_in (ingressFederatedInformer ic) (cl_name c) c →
    held ic ingress c = Typed <$> stored_at (apis ic) (cl_name c) (nn_string ingress);
  ca_names : ∀ n i, stored_at (apis ic) n (nn_string ingress) = Some i → objName i = nn_string ingress
}.

(** A cluster is as the federated ingress asks: without the ingress where the selector does
    not send it, with it where it does, unless it still waits for the first cluster. *)
Definition in_place ic (ingress : NamespacedName) base (w : W) c : Prop :=
  match sent base c with
  | Ok false => stored_at w (cl_name c) (nn_string ingress) = None
  | Ok true => may_create base c ∨ is_Some (held ic ingress c) →
      ∃ o, stored_at w (cl_name c) (nn_string ingress) = Some o ∧ carries base o
  | Err _ => False
  end.

Lemma ticks_stored (HC : member_contract) w w' :
  rtc tick w w' → ∀ n k, stored_at w' n k = stored_at w n k.
Proof using Type*.
  induction 1 as [|w w1 w2 [t Ht] _ IH]; intros n k; [done|]. rewrite IH. by eapply mc_now.
Qed.

Lemma carries_same (HC : member_contract) base o o' : carries base o → same o o' → carries base o'.
Proof.
  intros (Hs&Hl&Ha) (Hs'&Hl'&Ha')%(mc_same HC). split_and!; [congruence| |]; intros k v E; [rewrite Hl'|rewrite Ha']; auto.
Qed.

Lemma informer_client (HC : member_contract) ic n cs :
  clusters_wf (clusterStore (ingressFederatedInformer ic)) →
  GetClientsetForCluster clientFactory n (ingressFederatedInformer ic) = Ok cs → client_cluster cs = n.
Proof.
  intros Hw. unfold GetClientsetForCluster, GetReadyCluster. destruct (clusterStore _ !! n) as [[cl|]|] eqn:E; [|done|done].
  destruct (FedInformer.isClusterReady cl); [|done]. intros ->%(mc_client HC).
  destruct (Hw _ _ E) as (c'&[= <-]&?). done.
Qed.

Lemma needs_cell (HC : member_contract) ic ingress base c op :
  cache_accurate ic ingress → ready_in (ingressFederatedInformer ic) (cl_name c) c →
  nn_of_meta (ing_meta base) = ingress → needs ic ingress base c op →
  obj_key (op_obj op) = nn_string ingress.
Proof.
  intros [Hw Hh Hn] Hr <- Hop. rewrite (mc_key HC).
  destruct Hop as [Hs Hnone|ci Hs Hheld Heq|i Hs Hheld]; [done| |done]. cbn.
  rewrite (Hh _ Hr) in Hheld. apply fmap_Some in Hheld as (i&Hst&[= ->]). by apply Hn in Hst.
Qed.

(** When every needed operation is done, the cluster is in place. *)
Lemma needs_in_place (HC : member_contract) ic ingress base c w' :
  cache_accurate ic ingress → ready_in (ingressFederatedInformer ic) (cl_name c) c →
  continues ic ingress base c →
  (∀ op, needs ic ingress base c op → op_done member_create_ingress member_update_ingress member_delete_ingress op w' ∧
    obj_key (op_obj op) = nn_string ingress) →
  ((∀ op, ¬ needs ic ingress base c op) → stored_at w' (cl_name c) (nn_string ingress) = stored_at (apis ic) (cl_name c) (nn_string ingress)) →
  in_place ic ingress base w' c.
Proof.
  intros [Hw Hh Hn] Hr Hcont Hdone Hsame. pose proof (op_at_needs ic ingress base c) as Hop.
  unfold in_place. specialize (Hh c Hr).
  assert (sent base c = Ok true → held ic ingress c = None → elected ic base) as Hel.
  { intros Hs Hnone. destruct Hcont as (op&st&E). unfold classify in E. rewrite Hs, Hnone in E. by destruct (decide (elected ic base)). }
  destruct (sent base c) as [[|]|e] eqn:Es.
  - destruct (held ic ingress c) as [[ci|]|] eqn:Eh.
    + intros _. destruct (ObjectMetaAndSpecEquivalent base ci) eqn:Eq.
      * exists ci. split; [|by apply equivalent_carries]. rewrite Hsame.
        -- destruct (stored_at (apis ic) _ _); [|done]. by injection Hh as ->.
        -- intros op Hop'. inversion Hop'; subst; congruence.
      * destruct (Hdone (update_op ingress base c ci)) as [Hd Hk]; [by apply needs_update|].
        unfold op_done in Hd. rewrite Hk in Hd. cbn in Hd. destruct Hd as (o&?&?). exists o. split; [done|].
        eapply carries_same; [done|apply update_carries|done].
    + by destruct (stored_at (apis ic) _ _).
    + intros [Hm|[? ?]]; [|done]. destruct (Hdone (create_op ingress base c)) as [Hd Hk]; [apply needs_create; auto|].
      unfold op_done in Hd. rewrite Hk in Hd. cbn in Hd. destruct Hd as (o&?&?). exists o. split; [done|].
      eapply carries_same; [done|apply create_carries|done].
  - destruct (held ic ingress c) as [i|] eqn:Eh.
    + destruct (Hdone (delete_op ingress base c)) as [Hd Hk]; [by eapply needs_delete|].
      unfold op_done in Hd. by rewrite Hk in Hd.
    + rewrite Hsame; [|intros op Hop'; inversion Hop'; congruence]. by destruct (stored_at (apis ic) _ _).
  - destruct Hcont as (op&st&E). unfold classify in E. by rewrite Es in E.
Qed.
End converge.

Section review.
Context `{K : Kubernetes W, GoMapOrder, Schedule}.
Implicit Types (ic : IngressController W) (base : Ingress) (c : Cluster).

(** The controller has the ingress, which is not being deleted and has its finalizers. *)
Definition reviewable ic (ingress : NamespacedName) base : Prop :=
  isSynced ic = true ∧ ingressInformerStore ic !! nn_string ingress = Some (Typed base) ∧
  nn_of_meta (ing_meta base) = ingress ∧ DeletionTimestamp (ing_meta base) = None ∧
  FinalizerDeleteFromUnderlyingClusters ∈ Finalizers (ing_meta base) ∧
  FinalizerOrphanDependents ∈ Finalizers (ing_meta base).

Lemma reconcile_reviewable ic ingress base :
  reviewable ic ingress base → reconcileIngress ingress ic = sync_clusters ingress base ic.
Proof.
  intros (Hs&Hb&_&Hd&Hf1&Hf2). unfold reconcileIngress. rewrite (bind_val get _ ic ic ic eq_refl), Hs, Hb, Hd.
  rewrite bool_decide_eq_false_2 by tauto. cbn [negb].
  rewrite (bind_val _ _ ic (Ok base) ic); [done|].
  assert (set_apis (apis ic) ic = ic) as E by (by destruct ic).
  rewrite <-E at 2. by apply call_run, EnsureFinalizers_id.
Qed.

Lemma sync_clusters_plan ic ingress base cs :
  GetReadyClusters (ingressFederatedInformer ic) = Ok cs → (∀ c, c ∈ cs → continues ic ingress base c) →
  sync_clusters ingress base ic = propagate ingress base (foldl (absorb ic ingress base) ([], ∅) cs) ic.
Proof.
  intros Hr Hc. unfold sync_clusters. rewrite (bind_val get _ ic ic ic eq_refl), Hr.
  by rewrite (bind_val _ _ ic (inl (foldl (absorb ic ingress base) ([], ∅) cs)) ic) by (by apply loop_continues).
Qed.

(** The published status is the one the clusters report. *)
Definition status_current ic ingress base (cs : list Cluster) : Prop :=
  map_get (Annotations (ing_meta base)) globalIngressLBStatus =
    Some (BuildGlobalLbStatusAnnotation (foldl (absorb ic ingress base) ([], ∅) cs).2).

Lemma sync_clusters_update ic ingress base cs ic' :
  backoff_ok ic → GetReadyClusters (ingressFederatedInformer ic) = Ok cs →
  (∀ c, c ∈ cs → continues ic ingress base c) → status_current ic ingress base cs →
  sync_clusters ingress base ic = (Val tt, ic') →
  let ops := omap (op_at ic ingress base) cs in
  (ops = [] ∧ ic' = ic) ∨
  ∃ err w, fu_Update (FederatedUpdater := federatedIngressUpdater ic) ops (apis ic) = (Val err, w) ∧
    rtc tick w (apis ic') ∧ (in_backoff ingress ic' ↔ err ≠ None).
Proof.
  intros Hb Hr Hc Hst Hrun. rewrite (sync_clusters_plan ic ingress base cs Hr Hc) in Hrun.
  pose proof (absorb_ops ic ingress base cs ([], ∅)) as Ho. unfold status_current in Hst.
  destruct (foldl _ _ cs) as [ops lb]. cbn [fst snd app] in *. subst ops. cbv zeta.
  unfold propagate in Hrun. rewrite Hst in Hrun. rewrite bool_decide_eq_false_2 in Hrun by tauto.
  case_bool_decide as Hz; [apply nil_length_inv in Hz; cbv [mret M_ret] in Hrun; injection Hrun as <-; by left|].
  right. rewrite (bind_val get _ ic ic ic eq_refl) in Hrun. apply bind_val_inv in Hrun as (err&ic1&Hu&Hd).
  apply call_inv in Hu as (w&Hu&->). exists err, w. split; [exact Hu|].
  assert (backoff_ok (set_apis w ic)) as Hb1 by exact Hb.
  destruct err; apply deliverIngress_run in Hd as (_&_&Hbk&Ht); try exact Hb1;
    try (unfold ingressReviewDelay, Second; lia); (split; [exact Ht|]); rewrite Hbk; split; done.
Qed.

Lemma status_at_spec ic ingress base c s :
  continues ic ingress base c → status_at ic ingress base c = Some s ↔
  ∃ ci, sent base c = Ok true ∧ held ic ingress c = Some (Typed ci) ∧ LBIngress (ing_status ci) ≠ [] ∧ s = ing_status ci.
Proof.
  intros (op&st&E). unfold status_at. rewrite E. unfold classify in E.
  destruct (sent base c) as [[|]|e]; [| |done].
  - destruct (held ic ingress c) as [[ci|]|]; [|done|].
    + destruct (decide _); [done|]. destruct (_ && _); [done|]. injection E as _ <-.
      unfold lb_of, lb_exists. case_bool_decide; naive_solver.
    + destruct (decide _); [|done]. injection E as _ <-. naive_solver.
  - injection E as _ <-. naive_solver.
Qed.

(** The statuses the loop collects. *)
Lemma collected_status ic ingress base cs n l :
  NoDup (cl_name <$> cs) → (∀ c, c ∈ cs → continues ic ingress base c) →
  (foldl (absorb ic ingress base) ([], ∅) cs).2 !! n = Some l ↔
  ∃ c ci, c ∈ cs ∧ cl_name c = n ∧ sent base c = Ok true ∧ held ic ingress c = Some (Typed ci) ∧
    LBIngress (ing_status ci) ≠ [] ∧ l = [ing_status ci].
Proof.
  intros Hnd Hc. rewrite absorb_status by (done || (intros; apply lookup_empty)).
  destruct (list_find _ cs) as [[i c]|] eqn:Ef.
  - apply list_find_Some in Ef as (Hi&[Hn [s Hs]]&_). assert (c ∈ cs) as Hin by (by eapply list_elem_of_lookup_2).
    rewrite Hs. cbn. apply status_at_spec in Hs as (ci&?&?&?&->); [|by apply Hc]. split.
    + intros [= <-]. by exists c, ci.
    + intros (c'&ci'&Hin'&Hn'&?&?&?&->). assert (c' = c) as ->; [|congruence].
      apply list_elem_of_lookup in Hin' as [j Hj]. rewrite <-Hn in Hn'.
      assert (j = i) as ->; [|congruence].
      apply (NoDup_lookup (cl_name <$> cs) j i (cl_name c) Hnd); rewrite list_lookup_fmap; [rewrite Hj|rewrite Hi]; cbn; congruence.
  - apply list_find_None in Ef. cbn. rewrite lookup_empty. split; [done|].
    intros (c&ci&Hin&Hn&?&?&?&->). rewrite Forall_forall in Ef. destruct (Ef c Hin). split; [done|].
    exists (ing_status ci). apply status_at_spec; [by apply Hc|]. by exists ci.
Qed.

(** The published annotation: it is there already, or it is written. *)
Lemma propagate_publishes ingress base ops lb ic :
  plain_lb_map lb →
  parseGlobalLbStatusAnnotation base = Ok (Some lb) ∨
  ∃ value, propagate ingress base (ops, lb) ic = updateAnnotationOnIngress base globalIngressLBStatus value ic ∧
    parseGlobalLbStatusAnnotation (annotate base globalIngressLBStatus value) = Ok (Some lb).
Proof.
  intros Hp. unfold propagate.
  assert (parseGlobalLbStatusAnnotation (annotate base globalIngressLBStatus (BuildGlobalLbStatusAnnotation lb)) = Ok (Some lb)) as Hpa.
  { unfold parseGlobalLbStatusAnnotation, annotate. cbn [ing_meta ing_with_meta with_annotations Annotations].
    rewrite lookup_insert_eq. by rewrite unmarshal_Build. }
  destruct (map_get _ _) as [old|] eqn:Eo; [|by right; eexists].
  case_bool_decide as Hneq; [by right; eexists|left]. subst old.
  unfold parseGlobalLbStatusAnnotation. unfold map_get in Eo. destruct (Annotations _) as [a|]; [|done].
  cbn [mbind option_bind] in Eo. rewrite Eo. by rewrite unmarshal_Build.
Qed.
End review.

(** ** Properties *)

(** C1: one review brings the ingress to every cluster: when the caches are accurate, the
    first cluster is elected where it has to be and the published status is current, then
    unless an update failed, in which case the ingress is in back-off and will be reviewed
    again, afterwards every ready cluster is as the ingress asks: it holds an ingress with
    the federated specification, labels and annotations where the cluster selector sends it
    (and it is not waiting for the first cluster to get the global IP), it holds none where
    the selector does not, and nothing else in any cluster has changed. *)
Theorem reconcileIngress_converges `{K : Kubernetes W, GoMapOrder, Schedule}
    `{L : !MemberLaws member_create_ingress member_update_ingress member_delete_ingress}
    (ingress : NamespacedName) (base : Ingress) (cs : list Cluster) (ic ic' : IngressController W) :
  member_contract → cache_accurate ic ingress → backoff_ok ic → reviewable ic ingress base →
  GetReadyClusters (ingressFederatedInformer ic) = Ok cs →
  (∀ c, c ∈ cs → continues ic ingress base c) → status_current ic ingress base cs →
  reconcileIngress ingress ic = (Val tt, ic') →
  in_backoff ingress ic' ∨
  ((∀ c, c ∈ cs → in_place ic ingress base (apis ic') c) ∧
   (∀ n k, k ≠ nn_string ingress ∨ n ∉ cl_name <$> cs → stored_at (apis ic') n k = stored_at (apis ic) n k)).
Proof.
  intros HC Hca Hb Hrev Hr Hc Hst Hrun. rewrite (reconcile_reviewable ic ingress base Hrev) in Hrun.
  destruct Hrev as (_&_&Hname&_).
  assert (∀ c, c ∈ cs → ready_in (ingressFederatedInformer ic) (cl_name c) c) as Hready.
  { destruct (GetReadyClusters_spec _ (ca_clusters _ _ Hca)) as (cs'&E&Hin). rewrite Hr in E. injection E as <-.
    intros c. apply Hin. }
  assert (NoDup (cl_name <$> cs)) as Hnd by (eapply GetReadyClusters_NoDup; [exact clientFactory|exact (ca_clusters _ _ Hca)|exact Hr]).
  assert (∀ c op, c ∈ cs → needs ic ingress base c op → obj_key (op_obj op) = nn_string ingress) as Hkey
    by (intros c op Hin; apply needs_cell; auto).
  destruct (sync_clusters_update _ _ _ _ _ Hb Hr Hc Hst Hrun) as [[Hops ->]|(err&w&Hu&Ht&Hbk)].
  - right. split; [|done]. intros c Hin.
    assert (∀ op, ¬ needs ic ingress base c op) as Hnone.
    { intros op Hop. assert (op ∈ omap (op_at ic ingress base) cs) as Hin' by (apply omap_needs; eauto).
      rewrite Hops in Hin'. by apply not_elem_of_nil in Hin'. }
    apply needs_in_place; auto. intros op Hop. by destruct (Hnone op).
  - destruct err as [e|]; [left; by apply Hbk|right].
    pose proof (ticks_stored HC _ _ Ht) as Hticks.
    apply (Update_done _ _ _ _ (L := L)) in Hu as [Hdone Hframe].
    2:{ intros n cl. apply (informer_client HC), (ca_clusters _ _ Hca). }
    2:{ eapply (NoDup_fmap_1 fst). rewrite <-list_fmap_compose.
        apply (omap_clusters_NoDup ic ingress base cs Hnd Hc). }
    rewrite Forall_forall in Hdone. split.
    + intros c Hin. apply needs_in_place; auto.
      * intros op Hop. split; [|by eapply Hkey]. assert (op ∈ omap (op_at ic ingress base) cs) as Hin' by (apply omap_needs; eauto).
        specialize (Hdone op Hin'). unfold op_done in *. by rewrite Hticks.
      * intros Hnone. rewrite Hticks. apply Hframe. intros (op&E&Hop)%list_elem_of_fmap.
        apply omap_needs in Hop as (c'&Hc'&Hop); [|done]. unfold op_cell in E. injection E as En _.
        rewrite (needs_cluster _ _ _ _ _ Hop) in En.
        assert (c = c') as <-; [|by destruct (Hnone op)].
        destruct (Hready c Hin) as [Hx _], (Hready c' Hc') as [Hy _]. rewrite En in Hx. congruence.
    + intros n k Hnk. rewrite Hticks. apply Hframe. intros (op&E&Hop)%list_elem_of_fmap.
      apply omap_needs in Hop as (c&Hin&Hop); [|done]. unfold op_cell in E. injection E as -> ->.
      rewrite (needs_cluster _ _ _ _ _ Hop) in Hnk. destruct Hnk as [Hk|Hk]; [by apply Hk, (Hkey c)|].
      apply Hk. by apply list_elem_of_fmap_2.
Qed.

(** C15: no ingress is forgotten: whatever the API servers answer, when [reconcileIngress]
    returns it has either asked for the ingress again, within seventy seconds, or there is
    nothing to wait for: it is not a federated ingress, its deletion is complete, its
    cluster selector cannot be read, or everything is up to date.  The back-off stays within
    its bounds. *)
Theorem reconcileIngress_redelivers `{K : Kubernetes W, GoMapOrder, Schedule}
    (ingress : NamespacedName) (ic ic' : IngressController W) :
  backoff_ok ic →
  (∀ base, ingressInformerStore ic !! nn_string ingress = Some (Typed base) → nn_of_meta (ing_meta base) = ingress) →
  (∀ o o' w w', Ingresses_Update o w = (Val (Ok o'), w') → nn_of_meta (ing_meta o') = nn_of_meta (ing_meta o)) →
  reconcileIngress ingress ic = (Val tt, ic') →
  backoff_ok ic' ∧
  (requested ingress 0 (70 * Second) ic ic' ∨
   (ingressDeliverer ic' = ingressDeliverer ic ∧
    (ingressInformerStore ic !! nn_string ingress = None ∨
     ∃ base, ingressInformerStore ic !! nn_string ingress = Some (Typed base) ∧
       ((DeletionTimestamp (ing_meta base) ≠ None ∧ delete_ingress base ic = (Val None, ic')) ∨
        (∃ base' w, EnsureFinalizers Ingresses_Update base (apis ic) = (Val (Ok base'), w) ∧
           (bad_selector ic base' ∨ up_to_date ic ingress base')))))).
Proof.
  intros Hb Hstore Hserver Hrun. unfold reconcileIngress in Hrun. rewrite (bind_val get _ ic ic ic eq_refl) in Hrun.
  destruct (isSynced ic); cbn [negb] in Hrun.
  2:{ apply deliver_soon in Hrun as [Hq ?]; [|done|unfold clusterAvailableDelay, Second; lia]. split; [done|left].
      eapply requested_mono; [| |exact Hq]; unfold clusterAvailableDelay, Second; lia. }
  destruct (_ !! _) as [[base|]|] eqn:Eb; [|done|].
  2:{ cbv [mret M_ret] in Hrun. injection Hrun as <-. split; [done|right]. by split; [|left]. }
  case_bool_decide as Hdel.
  - apply bind_val_inv in Hrun as (err&ic1&Hd&Hr).
    assert (backoff_ok ic1 ∧ ingressDeliverer ic1 = ingressDeliverer ic) as [Hb1 Hd1].
    { unfold delete_ingress in Hd. rewrite (bind_val get _ ic ic ic eq_refl) in Hd.
      apply bind_val_inv in Hd as (r&ic2&Hh&Hd). apply call_inv in Hh as (w&_&->). destruct r as [o|e].
      - apply bind_val_inv in Hd as (r&ic2&Hh&Hd). apply call_inv in Hh as (w1&_&->).
        cbv [mret M_ret] in Hd. injection Hd as _ <-. by split.
      - cbv [mret M_ret] in Hd. injection Hd as _ <-. by split. }
    destruct err as [e|].
    + apply deliver_soon in Hr as [Hq ?]; [|done|unfold Second; lia]. split; [done|left].
      destruct Hq as (t&d&w0&w1&?&?&E). exists t, d, w0, w1. split_and!; [done|lia|lia|by rewrite E, Hd1].
    + cbv [mret M_ret] in Hr. injection Hr as <-. split; [done|right]. split; [done|right]. exists base. auto.
  - apply bind_val_inv in Hrun as (r&ic1&He&Hr). apply call_inv in He as (w&He&->).
    assert (backoff_ok (set_apis w ic)) as Hb1 by exact Hb. destruct r as [base'|e].
    + assert (nn_of_meta (ing_meta base') = ingress) as Hn'.
      { apply EnsureFinalizers_inv in He as [->|[l He]]; [by apply Hstore|]. apply Hserver in He. rewrite He. exact (Hstore base eq_refl). }
      apply (sync_clusters_run _ _ _ _ Hb1 Hn') in Hr as [Hb' [Hq|[-> Hdone]]].
      * split; [done|left]. eapply requested_mono; [| |exact Hq]; unfold Second; lia.
      * split; [done|right]. split; [done|right]. exists base. split; [done|right]. exists base', w. split; [exact He|].
        destruct Hdone as [Hbad|Hup]; [left; exact Hbad|right; by apply up_to_date_apis in Hup].
    + apply deliver_soon in Hr as [Hq ?]; [|done|unfold Second; lia]. by split; [|left].
Qed.

(** C18: the loop plans exactly what is needed, and creation respects the first cluster: the
    operations it collects are those some ready cluster needs, at most one per cluster;
    while an ingress asks for a global IP that is not known yet, the only cluster in which
    it is created is the first cluster, which is ready.  Planning itself changes nothing. *)
Theorem plan_exact `{K : Kubernetes W, GoMapOrder, Schedule} (ingress : NamespacedName) (base : Ingress)
    (cs : list Cluster) (ic ic' : IngressController W) (ops : list (FederatedOperation Ingress))
    (lb : gmap string (list LoadBalancerStatus)) :
  clusters_wf (clusterStore (ingressFederatedInformer ic)) →
  GetReadyClusters (ingressFederatedInformer ic) = Ok cs →
  for_range cs ([], ∅) (reconcile_cluster ingress base) ic = (Val (inl (ops, lb)), ic') →
  ic' = ic ∧ (∀ op, op ∈ ops ↔ ∃ c, c ∈ cs ∧ needs ic ingress base c op) ∧ NoDup (op_cluster <$> ops) ∧
  (has_annotation base globalIngressType → ¬ has_annotation base staticIPNameKeyWritable →
   ∀ op, op ∈ ops → op_type op = OperationTypeAdd →
     op_cluster op = annotation base firstClusterAnnotation ∧ IngressController.isClusterReady (op_cluster op) ic = true).
Proof.
  intros Hw Hr Hl. apply loop_inv in Hl as (Hc&Hp&->).
  pose proof (absorb_ops ic ingress base cs ([], ∅)) as Ho. rewrite <-Hp in Ho. cbn in Ho. subst ops.
  assert (∀ op, op ∈ omap (op_at ic ingress base) cs ↔ ∃ c, c ∈ cs ∧ needs ic ingress base c op) as Hops
    by (intros op; by apply omap_needs).
  split_and!; [done|exact Hops| |].
  - apply omap_clusters_NoDup; [|done]. eapply GetReadyClusters_NoDup; [exact clientFactory|exact Hw|exact Hr].
  - intros Hg Hs op (c&_&Hn)%Hops Ht. destruct Hn as [Hsent Hnone (n&En&Hne&Hready) [Hm|[Hm|Hm]]|ci|i]; try done.
    cbn. rewrite <-Hm. split; [done|]. unfold annotation, map_get_str. by rewrite En.
Qed.

(** An update settles unless the cluster has annotations or labels of its own: the
    object sent to a cluster counts as equivalent to the federated ingress, so that the next
    review leaves it alone, exactly when every label and annotation of the cluster's
    ingress has a counterpart on the federated one. *)
Theorem update_settles (base ci : Ingress) :
  ObjectMetaAndSpecEquivalent base (new_ingress (merged_meta (ing_meta base) (ing_meta ci)) (ing_spec base)) = true ↔
  Name (ing_meta base) = Name (ing_meta ci) ∧ Namespace (ing_meta base) = Namespace (ing_meta ci) ∧
  (∀ k, is_Some (map_get (Labels (ing_meta ci)) k) → is_Some (map_get (Labels (ing_meta base)) k)) ∧
  (∀ k, has_annotation ci k → has_annotation base k).
Proof.
  unfold ObjectMetaAndSpecEquivalent, has_annotation.
  rewrite andb_true_iff, ObjectMetaEquivalent_spec, bool_decide_eq_true.
  cbn [merged_meta new_ingress with_labels with_annotations ing_meta ing_spec Labels Annotations Name Namespace].
  assert (∀ b c : gomap string, (∀ k, map_get b k = map_get (map_merge b (map_make c)) k) ↔
    ∀ k, is_Some (map_get c k) → is_Some (map_get b k)) as Hm.
  { intros b c. split; intros Hk k; specialize (Hk k); rewrite merged_get in *.
    - intros [v E]. destruct (map_get b k); [by eexists|congruence].
    - destruct (map_get b k); [done|]. destruct (map_get c k); [|done]. destruct Hk; [by eexists|done]. }
  rewrite !Hm. tauto.
Qed.

(** C25: the published status is true: once the loop gets through, the annotation that the
    DNS controller reads either says already, or is updated to say, for exactly the ready
    clusters that hold the ingress with a load balancer, what the load balancer's status
    is. *)
Theorem status_published `{K : Kubernetes W, GoMapOrder, Schedule} (ingress : NamespacedName) (base : Ingress)
    (cs : list Cluster) (ic : IngressController W) :
  clusters_wf (clusterStore (ingressFederatedInformer ic)) →
  GetReadyClusters (ingressFederatedInformer ic) = Ok cs → (∀ c, c ∈ cs → continues ic ingress base c) →
  ∃ lb,
    (∀ n l, lb !! n = Some l ↔ ∃ c ci, c ∈ cs ∧ cl_name c = n ∧ sent base c = Ok true ∧
       held ic ingress c = Some (Typed ci) ∧ LBIngress (ing_status ci) ≠ [] ∧ l = [ing_status ci]) ∧
    (plain_lb_map lb →
     parseGlobalLbStatusAnnotation base = Ok (Some lb) ∨
     ∃ value, sync_clusters ingress base ic = updateAnnotationOnIngress base globalIngressLBStatus value ic ∧
       parseGlobalLbStatusAnnotation (annotate base globalIngressLBStatus value) = Ok (Some lb)).
Proof.
  intros Hw Hr Hc. exists (foldl (absorb ic ingress base) ([], ∅) cs).2. split.
  - intros n l. apply collected_status; [|done]. eapply GetReadyClusters_NoDup; [exact clientFactory|exact Hw|exact Hr].
  - rewrite (sync_clusters_plan ic ingress base cs Hr Hc). destruct (foldl _ _ cs) as [ops lb]. cbn [snd].
    apply propagate_publishes.
Qed.

Module IngressControllerExamples.
(** Three clusters, of which two are ready; an ingress that asks for a global IP. *)
Definition cluster (name status : string) : Cluster :=
  mkCluster (mkObjectMeta name "" "" "" None None None [] "") "" [mkCondition "Ready" status] None "".
Definition clusters : Store Cluster :=
  {[ "a" := Typed (cluster "a" "True"); "b" := Typed (cluster "b" "True"); "z" := Typed (cluster "z" "False") ]}.
Definition both : list string := [FinalizerDeleteFromUnderlyingClusters; FinalizerOrphanDependents].
Definition web (annotations : gmap string string) : Ingress :=
  mkIngress (mkObjectMeta "web" "ns" "u1" "7" None None (Some annotations) both "")
    (mkSpec (Some (mkBackend "svc" (IntVal 80))) None None) (mkLBS []).
Definition name : NamespacedName := mkNsName "ns" "web".

(** A controller whose caches hold this federated ingress and, in cluster a, that one. *)
Definition with_caches (base : Ingress) (in_a : gmap string (stored Ingress)) (w : cloud) : IngressController cloud :=
  mkIC {[ "ns/web" := Typed base ]}
    (mkFedInformer clusters true {[ "a" := mkInformer in_a true; "b" := mkInformer ∅ true ]})
    (mkFedInformer clusters true {[ "a" := mkInformer ∅ true; "b" := mkInformer ∅ true ]})
    (NewBackOff (5 * Second) (60 * Second)) (NewBackOff (5 * Second) (60 * Second)) [] [] [] w.
Definition empty_cloud : cloud := mkCloud ∅ ∅ ∅ ∅ false.

(** First review: a first cluster is elected. *)
Example review_elects :
  let ic' := (reconcileIngress name (with_caches (web {[ globalIngressType := "x" ]}) ∅ empty_cloud)).2 in
  (λ i, annotation i firstClusterAnnotation) <$> (fed_ingresses (apis ic') !! "ns/web") = Some "a" ∧
  cells (apis ic') = ∅ ∧ ingressDeliverer ic' = [mkItem "ns/web" name (3 * Second)%Z].
Proof. vm_compute. repeat split; reflexivity. Qed.

(** Then the ingress is created there, and nowhere else. *)
Definition elected_web : Ingress :=
  web {[ globalIngressType := "x"; firstClusterAnnotation := "a"; globalIngressLBStatus := "{}" ]}.
Definition steady : IngressController cloud := with_caches elected_web ∅ empty_cloud.
Definition after : IngressController cloud := (reconcileIngress name steady).2.
Example review_creates :
  dom (cells (apis after)) = {[ ("a", "ns/web") ]} ∧ ingressDeliverer after = [mkItem "ns/web" name (10 * Second)%Z].
Proof. vm_compute. split; reflexivity. Qed.

Lemma steady_backoff : backoff_ok steady.
Proof.
  split; [|split; reflexivity]. split; [split; [split; reflexivity || discriminate|discriminate]|].
  intros k e E. discriminate E.
Qed.
Lemma steady_clusters : clusters_wf clusters.
Proof.
  intros n i E. unfold clusters in E.
  repeat (apply lookup_insert_Some in E as [[<- <-]|[_ E]]; [eexists; split; reflexivity|]).
  apply lookup_singleton_Some in E as [<- <-]. eexists; split; reflexivity.
Qed.
Definition ready_clusters : list Cluster :=
  match GetReadyClusters (ingressFederatedInformer steady) with Ok l => l | Err _ => [] end.
Lemma steady_continues c : c ∈ ready_clusters → continues steady name elected_web c.
Proof.
  revert c. apply Forall_forall. unfold ready_clusters.
  replace (GetReadyClusters (ingressFederatedInformer steady)) with (Ok [cluster "a" "True"; cluster "b" "True"])
    by (vm_compute; reflexivity).
  repeat constructor; eexists _, _; vm_compute; reflexivity.
Qed.
Lemma cloud_contract : member_contract (W := cloud).
Proof.
  split.
  - intros c cs E. cbn in E. by injection E as ->.
  - done.
  - intros o o' E. cbn in E. by subst.
  - intros w t w' E. cbn in E. by injection E as _ <-.
Qed.
Lemma steady_accurate : cache_accurate steady name.
Proof.
  split; [exact steady_clusters| |done]. intros c _.
  unfold held, steady, with_caches, GetByKey. cbn [ingressFederatedInformer targetInformers].
  destruct (_ !! cl_name c) as [i|] eqn:E; [|done].
  apply lookup_insert_Some in E as [[_ <-]|[_ E]]; [done|]. by apply lookup_singleton_Some in E as [_ <-].
Qed.
Lemma steady_reviewable : reviewable steady name elected_web.
Proof.
  split_and!; try (vm_compute; reflexivity); cbn; [apply list_elem_of_here|apply list_elem_of_further, list_elem_of_here].
Qed.

Lemma reconcileIngress_converges_witness :
  in_backoff name after ∨
  ((∀ c, c ∈ ready_clusters → in_place steady name elected_web (apis after) c) ∧
   (∀ n k, k ≠ nn_string name ∨ n ∉ cl_name <$> ready_clusters → stored_at (apis after) n k = stored_at (apis steady) n k)).
Proof.
  apply (reconcileIngress_converges name elected_web ready_clusters steady after).
  - exact cloud_contract.
  - exact steady_accurate.
  - exact steady_backoff.
  - exact steady_reviewable.
  - vm_compute. reflexivity.
  - exact steady_continues.
  - vm_compute. reflexivity.
  - vm_compute. reflexivity.
Defined.

Lemma reconcileIngress_redelivers_witness :
  backoff_ok after ∧
  (requested name 0 (70 * Second) steady after ∨
   (ingressDeliverer after = ingressDeliverer steady ∧
    (ingressInformerStore steady !! nn_string name = None ∨
     ∃ base, ingressInformerStore steady !! nn_string name = Some (Typed base) ∧
       ((DeletionTimestamp (ing_meta base) ≠ None ∧ delete_ingress base steady = (Val None, after)) ∨
        (∃ base' w, EnsureFinalizers Ingresses_Update base (apis steady) = (Val (Ok base'), w) ∧
           (bad_selector steady base' ∨ up_to_date steady name base')))))).
Proof.
  apply (reconcileIngress_redelivers name steady after).
  - exact steady_backoff.
  - intros base E. assert (Some (Typed elected_web) = Some (Typed base)) as E' by (rewrite <-E; vm_compute; reflexivity).
    injection E' as <-. reflexivity.
  - intros o o' w w' E. cbn in E. unfold store_fed in E. destruct (broken w); [discriminate E|]. by injection E as -> _.
  - vm_compute. reflexivity.
Defined.

Definition planned : list (FederatedOperation Ingress) := [create_op name elected_web (cluster "a" "True")].
Lemma plan_exact_witness :
  steady = steady ∧ (∀ op, op ∈ planned ↔ ∃ c, c ∈ ready_clusters ∧ needs steady name elected_web c op) ∧
  NoDup (op_cluster <$> planned) ∧
  (has_annotation elected_web globalIngressType → ¬ has_annotation elected_web staticIPNameKeyWritable →
   ∀ op, op ∈ planned → op_type op = OperationTypeAdd →
     op_cluster op = annotation elected_web firstClusterAnnotation ∧ IngressController.isClusterReady (op_cluster op) steady = true).
Proof.
  apply (plan_exact name elected_web ready_clusters steady steady planned ∅).
  - exact steady_clusters.
  - vm_compute. reflexivity.
  - vm_compute. reflexivity.
Defined.

Lemma status_published_witness :
  ∃ lb,
    (∀ n l, lb !! n = Some l ↔ ∃ c ci, c ∈ ready_clusters ∧ cl_name c = n ∧ sent elected_web c = Ok true ∧
       held steady name c = Some (Typed ci) ∧ LBIngress (ing_status ci) ≠ [] ∧ l = [ing_status ci]) ∧
    (plain_lb_map lb →
     parseGlobalLbStatusAnnotation elected_web = Ok (Some lb) ∨
     ∃ value, sync_clusters name elected_web steady = updateAnnotationOnIngress elected_web globalIngressLBStatus value steady ∧
       parseGlobalLbStatusAnnotation (annotate elected_web globalIngressLBStatus value) = Ok (Some lb)).
Proof.
  apply (status_published name elected_web ready_clusters steady).
  - exact steady_clusters.
  - vm_compute. reflexivity.
  - exact steady_continues.
Defined.

(** A cluster's ingress that its controller annotated with its static IP: it differs from the
    federated ingress after every update, and so is updated at every review. *)
Definition annotated_by_member : Ingress :=
  web {[ staticIPNameKeyWritable := "ip"; staticIPNameKeyReadonly := "ip" ]}.
Example never_settles :
  let base := web {[ staticIPNameKeyWritable := "ip" ]} in
  let sent := new_ingress (merged_meta (ing_meta base) (ing_meta annotated_by_member)) (ing_spec base) in
  ObjectMetaAndSpecEquivalent base annotated_by_member = false ∧ ObjectMetaAndSpecEquivalent base sent = false.
Proof. vm_compute. split; reflexivity. Qed.

(** A selector that cannot be read: no request, no change. *)
Example bad_selector_stops :
  let ic := with_caches (web {[ FederationClusterSelectorAnnotation := "oops" ]}) ∅ empty_cloud in
  reconcileIngress name ic = (Val tt, ic).
Proof. vm_compute. reflexivity. Qed.
End IngressControllerExamples.
