(* ===== verification/Settling.v ===== *)
(** Reviews come to rest.  [reconcileIngress] leaves its loop whenever it has something to
    write to the federated ingress (the first cluster, the static IP, the load balancer
    status), and writes the published status at its end; each write changes the ingress and
    so brings about another review.  While the clusters stay as they are, there are at most
    four such reviews: no write undoes another. *)

From S2P Require Import Prelude GoStrings Json KubeTypes LbStatus ClusterSelector FedInformer Updater Deletion Backoff Deliverer IngressController Cloud IngressControllerFacts.

Section settling.
Context `{K : Kubernetes W, GoMapOrder, Schedule}.
Context (ic : IngressController W) (ingress : NamespacedName) (cs : list Cluster).
Implicit Types (base : Ingress) (c : Cluster).

(** ** What a review writes *)

(** The first cluster at which the loop is left, if there is one. *)
Fixpoint first_exit base (cs : list Cluster) : option verdict :=
  match cs with
  | [] => None
  | c :: cs' =>
      match classify ic ingress base c with
      | Continue _ _ => first_exit base cs'
      | v => Some v
      end
  end.

(** The statuses the loop collects when it gets through. *)
Definition statuses base : gmap string (list LoadBalancerStatus) := (foldl (absorb ic ingress base) ([], ∅) cs).2.
Definition published base : Prop :=
  map_get (Annotations (ing_meta base)) globalIngressLBStatus = Some (BuildGlobalLbStatusAnnotation (statuses base)).
#[export] Instance published_dec base : Decision (published base).
Proof. unfold published. apply _. Defined.

(** The federated ingress a review writes. *)
Definition written base : option Ingress :=
  match first_exit base cs with
  | Some (Exit (Annotate key value)) => Some (annotate base key value)
  | Some (Exit (CopyStatus s)) => Some (ing_with_status s base)
  | Some _ => None
  | None =>
      if decide (published base) then None
      else Some (annotate base globalIngressLBStatus (BuildGlobalLbStatusAnnotation (statuses base)))
  end.

Lemma first_exit_None base l : first_exit base l = None ↔ ∀ c, c ∈ l → continues ic ingress base c.
Proof.
  induction l as [|c l IH]; cbn [first_exit]; [set_solver|]. unfold continues in *.
  destruct (classify ic ingress base c) as [op st|a|] eqn:E.
  - rewrite IH. split; [intros Hl c' [->|?]%elem_of_cons; eauto|intros Hl c' ?; apply Hl; set_solver].
  - split; [done|]. intros Hl. destruct (Hl c) as (?&?&?); [set_solver|congruence].
  - split; [done|]. intros Hl. destruct (Hl c) as (?&?&?); [set_solver|congruence].
Qed.

Lemma first_exit_Some base l v : first_exit base l = Some v → ∃ c, c ∈ l ∧ classify ic ingress base c = v.
Proof.
  induction l as [|c l IH]; cbn [first_exit]; [done|].
  destruct (classify ic ingress base c) as [op st|a|] eqn:E; [intros (c'&?&?)%IH; exists c'; set_solver| |];
    intros [= <-]; exists c; set_solver.
Qed.

Lemma first_exit_not_continue base l v op st : first_exit base l = Some v → v ≠ Continue op st.
Proof.
  induction l as [|c l IH]; cbn [first_exit]; [done|].
  destruct (classify ic ingress base c); [done|by intros [= <-]..].
Qed.

Lemma first_exit_run base l p v :
  first_exit base l = Some v →
  for_range l p (reconcile_cluster ingress base) ic =
    match v with
    | Exit a => exit (perform ingress base a) ic
    | _ => (Panic "interface conversion", ic)
    end.
Proof.
  revert p. induction l as [|c l IH]; intros p; cbn [first_exit]; [done|]. intros Hv. cbn [for_range].
  pose proof (reconcile_cluster_eq ic ingress base c p) as E.
  destruct (classify ic ingress base c) as [op st|a|].
  - rewrite (bind_val _ _ _ _ _ E). by apply IH.
  - injection Hv as <-. cbv [mbind M_bind]. rewrite E. unfold exit. cbv [mbind M_bind mret M_ret].
    by destruct (perform ingress base a ic) as [[[]|e] ic'].
  - injection Hv as <-. by rewrite (bind_panic _ _ _ _ _ E).
Qed.

Context (ready : GetReadyClusters (ingressFederatedInformer ic) = Ok cs).

Lemma sync_clusters_exit base a :
  first_exit base cs = Some (Exit a) → sync_clusters ingress base ic = perform ingress base a ic.
Proof.
  intros E. pose proof (first_exit_run base cs ([], ∅) _ E) as Er. cbn in Er.
  unfold sync_clusters. rewrite (bind_val get _ ic ic ic eq_refl), ready.
  destruct (perform ingress base a ic) as [[[]|e] ic'] eqn:Ep.
  - unfold exit in Er. rewrite (bind_val _ _ _ _ _ Ep) in Er. by rewrite (bind_val _ _ _ _ _ Er).
  - unfold exit in Er. rewrite (bind_panic _ _ _ _ _ Ep) in Er. by rewrite (bind_panic _ _ _ _ _ Er).
Qed.

(** A review does what [written] says: it sends that ingress. *)
Lemma written_run base b :
  written base = Some b →
  (∃ key value, b = annotate base key value ∧
     sync_clusters ingress base ic = updateAnnotationOnIngress base key value ic) ∨
  (∃ s, b = ing_with_status s base ∧ sync_clusters ingress base ic = copy_status ingress base s ic).
Proof.
  unfold written. destruct (first_exit base cs) as [v|] eqn:E.
  - destruct v as [op st|[key value|s|]|]; try done; intros [= <-]; apply sync_clusters_exit in E; cbn [perform] in E;
      [left; by exists key, value|right; by exists s].
  - rewrite first_exit_None in E. case_decide as Hp; [done|]. intros [= <-]. left. eexists _, _. split; [done|].
    rewrite (sync_clusters_plan ic ingress base cs ready E). unfold published, statuses in *.
    destruct (foldl _ _ cs) as [ops lb]. cbn [snd] in *. unfold propagate.
    destruct (map_get _ _) as [old|] eqn:Eo; [|done]. by rewrite bool_decide_eq_true_2 by congruence.
Qed.

(** ** Progress *)

(** What is still to be written, besides the published status. *)
Definition missing base : nat :=
  (if decide (elected ic base) then 0 else 1) + (if decide (has_annotation base staticIPNameKeyWritable) then 0 else 1) +
  (if lb_exists base then 0 else 1).

Lemma annotate_get base key value k :
  map_get (Annotations (ing_meta (annotate base key value))) k =
    if decide (key = k) then Some value else map_get (Annotations (ing_meta base)) k.
Proof.
  unfold annotate. cbn [ing_meta ing_with_meta with_annotations Annotations]. unfold map_get at 1.
  cbn [mbind option_bind]. case_decide as Hk; [subst k; by rewrite lookup_insert_eq|]. rewrite lookup_insert_ne by done.
  unfold map_get. destruct (Annotations (ing_meta base)); [done|]. cbn. apply lookup_empty.
Qed.

Lemma elected_annotate base key value :
  key ≠ firstClusterAnnotation → elected ic (annotate base key value) ↔ elected ic base.
Proof. intros Hk. unfold elected. by rewrite annotate_get, decide_False. Qed.

Lemma has_annotate base key value k :
  has_annotation (annotate base key value) k ↔ key = k ∨ has_annotation base k.
Proof. unfold has_annotation. rewrite annotate_get. case_decide; naive_solver. Qed.

Lemma sent_annotate base key value c :
  key ≠ FederationClusterSelectorAnnotation → sent (annotate base key value) c = sent base c.
Proof. intros Hk. unfold sent, SendToCluster. by rewrite annotate_get, decide_False. Qed.

(** Publishing changes neither what the loop does nor what it collects. *)
Lemma publish_classify base value c op st :
  classify ic ingress base c = Continue op st →
  ∃ op', classify ic ingress (annotate base globalIngressLBStatus value) c = Continue op' st.
Proof.
  unfold classify. rewrite sent_annotate by done.
  destruct (sent base c) as [[|]|e]; [|intros [= <- <-]; eauto|done].
  destruct (held ic ingress c) as [[ci|]|]; [|done|].
  - destruct (decide (_ ∧ ¬ has_annotation base _)) as [|Hn]; [done|].
    rewrite decide_False by (rewrite has_annotate; naive_solver).
    change (lb_exists (annotate base globalIngressLBStatus value)) with (lb_exists base).
    destruct (_ && _); [done|]. intros [= _ <-]. eauto.
  - destruct (decide (elected ic base)) as [He|He]; [|done].
    rewrite (decide_True (P := elected ic (annotate _ _ _))) by (by apply elected_annotate). intros [= _ <-]. eauto.
Qed.

Lemma absorb_ext base base' l p p' :
  (∀ c, c ∈ l → ∃ op op' st, classify ic ingress base c = Continue op st ∧ classify ic ingress base' c = Continue op' st) →
  p.2 = p'.2 → (foldl (absorb ic ingress base) p l).2 = (foldl (absorb ic ingress base') p' l).2.
Proof.
  revert p p'. induction l as [|c l IH]; intros p p' Hl Hp; [done|]. cbn [foldl].
  apply IH; [intros c' ?; apply Hl; set_solver|].
  destruct (Hl c) as (op&op'&st&E&E'); [set_solver|]. unfold absorb. rewrite E, E'. cbn. by rewrite Hp.
Qed.

Lemma publish_statuses base value :
  (∀ c, c ∈ cs → continues ic ingress base c) →
  statuses (annotate base globalIngressLBStatus value) = statuses base.
Proof.
  intros Hc. symmetry. apply absorb_ext; [|done]. intros c Hin. destruct (Hc c Hin) as (op&st&E).
  destruct (publish_classify base value c op st E) as [op' E']. by exists op, op', st.
Qed.

Lemma written_progress base b :
  (∀ c, c ∈ cs → cl_name c ≠ "" ∧ IngressController.isClusterReady (cl_name c) ic = true) →
  written base = Some b → missing b < missing base ∨ written b = None.
Proof.
  intros Hnames. unfold written at 1. destruct (first_exit base cs) as [v|] eqn:E.
  - apply first_exit_Some in E as (c&Hc&E). destruct v as [op st|a|]; [done| |done].
    unfold classify in E. destruct (sent base c) as [[|]|e]; [| |injection E as <-; done]; [|done].
    destruct (held ic ingress c) as [[ci|]|]; [|done|].
    + destruct (decide (_ ∧ _)) as [[_ Hno]|_].
      { injection E as <-. intros [= <-]. left. unfold missing.
        change (lb_exists (annotate _ _ _)) with (lb_exists base).
        rewrite (decide_True (P := has_annotation (annotate _ _ _) _)) by (rewrite has_annotate; by left).
        rewrite (decide_False (P := has_annotation base _)) by done.
        rewrite (decide_ext (elected ic (annotate _ _ _)) (elected ic base)) by (by apply elected_annotate). lia. }
      destruct (_ && _) eqn:El; [|done]. injection E as <-. intros [= <-]. left.
      apply andb_true_iff in El as [El1 El2]. apply negb_true_iff in El2. unfold missing. rewrite El2.
      change (lb_exists (ing_with_status (ing_status ci) base)) with (lb_exists ci). rewrite El1.
      rewrite (decide_ext (elected ic (ing_with_status _ _)) (elected ic base)) by done.
      rewrite (decide_ext (has_annotation (ing_with_status _ _) _) (has_annotation base staticIPNameKeyWritable)) by done.
      lia.
    + destruct (decide (elected ic base)) as [He|He]; [done|]. injection E as <-. intros [= <-]. left.
      destruct (Hnames c Hc) as [Hne Hrdy]. unfold missing.
      change (lb_exists (annotate _ _ _)) with (lb_exists base).
      rewrite (decide_True (P := elected ic (annotate _ _ _))).
      2:{ exists (cl_name c). rewrite annotate_get. by rewrite decide_True. }
      rewrite (decide_False (P := elected ic base)) by done.
      rewrite (decide_ext (has_annotation (annotate _ _ _) _) (has_annotation base staticIPNameKeyWritable))
        by (rewrite has_annotate; split; [by intros [|]|by right]). lia.
  - rewrite first_exit_None in E. case_decide as Hp; [done|]. intros [= <-]. right. unfold written.
    set (v := BuildGlobalLbStatusAnnotation (statuses base)).
    rewrite (proj2 (first_exit_None _ cs)).
    + rewrite decide_True; [done|]. unfold published. rewrite publish_statuses by done. rewrite annotate_get. by rewrite decide_True.
    + intros c Hc. destruct (E c Hc) as (op&st&Ec). destruct (publish_classify base v c op st Ec) as [op' Ec']. by exists op', st.
Qed.

(** A review that writes nothing goes on to the clusters, unless it cannot get through. *)
Lemma written_None base :
  written base = None →
  (∃ c, c ∈ cs ∧ (classify ic ingress base c = Exit GiveUp ∨ classify ic ingress base c = Crash)) ∨
  ((∀ c, c ∈ cs → continues ic ingress base c) ∧ status_current ic ingress base cs).
Proof.
  unfold written. destruct (first_exit base cs) as [v|] eqn:E.
  - intros Hv. left. pose proof (λ op st, first_exit_not_continue base cs v op st E) as Hnc.
    apply first_exit_Some in E as (c&Hc&E). exists c. split; [done|].
    destruct v as [op st|[]|]; try done; [by destruct (Hnc op st)|by left|by right].
  - rewrite first_exit_None in E. case_decide as Hp; [|done]. intros _. by right.
Qed.

Lemma writes_bounded n base b :
  (∀ c, c ∈ cs → cl_name c ≠ "" ∧ IngressController.isClusterReady (cl_name c) ic = true) →
  nsteps (λ x y, written x = Some y) n base b → n ≤ missing base + 1.
Proof.
  intros Hnames. revert base. induction n as [|n IH]; intros base Hn; [lia|].
  inversion Hn as [|? ? b1 ? Hw Hn']; subst. pose proof (IH b1 Hn') as Hle.
  destruct (written_progress base b1 Hnames Hw) as [Hlt|Hnone]; [lia|].
  destruct n; [lia|]. inversion Hn' as [|? ? b2 ? Hw' _]; subst. congruence.
Qed.

Lemma missing_bound base : missing base ≤ 3.
Proof. unfold missing. repeat case_decide; destruct (lb_exists base); lia. Qed.
End settling.

(** ** Properties *)

(** C14: the controller does not fight with itself: while the clusters and their ingresses
    stay as they are, at most four reviews in a row write to the federated ingress, each
    starting from what the one before wrote; a review that has nothing to write either
    cannot get through (an unreadable selector, an object of a wrong type) or goes on to
    bring the ingress to the clusters with the published status current. *)
Theorem reviews_settle `{K : Kubernetes W, GoMapOrder, Schedule} (ic : IngressController W) (ingress : NamespacedName)
    (cs : list Cluster) :
  clusters_wf (clusterStore (ingressFederatedInformer ic)) →
  GetReadyClusters (ingressFederatedInformer ic) = Ok cs → (∀ c, c ∈ cs → cl_name c ≠ "") →
  (∀ n base b, nsteps (λ x y, written ic ingress cs x = Some y) n base b → n ≤ 4) ∧
  (∀ base b, written ic ingress cs base = Some b →
     (∃ key value, b = annotate base key value ∧
        sync_clusters ingress base ic = updateAnnotationOnIngress base key value ic) ∨
     (∃ s, b = ing_with_status s base ∧ sync_clusters ingress base ic = copy_status ingress base s ic)) ∧
  (∀ base, written ic ingress cs base = None →
     (∃ c, c ∈ cs ∧ (classify ic ingress base c = Exit GiveUp ∨ classify ic ingress base c = Crash)) ∨
     ((∀ c, c ∈ cs → continues ic ingress base c) ∧ status_current ic ingress base cs)).
Proof.
  intros Hw Hr Hne. assert (∀ c, c ∈ cs → cl_name c ≠ "" ∧ IngressController.isClusterReady (cl_name c) ic = true) as Hnames.
  { intros c Hc. split; [by apply Hne|]. destruct (GetReadyClusters_spec _ Hw) as (cs'&E&Hin). rewrite Hr in E.
    injection E as <-. apply Hin in Hc as [Hst Hrdy]. unfold IngressController.isClusterReady, GetReadyCluster.
    by rewrite Hst, Hrdy. }
  split; [|split; [by apply written_run|by apply written_None]].
  intros n base b Hn. pose proof (writes_bounded ic ingress cs Hr n base b Hnames Hn).
  pose proof (missing_bound ic base). lia.
Qed.

(** ** The theorem at work *)

Module SettlingExamples.
Import IngressControllerExamples.

Lemma reviews_settle_witness :
  (∀ n base b, nsteps (λ x y, written steady name ready_clusters x = Some y) n base b → n ≤ 4) ∧
  (∀ base b, written steady name ready_clusters base = Some b →
     (∃ key value, b = annotate base key value ∧
        sync_clusters name base steady = updateAnnotationOnIngress base key value steady) ∨
     (∃ s, b = ing_with_status s base ∧ sync_clusters name base steady = copy_status name base s steady)) ∧
  (∀ base, written steady name ready_clusters base = None →
     (∃ c, c ∈ ready_clusters ∧ (classify steady name base c = Exit GiveUp ∨ classify steady name base c = Crash)) ∨
     ((∀ c, c ∈ ready_clusters → continues steady name base c) ∧ status_current steady name base ready_clusters)).
Proof.
  apply (reviews_settle steady name ready_clusters steady_clusters).
  - vm_compute. reflexivity.
  - replace ready_clusters with [cluster "a" "True"; cluster "b" "True"] by (vm_compute; reflexivity).
    apply Forall_forall. repeat constructor; discriminate.
Defined.

(** Four writes do happen: the first cluster, the IP, the status, and what is published. *)
Definition shown : Ingress :=
  ing_with_status (mkLBS [mkLBI "10.0.0.1" ""]) (web {[ staticIPNameKeyReadonly := "ip" ]}).
Definition informed : IngressController cloud :=
  with_caches (web {[ globalIngressType := "x" ]}) {[ "ns/web" := Typed shown ]} empty_cloud.
Definition rev_clusters : list Cluster := [cluster "b" "True"; cluster "a" "True"].
Definition next (base : Ingress) : option Ingress := written informed name rev_clusters base.
Definition fourth : option Ingress := 
  b1 ← next (web {[ globalIngressType := "x" ]}); b2 ← next b1; b3 ← next b2; next b3.
Example four_writes : (λ b, bool_decide (next b = None)) <$> fourth = Some true.
Proof. vm_compute. reflexivity. Qed.
End SettlingExamples.
