(* ===== verification/ConfigMapsFacts.v ===== *)
(** What [reconcileConfigMap] does to the config map of a cluster; [Agreement.v] has what it does
    to the clusters. *)

From S2P Require Import Prelude GoStrings KubeTypes Md5 FedInformer Updater Backoff Deliverer IngressController ConfigMaps Cloud IngressControllerFacts.

(** The UID of a cluster; empty when it has none. *)
Definition uid_of (c : Cluster) : string := map_get_str (Annotations (cl_meta c)) uidAnnotationKey.

Lemma uid_annotate c uid : uid_of (annotate_cluster c uid) = uid.
Proof. unfold uid_of, annotate_cluster, map_get_str, map_get. cbn. by rewrite lookup_insert_eq. Qed.

Lemma first_master_spec cs :
  match first_master cs with
  | Some (m, u) => m ∈ cs ∧ uid_of m = u ∧ u ≠ ""
  | None => ∀ c, c ∈ cs → uid_of c = ""
  end.
Proof.
  induction cs as [|c cs IH]; cbn [first_master]; [set_solver|]. unfold uid_of, map_get_str in *.
  destruct (map_get (Annotations (cl_meta c)) uidAnnotationKey) as [UID|] eqn:E.
  - case_bool_decide as Hu.
    + rewrite E. split_and!; [set_solver|done|done].
    + destruct (first_master cs) as [[m u]|]; [set_solver|]. intros c' [->|?]%elem_of_cons; [|auto].
      rewrite E. exact Hu.
  - destruct (first_master cs) as [[m u]|]; [set_solver|]. intros c' [->|?]%elem_of_cons; [|auto]. by rewrite E.
Qed.

(** ** One cluster's config map *)

Lemma cache_write_synced n key cm (f : federatedInformerImpl ConfigMap) `{GoMapOrder} :
  informer_synced (cache_write n key cm f) = informer_synced f.
Proof.
  unfold informer_synced. f_equal. change (GetReadyClusters (cache_write n key cm f)) with (GetReadyClusters f).
  destruct (GetReadyClusters f) as [cs|]; [|done]. unfold Store_ClustersSynced. f_equal.
  - apply bool_decide_ext. cbn. by rewrite <-!(size_dom (D := gset string)), dom_alter_L.
  - induction cs as [|c cs IH]; cbn [all_synced]; [done|]. rewrite IH. cbn [cache_write with_targets targetInformers].
    destruct (decide (n = cl_name c)) as [->|Hn].
    + rewrite lookup_alter_eq. by destruct (targetInformers f !! cl_name c).
    + by rewrite lookup_alter_ne.
Qed.

(** The data a config map should have. *)
Definition wanted_data (n u : string) (d : gmap string string) : gmap string string :=
  <[providerUidKey := getProviderUid n]> (<[uidKey := u]> d).

Lemma wanted_uid n u d : wanted_data n u d !! uidKey = Some u.
Proof. unfold wanted_data. rewrite lookup_insert_ne by done. apply lookup_insert_eq. Qed.
Lemma wanted_provider n u d : wanted_data n u d !! providerUidKey = Some (getProviderUid n).
Proof. apply lookup_insert_eq. Qed.

Section configmap.
Context `{K : Kubernetes W, GoMapOrder, Schedule}.
Implicit Types ic : IngressController W.

Definition uid_cache_key : string := nn_string uidConfigMapNamespacedName.

(** The controller sees a cluster with a UID and its config map, with data. *)
Definition sees_configmap ic (n : string) (cluster : Cluster) (cm : ConfigMap) (d : gmap string string) : Prop :=
  isSynced ic = true ∧ n ≠ allClustersKey ∧ GetReadyCluster n (configMapFederatedInformer ic) = Ok (Some cluster) ∧
  cl_name cluster = n ∧ uid_of cluster ≠ "" ∧
  GetByKey n uid_cache_key (configMapFederatedInformer ic) = Some (Typed cm) ∧ Data cm = Some d.

Definition uid_operation (n : string) (cm : ConfigMap) (d : gmap string string) : FederatedOperation ConfigMap :=
  mkOp OperationTypeUpdate n (cm_with_data (Some d) cm) (nn_string (nn_of_meta (cm_meta cm))).

(** The data in the cache is as it should be. *)
Definition data_right (n u : string) (d : gmap string string) : Prop :=
  default "" (d !! uidKey) = u ∧ default "" (d !! providerUidKey) = getProviderUid n.
#[export] Instance data_right_dec n u d : Decision (data_right n u d).
Proof. unfold data_right. apply _. Defined.

Lemma reconcile_seen ic n cluster cm d :
  sees_configmap ic n cluster cm d →
  reconcileConfigMapForCluster n ic =
    if decide (data_right n (uid_of cluster) d) then (Val tt, ic)
    else
      let d' := wanted_data n (uid_of cluster) d in
      let ic1 := set_configMapFederatedInformer
        (cache_write n uid_cache_key (cm_with_data (Some d') cm) (configMapFederatedInformer ic)) ic in
      (err ← call (fu_Update (FederatedUpdater := federatedConfigMapUpdater ic1) [uid_operation n cm d']);
       match err with
       | Some _ => configmap_DeliverAfter n configMapReviewDelay
       | None => mret tt
       end) ic1.
Proof.
  intros (Hs&Hn&Hr&<-&Hu&Hk&Hd). unfold reconcileConfigMapForCluster. rewrite (bind_val get _ ic ic ic eq_refl), Hs.
  cbn [negb]. rewrite bool_decide_eq_false_2 by done. rewrite Hr. cbv zeta. fold uid_cache_key. rewrite Hk.
  unfold reconcileConfigMap. cbv zeta.
  replace (negb _ || _) with false.
  2:{ symmetry. rewrite orb_false_iff, negb_false_iff, bool_decide_eq_true, bool_decide_eq_false. split; [|exact Hu].
      unfold uid_of, map_get_str in Hu. by destruct (map_get _ _); [eexists|]. }
  rewrite (bind_val _ _ ic (Ok (uid_of cluster)) ic eq_refl).
  replace (bool_decide _ && bool_decide _) with (bool_decide (data_right (cl_name cluster) (uid_of cluster) d)).
  2:{ apply eq_bool_prop_intro. rewrite !Is_true_true, andb_true_iff, !bool_decide_eq_true. by rewrite Hd. }
  destruct (decide _) as [Hok|Hok]; [by rewrite (bool_decide_eq_true_2 _ Hok)|rewrite (bool_decide_eq_false_2 _ Hok)].
  rewrite Hd. cbn [map_set mbind option_bind].
  replace (map_merge _ _) with (Some (wanted_data (cl_name cluster) (uid_of cluster) d)).
  2:{ cbn. f_equal. unfold wanted_data. by rewrite insert_union_singleton_l. }
  unfold modify. erewrite bind_val by reflexivity. rewrite (bind_val get _ _ _ _ eq_refl). reflexivity.
Qed.

(** After the write to the cache, the controller sees the data as it should be. *)
Lemma sees_written ic n cluster cm d w :
  let d' := wanted_data n (uid_of cluster) d in
  let ic1 := set_configMapFederatedInformer
        (cache_write n uid_cache_key (cm_with_data (Some d') cm) (configMapFederatedInformer ic)) ic in
  sees_configmap ic n cluster cm d → sees_configmap (set_apis w ic1) n cluster (cm_with_data (Some d') cm) d' ∧
  data_right n (uid_of cluster) d'.
Proof.
  intros d' ic1 (Hs&Hn&Hr&Hname&Hu&Hk&Hd). split.
  - split_and!; try done.
    + unfold isSynced in *. cbn. by rewrite cache_write_synced.
    + unfold GetByKey in *. cbn. destruct (targetInformers _ !! n) as [i|] eqn:E; [|done].
      rewrite lookup_alter_eq, E. cbn. apply lookup_insert_eq.
  - unfold data_right, d'. by rewrite wanted_uid, wanted_provider.
Qed.
End configmap.

(** ** Properties *)

(** C26: a cluster's config map is brought to the cluster's UID and its provider UID: if the
    cached data is right nothing happens; otherwise the cluster is sent one update with both
    keys set and all other data kept, and after a failure the cluster is asked for again, at
    ten seconds from what the clock says then. *)
Theorem configmap_update `{K : Kubernetes W, GoMapOrder, Schedule} (ic ic' : IngressController W) (n : string)
    (cluster : Cluster) (cm : ConfigMap) (d : gmap string string) :
  sees_configmap ic n cluster cm d → reconcileConfigMapForCluster n ic = (Val tt, ic') →
  (data_right n (uid_of cluster) d ∧ ic' = ic) ∨
  (¬ data_right n (uid_of cluster) d ∧
   let d' := wanted_data n (uid_of cluster) d in
   d' !! uidKey = Some (uid_of cluster) ∧ d' !! providerUidKey = Some (getProviderUid n) ∧
   (∀ k, k ≠ uidKey → k ≠ providerUidKey → d' !! k = d !! k) ∧
   ∃ err w, fu_Update (FederatedUpdater := federatedConfigMapUpdater ic) [uid_operation n cm d'] (apis ic) = (Val err, w) ∧
     match err with
     | None => configMapDeliverer ic' = configMapDeliverer ic ∧ apis ic' = w
     | Some _ => ∃ t, Now w = (Val t, apis ic') ∧
         configMapDeliverer ic' = configMapDeliverer ic ++ [mkItem n tt (t + 10 * Second)%Z]
     end).
Proof.
  intros Hsee Hr. rewrite (reconcile_seen _ _ _ _ _ Hsee) in Hr. destruct (decide _) as [Hok|Hok]; [left|right].
  - by injection Hr as <-.
  - split; [done|]. cbv zeta. split_and!; [apply wanted_uid|apply wanted_provider| |].
    + intros k H1 H2. unfold wanted_data. by rewrite !lookup_insert_ne.
    + cbv zeta in Hr. apply bind_val_inv in Hr as (err&ic1&Hu&Hr). apply call_inv in Hu as (w&Hu&->).
      exists err, w. split; [exact Hu|]. destruct err as [e|].
      * apply bind_val_inv in Hr as (t&ic2&Ht&Hr). apply call_inv in Ht as (w2&Hw2&->). injection Hr as <-. by exists t.
      * cbv [mret M_ret] in Hr. by injection Hr as <-.
Qed.

(** C29: but a failed update is not repeated: the update is written into the informer's cache
    before it is sent, so that afterwards, whatever the API server answered and whatever the
    cluster really holds, reconciling the cluster again does nothing, until some event
    brings the config map's real data back into the cache. *)
Theorem failed_update_forgotten `{K : Kubernetes W, GoMapOrder, Schedule} (ic : IngressController W) (n : string)
    (cluster : Cluster) (cm : ConfigMap) (d : gmap string string) (ic' : IngressController W) (w : W) :
  sees_configmap ic n cluster cm d → reconcileConfigMapForCluster n ic = (Val tt, ic') →
  reconcileConfigMapForCluster n (set_apis w ic') = (Val tt, set_apis w ic').
Proof.
  intros Hsee Hr.
  assert (∀ cm' d', sees_configmap (set_apis w ic') n cluster cm' d' ∧ data_right n (uid_of cluster) d' →
    reconcileConfigMapForCluster n (set_apis w ic') = (Val tt, set_apis w ic')) as Hnothing.
  { intros cm' d' [Hs Hok]. rewrite (reconcile_seen _ _ _ _ _ Hs). by destruct (decide _). }
  rewrite (reconcile_seen _ _ _ _ _ Hsee) in Hr. destruct (decide _) as [Hok|Hok].
  - injection Hr as <-. by apply (Hnothing cm d).
  - cbv zeta in Hr. apply bind_val_inv in Hr as (err&ic1&Hu&Hr). apply call_inv in Hu as (w1&_&->).
    pose proof (sees_written ic n cluster cm d w Hsee) as Hw. cbv zeta in Hw.
    eapply Hnothing. destruct err as [e|].
    + apply bind_val_inv in Hr as (t&ic2&Ht&Hr). apply call_inv in Ht as (w2&_&->). injection Hr as <-. exact Hw.
    + cbv [mret M_ret] in Hr. injection Hr as <-. exact Hw.
Qed.

Module ConfigMapsExamples.
Definition cluster (name : string) (annotations : gomap string) (status : string) : Cluster :=
  mkCluster (mkObjectMeta name "" "" "" None None annotations [] "") "" [mkCondition "Ready" status] None "".
Definition has (uid : string) : gomap string := Some {[ uidAnnotationKey := uid ]}.
Definition config (data : gomap string) : ConfigMap :=
  mkConfigMap (mkObjectMeta uidConfigMapName uidConfigMapNamespace "" "" None None None [] "") data.
Definition uids (uid : string) : gomap string := Some {[ uidKey := uid ]}.

(** A controller whose caches show these clusters, ready and with these config maps. *)
Definition seeing (clusters : gmap string Cluster) (maps : gmap string ConfigMap) (w : cloud) : IngressController cloud :=
  let store := Typed <$> clusters in
  mkIC ∅ (mkFedInformer store true ((λ _, mkInformer ∅ true) <$> maps))
    (mkFedInformer store true ((λ cm, mkInformer {[ uid_cache_key := Typed cm ]} true) <$> maps))
    (NewBackOff (5 * Second) (60 * Second)) (NewBackOff (5 * Second) (60 * Second)) [] [] [] w.
Definition cloud_of (clusters : gmap string Cluster) (b : bool) : cloud := mkCloud ∅ ∅ ∅ clusters b.
Definition two : gmap string Cluster := {[ "a" := cluster "a" None "True"; "b" := cluster "b" None "True" ]}.
Definition maps_ab : gmap string ConfigMap := {[ "a" := config (uids "ua"); "b" := config (uids "ub") ]}.

(** Cluster a elects itself, then b takes over its UID. *)
Definition start : IngressController cloud := seeing two maps_ab (cloud_of two false).
Definition elected : IngressController cloud := (reconcileConfigMapForCluster "a" start).2.
Definition observed : IngressController cloud := seeing (fed_clusters (apis elected)) maps_ab (apis elected).
Definition joined : IngressController cloud := (reconcileConfigMapForCluster "b" observed).2.
Definition uid_at (w : cloud) (n : string) : option string := uid_of <$> fed_clusters w !! n.
Definition data_at (w : cloud) (n : string) : option (gomap string) := Data <$> configs w !! (n, uid_cache_key).
Definition datum (w : cloud) (n key : string) : option string := data_at w n ≫= λ d, map_get d key.
Example b_takes_over :
  uid_at (apis elected) <$> ["a"; "b"] = [Some "ua"; Some ""] ∧
  uid_at (apis joined) <$> ["a"; "b"] = [Some "ua"; Some "ua"] ∧
  datum (apis joined) "b" <$> [uidKey; providerUidKey] = [Some "ua"; Some "92eb5ffee6ae2fec"].
Proof. split_and!; vm_compute; reflexivity. Qed.

(** Cluster b after it has its annotation, and an API server that refuses the update. *)
Definition b_has : gmap string Cluster := {[ "a" := cluster "a" (has "ua") "True"; "b" := cluster "b" (has "ua") "True" ]}.
Definition refusing : IngressController cloud := seeing b_has maps_ab (cloud_of b_has true).
Definition refused_once : IngressController cloud := (reconcileConfigMapForCluster "b" refusing).2.
Lemma refusing_sees : sees_configmap refusing "b" (cluster "b" (has "ua") "True") (config (uids "ub")) {[ uidKey := "ub" ]}.
Proof. split_and!; try (vm_compute; reflexivity); vm_compute; discriminate. Qed.

Lemma configmap_update_witness :
  let cluster := cluster "b" (has "ua") "True" in
  let d : gmap string string := {[ uidKey := "ub" ]} in
  (data_right "b" (uid_of cluster) d ∧ refused_once = refusing) ∨
  (¬ data_right "b" (uid_of cluster) d ∧
   let d' := wanted_data "b" (uid_of cluster) d in
   d' !! uidKey = Some (uid_of cluster) ∧ d' !! providerUidKey = Some (getProviderUid "b") ∧
   (∀ k, k ≠ uidKey → k ≠ providerUidKey → d' !! k = d !! k) ∧
   ∃ err w, fu_Update (FederatedUpdater := federatedConfigMapUpdater refusing) [uid_operation "b" (config (uids "ub")) d'] (apis refusing) = (Val err, w) ∧
     match err with
     | None => configMapDeliverer refused_once = configMapDeliverer refusing ∧ apis refused_once = w
     | Some _ => ∃ t, Now w = (Val t, apis refused_once) ∧
         configMapDeliverer refused_once = configMapDeliverer refusing ++ [mkItem "b" tt (t + 10 * Second)%Z]
     end).
Proof.
  apply (configmap_update refusing refused_once "b" (cluster "b" (has "ua") "True") (config (uids "ub")) {[ uidKey := "ub" ]} refusing_sees).
  vm_compute. reflexivity.
Defined.

(** The cluster still has its own UID, the API server would accept an update now, and the
    retry that was asked for sends none. *)
Lemma failed_update_forgotten_witness :
  reconcileConfigMapForCluster "b" (set_apis (cloud_of b_has false) refused_once) =
    (Val tt, set_apis (cloud_of b_has false) refused_once).
Proof.
  apply (failed_update_forgotten refusing "b" (cluster "b" (has "ua") "True") (config (uids "ub")) {[ uidKey := "ub" ]}
    refused_once (cloud_of b_has false) refusing_sees).
  vm_compute. reflexivity.
Defined.

(** A config map without data, in a cluster with a UID: an assignment to a nil map. *)
Example nil_data_panics :
  (reconcileConfigMapForCluster "b" (seeing b_has {[ "a" := config None; "b" := config None ]} (cloud_of b_has false))).1 =
    Panic "assignment to entry in nil map".
Proof. vm_compute. reflexivity. Qed.

(** With a cache that does not show the first election yet, a second cluster elects itself:
    [Agreement.uid_agreement] says when this does not happen. *)
Example stale_cache_two_masters :
  let stale := seeing two maps_ab (apis elected) in
  uid_at (apis (reconcileConfigMapForCluster "b" stale).2) <$> ["a"; "b"] = [Some "ua"; Some "ub"].
Proof. vm_compute. reflexivity. Qed.

(** The same when the only cluster with a UID is not ready. *)
Example unready_master_two_uids :
  let clusters : gmap string Cluster := {[ "a" := cluster "a" (has "ua") "False"; "b" := cluster "b" None "True" ]} in
  let ic := seeing clusters {[ "b" := config (uids "ub") ]} (cloud_of clusters false) in
  uid_at (apis (reconcileConfigMapForCluster "b" ic).2) <$> ["a"; "b"] = [Some "ua"; Some "ub"].
Proof. vm_compute. reflexivity. Qed.
End ConfigMapsExamples.
