(* ===== verification/Wiring.v ===== *)
(** How the ingress controller is put together, [NewIngressController] and [Run] of
    [pkg/controller/ingress/ingress_controller.go]: which events of the informers lead to
    which requests, and which handler answers a request.

    The requests of a deliverer are kept as the log of what was sent to it, and a handler may
    run for any of them at any time.  [Machine.v] has the deliverers and the goroutines
    instead, and shows that what they do is a run of this system. *)

From S2P Require Import Prelude GoStrings KubeTypes Handlers FedInformer Updater Deletion Backoff Deliverer IngressController ConfigMaps Cloud IngressControllerFacts ConfigMapsFacts.

Section wiring.
Context `{K : Kubernetes W, GoMapOrder, Schedule}.
Abbreviation IC := (IngressController W).

(** [NewIngressController]. *)
Definition NewIngressController (w : W) : IC :=
  mkIC ∅ NewFederatedInformer NewFederatedInformer
    (NewBackOff (5 * Second) (60 * Second)) (NewBackOff (5 * Second) (60 * Second)) [] [] [] w.

(** The handlers of the three informers on objects. *)
Definition on_federated_ingress : watch_event Ingress → M IC unit :=
  NewTriggerOnAllChanges value_equal (λ obj, deliverIngressObj obj 0 false).
Definition on_member_ingress : watch_event Ingress → M IC unit :=
  NewTriggerOnAllChanges value_equal (λ obj, deliverIngressObj obj ingressReviewDelay false).
Definition deliverConfigMapObj (clusterName : string) (obj : ConfigMap) (delay : Z) (failed : bool) : M IC unit :=
  deliverConfigMap clusterName delay failed.
Definition on_member_configmap (clusterName : string) : watch_event ConfigMap → M IC unit :=
  NewTriggerOnAllChanges value_equal (λ obj, deliverConfigMapObj clusterName obj configMapReviewDelay false).

(** The cluster lifecycle functions of the two federated informers; the second has no
    [ClusterUnavailable]. *)
Definition ingress_lifecycle (l : lifecycle) : M IC unit :=
  match l with
  | ClusterAvailable cluster => cluster_DeliverAfter (cl_name cluster) clusterAvailableDelay
  | ClusterUnavailable cluster => cluster_DeliverAfter (cl_name cluster) clusterUnavailableDelay
  end.
Definition configmap_lifecycle (l : lifecycle) : M IC unit :=
  match l with
  | ClusterAvailable cluster => cluster_DeliverAfter (cl_name cluster) clusterAvailableDelay
  | ClusterUnavailable _ => mret tt
  end.

(** ** Events *)

Definition set_ingressInformerStore (s : Store Ingress) (ic : IC) : IC :=
  mkIC s (ingressFederatedInformer ic) (configMapFederatedInformer ic) (ingressBackoff ic)
    (configMapBackoff ic) (ingressDeliverer ic) (clusterDeliverer ic) (configMapDeliverer ic) (apis ic).
Definition set_ingressFederatedInformer (f : federatedInformerImpl Ingress) (ic : IC) : IC :=
  mkIC (ingressInformerStore ic) f (configMapFederatedInformer ic) (ingressBackoff ic)
    (configMapBackoff ic) (ingressDeliverer ic) (clusterDeliverer ic) (configMapDeliverer ic) (apis ic).

Definition ingress_key (i : Ingress) : string := nn_string (nn_of_meta (ing_meta i)).

(** The reflector writes to the store of federated ingresses, then calls the handler. *)
Definition store_event (e : watch_event Ingress) (s : Store Ingress) : Store Ingress :=
  match e with
  | Added i | Updated _ i => <[MetaNamespaceKeyFunc i := Typed i]> s
  | Deleted i | DeletedUnknown i => delete (MetaNamespaceKeyFunc i) s
  end.

Inductive sys_event :=
  | FederatedIngress (e : watch_event Ingress)
  | MemberIngress (e : watch_event Ingress)
  | MemberConfigMap (clusterName : string) (e : watch_event ConfigMap)
  | IngressInformer (e : event Ingress)
  | ConfigMapInformer (e : event ConfigMap)
  | HandleIngress (item : Item NamespacedName)
  | HandleCluster (item : Item unit)
  | HandleConfigMap (item : Item unit)
  | BackoffGC (now : Z)
  | World (w : W).

(** What happens at an event: a change of a federated or a member object, of the clusters or
    the stores behind a federated informer, the delivery of a request, the collection of the
    back-off managers ([StartBackoffGC]), or anything in the world outside. *)
Definition sys_run (e : sys_event) : M IC unit :=
  match e with
  | FederatedIngress e =>
      modify (λ ic, set_ingressInformerStore (store_event e (ingressInformerStore ic)) ic) ≫= λ _, on_federated_ingress e
  | MemberIngress e => on_member_ingress e
  | MemberConfigMap clusterName e => on_member_configmap clusterName e
  | IngressInformer e =>
      ic ← get;
      let '(f, calls) := step clientFactory (ingressFederatedInformer ic) e in
      modify (set_ingressFederatedInformer f) ≫= λ _, for_each calls ingress_lifecycle
  | ConfigMapInformer e =>
      ic ← get;
      let '(f, calls) := step clientFactory (configMapFederatedInformer ic) e in
      modify (set_configMapFederatedInformer f) ≫= λ _, for_each calls configmap_lifecycle
  | HandleIngress item => handle_ingress item
  | HandleCluster item => handle_cluster item
  | HandleConfigMap item => handle_configmap item
  | BackoffGC now =>
      modify (λ ic, set_configMapBackoff (GC now (configMapBackoff ic)) (set_ingressBackoff (GC now (ingressBackoff ic)) ic))
  | World w => modify (set_apis w)
  end.

(** A run of the controller; a request is only handled when it was made. *)
Definition may_happen (e : sys_event) (ic : IC) : Prop :=
  match e with
  | HandleIngress item => item ∈ ingressDeliverer ic
  | HandleCluster item => item ∈ clusterDeliverer ic
  | HandleConfigMap item => item ∈ configMapDeliverer ic
  | _ => True
  end.
Inductive sys_step : IC → IC → Prop :=
  | sys_step_intro e ic ic' : may_happen e ic → sys_run e ic = (Val tt, ic') → sys_step ic ic'.

(** ** The invariant *)

Definition backoff_config_ok (b : Backoff) : Prop :=
  backoff_inv b ∧ defaultDuration b = (5 * Second)%Z ∧ maxDuration b = (60 * Second)%Z.

(** Both back-off managers are within their bounds, every ready cluster has its target
    informer unless no client could be created for it, federated ingresses are stored under
    their names, and the key of every request is that of the ingress to look at. *)
Record sys_ok (ic : IC) : Prop := {
  ok_ingress_backoff : backoff_config_ok (ingressBackoff ic);
  ok_configmap_backoff : backoff_config_ok (configMapBackoff ic);
  ok_ingress_informer : targets_cover clientFactory (ingressFederatedInformer ic);
  ok_configmap_informer : targets_cover clientFactory (configMapFederatedInformer ic);
  ok_store : map_Forall (λ k i, ∃ ing, i = Typed ing ∧ k = MetaNamespaceKeyFunc ing) (ingressInformerStore ic);
  ok_requests : Forall (λ it, Key it = nn_string (Value it)) (ingressDeliverer ic)
}.

(** Code keeps the invariant when every run that ends normally does. *)
Definition keeps {A} (m : M IC A) : Prop := ∀ ic a ic', sys_ok ic → m ic = (Val a, ic') → sys_ok ic'.

Lemma keeps_ret {A} (a : A) : keeps (mret a).
Proof. intros ic b ic' Hok E. by ret_inv E. Qed.
Lemma keeps_panic {A} msg : keeps (go_panic (A := A) msg).
Proof. by intros ic b ic' Hok E. Qed.
Lemma keeps_gets {A} (f : IC → A) : keeps (gets f).
Proof. intros ic b ic' Hok E. cbv [gets] in E. by injection E as _ <-. Qed.
Lemma keeps_modify (f : IC → IC) : (∀ ic, sys_ok ic → sys_ok (f ic)) → keeps (modify f).
Proof. intros Hf ic b ic' Hok E. cbv [modify] in E. injection E as _ <-. by apply Hf. Qed.
Lemma keeps_bind {A B} (m : M IC A) (f : A → M IC B) : keeps m → (∀ a, keeps (f a)) → keeps (m ≫= f).
Proof. intros Hm Hf ic b ic' Hok (a&ic1&H1&H2)%bind_val_inv. eapply Hf; [|exact H2]. by eapply Hm. Qed.
(** The state read by [get] satisfies the invariant. *)
Lemma keeps_get {B} (f : IC → M IC B) : (∀ ic, sys_ok ic → keeps (f ic)) → keeps (get ≫= f).
Proof. intros Hf ic b ic' Hok E. rewrite (bind_val get _ ic ic ic eq_refl) in E. by eapply Hf. Qed.
Lemma keeps_call {A} (m : M W A) : keeps (call m).
Proof. intros ic a ic' [] (w&_&->)%call_inv. by split. Qed.
Lemma keeps_for_each {X} (l : list X) (body : X → M IC unit) : (∀ x, x ∈ l → keeps (body x)) → keeps (for_each l body).
Proof.
  induction l as [|x l IH]; intros Hb; cbn [for_each]; [apply keeps_ret|].
  apply keeps_bind; [apply Hb; set_solver|]. intros _. apply IH. set_solver.
Qed.
Lemma keeps_for_range {X Acc R} (l : list X) (acc : Acc) (body : Acc → X → M IC (Acc + R)) :
  (∀ a x, keeps (body a x)) → keeps (for_range l acc body).
Proof.
  intros Hb. revert acc. induction l as [|x l IH]; intros acc; cbn [for_range]; [apply keeps_ret|].
  apply keeps_bind; [apply Hb|]. intros [a|r]; [apply IH|apply keeps_ret].
Qed.

Lemma Next_config_ok id t now b : backoff_config_ok b → backoff_config_ok (Next id t now b).
Proof. intros [Hb ?]. split; [apply (run_op_inv (ONext id t now) b Hb)|done]. Qed.
Lemma Reset_config_ok id b : backoff_config_ok b → backoff_config_ok (Reset id b).
Proof. intros [Hb ?]. split; [apply (run_op_inv (OReset id) b Hb)|done]. Qed.
Lemma GC_config_ok now b : backoff_config_ok b → backoff_config_ok (GC now b).
Proof. intros [Hb ?]. split; [apply (run_op_inv (OGC now) b Hb)|done]. Qed.
End wiring.

#[export] Hint Resolve keeps_ret keeps_panic keeps_gets keeps_call keeps_for_each keeps_for_range
  Next_config_ok Reset_config_ok GC_config_ok : go.

(** Take code apart: sequences, branches, and calls of code known to keep the invariant. *)
Ltac keeps_split :=
  lazymatch goal with
  | |- keeps (get ≫= _) => apply keeps_get; intros ? ?
  | |- keeps (_ ≫= _) => apply keeps_bind; [|intros ?]
  | |- keeps (modify _) => apply keeps_modify; intros ? []; split; cbn; auto with go
  | |- keeps (match ?x with _ => _ end) => destruct x
  | |- keeps (let '(_, _) := ?x in _) => destruct x
  | |- keeps _ => solve [auto with go nocore]
  end.
Ltac keeps := repeat keeps_split.

Section handlers.
Context `{K : Kubernetes W, GoMapOrder, Schedule}.
Implicit Types ic : IngressController W.

Lemma deliverIngress_keeps ingress delay failed : keeps (W := W) (deliverIngress ingress delay failed).
Proof.
  unfold deliverIngress, ingress_DeliverAfter. keeps. apply Forall_app. by split; [|constructor].
Qed.
Lemma deliverConfigMap_keeps c delay failed : keeps (W := W) (deliverConfigMap c delay failed).
Proof. unfold deliverConfigMap, configmap_DeliverAfter. keeps. Qed.
Lemma cluster_DeliverAfter_keeps n delay : keeps (W := W) (cluster_DeliverAfter n delay).
Proof. unfold cluster_DeliverAfter. keeps. Qed.
Lemma configmap_DeliverAfter_keeps n delay : keeps (W := W) (configmap_DeliverAfter n delay).
Proof. unfold configmap_DeliverAfter. keeps. Qed.
End handlers.
#[export] Hint Resolve deliverIngress_keeps deliverConfigMap_keeps cluster_DeliverAfter_keeps configmap_DeliverAfter_keeps : go.

Section more_handlers.
Context `{K : Kubernetes W, GoMapOrder, Schedule}.
Implicit Types ic : IngressController W.

Lemma updateAnnotationOnIngress_keeps i key value : keeps (W := W) (updateAnnotationOnIngress i key value).
Proof. unfold updateAnnotationOnIngress. cbv zeta. keeps. Qed.
Lemma copy_status_keeps ing i s : keeps (W := W) (copy_status ing i s).
Proof. unfold copy_status. keeps. Qed.
Hint Resolve updateAnnotationOnIngress_keeps copy_status_keeps : go.

Lemma reconcile_cluster_keeps ing base p c : keeps (W := W) (reconcile_cluster ing base p c).
Proof.
  unfold reconcile_cluster, plan_create, plan_update, exit, continue. cbv zeta. keeps.
Qed.
Hint Resolve reconcile_cluster_keeps : go.

Lemma sync_clusters_keeps ing base : keeps (W := W) (sync_clusters ing base).
Proof. unfold sync_clusters, propagate. keeps. Qed.
Lemma delete_ingress_keeps i : keeps (W := W) (delete_ingress i).
Proof. unfold delete_ingress. keeps. Qed.
Hint Resolve sync_clusters_keeps delete_ingress_keeps : go.

Lemma reconcileIngress_keeps ing : keeps (W := W) (reconcileIngress ing).
Proof. unfold reconcileIngress. keeps. Qed.

Lemma reconcileIngressesOnClusterChange_keeps n : keeps (W := W) (reconcileIngressesOnClusterChange n).
Proof. unfold reconcileIngressesOnClusterChange. keeps. apply keeps_for_each. intros x _. keeps. Qed.

Lemma cache_write_targets n key cm (f : federatedInformerImpl ConfigMap) :
  targets_cover (clientFactory (W := W)) f → targets_cover (clientFactory (W := W)) (cache_write n key cm f).
Proof. intros Hf. by apply alter_targets. Qed.
Hint Resolve cache_write_targets : go.

Lemma reconcileConfigMapForCluster_keeps n : keeps (W := W) (reconcileConfigMapForCluster n).
Proof.
  unfold reconcileConfigMapForCluster, reconcileConfigMap, updateClusterIngressUIDToMasters. cbv zeta. keeps;
    apply keeps_for_each; intros x _; keeps.
Qed.

Lemma trigger_keeps {A} (eqb : A → A → bool) (f : A → M (IngressController W) unit) e :
  (∀ a, keeps (f a)) → keeps (NewTriggerOnAllChanges eqb f e).
Proof.
  intros Hf ic [] ic' Hok E%trigger_run. destruct (changed_object eqb e) as [obj|]; [by eapply Hf|by subst].
Qed.

Lemma store_event_ok e (s : Store Ingress) :
  map_Forall (λ k i, ∃ ing, i = Typed ing ∧ k = MetaNamespaceKeyFunc ing) s →
  map_Forall (λ k i, ∃ ing, i = Typed ing ∧ k = MetaNamespaceKeyFunc ing) (store_event e s).
Proof.
  intros Hs. destruct e as [i|o i|i|i]; cbn [store_event].
  - apply map_Forall_insert_2; [by exists i|done].
  - apply map_Forall_insert_2; [by exists i|done].
  - by apply map_Forall_delete.
  - by apply map_Forall_delete.
Qed.
Hint Resolve store_event_ok : go.

Lemma sys_run_keeps e : keeps (W := W) (sys_run e).
Proof.
  destruct e as [e|e|n e|e|e|item|item|item|now|w]; cbn [sys_run].
  - apply keeps_bind; [keeps|]. intros _. apply trigger_keeps. intros obj. apply deliverIngress_keeps.
  - apply trigger_keeps. intros obj. apply deliverIngress_keeps.
  - apply trigger_keeps. intros obj. apply deliverConfigMap_keeps.
  - apply keeps_get. intros ic Hok.
    pose proof (proj1 (step_targets clientFactory _ e (ok_ingress_informer _ Hok))) as Hf.
    destruct (step _ _ _) as [f calls]. apply keeps_bind; [keeps|]. intros _.
    apply keeps_for_each. intros l _. destruct l; cbn; keeps.
  - apply keeps_get. intros ic Hok.
    pose proof (proj1 (step_targets clientFactory _ e (ok_configmap_informer _ Hok))) as Hf.
    destruct (step _ _ _) as [f calls]. apply keeps_bind; [keeps|]. intros _.
    apply keeps_for_each. intros l _. destruct l; cbn; keeps.
  - apply reconcileIngress_keeps.
  - apply keeps_bind; [apply reconcileIngressesOnClusterChange_keeps|]. intros _. apply reconcileConfigMapForCluster_keeps.
  - apply reconcileConfigMapForCluster_keeps.
  - keeps.
  - keeps.
Qed.

Lemma NewIngressController_ok (w : W) : sys_ok (NewIngressController w).
Proof.
  assert (backoff_config_ok (NewBackOff (5 * Second) (60 * Second))) as Hb.
  { split; [|done]. split; [split; [split; reflexivity || discriminate|discriminate]|]. intros k e E. discriminate E. }
  split; [exact Hb|exact Hb|apply new_targets_cover|apply new_targets_cover|done|constructor].
Qed.

(** ** Reviews after a cluster change *)

(** The clock can always be read. *)
Definition clock_total : Prop := ∀ w : W, ∃ t w', Now w = (Val t, w').

Lemma deliverIngress_total ing delay ic : clock_total →
  ∃ t w b, Now (apis ic) = (Val t, w) ∧ deliverIngress ing delay false ic =
    (Val tt, request_ingress (mkItem (nn_string ing) ing (t + delay)%Z) (set_apis w (set_ingressBackoff b ic))).
Proof.
  intros Hclock. destruct (Hclock (apis ic)) as (t&w'&Et). exists t, w', (Reset (nn_string ing) (ingressBackoff ic)).
  split; [done|]. unfold deliverIngress, ingress_DeliverAfter, modify, call, zoom. cbv [mbind M_bind mret M_ret]. cbn. by rewrite Et.
Qed.

(** The request for an ingress, three seconds after the clock was read. *)
Definition soon (i : Ingress) (t : Z) : Item NamespacedName :=
  mkItem (ingress_key i) (nn_of_meta (ing_meta i)) (t + 3 * Second)%Z.

Lemma review_all_total (ings : list Ingress) ic : clock_total →
  ∃ ic' ts, for_each (Typed <$> ings) (λ obj, match obj with
      | Typed i => deliverIngress (nn_of_meta (ing_meta i)) smallDelay false
      | OtherItem => go_panic "interface conversion" end) ic = (Val tt, ic') ∧
    readings (apis ic) ts (apis ic') ∧ length ts = length ings ∧
    ingressDeliverer ic' = ingressDeliverer ic ++ zip_with soon ings ts ∧
    clusterDeliverer ic' = clusterDeliverer ic ∧ configMapDeliverer ic' = configMapDeliverer ic.
Proof.
  intros Hclock. revert ic. induction ings as [|i ings IH]; intros ic; cbn [fmap list_fmap for_each].
  - exists ic, []. split_and!; [done|constructor|done|by rewrite app_nil_r|done..].
  - destruct (deliverIngress_total (nn_of_meta (ing_meta i)) smallDelay ic Hclock) as (t&w&b&Et&E).
    set (ic1 := request_ingress _ _) in E. destruct (IH ic1) as (ic'&ts&Er&Hts&Hlen&Hing&Hcl&Hcm).
    exists ic', (t :: ts). rewrite (bind_val _ _ _ _ _ E). split_and!; [exact Er|by econstructor|cbn; by f_equal| |exact Hcl|exact Hcm].
    rewrite Hing. cbn. by rewrite <-app_assoc.
Qed.

(** What is in the store of federated ingresses, in the order in which it is visited. *)
Lemma stored_ingresses ic : sys_ok ic → ∃ ings,
  (range_order (ingressInformerStore ic)).*2 = Typed <$> ings ∧
  ings ≡ₚ omap (λ kv, match kv.2 with Typed i => Some i | OtherItem => None end) (map_to_list (ingressInformerStore ic)) ∧
  length ings = size (ingressInformerStore ic).
Proof.
  intros Hok. set (f := λ kv : string * stored Ingress, match kv.2 with Typed i => Some i | OtherItem => None end).
  assert (∀ l : list (string * stored Ingress), Forall (λ kv, ∃ i, kv.2 = Typed i) l → l.*2 = Typed <$> omap f l) as Hl.
  { induction 1 as [|[k o] l [i Hi] _ IH]; [done|]. cbn in Hi. subst o. cbn. by rewrite IH. }
  assert ((range_order (ingressInformerStore ic)).*2 = Typed <$> omap f (range_order (ingressInformerStore ic))) as E.
  { apply Hl, Forall_forall. intros [k o] Hki%elem_of_range_order. destruct (ok_store _ Hok _ _ Hki) as (i&->&_). by exists i. }
  exists (omap f (range_order (ingressInformerStore ic))). split_and!; [done|by rewrite range_order_perm|].
  rewrite <-(length_fmap (@Typed Ingress)), <-E, length_fmap. apply range_order_length.
Qed.
End more_handlers.

(** ** Properties *)

(** C19: the controller's state stays well-formed: from its creation on, whatever events come
    and whatever the API servers answer, every delay is within the back-off bounds, both
    federated informers watch every ready cluster except those for which no client could be
    created when they were added or changed last, federated ingresses are stored under their
    names and every request is filed under the key of its ingress. *)
Theorem controller_invariant `{K : Kubernetes W, GoMapOrder, Schedule} (w : W) (ic : IngressController W) :
  rtc sys_step (NewIngressController w) ic → sys_ok ic.
Proof.
  intros Hr. pose proof (NewIngressController_ok w) as Hok. revert Hok.
  induction Hr as [ic|ic ic1 ic2 Hs _ IH]; [done|]. intros Hok. apply IH.
  destruct Hs as [e ic ic1 _ Hrun]. exact (sys_run_keeps e ic tt ic1 Hok Hrun).
Qed.

(** C21: a cluster change reviews everything: handling it always gets through, and asks for
    every federated ingress once more, each at three seconds from when the clock was read for
    it during the handling; when the stores are not synced yet it first asks for the cluster
    again, at five seconds from then; it makes no other request. *)
Theorem cluster_change_reviews `{K : Kubernetes W, GoMapOrder, Schedule} (ic : IngressController W) (clusterName : string) :
  clock_total (W := W) → sys_ok ic →
  ∃ ic' ts0 ts ings, reconcileIngressesOnClusterChange clusterName ic = (Val tt, ic') ∧
    readings (apis ic) (ts0 ++ ts) (apis ic') ∧
    ings ≡ₚ omap (λ kv, match kv.2 with Typed i => Some i | OtherItem => None end) (map_to_list (ingressInformerStore ic)) ∧
    length ings = size (ingressInformerStore ic) ∧ length ts = length ings ∧
    ingressDeliverer ic' = ingressDeliverer ic ++
      zip_with (λ i t, mkItem (ingress_key i) (nn_of_meta (ing_meta i)) (t + 3 * Second)%Z) ings ts ∧
    length ts0 = (if isSynced ic then 0 else 1) ∧
    clusterDeliverer ic' = clusterDeliverer ic ++ ((λ t, mkItem clusterName tt (t + 5 * Second)%Z) <$> ts0) ∧
    configMapDeliverer ic' = configMapDeliverer ic.
Proof.
  intros Hclock Hok. unfold reconcileIngressesOnClusterChange. rewrite (bind_val get _ ic ic ic eq_refl).
  destruct (stored_ingresses ic Hok) as (ings&->&Hperm&Hsize).
  destruct (isSynced ic) eqn:Es; cbn [negb].
  - destruct (review_all_total ings ic Hclock) as (ic'&ts&E&Hts&Hlen&Hing&Hcl&Hcm).
    exists ic', [], ts, ings. split_and!; try done. cbn. by rewrite app_nil_r.
  - destruct (Hclock (apis ic)) as (t&w&Et).
    set (ic1 := request_cluster (mkItem clusterName tt (t + clusterAvailableDelay)%Z) (set_apis w ic)).
    assert (cluster_DeliverAfter clusterName clusterAvailableDelay ic = (Val tt, ic1)) as E1.
    { unfold cluster_DeliverAfter. by rewrite (bind_val _ _ ic t (set_apis w ic)) by (by apply call_run). }
    rewrite (bind_val _ _ _ _ _ E1). destruct (review_all_total ings ic1 Hclock) as (ic'&ts&E&Hts&Hlen&Hing&Hcl&Hcm).
    exists ic', [t], ts, ings. split_and!; try done. by econstructor.
Qed.

Module WiringExamples.
Definition web : Ingress :=
  mkIngress (mkObjectMeta "web" "ns" "u1" "7" None None None [] "") (mkSpec None None None) (mkLBS []).
Definition nothing : cloud := mkCloud ∅ ∅ ∅ ∅ false.
Definition created : IngressController cloud := NewIngressController nothing.

(** A federated ingress appears, and its request is handled. *)
Definition seen : IngressController cloud := (sys_run (FederatedIngress (Added web)) created).2.
Definition request : Item NamespacedName := mkItem "ns/web" (mkNsName "ns" "web") 0%Z.
Definition handled : IngressController cloud := (sys_run (HandleIngress request) seen).2.

Lemma cloud_clients (c : Cluster) : ∃ client, clientFactory (W := cloud) c = Ok client.
Proof. exists (cl_name c). reflexivity. Qed.
Lemma request_made : request ∈ ingressDeliverer seen.
Proof. replace (ingressDeliverer seen) with [request] by (vm_compute; reflexivity). apply list_elem_of_here. Qed.

Lemma controller_invariant_witness : sys_ok handled.
Proof.
  apply (controller_invariant nothing handled).
  eapply rtc_l; [apply (sys_step_intro (FederatedIngress (Added web)) created seen I); vm_compute; reflexivity|].
  apply rtc_once, (sys_step_intro (HandleIngress request) seen handled request_made). vm_compute. reflexivity.
Defined.

Lemma seen_ok : sys_ok seen.
Proof.
  apply (sys_run_keeps (FederatedIngress (Added web)) created tt seen).
  - apply NewIngressController_ok.
  - vm_compute. reflexivity.
Qed.

Lemma cluster_change_reviews_witness :
  ∃ ic' ts0 ts ings, reconcileIngressesOnClusterChange "a" seen = (Val tt, ic') ∧
    readings (apis seen) (ts0 ++ ts) (apis ic') ∧
    ings ≡ₚ omap (λ kv, match kv.2 with Typed i => Some i | OtherItem => None end) (map_to_list (ingressInformerStore seen)) ∧
    length ings = size (ingressInformerStore seen) ∧ length ts = length ings ∧
    ingressDeliverer ic' = ingressDeliverer seen ++
      zip_with (λ i t, mkItem (ingress_key i) (nn_of_meta (ing_meta i)) (t + 3 * Second)%Z) ings ts ∧
    length ts0 = (if isSynced seen then 0 else 1) ∧
    clusterDeliverer ic' = clusterDeliverer seen ++ ((λ t, mkItem "a" tt (t + 5 * Second)%Z) <$> ts0) ∧
    configMapDeliverer ic' = configMapDeliverer seen.
Proof.
  apply (cluster_change_reviews seen "a").
  - intros w. exists 0%Z, w. reflexivity.
  - exact seen_ok.
Defined.

(** A cluster that becomes ready is asked for, and handling that asks for the ingress. *)
Definition cluster (status : string) : Cluster :=
  mkCluster (mkObjectMeta "a" "" "" "" None None None [] "") "" [mkCondition "Ready" status] None "".
Example ready_cluster_reviews :
  let joined := (sys_run (IngressInformer (WatchAdd (cluster "True"))) seen).2 in
  clusterDeliverer joined = [mkItem "a" tt (5 * Second)%Z] ∧
  ingressDeliverer (sys_run (HandleCluster (mkItem "a" tt (5 * Second)%Z)) joined).2 =
    [request; mkItem "ns/web" (mkNsName "ns" "web") (3 * Second)%Z] ∧
  clusterDeliverer (sys_run (HandleCluster (mkItem "a" tt (5 * Second)%Z)) joined).2 =
    [mkItem "a" tt (5 * Second)%Z; mkItem "a" tt (5 * Second)%Z].
Proof. split_and!; vm_compute; reflexivity. Qed.

(** A resync, which reports an object that has not changed, asks for nothing. *)
Example resync_is_quiet : sys_run (MemberIngress (Updated web web)) seen = (Val tt, seen).
Proof. vm_compute. reflexivity. Qed.

(** A deletion that was missed while the watch was down ends the program. *)
Example missed_deletion_panics :
  ∃ msg, (sys_run (FederatedIngress (DeletedUnknown web)) seen).1 = Panic msg.
Proof. eexists. vm_compute. reflexivity. Qed.
End WiringExamples.
