(* ===== verification/Requests.v ===== *)
(** The requests that code of the ingress controller makes: it only ever adds to the three
    logs, so that what an event sent to the deliverers is what it added, in the order of the
    program: to the cluster deliverer first, then to the one of ingresses, then to the one of
    config maps (only the handler of a cluster change sends to more than one). *)

From S2P Require Import Prelude GoStrings KubeTypes Handlers FedInformer Updater Deletion Backoff Deliverer IngressController ConfigMaps Cloud IngressControllerFacts ConfigMapsFacts Wiring.

(** Code follows a relation when every run that ends normally goes along it. *)
Section follows.
Context {St : Type} (R : relation St) `{!PreOrder R}.
Definition follows {A} (m : M St A) : Prop := ∀ s a s', m s = (Val a, s') → R s s'.

Lemma follows_ret {A} (a : A) : follows (mret a).
Proof. intros s b s' E. by ret_inv E. Qed.
Lemma follows_panic {A} msg : follows (go_panic (A := A) msg).
Proof. by intros s b s' E. Qed.
Lemma follows_get : follows get.
Proof. intros s b s' E. cbv [get] in E. by injection E as _ <-. Qed.
Lemma follows_gets {A} (f : St → A) : follows (gets f).
Proof. intros s b s' E. cbv [gets] in E. by injection E as _ <-. Qed.
Lemma follows_modify (f : St → St) : (∀ s, R s (f s)) → follows (modify f).
Proof. intros Hf s b s' E. cbv [modify] in E. injection E as _ <-. apply Hf. Qed.
Lemma follows_bind {A B} (m : M St A) (f : A → M St B) : follows m → (∀ a, follows (f a)) → follows (m ≫= f).
Proof. intros Hm Hf s b s' (a&s1&H1&H2)%bind_val_inv. transitivity s1; [by eapply Hm|by eapply Hf]. Qed.
Lemma follows_for_each {X} (l : list X) (body : X → M St unit) : (∀ x, x ∈ l → follows (body x)) → follows (for_each l body).
Proof.
  induction l as [|x l IH]; intros Hb; cbn [for_each]; [apply follows_ret|].
  apply follows_bind; [apply Hb; set_solver|]. intros _. apply IH. set_solver.
Qed.
Lemma follows_for_range {X Acc T} (l : list X) (acc : Acc) (body : Acc → X → M St (Acc + T)) :
  (∀ a x, follows (body a x)) → follows (for_range l acc body).
Proof.
  intros Hb. revert acc. induction l as [|x l IH]; intros acc; cbn [for_range]; [apply follows_ret|].
  apply follows_bind; [apply Hb|]. intros [a|r]; [apply IH|apply follows_ret].
Qed.
End follows.

(** ** Requests *)

Inductive request :=
  | RIngress (it : Item NamespacedName)
  | RCluster (it : Item unit)
  | RConfigMap (it : Item unit).

Section requests.
Context {W : Type}.
Implicit Types ic : IngressController W.

(** The request is in the log of its deliverer. *)
Definition logged ic (r : request) : Prop :=
  match r with
  | RIngress it => it ∈ ingressDeliverer ic
  | RCluster it => it ∈ clusterDeliverer ic
  | RConfigMap it => it ∈ configMapDeliverer ic
  end.

(** What was sent between two states, in the order of the program. *)
Definition sends ic ic' : list request :=
  (RCluster <$> drop (length (clusterDeliverer ic)) (clusterDeliverer ic')) ++
  (RIngress <$> drop (length (ingressDeliverer ic)) (ingressDeliverer ic')) ++
  (RConfigMap <$> drop (length (configMapDeliverer ic)) (configMapDeliverer ic')).

(** The logs only grow. *)
Record grows ic ic' : Prop := {
  grows_ingress : ingressDeliverer ic `prefix_of` ingressDeliverer ic';
  grows_cluster : clusterDeliverer ic `prefix_of` clusterDeliverer ic';
  grows_configmap : configMapDeliverer ic `prefix_of` configMapDeliverer ic'
}.
#[export] Instance grows_preorder : PreOrder grows.
Proof.
  split; [by split|]. intros a b c [H1 H2 H3] [H4 H5 H6]. split; by etransitivity.
Qed.

(** Logs grow, and what the controller knows of the ingresses stays: the store of federated
    ingresses, and the federated informer on the members'. *)
Record stays ic ic' : Prop := {
  stays_grows : grows ic ic';
  stays_store : ingressInformerStore ic' = ingressInformerStore ic;
  stays_informer : ingressFederatedInformer ic' = ingressFederatedInformer ic
}.
#[export] Instance stays_preorder : PreOrder stays.
Proof. split; [by split|]. intros a b c [H1 E1 F1] [H2 E2 F2]. split; [by transitivity b|congruence|congruence]. Qed.

Lemma grows_logged ic ic' r : grows ic ic' → logged ic r → logged ic' r.
Proof. intros [[? E1] [? E2] [? E3]]. destruct r; cbn; rewrite ?E1, ?E2, ?E3, elem_of_app; auto. Qed.
Lemma sends_logged ic ic' r : r ∈ sends ic ic' → logged ic' r.
Proof.
  unfold sends. rewrite !elem_of_app, !list_elem_of_fmap.
  intros [(it&->&Hit)|[(it&->&Hit)|(it&->&Hit)]]; cbn; exact (subseteq_drop _ _ _ Hit).
Qed.
Lemma logged_sends ic ic' r : grows ic ic' → logged ic' r → logged ic r ∨ r ∈ sends ic ic'.
Proof.
  intros [[a E1] [b E2] [c E3]]. unfold sends. rewrite E1, E2, E3, !drop_app_length, !elem_of_app.
  destruct r as [it|it|it]; cbn; rewrite ?E1, ?E2, ?E3, elem_of_app, !list_elem_of_fmap; naive_solver.
Qed.
End requests.

(** Take code apart, down to changes that are seen not to touch the logs. *)
Ltac stays_split :=
  lazymatch goal with
  | |- follows _ (_ ≫= _) => apply follows_bind; [apply _| |intros ?]
  | |- follows _ (mret _) => apply follows_ret, _
  | |- follows _ get => apply follows_get, _
  | |- follows _ (gets _) => apply follows_gets, _
  | |- follows _ (go_panic _) => apply follows_panic
  | |- follows _ (modify _) => apply follows_modify; intros ?; split; [split; cbn; solve [done | by apply prefix_app_r]|done|done]
  | |- follows _ (for_each _ _) => apply follows_for_each; [apply _|intros ? _]
  | |- follows _ (for_range _ _ _) => apply follows_for_range; [apply _|intros ? ?]
  | |- follows _ (match ?x with _ => _ end) => destruct x
  | |- follows _ (let '(_, _) := ?x in _) => destruct x
  | |- follows _ _ => solve [auto with go nocore]
  end.
Ltac stays := repeat stays_split.

Section handlers.
Context `{K : Kubernetes W, GoMapOrder, Schedule}.
Abbreviation follows_ m := (follows (stays (W := W)) m).

Lemma call_stays {A} (m : M W A) : follows_ (call m).
Proof. intros ic a ic' (w&_&->)%call_inv. by split. Qed.
Hint Resolve call_stays : go.

Lemma deliverIngress_stays ingress delay failed : follows_ (deliverIngress ingress delay failed).
Proof. unfold deliverIngress, ingress_DeliverAfter. stays. Qed.
Lemma deliverConfigMap_stays c delay failed : follows_ (deliverConfigMap c delay failed).
Proof. unfold deliverConfigMap, configmap_DeliverAfter. stays. Qed.
Lemma cluster_DeliverAfter_stays n delay : follows_ (cluster_DeliverAfter n delay).
Proof. unfold cluster_DeliverAfter. stays. Qed.
Lemma configmap_DeliverAfter_stays n delay : follows_ (configmap_DeliverAfter n delay).
Proof. unfold configmap_DeliverAfter. stays. Qed.
Hint Resolve deliverIngress_stays deliverConfigMap_stays cluster_DeliverAfter_stays configmap_DeliverAfter_stays : go.

Lemma updateAnnotationOnIngress_stays i key value : follows_ (updateAnnotationOnIngress i key value).
Proof. unfold updateAnnotationOnIngress. cbv zeta. stays. Qed.
Hint Resolve updateAnnotationOnIngress_stays : go.
Lemma reconcile_cluster_stays ing base p c : follows_ (reconcile_cluster ing base p c).
Proof. unfold reconcile_cluster, plan_create, plan_update, copy_status, exit, continue. cbv zeta. stays. Qed.
Hint Resolve reconcile_cluster_stays : go.
Lemma reconcileIngress_stays ing : follows_ (reconcileIngress ing).
Proof. unfold reconcileIngress, sync_clusters, propagate, delete_ingress. stays. Qed.
Lemma reconcileIngressesOnClusterChange_stays n : follows_ (reconcileIngressesOnClusterChange n).
Proof. unfold reconcileIngressesOnClusterChange. stays. Qed.
Lemma reconcileConfigMapForCluster_stays n : follows_ (reconcileConfigMapForCluster n).
Proof.
  unfold reconcileConfigMapForCluster, reconcileConfigMap, updateClusterIngressUIDToMasters. cbv zeta. stays.
Qed.

Lemma trigger_stays {A} (eqb : A → A → bool) (f : A → M (IngressController W) unit) e :
  (∀ a, follows_ (f a)) → follows_ (NewTriggerOnAllChanges eqb f e).
Proof.
  intros Hf ic [] ic' E%trigger_run. destruct (changed_object eqb e) as [obj|]; [by eapply Hf|by subst].
Qed.

(** Nothing that happens takes a request back; only changes of federated ingresses change
    their store, and only what happens to the federated informer changes that. *)
Lemma sys_run_stays e :
  (∀ e', e ≠ FederatedIngress e') → (∀ e', e ≠ IngressInformer e') → follows_ (sys_run e).
Proof.
  intros He Hi. destruct e as [e|e|n e|e|e|item|item|item|now|w]; cbn [sys_run].
  - by destruct (He e).
  - apply trigger_stays. intros obj. apply deliverIngress_stays.
  - apply trigger_stays. intros obj. apply deliverConfigMap_stays.
  - by destruct (Hi e).
  - apply follows_bind; [apply _|stays|]. intros ic. destruct (step _ _ _) as [f calls]. stays. destruct x; cbn; stays.
  - apply reconcileIngress_stays.
  - apply follows_bind; [apply _|apply reconcileIngressesOnClusterChange_stays|]. intros _. apply reconcileConfigMapForCluster_stays.
  - apply reconcileConfigMapForCluster_stays.
  - stays.
  - stays.
Qed.
Lemma federated_run e (ic ic' : IngressController W) : sys_run (FederatedIngress e) ic = (Val tt, ic') →
  grows ic ic' ∧ ingressInformerStore ic' = store_event e (ingressInformerStore ic) ∧
  ingressFederatedInformer ic' = ingressFederatedInformer ic.
Proof.
  cbn [sys_run]. intros ([]&ic1&Em&Er)%bind_val_inv. cbv [modify] in Em. injection Em as <-.
  apply trigger_stays in Er as [[Hi Hc Hm] Hs Hf]; [|intros obj; apply deliverIngress_stays]. by split.
Qed.
Lemma informer_run e (ic ic' : IngressController W) : sys_run (IngressInformer e) ic = (Val tt, ic') →
  grows ic ic' ∧ ingressInformerStore ic' = ingressInformerStore ic ∧
  ingressFederatedInformer ic' = (step clientFactory (ingressFederatedInformer ic) e).1.
Proof.
  cbn [sys_run]. intros (ic0&ic1&Eg&Er)%bind_val_inv. cbv [get] in Eg. injection Eg as <- <-.
  destruct (step _ _ _) as [f calls]. apply bind_val_inv in Er as ([]&ic1&Em&Er). cbv [modify] in Em. injection Em as <-.
  apply (follows_for_each stays) in Er as [[Hi Hc Hm] Hs Hf]; [by split|]. intros [c|c] _; cbn; stays.
Qed.

Lemma sys_run_grows e (ic ic' : IngressController W) : sys_run e ic = (Val tt, ic') →
  grows ic ic' ∧ ((∀ e', e ≠ FederatedIngress e') → ingressInformerStore ic' = ingressInformerStore ic).
Proof.
  intros E. destruct e as [e| | |e| | | | | | ];
    try (apply sys_run_stays in E as [Hg Hs _]; [by split|done|done]).
  - apply federated_run in E as [Hg _]. split; [done|]. intros He. by destruct (He e).
  - apply informer_run in E as (Hg&Hs&_). by split.
Qed.
End handlers.
