(* ===== verification/Agreement.v ===== *)
(** The ingress UIDs of the clusters agree, along the histories of the whole controller: only
    [updateClusterIngressUIDToMasters] writes to clusters, and it gives a cluster the UID of
    the master that the cache shows. *)

From S2P Require Import Prelude GoStrings KubeTypes Handlers FedInformer Updater Deletion Backoff Deliverer IngressController ConfigMaps Cloud IngressControllerFacts ConfigMapsFacts Wiring Requests.

(** The contract of the federation's API server for clusters: an update that succeeds stores
    the annotations it was sent, one that fails may have stored them, and no other call
    changes clusters. *)
Class ClusterLaws (W : Type) `{Kubernetes W} := {
  clusters_of : W → gmap string Cluster;
  law_update_cluster : ∀ c r w w', Clusters_Update c w = (Val r, w') →
    (∃ c', clusters_of w' = <[cl_name c := c']> (clusters_of w) ∧ Annotations (cl_meta c') = Annotations (cl_meta c)) ∨
    ∃ e, r = Err e ∧ clusters_of w' = clusters_of w;
  law_now : ∀ t w w', Now w = (Val t, w') → clusters_of w' = clusters_of w;
  law_federation : ∀ f i r w w', f = Ingresses_Update ∨ f = Ingresses_UpdateStatus →
    f i w = (Val r, w') → clusters_of w' = clusters_of w;
  law_federation_delete : ∀ ns n r w w', Ingresses_Delete ns n w = (Val r, w') → clusters_of w' = clusters_of w;
  law_members : ∀ f cl i r w w',
    f = member_create_ingress ∨ f = member_update_ingress ∨ f = member_delete_ingress →
    f cl i w = (Val r, w') → clusters_of w' = clusters_of w;
  law_configmaps : ∀ f cl cm r w w',
    f = member_create_configmap ∨ f = member_update_configmap ∨ f = member_delete_configmap →
    f cl cm w = (Val r, w') → clusters_of w' = clusters_of w
}.

(** ** Code that does not write to clusters *)

Section quiet_code.
Context `{K : Kubernetes W, GoMapOrder, Schedule, !ClusterLaws W}.
Abbreviation IC := (IngressController W).

Definition same_clusters (w w' : W) : Prop := clusters_of w' = clusters_of w.
#[export] Instance same_clusters_preorder : PreOrder same_clusters.
Proof. split; [done|]. unfold same_clusters. intros a b c H1 H2. congruence. Qed.

Definition untouched (ic ic' : IC) : Prop := same_clusters (apis ic) (apis ic').
#[export] Instance untouched_preorder : PreOrder untouched.
Proof. split; [by intros ic|]. intros a b c H1 H2. unfold untouched. by transitivity (apis b). Qed.

Lemma call_untouched {A} (m : M W A) : follows same_clusters m → follows untouched (call m).
Proof. intros Hm ic a ic' (w&E&->)%call_inv. exact (Hm _ _ _ E). Qed.

Lemma Now_same : follows same_clusters Now.
Proof. intros w t w'. apply law_now. Qed.
Lemma Ingresses_Update_same i : follows same_clusters (Ingresses_Update i).
Proof. intros w r w'. apply law_federation. by left. Qed.
Lemma Ingresses_UpdateStatus_same i : follows same_clusters (Ingresses_UpdateStatus i).
Proof. intros w r w'. apply law_federation. by right. Qed.
Lemma Ingresses_Delete_same ns n : follows same_clusters (Ingresses_Delete ns n).
Proof. intros w r w'. apply law_federation_delete. Qed.
Lemma ingress_updater_same (ic : IC) ops :
  follows same_clusters (fu_Update (FederatedUpdater := federatedIngressUpdater ic) ops).
Proof. intros w r w'. apply (Update_keeps same_clusters). intros f cl i v r' v'. apply law_members. Qed.
Lemma configmap_updater_same (ic : IC) ops :
  follows same_clusters (fu_Update (FederatedUpdater := federatedConfigMapUpdater ic) ops).
Proof. intros w r w'. apply (Update_keeps same_clusters). intros f cl i v r' v'. apply law_configmaps. Qed.
End quiet_code.
#[export] Hint Resolve Now_same Ingresses_Update_same Ingresses_UpdateStatus_same Ingresses_Delete_same
  ingress_updater_same configmap_updater_same : go.

(** Take code apart, down to calls that keep the clusters. *)
Ltac untouched_split :=
  lazymatch goal with
  | |- follows _ (_ ≫= _) => apply follows_bind; [apply _| |intros ?]
  | |- follows _ (mret _) => apply follows_ret, _
  | |- follows _ get => apply follows_get, _
  | |- follows _ (gets _) => apply follows_gets, _
  | |- follows _ (go_panic _) => apply follows_panic
  | |- follows _ (call _) => apply call_untouched
  | |- follows _ (modify _) => apply follows_modify; intros ?; solve [reflexivity | by split]
  | |- follows _ (for_each _ _) => apply follows_for_each; [apply _|intros ? _]
  | |- follows _ (for_range _ _ _) => apply follows_for_range; [apply _|intros ? ?]
  | |- follows _ (match ?x with _ => _ end) => destruct x
  | |- follows _ (let '(_, _) := ?x in _) => destruct x
  | |- follows _ _ => solve [auto with go nocore]
  end.
Ltac untouched := repeat untouched_split.

Section handlers.
Context `{K : Kubernetes W, GoMapOrder, Schedule, !ClusterLaws W}.
Abbreviation IC := (IngressController W).
Abbreviation untouched_ m := (follows (untouched (W := W)) m).

Lemma removeFinalizers_same i fs : follows (same_clusters (W := W)) (removeFinalizers Ingresses_Update i fs).
Proof. unfold removeFinalizers. untouched. Qed.
Lemma EnsureFinalizers_same i : follows (same_clusters (W := W)) (EnsureFinalizers Ingresses_Update i).
Proof. unfold EnsureFinalizers, addFinalizers. cbv zeta. untouched. Qed.
Hint Resolve removeFinalizers_same EnsureFinalizers_same : go.
Lemma HandleObject_same (ic : IC) i :
  follows (same_clusters (W := W)) (HandleObjectInUnderlyingClusters Ingresses_Update objName MetaNamespaceKeyFunc
    (ingressFederatedInformer ic) (federatedIngressUpdater ic) i).
Proof. unfold HandleObjectInUnderlyingClusters. cbv zeta. untouched. Qed.
Hint Resolve HandleObject_same : go.

Lemma cluster_DeliverAfter_untouched n delay : untouched_ (cluster_DeliverAfter n delay).
Proof. unfold cluster_DeliverAfter. untouched. Qed.
Lemma configmap_DeliverAfter_untouched n delay : untouched_ (configmap_DeliverAfter n delay).
Proof. unfold configmap_DeliverAfter. untouched. Qed.
Hint Resolve cluster_DeliverAfter_untouched configmap_DeliverAfter_untouched : go.
Lemma deliverIngress_untouched i delay failed : untouched_ (deliverIngress i delay failed).
Proof. unfold deliverIngress, ingress_DeliverAfter. untouched. Qed.
Lemma deliverConfigMap_untouched n delay failed : untouched_ (deliverConfigMap n delay failed).
Proof. unfold deliverConfigMap. untouched. Qed.
Hint Resolve deliverIngress_untouched deliverConfigMap_untouched : go.
Lemma updateAnnotationOnIngress_untouched i key value : untouched_ (updateAnnotationOnIngress i key value).
Proof. unfold updateAnnotationOnIngress. cbv zeta. untouched. Qed.
Hint Resolve updateAnnotationOnIngress_untouched : go.
Lemma reconcile_cluster_untouched ing base p c : untouched_ (reconcile_cluster ing base p c).
Proof. unfold reconcile_cluster, plan_create, plan_update, copy_status, exit, continue. cbv zeta. untouched. Qed.
Hint Resolve reconcile_cluster_untouched : go.
Lemma reconcileIngress_untouched ing : untouched_ (reconcileIngress ing).
Proof. unfold reconcileIngress, sync_clusters, propagate, delete_ingress. cbv zeta. untouched. Qed.
Lemma reconcileIngressesOnClusterChange_untouched n : untouched_ (reconcileIngressesOnClusterChange n).
Proof. unfold reconcileIngressesOnClusterChange. untouched. Qed.
Lemma trigger_untouched {A} (eqb : A → A → bool) (f : A → M IC unit) e :
  (∀ a, untouched_ (f a)) → untouched_ (NewTriggerOnAllChanges eqb f e).
Proof.
  intros Hf ic [] ic' E%trigger_run. destruct (changed_object eqb e) as [obj|]; [by eapply Hf|by subst].
Qed.

(** What the handler of a cluster does first keeps what the controller sees of the clusters. *)
Definition same_view (ic ic' : IC) : Prop :=
  configMapFederatedInformer ic' = configMapFederatedInformer ic ∧ ingressFederatedInformer ic' = ingressFederatedInformer ic.
#[export] Instance same_view_preorder : PreOrder same_view.
Proof. split; [by split|]. intros a b c [] []. split; congruence. Qed.
Lemma call_view {A} (m : M W A) : follows same_view (call m).
Proof. by intros ic a ic' (w&_&->)%call_inv. Qed.
Lemma reconcileIngressesOnClusterChange_view n : follows same_view (reconcileIngressesOnClusterChange (W := W) n).
Proof.
  unfold reconcileIngressesOnClusterChange, cluster_DeliverAfter, deliverIngress, ingress_DeliverAfter.
  repeat lazymatch goal with |- follows _ (call _) => apply call_view | _ => untouched_split end.
Qed.
End handlers.
#[export] Hint Resolve cluster_DeliverAfter_untouched configmap_DeliverAfter_untouched : go.

(** ** The election *)

Section election.
Context `{K : Kubernetes W, GoMapOrder, Schedule, !ClusterLaws W}.
Implicit Types (ic : IngressController W) (w : W).

(** Some cluster has this UID; and there is at most one UID. *)
Definition has_uid w (u : string) : Prop := ∃ n c, clusters_of w !! n = Some c ∧ uid_of c = u ∧ u ≠ "".
Lemma same_has_uid w w' u : same_clusters w w' → has_uid w' u ↔ has_uid w u.
Proof. unfold same_clusters, has_uid. by intros ->. Qed.
Definition one_uid w : Prop := ∀ u1 u2, has_uid w u1 → has_uid w u2 → u1 = u2.

(** A cluster that has a UID goes on to have it. *)
Definition uids_kept w w' : Prop :=
  ∀ n c, clusters_of w !! n = Some c → uid_of c ≠ "" → ∃ c', clusters_of w' !! n = Some c' ∧ uid_of c' = uid_of c.

(** When some cluster has a UID, then a ready one in the cache shows it, and none shows
    another. *)
Definition informed ic : Prop := ∀ u, has_uid (apis ic) u →
  (∃ n c, ready_in (configMapFederatedInformer ic) n c ∧ uid_of c = u) ∧
  ∀ n c, ready_in (configMapFederatedInformer ic) n c → uid_of c = "" ∨ uid_of c = u.

(** The controller is to give a UID to a cluster: the cache shows it ready and without one. *)
Definition electing (n : string) ic : Prop :=
  isSynced ic = true ∧ ∃ c, GetReadyCluster n (configMapFederatedInformer ic) = Ok (Some c) ∧ uid_of c = "".

(** What happens: the cluster gets the UID that the others have, if any has one. *)
Definition elected w (n : string) w' : Prop :=
  same_clusters w w' ∨
  ∃ c u, clusters_of w' = <[n := c]> (clusters_of w) ∧ uid_of c = u ∧ u ≠ "" ∧ ∀ v, has_uid w v → v = u.

Lemma same_elected w w1 n w' : same_clusters w w1 → elected w1 n w' → elected w n w'.
Proof.
  intros Hs [E|(c&u&E&?&?&Hall)]; [left; by transitivity w1|right]. exists c, u. rewrite E, Hs.
  split_and!; [done..|]. intros v Hv. by apply Hall, (same_has_uid w).
Qed.

Lemma elected_agrees w n w' : elected w n w' → one_uid w → one_uid w' ∧ uids_kept w w'.
Proof.
  unfold uids_kept. intros [E|(c&u&E&Hc&Hu&Hall)] Ho.
  - split; [|rewrite E; intros m c Hm _; by exists c]. intros u1 u2. rewrite !(same_has_uid w w') by done. apply Ho.
  - assert (∀ v, has_uid w' v → v = u) as Hv.
    { intros v (m&d&Hd&Hdv&Hne). rewrite E in Hd. apply lookup_insert_Some in Hd as [[_ <-]|[_ Hd]]; [congruence|].
      apply Hall. by exists m, d. }
    split; [intros u1 u2 H1%Hv H2%Hv; congruence|]. intros m d Hd Hne. rewrite E.
    destruct (decide (n = m)) as [->|Hn].
    + exists c. split; [apply lookup_insert_eq|]. rewrite Hc. symmetry. apply Hall. by exists m, d.
    + exists d. by rewrite lookup_insert_ne.
Qed.

Lemma follows_at {St A} (R : relation St) (m : M St A) s a s' : m s = (Val a, s') → follows R m → R s s'.
Proof. intros E Hm. exact (Hm _ _ _ E). Qed.

(** The UID of the master is that of all, and there is a master when any has one. *)
Lemma getMasterCluster_informed ic : clusters_wf (clusterStore (configMapFederatedInformer ic)) → informed ic →
  match getMasterCluster ic with
  | Ok (_, u) => u ≠ "" ∧ ∀ v, has_uid (apis ic) v → v = u
  | Err _ => ∀ v, ¬ has_uid (apis ic) v
  end.
Proof.
  intros Hw Hi. unfold getMasterCluster. destruct (GetReadyClusters_spec _ Hw) as (cs&->&Hin).
  pose proof (first_master_spec cs) as Hm. destruct (first_master cs) as [[m u]|].
  - destruct Hm as (Hm%Hin&Hu&Hne). split; [done|]. intros v Hv. destruct (Hi v Hv) as [_ Hall].
    destruct (Hall _ _ Hm); congruence.
  - intros v Hv. destruct (Hi v Hv) as [(n&c&Hc&Hu) _]. destruct (Hw _ _ (proj1 Hc)) as (c'&[= <-]&Hn). subst n.
    apply Hin, Hm in Hc. destruct Hv as (?&?&?&?&?). congruence.
Qed.

Lemma annotate_run cluster u (f : result Cluster → result string) r ic ic' :
  (call (Clusters_Update (annotate_cluster cluster u)) ≫= λ r, mret (f r)) ic = (Val r, ic') →
  u ≠ "" → (∀ v, has_uid (apis ic) v → v = u) → elected (apis ic) (cl_name cluster) (apis ic').
Proof.
  intros (r1&ic1&(w&Hw&->)%call_inv&E)%bind_val_inv Hu Hall. cbv [mret M_ret] in E. injection E as _ <-. cbn.
  apply law_update_cluster in Hw as [(c&Hc&Ha)|(e&_&E)]; [right|by left].
  exists c, u. split_and!; [exact Hc| |done|done]. rewrite <-(uid_annotate cluster u). unfold uid_of. by rewrite Ha.
Qed.

Lemma updateUID_elects cluster fallback r ic ic' :
  clusters_wf (clusterStore (configMapFederatedInformer ic)) → informed ic →
  updateClusterIngressUIDToMasters cluster fallback ic = (Val r, ic') → elected (apis ic) (cl_name cluster) (apis ic').
Proof.
  intros Hw Hi. unfold updateClusterIngressUIDToMasters. rewrite (bind_val get _ ic ic ic eq_refl).
  pose proof (getMasterCluster_informed ic Hw Hi) as Hm.
  assert (∀ a : result string, (mret a : M (IngressController W) _) ic = (Val r, ic') → elected (apis ic) (cl_name cluster) (apis ic')) as Hret
    by (intros a E; cbv [mret M_ret] in E; injection E as _ <-; by left).
  destruct (getMasterCluster ic) as [[m u]|e]; case_bool_decide; try apply Hret.
  - intros E. apply (annotate_run cluster u _ _ _ _ E); tauto.
  - intros E. apply (annotate_run cluster fallback _ _ _ _ E); [done|]. intros v Hv. by destruct (Hm v).
Qed.

Lemma reconcileConfigMap_elects cluster key cm ic ic' :
  clusters_wf (clusterStore (configMapFederatedInformer ic)) → (uid_of cluster = "" → informed ic) →
  reconcileConfigMap cluster key cm ic = (Val tt, ic') → elected (apis ic) (cl_name cluster) (apis ic').
Proof.
  intros Hw Hi (r&ic1&He&Hr)%bind_val_inv.
  assert (elected (apis ic) (cl_name cluster) (apis ic1)) as Hel.
  { destruct (negb _ || _) eqn:Ex; [|cbv [mret M_ret] in He; injection He as _ <-; by left].
    eapply updateUID_elects; [done| |exact He]. apply Hi. unfold uid_of, map_get_str in *.
    apply orb_true_iff in Ex as [Ex%negb_true_iff%bool_decide_eq_false|Ex%bool_decide_eq_true]; [|done].
    by destruct (map_get _ _); [destruct Ex; eexists|]. }
  assert (untouched ic1 ic') as Hs.
  { eapply (follows_at untouched); [exact Hr|]. cbv zeta. untouched. }
  unfold elected, same_clusters, untouched in *. by rewrite Hs.
Qed.

Lemma reconcileForCluster_elects n ic ic' :
  clusters_wf (clusterStore (configMapFederatedInformer ic)) → (electing n ic → informed ic) →
  reconcileConfigMapForCluster n ic = (Val tt, ic') → elected (apis ic) n (apis ic').
Proof.
  intros Hw Hi. unfold reconcileConfigMapForCluster. rewrite (bind_val get _ ic ic ic eq_refl).
  assert (∀ m, follows (untouched (W := W)) m → m ic = (Val tt, ic') → elected (apis ic) n (apis ic')) as Hun
    by (intros m Hm E; left; exact (Hm _ _ _ E)).
  destruct (isSynced ic) eqn:Es; cbn [negb]; [|by apply Hun, configmap_DeliverAfter_untouched].
  case_bool_decide.
  { destruct (GetReadyClusters _); apply Hun; untouched. }
  destruct (GetReadyCluster n _) as [[c|]|e] eqn:Ec; [|by apply Hun, configmap_DeliverAfter_untouched..].
  assert (cl_name c = n) as En.
  { unfold GetReadyCluster in Ec. destruct (clusterStore _ !! n) as [i|] eqn:Ei; [|done].
    destruct (Hw _ _ Ei) as (c'&->&<-). destruct (FedInformer.isClusterReady c'); [|done]. by injection Ec as <-. }
  cbv zeta. destruct (GetByKey _ _ _) as [[cm|]|]; [|apply Hun; untouched|apply Hun; untouched].
  intros E. replace (elected (apis ic) n) with (elected (apis ic) (cl_name c)) by (by rewrite En). revert E. apply reconcileConfigMap_elects; [done|]. intros Hu. apply Hi. split; [done|]. by exists c.
Qed.

(** ** Histories *)

(** What may happen for the UIDs to agree: the controller gives a UID to a cluster only when
    the cache shows it the one that there is; and others, who may create, change and delete
    clusters as they like, bring no UID of their own. *)
Definition sound (e : sys_event (W:=W)) ic : Prop :=
  match e with
  | HandleCluster item | HandleConfigMap item => electing (Key item) ic → informed ic
  | World w => ∀ u, has_uid w u → has_uid (apis ic) u
  | _ => True
  end.
Inductive uid_step : relation (IngressController W) :=
  | uid_step_intro e ic ic' : may_happen e ic → sound e ic → sys_run e ic = (Val tt, ic') → uid_step ic ic'.

Lemma sys_run_untouched e : (∀ i, e ≠ HandleCluster i) → (∀ i, e ≠ HandleConfigMap i) → (∀ w, e ≠ World w) →
  follows (untouched (W := W)) (sys_run e).
Proof.
  intros Hc Hm Hw. destruct e as [e|e|n e|e|e|item|item|item|now|w]; cbn [sys_run].
  - apply follows_bind; [apply _|untouched|]. intros _. apply trigger_untouched. intros i. apply deliverIngress_untouched.
  - apply trigger_untouched. intros i. apply deliverIngress_untouched.
  - apply trigger_untouched. intros i. apply deliverConfigMap_untouched.
  - apply follows_bind; [apply _|untouched|]. intros ic. destruct (step _ _ _) as [f calls]. untouched.
    destruct x; cbn; auto using cluster_DeliverAfter_untouched.
  - apply follows_bind; [apply _|untouched|]. intros ic. destruct (step _ _ _) as [f calls]. untouched.
    destruct x; cbn; [apply cluster_DeliverAfter_untouched|untouched].
  - apply reconcileIngress_untouched.
  - by destruct (Hc item).
  - by destruct (Hm item).
  - untouched.
  - by destruct (Hw w).
Qed.

Lemma sys_run_agrees e ic ic' : sys_ok ic → sound e ic → (∀ w, e ≠ World w) → sys_run e ic = (Val tt, ic') →
  one_uid (apis ic) → one_uid (apis ic') ∧ uids_kept (apis ic) (apis ic').
Proof.
  intros Hok Hs Hw E. assert (∃ n, elected (apis ic) n (apis ic')) as [n Hel]; [|by apply (elected_agrees _ n)].
  pose proof (λ a b, sys_run_untouched e a b Hw ic tt ic') as Hun. pose proof (proj1 (ok_configmap_informer _ Hok)) as Hwf.
  destruct e as [e|e|n e|e|e|item|item|item|now|w]; try (exists ""; left; by apply Hun).
  - cbn [sys_run] in E. apply bind_val_inv in E as ([]&ic1&E1&E2).
    destruct (reconcileIngressesOnClusterChange_view _ _ _ _ E1) as [V1 V2].
    pose proof (reconcileIngressesOnClusterChange_untouched _ _ _ _ E1) as Hsame.
    exists (Key item). apply (same_elected _ (apis ic1)); [done|].
    apply (reconcileForCluster_elects _ _ _); [by rewrite V1| |done]. unfold electing, isSynced, informed in *.
    rewrite V1, V2. intros Hel u Hu%(same_has_uid _ _ _ Hsame). by apply Hs.
  - exists (Key item). by apply (reconcileForCluster_elects _ _ _ Hwf).
Qed.

Lemma uid_step_agrees ic ic' : uid_step ic ic' → sys_ok ic → one_uid (apis ic) → sys_ok ic' ∧ one_uid (apis ic').
Proof.
  intros [e ic1 ic1' _ Hs E] Hok Ho. split; [by eapply sys_run_keeps|].
  destruct e; try (refine (proj1 (sys_run_agrees _ _ _ Hok Hs _ E Ho)); intros ?; discriminate).
  cbn [sys_run] in E. cbv [modify] in E. injection E as <-. intros u1 u2 H1%Hs H2%Hs. by apply Ho.
Qed.
Lemma uid_steps_agree ic ic' : rtc uid_step ic ic' → sys_ok ic → one_uid (apis ic) → sys_ok ic' ∧ one_uid (apis ic').
Proof. induction 1 as [|ic ic1 ic2 Hs _ IH]; [done|]. intros Hok Ho. destruct (uid_step_agrees _ _ Hs Hok Ho). auto. Qed.

(** A cache that shows the clusters as they are, when one that is ready has a UID if any has
    one, informs the controller. *)
Lemma up_to_date_informed ic : one_uid (apis ic) →
  clusterStore (configMapFederatedInformer ic) = Typed <$> clusters_of (apis ic) →
  (∀ u, has_uid (apis ic) u → ∃ n c, clusters_of (apis ic) !! n = Some c ∧ uid_of c ≠ "" ∧ FedInformer.isClusterReady c = true) →
  informed ic.
Proof.
  intros Ho Hs Hv u Hu. unfold ready_in. rewrite Hs. split.
  - destruct (Hv u Hu) as (n&c&Hc&Hne&Hr). exists n, c. rewrite lookup_fmap, Hc. split; [done|]. apply Ho; [|done]. by exists n, c.
  - intros n c [Hc _]. rewrite lookup_fmap, fmap_Some in Hc. destruct Hc as (c'&Hc&[= <-]).
    destruct (decide (uid_of c = "")) as [?|Hne]; [by left|right]. apply Ho; [|done]. by exists n, c.
Qed.
End election.

(** ** Properties *)

(** C17: the clusters agree on one UID: whatever happens to the controller from its start on,
    in any order (events of its informers, handled requests, failing calls), as long as the
    cache shows the UID that there is whenever the controller is to give one to a cluster,
    and others bring no UID of their own, all clusters that have a UID have the same; and
    the controller never gives another UID to a cluster that has one.  The code itself does
    not see to it that the cache shows the UID: [stale_cache_two_masters] and
    [unready_master_two_uids] in [ConfigMapsFacts.v] are runs where it does not. *)
Theorem uid_agreement `{K : Kubernetes W, GoMapOrder, Schedule, !ClusterLaws W} (w : W) (ic : IngressController W) :
  rtc uid_step (NewIngressController w) ic → one_uid w →
  one_uid (apis ic) ∧
  ∀ e ic', sound e ic → (∀ w', e ≠ World w') → sys_run e ic = (Val tt, ic') → uids_kept (apis ic) (apis ic').
Proof.
  intros Hr Ho. destruct (uid_steps_agree _ _ Hr (NewIngressController_ok w) Ho) as [Hok Ho']. split; [exact Ho'|].
  intros e ic' Hs Hw E. exact (proj2 (sys_run_agrees e ic ic' Hok Hs Hw E Ho')).
Qed.

Module AgreementExamples.
Import ConfigMapsExamples.
#[export, refine] Instance cloud_cluster_laws : ClusterLaws cloud := {| clusters_of := fed_clusters |}.
Proof.
  - intros c r w w' E. cbn in E. unfold store_cluster in E. destruct (broken w); injection E as <- <-.
    + right. eexists. split; reflexivity.
    + left. exists c. split; reflexivity.
  - intros t w w' E. cbn in E. by injection E as _ <-.
  - intros f i r w w' Hf E. assert (store_fed i w = (Val r, w')) as E' by (by destruct Hf as [->| ->]).
    unfold store_fed in E'. destruct (broken w); by injection E' as _ <-.
  - intros ns n r w w' E. cbn in E. unfold drop_fed in E. by injection E as _ <-.
  - intros f cl i r w w' [->|[->| ->]] E; cbn in E.
    1-2: unfold store_ingress in E; destruct (broken w); by injection E as _ <-.
    unfold drop_ingress in E. destruct (cells w !! _); by injection E as _ <-.
  - intros f cl cm r w w' [->|[->| ->]] E; cbn in E.
    1-2: unfold store_config in E; destruct (broken w); by injection E as _ <-.
    unfold drop_config in E. by injection E as _ <-.
Defined.

(** The UIDs of the clusters, and the checks of a step, computed. *)
Definition uids_in (w : cloud) : list string := filter (λ u, u ≠ "") ((λ kv, uid_of kv.2) <$> map_to_list (fed_clusters w)).
Definition ready_uids (ic : IngressController cloud) : list string :=
  omap (λ kv, match kv.2 with Typed c => if FedInformer.isClusterReady c then Some (uid_of c) else None | OtherItem => None end)
    (map_to_list (clusterStore (configMapFederatedInformer ic))).
Definition informedb (ic : IngressController cloud) : bool :=
  forallb (λ u, bool_decide (u ∈ ready_uids ic) && forallb (λ v, bool_decide (v = "" ∨ v = u)) (ready_uids ic)) (uids_in (apis ic)).
Definition soundb (e : sys_event (W := cloud)) (ic : IngressController cloud) : bool :=
  match e with
  | HandleCluster _ | HandleConfigMap _ => informedb ic
  | World w => forallb (λ u, bool_decide (u ∈ uids_in (apis ic))) (uids_in w)
  | _ => true
  end.

Lemma elem_of_uids_in w u : has_uid w u ↔ u ∈ uids_in w.
Proof.
  unfold has_uid, uids_in. rewrite list_elem_of_filter, list_elem_of_fmap. cbn [clusters_of cloud_cluster_laws]. split.
  - intros (n&c&Hc&<-&Hne). split; [done|]. exists (n, c). by rewrite elem_of_map_to_list.
  - intros (Hne&[n c]&->&Hc%elem_of_map_to_list). by exists n, c.
Qed.
Lemma elem_of_ready_uids ic u :
  u ∈ ready_uids ic ↔ ∃ n c, ready_in (configMapFederatedInformer ic) n c ∧ uid_of c = u.
Proof.
  unfold ready_uids, ready_in. rewrite list_elem_of_omap. split.
  - intros ([n [c|]]&Hin%elem_of_map_to_list&E); cbn in E; [|done].
    destruct (FedInformer.isClusterReady c) eqn:Er; [|done]. injection E as <-. by exists n, c.
  - intros (n&c&[Hc Hr]&<-). exists (n, Typed c). rewrite elem_of_map_to_list. cbn. by rewrite Hr.
Qed.
Lemma informedb_ok ic : informedb ic = true → informed ic.
Proof.
  unfold informedb. rewrite <-Is_true_true, forallb_True, Forall_forall. intros Hf u Hu%elem_of_uids_in.
  pose proof (Hf u Hu) as [H1%bool_decide_unpack%elem_of_ready_uids H2]%andb_prop_elim. split; [done|].
  intros n c Hc. rewrite forallb_True, Forall_forall in H2.
  apply (bool_decide_unpack _ (H2 (uid_of c) (proj2 (elem_of_ready_uids ic _) (ex_intro _ n (ex_intro _ c (conj Hc eq_refl)))))).
Qed.
Lemma soundb_ok e ic : soundb e ic = true → sound e ic.
Proof.
  destruct e; cbn [soundb sound]; try done; try (intros Hi%informedb_ok _; exact Hi).
  rewrite <-Is_true_true, forallb_True, Forall_forall. intros Hf u Hu%elem_of_uids_in.
  apply elem_of_uids_in, (bool_decide_unpack _ (Hf u Hu)).
Qed.

(** A run of sound events, checked on the way; a handled request is one that was made. *)
Definition madeb (e : sys_event (W := cloud)) (ic : IngressController cloud) : bool :=
  match e with
  | HandleIngress item => existsb (λ it, bool_decide (Key it = Key item ∧ Value it = Value item ∧ DeliveryTime it = DeliveryTime item)) (ingressDeliverer ic)
  | HandleCluster item => existsb (λ it, bool_decide (Key it = Key item ∧ DeliveryTime it = DeliveryTime item)) (clusterDeliverer ic)
  | HandleConfigMap item => existsb (λ it, bool_decide (Key it = Key item ∧ DeliveryTime it = DeliveryTime item)) (configMapDeliverer ic)
  | _ => true
  end.
Lemma madeb_ok e ic : madeb e ic = true → may_happen e ic.
Proof.
  destruct e as [| | | | |i|i|i| |]; cbn [madeb may_happen]; try done; destruct i as [k v t];
    intros (it&Hin%list_elem_of_In&E%bool_decide_eq_true)%existsb_exists; destruct it as [k' v' t']; cbn in E.
  - destruct E as (->&->&->). exact Hin.
  - destruct E as (->& ->), v, v'. exact Hin.
  - destruct E as (->& ->), v, v'. exact Hin.
Qed.
Fixpoint sound_run (es : list (sys_event (W := cloud))) (ic : IngressController cloud) : option (IngressController cloud) :=
  match es with
  | [] => Some ic
  | e :: es =>
      if madeb e ic && soundb e ic
      then match sys_run e ic with (Val _, ic') => sound_run es ic' | _ => None end
      else None
  end.
Lemma sound_run_steps es ic ic' : sound_run es ic = Some ic' → rtc uid_step ic ic'.
Proof.
  revert ic. induction es as [|e es IH]; intros ic; cbn [sound_run]; [by intros [= <-]|].
  destruct (madeb e ic && soundb e ic) eqn:Eb; [|done]. apply andb_true_iff in Eb as [Em Es].
  destruct (sys_run e ic) as [[[]|msg] ic1] eqn:E; [|done]. intros Hr. eapply rtc_l; [|by apply IH].
  exact (uid_step_intro e ic ic1 (madeb_ok _ _ Em) (soundb_ok _ _ Es) E).
Qed.

(** The controller starts and reads clusters a and b, whose config maps have UIDs of their
    own.  a elects itself; the informers report it and read its objects again, a third
    cluster is made; and b takes over the UID of a. *)
Definition config_of (uid : string) : Store ConfigMap := {[ uid_cache_key := Typed (config (uids uid)) ]}.
Definition reads (c : Cluster) (uid : string) : list (sys_event (W := cloud)) :=
  [IngressInformer (WatchUpdate c); ConfigMapInformer (WatchUpdate c);
   ConfigMapInformer (TargetChange (cl_name c) (config_of uid));
   IngressInformer (TargetSynced (cl_name c)); ConfigMapInformer (TargetSynced (cl_name c))].
Definition joining (n : string) : sys_event (W := cloud) := HandleCluster (mkItem n tt (5 * Second)%Z).
Definition elects : list (sys_event (W := cloud)) :=
  [IngressInformer ClusterListSynced; ConfigMapInformer ClusterListSynced] ++
  reads (cluster "a" None "True") "ua" ++ reads (cluster "b" None "True") "ub" ++ [joining "a"].
Definition follows_a : list (sys_event (W := cloud)) :=
  reads (cluster "a" (has "ua") "True") "ua" ++
  [World (cloud_of {[ "a" := cluster "a" (has "ua") "True"; "b" := cluster "b" None "True"; "c" := cluster "c" None "False" ]} false)].
Definition beginning : IngressController cloud := NewIngressController (cloud_of two false).
Definition master_a : IngressController cloud := default beginning (sound_run elects beginning).
Definition before_b : IngressController cloud := default beginning (sound_run follows_a master_a).
Definition after_b : IngressController cloud := (sys_run (joining "b") before_b).2.
Example b_follows_a :
  uid_at (apis master_a) <$> ["a"; "b"; "c"] = [Some "ua"; Some ""; None] ∧
  uid_at (apis after_b) <$> ["a"; "b"; "c"] = [Some "ua"; Some "ua"; Some ""].
Proof. split; vm_compute; reflexivity. Qed.

Lemma run_sound es ic : match sound_run es ic with Some _ => true | None => false end = true →
  rtc uid_step ic (default beginning (sound_run es ic)).
Proof. destruct (sound_run es ic) as [ic'|] eqn:E; [|done]. intros _. exact (sound_run_steps es ic ic' E). Qed.

Lemma uid_agreement_witness : one_uid (apis before_b) ∧ uids_kept (apis before_b) (apis after_b).
Proof.
  refine (let '(conj Ho Hk) := uid_agreement (cloud_of two false) before_b _ _ in conj Ho (Hk (joining "b") after_b _ _ _)).
  - transitivity master_a; [apply (run_sound elects)|apply (run_sound follows_a)]; vm_compute; reflexivity.
  - intros u1 u2 H1%elem_of_uids_in. vm_compute in H1. inversion H1.
  - apply soundb_ok. vm_compute. reflexivity.
  - intros w' E. discriminate E.
  - vm_compute. reflexivity.
Defined.

(** The two runs of [ConfigMapsFacts.v] that give two UIDs are not sound. *)
Example not_informed :
  informedb (seeing two maps_ab (apis elected)) = false ∧
  let clusters : gmap string Cluster := {[ "a" := cluster "a" (has "ua") "False"; "b" := cluster "b" None "True" ]} in
  informedb (seeing clusters {[ "b" := config (uids "ub") ]} (cloud_of clusters false)) = false.
Proof. split; vm_compute; reflexivity. Qed.
End AgreementExamples.
