(* ===== verification/Stalls.v ===== *)
(** What becomes of the ingress controller when the deletion of a cluster is missed: the
    handler of the federated informer gets a [cache.DeletedFinalStateUnknown] and ignores
    it, so that the informer on the cluster's ingresses stays, and the store of member
    ingresses never counts as synced again.  [Federation.v] shows how it comes to that, when
    the watch of clusters breaks ([deletion_missed]). *)

From S2P Require Import Prelude GoStrings KubeTypes Handlers FedInformer Updater Deletion Backoff Deliverer IngressController ConfigMaps Cloud Wiring Requests.

Section stalls.
Context `{K : Kubernetes W, GoMapOrder, Schedule}.
Implicit Types ic : IngressController W.

(** Events that do not report a cluster (to the informer on ingresses). *)
Definition silent_on (n : string) (es : list (sys_event (W := W))) : Prop :=
  ∀ e, IngressInformer e ∈ es → ¬ reports e n.

Lemma run_informer e ic ic' : sys_run e ic = (Val tt, ic') →
  ingressFederatedInformer ic' = ingressFederatedInformer ic ∨
  ∃ e', e = IngressInformer e' ∧ ingressFederatedInformer ic' = (step clientFactory (ingressFederatedInformer ic) e').1.
Proof.
  intros E. destruct e as [e| | |e| | | | | | ]; try (left; by apply sys_run_stays in E as []).
  - left. by apply federated_run in E as (_&_&?).
  - right. exists e. split; [done|]. by apply informer_run in E as (_&_&?).
Qed.

(** The informer of a cluster that is gone is there for as long as nothing reports it. *)
Lemma stale_stays n es ic ic' :
  sys_ok ic → stale (ingressFederatedInformer ic) n →
  silent_on n es → for_each es sys_run ic = (Val tt, ic') →
  sys_ok ic' ∧ stale (ingressFederatedInformer ic') n.
Proof.
  revert ic. induction es as [|e es IH]; intros ic Hok Hst Hq; cbn [for_each].
  - intros E. cbv [mret M_ret] in E. by injection E as <-.
  - intros ([]&ic1&E1&E2)%bind_val_inv. apply (IH ic1); [by eapply sys_run_keeps| | |done].
    + destruct (run_informer e ic ic1 E1) as [->|He]; [done|]. destruct He as (e'&->&->).
      apply step_stale; [apply Hok|done|]. apply Hq, list_elem_of_here.
    + intros e' He'. by apply Hq, list_elem_of_further.
Qed.

Lemma stale_not_synced n ic : sys_ok ic → stale (ingressFederatedInformer ic) n → isSynced ic = false.
Proof.
  intros Hok Hst. unfold isSynced. apply andb_false_intro1. unfold informer_synced. apply andb_false_intro2.
  destruct (GetReadyClusters (ingressFederatedInformer ic)) as [clusters|] eqn:E; [|done].
  eapply (stale_unsynced clientFactory); [exact (ok_ingress_informer _ Hok)|exact Hst|exact E].
Qed.
End stalls.

(** ** Properties *)

(** C20: a missed deletion of a cluster stops the controller: once the informer has missed
    that a ready cluster was deleted, then whatever happens and until that cluster is
    reported again, the stores do not count as synced, and handling any ingress does nothing
    but ask for it again after [clusterAvailableDelay]. *)
Theorem missed_cluster_deletion_stalls `{K : Kubernetes W, GoMapOrder, Schedule} (ic ic1 ic2 : IngressController W)
    (n : string) (c : Cluster) (es : list (sys_event (W := W))) (ingress : NamespacedName) :
  (∀ c, ∃ client, clientFactory c = Ok client) → sys_ok ic →
  ready_in (ingressFederatedInformer ic) n c →
  sys_run (IngressInformer (WatchDeleteMissed n)) ic = (Val tt, ic1) →
  silent_on n es → for_each es sys_run ic1 = (Val tt, ic2) →
  isSynced ic2 = false ∧
  reconcileIngress ingress ic2 = deliverIngress ingress clusterAvailableDelay false ic2.
Proof.
  intros Hclients Hok Hready E1 Hq E2.
  assert (sys_ok ic1) as Hok1 by (by eapply sys_run_keeps).
  assert (stale (ingressFederatedInformer ic1) n) as Hst.
  { apply informer_run in E1 as (_&_&->). split; cbn; [apply lookup_delete_eq|].
    destruct (proj2 (ok_ingress_informer _ Hok) n c Hready) as [?|(c'&e&_&_&E)]; [done|]. destruct (Hclients c'); congruence. }
  destruct (stale_stays n es ic1 ic2 Hok1 Hst Hq E2) as [Hok2 Hst2].
  pose proof (stale_not_synced n ic2 Hok2 Hst2) as Hs. split; [done|].
  unfold reconcileIngress. rewrite (bind_val get _ ic2 ic2 ic2 eq_refl). by rewrite Hs.
Qed.

Module StallsExamples.
Import WiringExamples.

(** A federation of one cluster, whose objects have been read. *)
Definition joining : list (sys_event (W := cloud)) :=
  [IngressInformer (WatchAdd (cluster "True")); ConfigMapInformer (WatchAdd (cluster "True"));
   IngressInformer ClusterListSynced; ConfigMapInformer ClusterListSynced;
   IngressInformer (TargetSynced "a"); ConfigMapInformer (TargetSynced "a")].
Definition joined : IngressController cloud := (for_each joining sys_run seen).2.

(** Both informers miss that it is deleted; another cluster joins. *)
Definition missed : IngressController cloud := (sys_run (IngressInformer (WatchDeleteMissed "a")) joined).2.
Definition other : Cluster :=
  mkCluster (mkObjectMeta "b" "" "" "" None None None [] "") "" [mkCondition "Ready" "True"] None "".
Definition later : list (sys_event (W := cloud)) :=
  [ConfigMapInformer (WatchDeleteMissed "a"); IngressInformer (WatchAdd other); ConfigMapInformer (WatchAdd other);
   IngressInformer (TargetSynced "b"); ConfigMapInformer (TargetSynced "b")].
Definition stalled : IngressController cloud := (for_each later sys_run missed).2.

(** Everything was in order before, and is when the deletions are not missed. *)
Example synced_before : isSynced joined = true.
Proof. vm_compute. reflexivity. Qed.
Example synced_when_told :
  isSynced (for_each [IngressInformer (WatchDelete (cluster "True")); ConfigMapInformer (WatchDelete (cluster "True"));
    IngressInformer (WatchAdd other); ConfigMapInformer (WatchAdd other);
    IngressInformer (TargetSynced "b"); ConfigMapInformer (TargetSynced "b")] sys_run joined).2 = true.
Proof. vm_compute. reflexivity. Qed.

Lemma joined_ok : sys_ok joined.
Proof.
  apply (keeps_for_each joining sys_run (λ e _, sys_run_keeps e) seen tt joined seen_ok).
  vm_compute. reflexivity.
Qed.

Lemma missed_cluster_deletion_stalls_witness :
  isSynced stalled = false ∧
  reconcileIngress (mkNsName "ns" "web") stalled = deliverIngress (mkNsName "ns" "web") clusterAvailableDelay false stalled.
Proof.
  apply (missed_cluster_deletion_stalls joined missed stalled "a" (cluster "True") later).
  - exact cloud_clients.
  - exact joined_ok.
  - split; vm_compute; reflexivity.
  - vm_compute. reflexivity.
  - intros e He. repeat (apply elem_of_cons in He as [He|He]; [try discriminate He; injection He as ->; discriminate || exact id|]).
    by apply not_elem_of_nil in He.
  - vm_compute. reflexivity.
Defined.
End StallsExamples.
