(* ===== verification/Forgotten.v ===== *)
(** What becomes of a cluster whose ingress UID could not be set, because there is no master
    yet and its config map has no UID, or because the update of the cluster failed:
    [reconcileConfigMap] returns without asking for another attempt, and nothing else asks
    for one until something is reported of that cluster or of its config map. *)

From S2P Require Import Prelude GoStrings KubeTypes Handlers FedInformer Updater Deletion Backoff Deliverer IngressController ConfigMaps Cloud IngressControllerFacts ConfigMapsFacts Wiring Requests.

Definition lifecycle_name (l : lifecycle) : string :=
  match l with ClusterAvailable c | ClusterUnavailable c => cl_name c end.

Section asked.
Context `{K : Kubernetes W, GoMapOrder, Schedule}.
Implicit Types ic : IngressController W.

(** The requests that lead to a reconciliation of the config map of [n] alone. *)
Definition asked (n : string) ic : list (Item unit) * list (Item unit) :=
  (filter (λ it, Key it = n) (clusterDeliverer ic), filter (λ it, Key it = n) (configMapDeliverer ic)).

(** Events that are about a cluster, or about all of them. *)
Definition about (n : string) (e : sys_event (W:=W)) : Prop :=
  match e with
  | MemberConfigMap clusterName _ => clusterName = n
  | IngressInformer e => reports e n
  | ConfigMapInformer e => reports e n
  | HandleCluster item | HandleConfigMap item => Key item = n ∨ Key item = allClustersKey
  | _ => False
  end.

(** Nothing is asked for [n]. *)
Definition quiet (n : string) ic ic' : Prop := asked n ic' = asked n ic.
#[export] Instance quiet_preorder n : PreOrder (quiet n).
Proof. split; [done|]. unfold quiet. intros a b c Hab Hbc. by rewrite Hbc. Qed.

Variable (n : string).
Abbreviation quiet_ m := (follows (quiet n) m).

Lemma call_quiet {A} (m : M W A) : quiet_ (call m).
Proof. by intros ic a ic' (w&_&->)%call_inv. Qed.
Hint Resolve call_quiet : go.

Lemma filter_other (l : list (Item unit)) it : Key it ≠ n → filter (λ it, Key it = n) (l ++ [it]) = filter (λ it, Key it = n) l.
Proof. intros Hn. by rewrite filter_app, filter_cons_False, filter_nil, app_nil_r. Qed.

Lemma cluster_DeliverAfter_quiet m delay : m ≠ n → quiet_ (cluster_DeliverAfter m delay).
Proof.
  intros Hm. unfold cluster_DeliverAfter. apply follows_bind; [apply _|apply call_quiet|]. intros t.
  apply follows_modify. intros ic. unfold quiet, asked. cbn. by rewrite filter_other.
Qed.
Lemma configmap_DeliverAfter_quiet m delay : m ≠ n → quiet_ (configmap_DeliverAfter m delay).
Proof.
  intros Hm. unfold configmap_DeliverAfter. apply follows_bind; [apply _|apply call_quiet|]. intros t.
  apply follows_modify. intros ic. unfold quiet, asked. cbn. by rewrite filter_other.
Qed.
End asked.

(** Take code apart; changes of anything but the two logs are quiet. *)
Ltac quiet_split :=
  lazymatch goal with
  | |- follows _ (_ ≫= _) => apply follows_bind; [apply _| |intros ?]
  | |- follows _ (mret _) => apply follows_ret, _
  | |- follows _ get => apply follows_get, _
  | |- follows _ (gets _) => apply follows_gets, _
  | |- follows _ (go_panic _) => apply follows_panic
  | |- follows _ (call _) => apply call_quiet
  | |- follows _ (modify _) => apply follows_modify; intros ?; reflexivity
  | |- follows _ (for_each _ _) => apply follows_for_each; [apply _|intros ? _]
  | |- follows _ (for_range _ _ _) => apply follows_for_range; [apply _|intros ? ?]
  | |- follows _ (cluster_DeliverAfter _ _) => apply cluster_DeliverAfter_quiet
  | |- follows _ (configmap_DeliverAfter _ _) => apply configmap_DeliverAfter_quiet
  | |- follows _ (match ?x with _ => _ end) => destruct x
  | |- follows _ (let '(_, _) := ?x in _) => destruct x
  | |- follows _ _ => solve [auto with go nocore]
  end.
Ltac quiet := repeat quiet_split.

Section events.
Context `{K : Kubernetes W, GoMapOrder, Schedule} (n : string).
Implicit Types ic : IngressController W.
Abbreviation quiet_ m := (follows (quiet n) m).

Lemma deliverIngress_quiet ingress delay failed : quiet_ (deliverIngress ingress delay failed).
Proof. unfold deliverIngress, ingress_DeliverAfter. quiet. Qed.
Hint Resolve deliverIngress_quiet : go.
Lemma updateAnnotationOnIngress_quiet i key value : quiet_ (updateAnnotationOnIngress i key value).
Proof. unfold updateAnnotationOnIngress. cbv zeta. quiet. Qed.
Hint Resolve updateAnnotationOnIngress_quiet : go.
Lemma reconcile_cluster_quiet ing base p c : quiet_ (reconcile_cluster ing base p c).
Proof. unfold reconcile_cluster, plan_create, plan_update, copy_status, exit, continue. cbv zeta. quiet. Qed.
Hint Resolve reconcile_cluster_quiet : go.
Lemma reconcileIngress_quiet ing : quiet_ (reconcileIngress ing).
Proof. unfold reconcileIngress, sync_clusters, propagate, delete_ingress. quiet. Qed.
Lemma reconcileIngressesOnClusterChange_quiet m : m ≠ n → quiet_ (reconcileIngressesOnClusterChange m).
Proof. intros Hm. unfold reconcileIngressesOnClusterChange. quiet; done. Qed.
Lemma updateUID_quiet cluster fallback : quiet_ (updateClusterIngressUIDToMasters cluster fallback).
Proof. unfold updateClusterIngressUIDToMasters. cbv zeta. quiet. Qed.
Hint Resolve updateUID_quiet : go.
Lemma reconcileConfigMap_quiet cluster key cm : cl_name cluster ≠ n → quiet_ (reconcileConfigMap cluster key cm).
Proof. intros Hm. unfold reconcileConfigMap. cbv zeta. quiet; done. Qed.

(** The handler of the config map of another cluster. *)
Lemma reconcileForCluster_quiet m ic ic' : sys_ok ic → m ≠ n → m ≠ allClustersKey →
  reconcileConfigMapForCluster m ic = (Val tt, ic') → quiet n ic ic'.
Proof.
  intros Hok Hm Ha. unfold reconcileConfigMapForCluster. rewrite (bind_val get _ ic ic ic eq_refl).
  pose proof (configmap_DeliverAfter_quiet (W := W) n m) as Hd.
  destruct (negb (isSynced ic)); [by apply Hd|]. rewrite bool_decide_eq_false_2 by done.
  destruct (GetReadyCluster m (configMapFederatedInformer ic)) as [[cluster|]|] eqn:E; [|by apply Hd..].
  assert (cl_name cluster = m) as En.
  { unfold GetReadyCluster in E. destruct (clusterStore _ !! m) as [i|] eqn:Ei; [|done].
    destruct (proj1 (ok_configmap_informer _ Hok) m i Ei) as (c&->&<-). destruct (FedInformer.isClusterReady c); [|done]. by injection E as <-. }
  cbv zeta. destruct (GetByKey _ _ _) as [[cm|]|]; [apply reconcileConfigMap_quiet; by rewrite En|apply follows_ret, _|by apply Hd].
Qed.

(** The lifecycle functions are called for the cluster that is reported. *)
Lemma step_calls {Obj} (f : federatedInformerImpl Obj) (e : event Obj) :
  clusters_wf (clusterStore f) → ¬ reports e n → Forall (λ l, lifecycle_name l ≠ n) (step (clientFactory (W := W)) f e).2.
Proof.
  intros Hw He.
  assert (∀ c (f' : federatedInformerImpl Obj), cl_name c ≠ n → Forall (λ l, lifecycle_name l ≠ n)
    (match clusterStore f !! cl_name c with
     | Some (Typed old) => onUpdate (clientFactory (W := W)) old c f' | _ => onAdd (clientFactory (W := W)) c f' end).2) as Hput.
  { intros c f' Hn. destruct (clusterStore f !! cl_name c) as [i|] eqn:E.
    - destruct (Hw _ _ E) as (old&->&Eo). unfold onUpdate. destruct (cluster_changed old c); [|by constructor].
      destruct (FedInformer.isClusterReady c); repeat constructor; cbn; congruence.
    - unfold onAdd. destruct (FedInformer.isClusterReady c); by repeat constructor. }
  destruct e as [c|c|c|k|k objs|k|]; cbn [step reports] in *; try by constructor.
  - by apply Hput.
  - by apply Hput.
Qed.

(** What is not about a cluster asks nothing for it. *)
Lemma sys_run_quiet e ic ic' : sys_ok ic → ¬ about n e → sys_run e ic = (Val tt, ic') → quiet n ic ic'.
Proof.
  intros Hok He. destruct e as [e|e|m e|e|e|item|item|item|now|w]; cbn [sys_run about] in *.
  - intros ([]&ic1&Em&Er)%bind_val_inv. cbv [modify] in Em. injection Em as <-. apply trigger_run in Er.
    destruct (changed_object value_equal e); [|by subst]. unfold deliverIngressObj in Er. by apply deliverIngress_quiet in Er.
  - intros Er%trigger_run. destruct (changed_object value_equal e); [|by subst]. unfold deliverIngressObj in Er. by apply deliverIngress_quiet in Er.
  - intros Er%trigger_run. destruct (changed_object value_equal e); [|by subst]. revert Er.
    apply (follows_bind (quiet n)); [|intros d; by apply configmap_DeliverAfter_quiet]. quiet.
  - rewrite (bind_val get _ ic ic ic eq_refl). pose proof (step_calls _ e (proj1 (ok_ingress_informer _ Hok)) He) as Hl.
    destruct (step _ _ _) as [f calls]. rewrite Forall_forall in Hl. apply (follows_bind (quiet n)); [quiet|]. intros _.
    apply follows_for_each; [apply _|]. intros [c|c] Hin; by apply cluster_DeliverAfter_quiet, (Hl _ Hin).
  - rewrite (bind_val get _ ic ic ic eq_refl). pose proof (step_calls _ e (proj1 (ok_configmap_informer _ Hok)) He) as Hl.
    destruct (step _ _ _) as [f calls]. rewrite Forall_forall in Hl. apply (follows_bind (quiet n)); [quiet|]. intros _.
    apply follows_for_each; [apply _|]. intros [c|c] Hin; [by apply cluster_DeliverAfter_quiet, (Hl _ Hin)|apply follows_ret, _].
  - apply reconcileIngress_quiet.
  - intros ([]&ic1&E1&E2)%bind_val_inv. transitivity ic1.
    + eapply reconcileIngressesOnClusterChange_quiet; [|exact E1]. naive_solver.
    + eapply reconcileForCluster_quiet; [by eapply reconcileIngressesOnClusterChange_keeps| | |exact E2]; naive_solver.
  - intros E. eapply reconcileForCluster_quiet; [done| | |exact E]; naive_solver.
  - by intros [= <-].
  - by intros [= <-].
Qed.

Lemma quiet_run es ic ic' : sys_ok ic →
  Forall (λ e, ¬ about n e) es → for_each es sys_run ic = (Val tt, ic') → quiet n ic ic'.
Proof.
  revert ic. induction es as [|e es IH]; intros ic Hok; cbn [for_each].
  - intros _ E. cbv [mret M_ret] in E. by injection E as <-.
  - intros [He Hes]%Forall_cons ([]&ic1&E1&E2)%bind_val_inv. transitivity ic1; [by eapply sys_run_quiet|].
    apply IH; [by eapply sys_run_keeps|done..].
Qed.
End events.

Section forgotten.
Context `{K : Kubernetes W, GoMapOrder, Schedule}.
Implicit Types ic : IngressController W.

(** The controller sees a cluster without a UID, and its config map. *)
Definition sees_unset ic (n : string) (cluster : Cluster) (cm : ConfigMap) : Prop :=
  isSynced ic = true ∧ n ≠ allClustersKey ∧ GetReadyCluster n (configMapFederatedInformer ic) = Ok (Some cluster) ∧
  cl_name cluster = n ∧ uid_of cluster = "" ∧
  GetByKey n uid_cache_key (configMapFederatedInformer ic) = Some (Typed cm).

(** Setting the UID of a cluster changes nothing in the controller. *)
Lemma updateUID_state cluster fallback r ic ic' :
  updateClusterIngressUIDToMasters cluster fallback ic = (Val r, ic') → ∃ w, ic' = set_apis w ic.
Proof.
  unfold updateClusterIngressUIDToMasters. rewrite (bind_val get _ ic ic ic eq_refl).
  assert (∀ c (f : result Cluster → result string) ic', (call (Clusters_Update c) ≫= λ r, mret (f r)) ic = (Val r, ic') →
    ∃ w, ic' = set_apis w ic) as Hcall.
  { intros c f ic2 (a&ic3&(w&_&->)%call_inv&E)%bind_val_inv. cbv [mret M_ret] in E. injection E as _ <-. by exists w. }
  assert (∀ a : result string, (mret a : M (IngressController W) _) ic = (Val r, ic') → ∃ w, ic' = set_apis w ic) as Hret.
  { intros a E. cbv [mret M_ret] in E. injection E as _ <-. exists (apis ic). by destruct ic. }
  destruct (getMasterCluster ic) as [[m u]|e]; destruct (bool_decide _); apply Hret || refine (Hcall _ (λ r, match r with Err err => Err err | Ok _ => Ok _ end) _).
Qed.

(** C28: A cluster whose ingress UID cannot be set is forgotten. When the annotation of a cluster
    without a UID cannot be written (there is no master yet and its config map has no UID either,
    or the update of the cluster object fails), the reconciliation of its config map ends there:
    the controller is as before, nothing is written into the config map and no other attempt is
    asked for. And nothing that happens later asks for one, however many events there are and in
    whatever order, until an event is about that very cluster or its config map: another cluster
    that becomes the master, ingresses that are reconciled, or calls that would succeed now,
    do not. *)
Theorem unset_uid_forgotten ic ic1 n cluster cm err :
  sys_ok ic → sees_unset ic n cluster cm →
  updateClusterIngressUIDToMasters cluster (map_get_str (Data cm) uidKey) ic = (Val (Err err), ic1) →
  reconcileConfigMapForCluster n ic = (Val tt, ic1) ∧ (∃ w, ic1 = set_apis w ic) ∧
  ∀ es ic2, for_each es sys_run ic1 = (Val tt, ic2) → Forall (λ e, ¬ about n e) es → asked n ic2 = asked n ic.
Proof.
  intros Hok (Hs&Ha&Hr&En&Hu&Hg) E.
  assert (reconcileConfigMapForCluster n ic = (Val tt, ic1)) as E1.
  { unfold reconcileConfigMapForCluster. rewrite (bind_val get _ ic ic ic eq_refl), Hs. cbn [negb].
    rewrite bool_decide_eq_false_2 by done. rewrite Hr. cbv zeta. rewrite En. fold uid_cache_key. rewrite Hg.
    unfold reconcileConfigMap. cbv zeta. unfold uid_of in Hu.
    rewrite (bool_decide_eq_true_2 (map_get_str _ _ = "")) by done. rewrite orb_true_r.
    by rewrite (bind_val _ _ ic (Err err) ic1 E). }
  assert (sys_ok ic1) as Hok1 by (by eapply reconcileConfigMapForCluster_keeps).
  apply updateUID_state in E as [w ->]. split; [done|]. split; [by exists w|].
  intros es ic2 E2 Hes. exact (quiet_run n es _ ic2 Hok1 Hes E2).
Qed.
End forgotten.

Module ForgottenExamples.
Import WiringExamples.
Definition member (n : string) (uid : gomap string) : Cluster := ConfigMapsExamples.cluster n uid "True".
Definition config_of (data : gomap string) : Store ConfigMap := {[ uid_cache_key := Typed (ConfigMapsExamples.config data) ]}.
Definition world : cloud :=
  ConfigMapsExamples.cloud_of {[ "a" := member "a" None; "b" := member "b" None ]} false.

(** A controller that starts and reads clusters a and b; the config map of a has a UID, the one
    of b has data without one. *)
Definition starting : list (sys_event (W := cloud)) :=
  [IngressInformer (WatchAdd (member "a" None)); IngressInformer (WatchAdd (member "b" None));
   ConfigMapInformer (WatchAdd (member "a" None)); ConfigMapInformer (WatchAdd (member "b" None));
   IngressInformer ClusterListSynced; ConfigMapInformer ClusterListSynced;
   ConfigMapInformer (TargetChange "a" (config_of (ConfigMapsExamples.uids "ua")));
   ConfigMapInformer (TargetChange "b" (config_of (Some ∅)));
   IngressInformer (TargetSynced "a"); IngressInformer (TargetSynced "b");
   ConfigMapInformer (TargetSynced "a"); ConfigMapInformer (TargetSynced "b")].
Definition begun : IngressController cloud := NewIngressController world.
Definition started : IngressController cloud := (for_each starting sys_run begun).2.

(** The request for b is handled before that for a. *)
Definition unset : IngressController cloud := (reconcileConfigMapForCluster "b" started).2.

(** Then a elects itself, and the informers report it and read its objects again. *)
Definition after : list (sys_event (W := cloud)) :=
  [HandleConfigMap (mkItem "a" tt 0%Z);
   IngressInformer (WatchUpdate (member "a" (ConfigMapsExamples.has "ua")));
   ConfigMapInformer (WatchUpdate (member "a" (ConfigMapsExamples.has "ua")));
   ConfigMapInformer (TargetChange "a" (config_of (ConfigMapsExamples.uids "ua")));
   IngressInformer (TargetSynced "a"); ConfigMapInformer (TargetSynced "a");
   FederatedIngress (Added web); HandleIngress request; HandleCluster (mkItem "a" tt 0%Z)].
Definition settled : IngressController cloud := (for_each after sys_run unset).2.

Lemma started_ok : sys_ok started.
Proof.
  apply (keeps_for_each starting sys_run (λ e _, sys_run_keeps e) begun tt started).
  - apply NewIngressController_ok.
  - vm_compute. reflexivity.
Qed.

(** a has its UID, b has none; the requests for b are still the two from its arrival, although a
    reconciliation of b would now give it the UID of a. *)
Example b_forgotten :
  ConfigMapsExamples.uid_at (apis settled) <$> ["a"; "b"] = [Some "ua"; Some ""] ∧
  ConfigMapsExamples.uid_at (apis (reconcileConfigMapForCluster "b" settled).2) "b" = Some "ua".
Proof. split; vm_compute; reflexivity. Qed.

Lemma unset_uid_forgotten_witness : asked "b" settled = asked "b" started.
Proof.
  refine (let '(conj _ (conj _ Hlater)) :=
    unset_uid_forgotten started unset "b" (member "b" None) (ConfigMapsExamples.config (Some ∅))
      (Errorf ("Failed to find master cluster with annotation " +:+ uidAnnotationKey))
      started_ok _ _ in Hlater after settled _ _).
  - split_and!; try (vm_compute; reflexivity). discriminate.
  - vm_compute. reflexivity.
  - vm_compute. reflexivity.
  - repeat (apply Forall_cons_2; [first [solve [intros []] | intros He; discriminate He | intros [He|He]; discriminate He]|]). apply Forall_nil_2.
Defined.
End ForgottenExamples.
