(* ===== verification/Machine.v ===== *)
(** The ingress controller as it runs: its goroutines and channels.  [Wiring.v] lets a handler
    run at any time for any request ever made.  Here a request goes through the channels
    and the heap of its deliverer, a handler takes what its deliverer delivers, one at a
    time, a goroutine that sends to a full channel waits, and the federated ingresses come
    from an informer with its queue.

    The goroutines are the three of [StartWithHandler], the three [run] of the deliverers,
    the one of the informer on federated ingresses, and those of the informers in the
    clusters and of the clusters.  A handler's effects happen at once, and then its requests
    are sent one after the other, in the order of the program; until the last is sent, the
    goroutine does nothing else. *)

From S2P Require Import Prelude GoStrings KubeTypes Handlers Informer FedInformer Updater Deletion Backoff Deliverer Channels IngressController ConfigMaps Cloud IngressControllerFacts ConfigMapsFacts Wiring Requests.
From stdpp Require Import functions.

(** The goroutines that send requests. *)
Inductive goroutine :=
  | IngressWorker
  | ClusterWorker
  | ConfigMapWorker
  | FederatedInformerLoop
  | Watcher (n : nat).
#[export] Instance goroutine_eq_dec : EqDecision goroutine.
Proof. solve_decision. Defined.

(** The three deliverers. *)
Inductive deliverer_name := Ingresses | Clusters | ConfigMaps_.

Record machine (W : Type) := mkMachine {
  controller : IngressController W;
  federated : Informer.informer Ingress;
  ingresses : DelayingDeliverer NamespacedName;
  clusters : DelayingDeliverer unit;
  configmaps : DelayingDeliverer unit;
  sending : goroutine → list request
}.
Arguments mkMachine {W} _ _ _ _ _ _.
Arguments controller {W} _.
Arguments federated {W} _.
Arguments ingresses {W} _.
Arguments clusters {W} _.
Arguments configmaps {W} _.
Arguments sending {W} _ _.

(** What happens next. *)
Inductive choice (W : Type) :=
  | Observe (n : nat) (es : list (sys_event (W:=W)))
  | Federated (o : Informer.op Ingress)
  | Handle (d : deliverer_name)
  | Send (g : goroutine)
  | Tick (d : deliverer_name) (time : Z) (c : select_case).
Arguments Observe {W} n es.
Arguments Federated {W} o.
Arguments Handle {W} d.
Arguments Send {W} g.
Arguments Tick {W} d time c.

Section machine.
Context `{K : Kubernetes W, GoMapOrder, Schedule}.
Abbreviation IC := (IngressController W).
Implicit Types m : machine W.

(** The events that a watcher sees, some at once: all but those with a goroutine of their own. *)
Definition observable (e : sys_event (W:=W)) : bool :=
  match e with
  | FederatedIngress _ | HandleIngress _ | HandleCluster _ | HandleConfigMap _ => false
  | _ => true
  end.

(** A goroutine that has nothing left to send runs code of the controller. *)
Definition perform (g : goroutine) (code : M IC unit) m : option (machine W) :=
  match sending m g with
  | _ :: _ => None
  | [] =>
      match code (controller m) with
      | (Val _, ic) =>
          Some (mkMachine ic (federated m) (ingresses m) (clusters m) (configmaps m)
                  (<[g := sends (controller m) ic]> (sending m)))
      | (Panic _, _) => None
      end
  end.

(** The send of a request. *)
Definition enqueue (r : request) m : option (machine W) :=
  match r with
  | RIngress it =>
      d ← DeliverAt it (ingresses m);
      Some (mkMachine (controller m) (federated m) d (clusters m) (configmaps m) (sending m))
  | RCluster it =>
      d ← DeliverAt it (clusters m);
      Some (mkMachine (controller m) (federated m) (ingresses m) d (configmaps m) (sending m))
  | RConfigMap it =>
      d ← DeliverAt it (configmaps m);
      Some (mkMachine (controller m) (federated m) (ingresses m) (clusters m) d (sending m))
  end.
Definition send (g : goroutine) m : option (machine W) :=
  match sending m g with
  | [] => None
  | r :: rest =>
      m' ← enqueue r m;
      Some (mkMachine (controller m') (federated m') (ingresses m') (clusters m') (configmaps m')
              (<[g := rest]> (sending m')))
  end.

(** An operation of the informer on federated ingresses; the queue is locked while the
    handler runs. *)
Definition federated_op (o : Informer.op Ingress) m : option (machine W) :=
  let '(i, notes) := Informer.step MetaNamespaceKeyFunc o (federated m) in
  perform FederatedInformerLoop (for_each (omap watch_event_of notes) (λ e, sys_run (FederatedIngress e)))
    (mkMachine (controller m) i (ingresses m) (clusters m) (configmaps m) (sending m)).

(** A handler takes an item and runs. *)
Definition handle (d : deliverer_name) m : option (machine W) :=
  match d with
  | Ingresses =>
      '(it, d) ← Receive (ingresses m);
      perform IngressWorker (sys_run (HandleIngress it))
        (mkMachine (controller m) (federated m) d (clusters m) (configmaps m) (sending m))
  | Clusters =>
      '(it, d) ← Receive (clusters m);
      perform ClusterWorker (sys_run (HandleCluster it))
        (mkMachine (controller m) (federated m) (ingresses m) d (configmaps m) (sending m))
  | ConfigMaps_ =>
      '(it, d) ← Receive (configmaps m);
      perform ConfigMapWorker (sys_run (HandleConfigMap it))
        (mkMachine (controller m) (federated m) (ingresses m) (clusters m) d (sending m))
  end.

(** A step of the [run] of a deliverer. *)
Definition tick_of (d : deliverer_name) (time : Z) (c : select_case) m : option (machine W) :=
  match d with
  | Ingresses =>
      d ← Channels.tick time c (ingresses m);
      Some (mkMachine (controller m) (federated m) d (clusters m) (configmaps m) (sending m))
  | Clusters =>
      d ← Channels.tick time c (clusters m);
      Some (mkMachine (controller m) (federated m) (ingresses m) d (configmaps m) (sending m))
  | ConfigMaps_ =>
      d ← Channels.tick time c (configmaps m);
      Some (mkMachine (controller m) (federated m) (ingresses m) (clusters m) d (sending m))
  end.

Definition mstep (c : choice W) m : option (machine W) :=
  match c with
  | Observe n es => if forallb observable es then perform (Watcher n) (for_each es sys_run) m else None
  | Federated o => federated_op o m
  | Handle d => handle d m
  | Send g => send g m
  | Tick d time c => tick_of d time c m
  end.
Definition machine_step m m' : Prop := ∃ c, mstep c m = Some m'.

(** [Run], at time [now]. *)
Definition Run (now : Z) (w : W) : machine W :=
  mkMachine (NewIngressController w) NewInformer (NewDelayingDeliverer now) (NewDelayingDeliverer now)
    (NewDelayingDeliverer now) (λ _, []).

(** ** What is under way *)

(** A request is pending while it is to be sent, or in a channel or the heap. *)
Definition carried m (r : request) : Prop :=
  match r with
  | RIngress it => it ∈ in_flight (ingresses m)
  | RCluster it => it ∈ in_flight (clusters m)
  | RConfigMap it => it ∈ in_flight (configmaps m)
  end.
Definition pending m (r : request) : Prop := (∃ g, r ∈ sending m g) ∨ carried m r.

Definition request_serves (r' r : request) : Prop :=
  match r', r with
  | RIngress it', RIngress it => serves it' it
  | RCluster it', RCluster it | RConfigMap it', RConfigMap it => serves it' it
  | _, _ => False
  end.
Definition request_time (r : request) : Z :=
  match r with RIngress it => DeliveryTime it | RCluster it | RConfigMap it => DeliveryTime it end.

(** What a step requests, and what it handles, with the clock of its deliverer. *)
Definition issued m m' : list request := sends (controller m) (controller m').
Definition handled (c : choice W) m : option (request * Z) :=
  match c with
  | Handle Ingresses => '(it, _) ← Receive (ingresses m); Some (RIngress it, clock (ingresses m))
  | Handle Clusters => '(it, _) ← Receive (clusters m); Some (RCluster it, clock (clusters m))
  | Handle ConfigMaps_ => '(it, _) ← Receive (configmaps m); Some (RConfigMap it, clock (configmaps m))
  | _ => None
  end.

(** The history of a run: what each step requests and handles. *)
Inductive machine_run : machine W → list (list request * option (request * Z)) → machine W → Prop :=
  | machine_run_nil m : machine_run m [] m
  | machine_run_cons c m m1 tr m2 :
      mstep c m = Some m1 → machine_run m1 tr m2 → machine_run m ((issued m m1, handled c m) :: tr) m2.

(** ** The invariant *)

(** The deliverers are well-formed, what is under way was requested, and the controller's
    store of federated ingresses is that of the informer. *)
Record machine_ok m : Prop := {
  ok_ingresses : deliverer_ok (ingresses m);
  ok_clusters : deliverer_ok (clusters m);
  ok_configmaps : deliverer_ok (configmaps m);
  ok_pending : ∀ r, pending m r → logged (controller m) r;
  ok_federated : inf_ok MetaNamespaceKeyFunc (federated m);
  ok_same_store : ingressInformerStore (controller m) = Typed <$> clientState (federated m)
}.

Lemma Run_ok now w : machine_ok (Run now w).
Proof.
  split; try apply NewDelayingDeliverer_ok; [|apply NewInformer_ok|done].
  intros r [(g&Hg)|Hc]; [by apply not_elem_of_nil in Hg|]. destruct r; cbn in Hc; by apply not_elem_of_nil in Hc.
Qed.
End machine.

Section facts.
Context `{K : Kubernetes W, GoMapOrder, Schedule}.
Implicit Types m : machine W.

Lemma request_serves_refl r : request_serves r r.
Proof. destruct r; apply serves_refl. Qed.
Lemma request_serves_trans a b c : request_serves a b → request_serves b c → request_serves a c.
Proof. destruct a, b, c; cbn; try done; apply serves_trans. Qed.

(** ** Runs of code *)

Lemma perform_spec g code m m' : perform g code m = Some m' →
  sending m g = [] ∧ ∃ ic, code (controller m) = (Val tt, ic) ∧
    m' = mkMachine ic (federated m) (ingresses m) (clusters m) (configmaps m) (<[g := sends (controller m) ic]> (sending m)).
Proof.
  unfold perform. destruct (sending m g); [|done]. destruct (code (controller m)) as [[[]|] ic]; [|done].
  intros [= <-]. eauto.
Qed.

Lemma perform_pending g code m m' r : perform g code m = Some m' →
  pending m' r ↔ r ∈ issued m m' ∨ pending m r.
Proof.
  intros (Hg&ic&_&->)%perform_spec. unfold pending, issued. cbn. split.
  - intros [(g'&Hr)|Hc]; [|by right; right]. destruct (decide (g' = g)) as [->|Hne].
    + rewrite fn_lookup_insert in Hr. by left.
    + rewrite fn_lookup_insert_ne in Hr by done. right. left. eauto.
  - intros [Hr|[(g'&Hr)|Hc]]; [left; exists g; by rewrite fn_lookup_insert| |by right].
    left. exists g'. rewrite fn_lookup_insert_ne; [done|]. intros ->. rewrite Hg in Hr. by apply not_elem_of_nil in Hr.
Qed.

(** Code that only adds to the logs keeps the invariant. *)
Lemma perform_ok g code m m' : follows grows code →
  (∀ ic, code (controller m) = (Val tt, ic) → ingressInformerStore ic = Typed <$> clientState (federated m)) →
  perform g code m = Some m' →
  deliverer_ok (ingresses m) → deliverer_ok (clusters m) → deliverer_ok (configmaps m) →
  (∀ r, pending m r → logged (controller m) r) → inf_ok MetaNamespaceKeyFunc (federated m) →
  machine_ok m'.
Proof.
  intros Hgr Hst Hp H1 H2 H3 Hl Hf. pose proof (perform_pending g code m m') as Hpend.
  destruct (perform_spec g code m m' Hp) as (_&ic&E&->). split; cbn; try done; [|by apply Hst].
  intros r Hr. apply (Hpend r Hp) in Hr as [Hr|Hr]; [by eapply sends_logged|]. eapply grows_logged; [by eapply Hgr|]. by apply Hl.
Qed.

Lemma events_run es (ic ic' : IngressController W) :
  for_each es (λ e, sys_run (FederatedIngress e)) ic = (Val tt, ic') →
  rtc sys_step ic ic' ∧ grows ic ic' ∧ ingressInformerStore ic' = foldl (λ s e, store_event e s) (ingressInformerStore ic) es.
Proof.
  revert ic. induction es as [|e es IH]; intros ic; cbn [for_each foldl].
  - intros E. cbv [mret M_ret] in E. injection E as <-. by split_and!.
  - intros ([]&ic1&E1&E2)%bind_val_inv. destruct (IH ic1 E2) as (Hr&Hg&Hs). destruct (federated_run e ic ic1 E1) as (Hg1&Hs1&_).
    split_and!; [|by transitivity ic1|by rewrite Hs, Hs1].
    eapply rtc_l; [|exact Hr]. by eapply (sys_step_intro (FederatedIngress e)).
Qed.

(** What the handler is told is what the store of the controller becomes. *)
Lemma tells_events ns (s s' : gmap string Ingress) :
  tells MetaNamespaceKeyFunc ns s s' →
  foldl (λ s e, store_event e s) (Typed <$> s) (omap watch_event_of ns) = Typed <$> s'.
Proof.
  revert s. induction ns as [|n ns IH]; intros s; cbn [tells omap foldl]; [by intros ->|]. intros [Hfit Ht]. apply IH in Ht.
  destruct n as [o|old o|[o|k [o|]]]; cbn in *.
  - by rewrite <-fmap_insert.
  - by rewrite <-fmap_insert.
  - by rewrite <-fmap_delete.
  - destruct Hfit as (x&[= <-]&<-). by rewrite <-fmap_delete.
  - by destruct Hfit as (x&[=]&_).
Qed.

(** ** A step *)

(** What a step has to do with the requests under way. *)
Record step_ok (m : machine W) (h : option (request * Z)) (m' : machine W) : Prop := {
  step_machine_ok : machine_ok m';
  step_refines : rtc sys_step (controller m) (controller m');
  step_issued : ∀ r, r ∈ issued m m' → pending m' r;
  step_pending : ∀ r, pending m r →
    (∃ r', pending m' r' ∧ request_serves r' r) ∨ (∃ r' t, h = Some (r', t) ∧ request_serves r' r);
  step_due : ∀ r t, h = Some (r, t) → (request_time r ≤ t)%Z
}.

Lemma sends_same (ic : IngressController W) : sends ic ic = [].
Proof. unfold sends. by rewrite !drop_all. Qed.

(** A step that runs no code. *)
Lemma quiet_step m m' :
  machine_ok m → controller m' = controller m → federated m' = federated m →
  deliverer_ok (ingresses m') → deliverer_ok (clusters m') → deliverer_ok (configmaps m') →
  (∀ r, pending m' r → pending m r) → (∀ r, pending m r → ∃ r', pending m' r' ∧ request_serves r' r) →
  step_ok m None m'.
Proof.
  intros [H1 H2 H3 H4 H5 H6] Hc Hf Hd1 Hd2 Hd3 Hback Hserve. split.
  - split; try done; [|by rewrite Hf|by rewrite Hc, Hf]. intros r Hr. rewrite Hc. by apply H4, Hback.
  - by rewrite Hc.
  - intros r. unfold issued. rewrite Hc, sends_same. by intros ?%not_elem_of_nil.
  - intros r Hr. left. by apply Hserve.
  - done.
Qed.

(** Nor does a step that only changes a deliverer. *)
Lemma carried_step m m' :
  machine_ok m → controller m' = controller m → federated m' = federated m → sending m' = sending m →
  deliverer_ok (ingresses m') ∧ deliverer_ok (clusters m') ∧ deliverer_ok (configmaps m') →
  (∀ r, carried m' r → carried m r) → (∀ r, carried m r → ∃ r', carried m' r' ∧ request_serves r' r) →
  step_ok m None m'.
Proof.
  intros Hok Hc Hf Hs (H1&H2&H3) Hback Hserve. apply quiet_step; try done; unfold pending; rewrite Hs.
  - intros r [?|?]; auto.
  - intros r [?|Hr]; [exists r; split; [by left|apply request_serves_refl]|].
    destruct (Hserve r Hr) as (r'&?&?). eauto.
Qed.

(** The requests at one deliverer, where [Hkeep] says what serves them. *)
Ltac carried_cases Hkeep :=
  intros [it|it|it]; cbn;
  lazymatch goal with
  | |- _ → ∃ _, _ =>
      intros Hr;
      first [destruct (Hkeep it Hr) as (it'&Hr'&Hserves);
               first [by exists (RIngress it')|by exists (RCluster it')|by exists (RConfigMap it')]
            |first [exists (RIngress it); split; [exact Hr|by apply serves_refl]
                   |exists (RCluster it); split; [exact Hr|by apply serves_refl]
                   |exists (RConfigMap it); split; [exact Hr|by apply serves_refl]]]
  | |- _ => auto
  end.

Lemma tick_ok d time c m m' : machine_ok m → tick_of d time c m = Some m' → step_ok m None m'.
Proof.
  intros Hok. pose proof Hok as [H1 H2 H3 _ _ _]. unfold tick_of.
  destruct d; [destruct (Channels.tick time c (ingresses m)) as [d|] eqn:E; [|done]
              |destruct (Channels.tick time c (clusters m)) as [d|] eqn:E; [|done]
              |destruct (Channels.tick time c (configmaps m)) as [d|] eqn:E; [|done]];
    intros [= <-]; eapply tick_spec in E as (Hd&_&Hkeep&Hfrom); try done;
    apply carried_step; try done; carried_cases Hkeep.
Qed.

Lemma enqueue_spec r m m' : machine_ok m → enqueue r m = Some m' →
  controller m' = controller m ∧ federated m' = federated m ∧ sending m' = sending m ∧
  (deliverer_ok (ingresses m') ∧ deliverer_ok (clusters m') ∧ deliverer_ok (configmaps m')) ∧
  ∀ x, carried m' x ↔ x = r ∨ carried m x.
Proof.
  intros [H1 H2 H3 _ _ _]. unfold enqueue.
  destruct r as [it|it|it];
    [destruct (DeliverAt it (ingresses m)) as [d|] eqn:E; [|done]
    |destruct (DeliverAt it (clusters m)) as [d|] eqn:E; [|done]
    |destruct (DeliverAt it (configmaps m)) as [d|] eqn:E; [|done]];
    intros [= <-]; eapply DeliverAt_spec in E as (Hd&_&Hin); try done;
    (split_and!; [done..|]); intros [x|x|x]; cbn; rewrite ?Hin; naive_solver.
Qed.

Lemma send_ok g m m' : machine_ok m → send g m = Some m' → step_ok m None m'.
Proof.
  intros Hok. unfold send. destruct (sending m g) as [|r rest] eqn:Eg; [done|].
  destruct (enqueue r m) as [m1|] eqn:E; [|done]. cbn [mbind option_bind]. intros [= <-].
  destruct (enqueue_spec r m m1 Hok E) as (Hc&Hf&Hs&(H1&H2&H3)&Hin).
  assert (∀ x, pending (mkMachine (controller m1) (federated m1) (ingresses m1) (clusters m1) (configmaps m1)
    (<[g := rest]> (sending m1))) x ↔ pending m x) as Hp.
  { intros x. unfold pending. cbn. rewrite Hs. change (carried (mkMachine _ _ _ _ _ _) x) with (carried m1 x). rewrite Hin. split.
    - intros [(g'&Hx)|[->|Hx]]; [|left; exists g; rewrite Eg; apply list_elem_of_here|auto].
      destruct (decide (g' = g)) as [->|Hne]; [rewrite fn_lookup_insert in Hx; left; exists g; rewrite Eg; by apply list_elem_of_further|].
      rewrite fn_lookup_insert_ne in Hx by done. eauto.
    - intros [(g'&Hx)|Hx]; [|auto]. destruct (decide (g' = g)) as [->|Hne].
      + rewrite Eg in Hx. apply elem_of_cons in Hx as [->|Hx]; [auto|]. left. exists g. by rewrite fn_lookup_insert.
      + left. exists g'. by rewrite fn_lookup_insert_ne. }
  apply quiet_step; try done.
  - intros r'. apply Hp.
  - intros r' Hr. exists r'. split; [by apply Hp|apply request_serves_refl].
Qed.

(** A step that runs code, from a state in which an item may have been taken. *)
Lemma perform_step_ok g code m m1 m' h :
  machine_ok m → perform g code m1 = Some m' → follows grows code →
  (∀ ic, code (controller m) = (Val tt, ic) →
     rtc sys_step (controller m) ic ∧ ingressInformerStore ic = Typed <$> clientState (federated m1)) →
  controller m1 = controller m → sending m1 = sending m → inf_ok MetaNamespaceKeyFunc (federated m1) →
  deliverer_ok (ingresses m1) ∧ deliverer_ok (clusters m1) ∧ deliverer_ok (configmaps m1) →
  (∀ r, carried m1 r → carried m r) →
  (∀ r, carried m r → carried m1 r ∨ ∃ t, h = Some (r, t)) →
  (∀ r t, h = Some (r, t) → (request_time r ≤ t)%Z) →
  step_ok m h m'.
Proof.
  intros Hok Hp Hgr Hcode Hc Hs Hf (H1&H2&H3) Hback Hkeep Hdue.
  assert (∀ r, pending m1 r → pending m r) as Hpb.
  { intros r [Hr|Hr]; [left; by rewrite <-Hs|right; auto]. }
  assert (machine_ok m') as Hok'.
  { apply (perform_ok g code m1 m'); try done.
    - intros ic. rewrite Hc. intros E. by apply Hcode in E as [_ ?].
    - intros r Hr. rewrite Hc. apply Hok. auto. }
  pose proof (perform_pending g code m1 m') as Hpend.
  destruct (perform_spec g code m1 m' Hp) as (_&ic&E&Em). rewrite Hc in E. destruct (Hcode ic E) as [Hr _].
  assert (issued m m' = issued m1 m') as Hi by (unfold issued; by rewrite Hc). split; try done.
  - by rewrite Em.
  - intros r Hx. apply (Hpend r Hp). left. by rewrite <-Hi.
  - intros r [Hx|Hx].
    + left. exists r. split; [|apply request_serves_refl]. apply (Hpend r Hp). right. left. by rewrite Hs.
    + destruct (Hkeep r Hx) as [Hx'|(t&Ht)].
      * left. exists r. split; [|apply request_serves_refl]. apply (Hpend r Hp). right. by right.
      * right. exists r, t. split; [done|apply request_serves_refl].
Qed.

Lemma event_grows e : follows (grows (W := W)) (sys_run e).
Proof. intros ic [] ic' E. by apply sys_run_grows in E as [? _]. Qed.

(** An event that may happen is a step of [Wiring.v]. *)
Lemma event_step e (m m1 : machine W) :
  machine_ok m → may_happen e (controller m) → (∀ e', e ≠ FederatedIngress e') → federated m1 = federated m →
  ∀ ic, sys_run e (controller m) = (Val tt, ic) →
  rtc sys_step (controller m) ic ∧ ingressInformerStore ic = Typed <$> clientState (federated m1).
Proof.
  intros Hok Hmay He Hf ic E. split; [by eapply rtc_once, sys_step_intro|].
  apply sys_run_grows in E as [_ Es]. rewrite (Es He), Hf. apply Hok.
Qed.

Lemma federated_ok o m m' : machine_ok m → federated_op o m = Some m' → step_ok m None m'.
Proof.
  intros Hok. unfold federated_op. pose proof (Informer.step_ok MetaNamespaceKeyFunc o _ (ok_federated _ Hok)) as Hi.
  destruct (Informer.step MetaNamespaceKeyFunc o (federated m)) as [i notes]. destruct Hi as [Hi Ht]. intros Hp.
  eapply (perform_step_ok _ _ m _ m' None Hok Hp); try done.
  - intros ic a ic' E. destruct a. by apply events_run in E as (_&?&_).
  - intros ic E. apply events_run in E as (Hr&_&Es). split; [done|].
    rewrite Es, (ok_same_store _ Hok). by apply tells_events.
  - destruct Hok as [H1 H2 H3 _ _ _]. done.
  - by left.
Qed.

(** Events one after the other. *)
Lemma observed_run es (ic ic' : IngressController W) : forallb observable es = true → for_each es sys_run ic = (Val tt, ic') →
  rtc sys_step ic ic' ∧ grows ic ic' ∧ ingressInformerStore ic' = ingressInformerStore ic.
Proof.
  revert ic. induction es as [|e es IH]; intros ic; cbn [forallb for_each].
  - intros _ E. cbv [mret M_ret] in E. injection E as <-. by split_and!.
  - intros [Ho Hes]%andb_true_iff ([]&ic1&E1&E2)%bind_val_inv. destruct (IH ic1 Hes E2) as (Hr&Hg&Hs).
    destruct (sys_run_grows e ic ic1 E1) as [Hg1 Hs1].
    assert (∀ e', e ≠ FederatedIngress e') as He by (intros e' ->; done).
    split_and!; [|by transitivity ic1|by rewrite Hs, Hs1].
    eapply rtc_l; [|exact Hr]. eapply (sys_step_intro e); [by destruct e|done].
Qed.

Lemma observe_ok n es m m' : machine_ok m → forallb observable es = true →
  perform (Watcher n) (for_each es sys_run) m = Some m' → step_ok m None m'.
Proof.
  intros Hok Ho Hp. eapply (perform_step_ok _ _ m _ m' None Hok Hp); try done.
  - intros ic [] ic' E. by apply observed_run in E as (_&?&_).
  - intros ic E. apply observed_run in E as (Hr&_&Es); [|done]. split; [done|]. rewrite Es. apply Hok.
  - apply Hok.
  - destruct Hok as [H1 H2 H3 _ _ _]. done.
  - by left.
Qed.

Lemma handle_ok d m m' : machine_ok m → handle d m = Some m' → step_ok m (handled (Handle d) m) m'.
Proof.
  intros Hok. pose proof Hok as [H1 H2 H3 Hlog Hf _]. unfold handle, handled.
  destruct d; [destruct (Receive (ingresses m)) as [[it d]|] eqn:E; [|done]
              |destruct (Receive (clusters m)) as [[it d]|] eqn:E; [|done]
              |destruct (Receive (configmaps m)) as [[it d]|] eqn:E; [|done]];
    cbn [mbind option_bind]; intros Hp; eapply Receive_spec in E as (Hd&Hclk&Hdue&Hin); try done;
    (eapply (perform_step_ok _ _ m _ m' _ Hok Hp); try done;
     [apply event_grows
     |eapply event_step; try done;
      first [apply (Hlog (RIngress it))|apply (Hlog (RCluster it))|apply (Hlog (RConfigMap it))]; right; apply Hin; by left
     |intros [x|x|x]; cbn; rewrite ?Hin; auto
     |intros [x|x|x]; cbn; rewrite ?Hin; naive_solver
     |intros r t [= <- <-]; done]).
Qed.

Lemma mstep_ok c m m' : machine_ok m → mstep c m = Some m' → step_ok m (handled c m) m'.
Proof.
  intros Hok. destruct c as [n es|o|d|g|d time c]; cbn [mstep].
  - destruct (forallb observable es) eqn:Eo; [|done]. by apply observe_ok.
  - by apply federated_ok.
  - by apply handle_ok.
  - by apply send_ok.
  - by apply tick_ok.
Qed.

(** ** Runs *)

Lemma machine_run_ok m tr m' : machine_ok m → machine_run m tr m' → machine_ok m' ∧ rtc sys_step (controller m) (controller m').
Proof.
  intros Hok Hr. induction Hr as [m|c m m1 tr m2 Hs Hr IH]; [done|].
  destruct (mstep_ok c m m1 Hok Hs) as [Hok1 Href _ _ _]. destruct (IH Hok1) as [? ?].
  split; [done|]. by transitivity (controller m1).
Qed.

Lemma rtc_machine_run m m' : rtc machine_step m m' ↔ ∃ tr, machine_run m tr m'.
Proof.
  split.
  - induction 1 as [m|m m1 m2 [c Hc] _ [tr Hr]]; [exists []; constructor|]. eexists. by econstructor.
  - intros [tr Hr]. induction Hr as [m|c m m1 tr m2 Hs _ IH]; [done|]. eapply rtc_l; [by exists c|done].
Qed.

(** A pending request is handled in the run, or something that serves it is still pending. *)
Lemma pending_served m tr m' r : machine_ok m → machine_run m tr m' → pending m r →
  (∃ e r' t, e ∈ tr ∧ e.2 = Some (r', t) ∧ request_serves r' r) ∨ (∃ r', pending m' r' ∧ request_serves r' r).
Proof.
  intros Hok Hr. revert r. induction Hr as [m|c m m1 tr m2 Hs Hr IH]; intros r Hp.
  { right. exists r. split; [done|apply request_serves_refl]. }
  destruct (mstep_ok c m m1 Hok Hs) as [Hok1 _ _ Hpend _].
  destruct (Hpend r Hp) as [(r1&Hp1&Hs1)|(r1&t&Hh&Hs1)].
  - destruct (IH Hok1 r1 Hp1) as [(e&r'&t&He&Et&Hs2)|(r'&Hp2&Hs2)].
    + left. exists e, r', t. split_and!; [by apply list_elem_of_further|done|by eapply request_serves_trans].
    + right. exists r'. split; [done|by eapply request_serves_trans].
  - left. exists (issued m m1, handled c m), r1, t. split_and!; [apply list_elem_of_here|done|done].
Qed.

Lemma machine_run_app_inv m t1 t2 m' : machine_run m (t1 ++ t2) m' → ∃ m1, machine_run m t1 m1 ∧ machine_run m1 t2 m'.
Proof.
  revert m. induction t1 as [|e t1 IH]; intros m Hr; [exists m; split; [constructor|done]|].
  cbn in Hr. inversion Hr as [|c ? m1 ? ? Hs Hr1]; subst. destruct (IH m1 Hr1) as (m2&?&?).
  exists m2. split; [by econstructor|done].
Qed.
End facts.

(** ** A deadlock *)

Section deadlock.
Context `{K : Kubernetes W, GoMapOrder, Schedule}.
Implicit Types m : machine W.

(** The deliverer of ingresses is full while the handler of ingresses has to send to it. *)
Definition wedged m : Prop := full (ingresses m) ∧ ∃ it rest, sending m IngressWorker = RIngress it :: rest.

Lemma wedged_blocks m : wedged m → handle Ingresses m = None ∧ send IngressWorker m = None.
Proof.
  intros (Hf&it&rest&Hs). destruct (full_blocks _ Hf) as [_ Hsend]. split.
  - unfold handle. destruct (Receive (ingresses m)) as [[x d]|]; [|done]. cbn [mbind option_bind]. unfold perform. cbn. by rewrite Hs.
  - unfold send. rewrite Hs. cbn. by rewrite Hsend.
Qed.

(** Another goroutine changes neither. *)
Lemma wedged_perform g code m m1 m' : wedged m → g ≠ IngressWorker →
  ingresses m1 = ingresses m → sending m1 = sending m → perform g code m1 = Some m' → wedged m'.
Proof.
  intros (Hf&it&rest&Hs) Hg Hi Hse (_&ic&_&->)%perform_spec. split; cbn; [by rewrite Hi|]. exists it, rest.
  by rewrite fn_lookup_insert_ne, Hse.
Qed.

Lemma wedged_step c m m' : wedged m → mstep c m = Some m' → wedged m'.
Proof.
  intros Hw. pose proof Hw as (Hf&it&rest&Hs). destruct (full_blocks _ Hf) as [Htick Hsend].
  destruct c as [n es|o|d|g|d time c]; cbn [mstep].
  - destruct (forallb observable es); [|done]. intros Hp. by apply (wedged_perform _ _ m _ m' Hw) in Hp.
  - unfold federated_op. destruct (Informer.step _ _ _) as [i ns]. intros Hp. by apply (wedged_perform _ _ m _ m' Hw) in Hp.
  - destruct d; [by rewrite (proj1 (wedged_blocks m Hw))| |]; unfold handle.
    + destruct (Receive (clusters m)) as [[x d]|]; [|done]. cbn [mbind option_bind]. intros Hp. by apply (wedged_perform _ _ m _ m' Hw) in Hp.
    + destruct (Receive (configmaps m)) as [[x d]|]; [|done]. cbn [mbind option_bind]. intros Hp. by apply (wedged_perform _ _ m _ m' Hw) in Hp.
  - destruct (decide (g = IngressWorker)) as [->|Hg]; [by rewrite (proj2 (wedged_blocks m Hw))|]. unfold send.
    destruct (sending m g) as [|[x|x|x] l]; [done|cbn; by rewrite Hsend|cbn|cbn].
    + destruct (DeliverAt x (clusters m)); [|done]. intros [= <-]. split; [done|]. exists it, rest. cbn. by rewrite fn_lookup_insert_ne by congruence.
    + destruct (DeliverAt x (configmaps m)); [|done]. intros [= <-]. split; [done|]. exists it, rest. cbn. by rewrite fn_lookup_insert_ne by congruence.
  - destruct d; cbn.
    + by rewrite Htick.
    + destruct (Channels.tick _ _ _); [|done]. intros [= <-]. by split; [|exists it, rest].
    + destruct (Channels.tick _ _ _); [|done]. intros [= <-]. by split; [|exists it, rest].
Qed.

Lemma wedged_forever m m' : wedged m → rtc machine_step m m' → wedged m'.
Proof. intros Hw Hr. induction Hr as [m|m m1 m2 [c Hc] _ IH]; [done|]. apply IH. by eapply wedged_step. Qed.

(** *** How it comes about *)

(** The stores are not synced, the informer on federated ingresses has nothing to do, the
    handler of ingresses has [l] to send, nothing is in the heap, and [tg] and [up] are in the
    channels. *)
Record scene m (l : list request) (tg up : list (Item NamespacedName)) (r : run_state NamespacedName) : Prop := {
  sc_unsynced : isSynced (controller m) = false;
  sc_informer : inf_ok MetaNamespaceKeyFunc (federated m) ∧ queue (fifo (federated m)) = [];
  sc_watcher : sending m FederatedInformerLoop = [];
  sc_worker : sending m IngressWorker = l;
  sc_deliverer : ∃ h, inv h ∧ data h = [] ∧ ingresses m = mkDeliverer tg h up r
}.

Definition becomes m (l : list request) tg up r : Prop := ∃ m', rtc machine_step m m' ∧ scene m' l tg up r.

Lemma becomes_trans m l tg up r l' tg' up' r' :
  becomes m l tg up r → (∀ m', scene m' l tg up r → becomes m' l' tg' up' r') → becomes m l' tg' up' r'.
Proof. intros (m1&H1&S1) Hn. destruct (Hn m1 S1) as (m2&?&?). exists m2. split; [by transitivity m1|done]. Qed.

(** [run] goes on, with an empty heap before and after. *)
Lemma scene_ticks m l tg up r tg' up' r' :
  scene m l tg up r →
  (∀ h, inv h → data h = [] → ∃ h', inv h' ∧ data h' = [] ∧ rtc tick_step (mkDeliverer tg h up r) (mkDeliverer tg' h' up' r')) →
  becomes m l tg' up' r'.
Proof.
  intros [Hu Hinf Hw Hl (h&Hi&Hd&Em)] Ht. destruct (Ht h Hi Hd) as (h'&Hi'&Hd'&Hr).
  exists (mkMachine (controller m) (federated m) (mkDeliverer tg' h' up' r') (clusters m) (configmaps m) (sending m)). split.
  - rewrite <-Em in Hr. remember (mkDeliverer tg' h' up' r') as d' eqn:Ed. clear -Hr. remember (ingresses m) as d0 eqn:E.
    revert m E. induction Hr as [d|d d1 d2 (time&c&Hc) _ IH]; intros m ->; [by destruct m|].
    eapply rtc_l; [exists (Tick Ingresses time c); cbn; rewrite Hc; reflexivity|].
    exact (IH (mkMachine (controller m) (federated m) d1 (clusters m) (configmaps m) (sending m)) eq_refl).
  - split; cbn; try done. by exists h'.
Qed.

(** [run] takes an update, waits until it is due, and stands before its send. *)
Lemma take_update m l tg it up now : scene m l tg (it :: up) (Selecting now) →
  becomes m l tg up (Sending (now `max` DeliveryTime it) it).
Proof.
  intros Hs. eapply scene_ticks; [exact Hs|]. intros h Hi Hd.
  assert (keyPosition h !! Key it = None) as Hk.
  { destruct (keyPosition h !! Key it) as [p|] eqn:E; [|done]. apply (inv_pos _ Hi) in E as (x&Hx&_).
    by rewrite Hd in Hx. }
  destruct (Push_spec h it Hi Hk) as (h1&Ep&Hi1&Hp1). rewrite Hd in Hp1. apply Permutation_singleton_r in Hp1.
  destruct (Pop_spec h1 Hi1) as (x&h2&Eq&Hi2&Hp2&_&_); [by rewrite Hp1|]. rewrite Hp1 in Hp2.
  apply Permutation_sym, Permutation_singleton_r in Hp2. injection Hp2 as -> Hd2.
  exists h2. split_and!; [done|done|].
  eapply rtc_l; [exists (now `max` DeliveryTime it)%Z, UpdateChannel; unfold Channels.tick; cbn|].
  { rewrite bool_decide_eq_false_2 by lia. unfold update. rewrite Hk, Ep. cbn. reflexivity. }
  eapply rtc_once. exists 0%Z, TimeAfter. unfold Channels.tick. cbn. rewrite Hp1, bool_decide_eq_false_2 by lia. by rewrite Eq.
Qed.

(** [run] sends, and is back at its [select]. *)
Lemma send_target m l tg it up now : length tg < targetChannelCapacity → scene m l tg up (Sending now it) →
  becomes m l (tg ++ [it]) up (Selecting now).
Proof.
  intros Hl Hs. eapply scene_ticks; [exact Hs|]. intros h Hi Hd. exists h. split_and!; [done|done|].
  eapply rtc_l; [exists 0%Z, TimeAfter; unfold Channels.tick; cbn; rewrite bool_decide_eq_true_2 by done; reflexivity|].
  eapply rtc_once. exists 0%Z, TimeAfter. unfold Channels.tick. cbn. by rewrite Hd.
Qed.

Lemma sends_one (ic : IngressController W) it w b :
  sends ic (request_ingress it (set_apis w (set_ingressBackoff b ic))) = [RIngress it].
Proof. unfold sends. cbn. by rewrite !drop_all, drop_app_length. Qed.

(** A federated ingress is created or deleted, and its request is sent. *)
Lemma ingress_change (i : Ingress) m l tg up r : clock_total (W := W) →
  length up < delayingDelivererUpdateChanCapacity → scene m l tg up r → ∃ it, becomes m l tg (up ++ [it]) r.
Proof.
  intros Hclock Hup [Hu [Hok Hq] Hw Hl (h&Hi&Hd&Em)].
  destruct (one_change MetaNamespaceKeyFunc (federated m) i Hok Hq) as (c&n&i1&i2&Hc&E1&E2&Hq2).
  pose proof (Informer.step_ok MetaNamespaceKeyFunc c _ Hok) as Hok1. rewrite E1 in Hok1. destruct Hok1 as [Hok1 _].
  pose proof (Informer.step_ok MetaNamespaceKeyFunc ProcessOne _ Hok1) as Hok2. rewrite E2 in Hok2. destruct Hok2 as [Hok2 _].
  assert (∃ e, watch_event_of n = Some e ∧ changed_object value_equal e = Some i) as (e&En&He).
  { destruct Hc as [[_ ->]|[_ ->]]; eexists; by split. }
  set (ic := set_ingressInformerStore (store_event e (ingressInformerStore (controller m))) (controller m)).
  destruct (deliverIngress_total (nn_of_meta (ing_meta i)) 0 ic Hclock) as (t&w&b&_&E).
  set (it := mkItem _ _ _) in E. exists it.
  assert (sys_run (FederatedIngress e) (controller m) = (Val tt, request_ingress it (set_apis w (set_ingressBackoff b ic)))) as Erun.
  { cbn [sys_run]. rewrite (bind_val _ _ (controller m) tt ic); [|reflexivity]. unfold on_federated_ingress.
    destruct Hc as [[_ ->]|[_ ->]]; injection En as <-; exact E. }
  assert (sends (controller m) (request_ingress it (set_apis w (set_ingressBackoff b ic))) = [RIngress it]) as Es by apply (sends_one ic).
  eexists (mkMachine _ i2 (mkDeliverer tg h (up ++ [it]) r) (clusters m) (configmaps m) _). split.
  - eapply rtc_l; [exists (Federated c)|].
    { cbn [mstep]. unfold federated_op. rewrite E1. unfold perform. cbn [sending]. rewrite Hw. cbn. rewrite sends_same. reflexivity. }
    eapply rtc_l; [exists (Federated ProcessOne)|].
    { cbn [mstep]. unfold federated_op. cbn [federated]. rewrite E2. unfold perform. cbn [sending]. rewrite fn_lookup_insert.
      cbn [omap list_omap controller]. rewrite En. cbn [for_each]. rewrite (bind_val _ _ _ _ _ Erun). cbn. rewrite Es. reflexivity. }
    eapply rtc_once. exists (Send FederatedInformerLoop). cbn [mstep]. unfold send. cbn [sending]. rewrite fn_lookup_insert. cbn.
    rewrite Em. unfold DeliverAt. cbn. rewrite bool_decide_eq_true_2 by done. cbn. reflexivity.
  - split; cbn; [exact Hu|done|by rewrite fn_lookup_insert|by rewrite !fn_lookup_insert_ne by congruence|by exists h].
Qed.

Lemma ingress_changes (i : Ingress) n m l tg up r : clock_total (W := W) →
  length up + n ≤ delayingDelivererUpdateChanCapacity → scene m l tg up r →
  ∃ up', length up' = length up + n ∧ becomes m l tg up' r.
Proof.
  intros Hclock. revert m up. induction n as [|n IH]; intros m up Hn Hs.
  { exists up. split; [lia|]. by exists m. }
  destruct (ingress_change i m l tg up r Hclock) as [it (m1&Hr1&Hs1)]; [lia|done|].
  destruct (IH m1 (up ++ [it])) as (up'&Hl&(m2&Hr2&Hs2)); [rewrite length_app; cbn; lia|done|].
  exists up'. split; [rewrite Hl, length_app; cbn; lia|]. exists m2. split; [by transitivity m1|done].
Qed.

(** With nothing in the update channel, changes fill the target channel one by one. *)
Lemma fill_target (i : Ingress) n m l tg now : clock_total (W := W) →
  length tg + n ≤ targetChannelCapacity → scene m l tg [] (Selecting now) →
  ∃ tg' now', length tg' = length tg + n ∧ becomes m l tg' [] (Selecting now').
Proof.
  intros Hclock. revert m tg now. induction n as [|n IH]; intros m tg now Hn Hs.
  { exists tg, now. split; [lia|]. by exists m. }
  destruct (ingress_change i m l tg [] (Selecting now) Hclock) as [it B1];
    [unfold delayingDelivererUpdateChanCapacity; cbn; lia|done|].
  assert (becomes m l (tg ++ [it]) [] (Selecting (now `max` DeliveryTime it))) as (m3&Hr3&Hs3).
  { eapply becomes_trans; [exact B1|]. intros m1 S1. eapply becomes_trans; [by apply take_update|].
    intros m2 S2. apply send_target; [lia|done]. }
  destruct (IH m3 (tg ++ [it]) (now `max` DeliveryTime it)%Z) as (tg'&now'&Hl&(m4&Hr4&Hs4)); [rewrite length_app; cbn; lia|exact Hs3|].
  exists tg', now'. split; [rewrite Hl, length_app; cbn; lia|]. exists m4. split; [by transitivity m3|done].
Qed.

(** The handler takes an ingress; as the stores are not synced, it asks for it again. *)
Lemma start_review m x tg up r : clock_total (W := W) → scene m [] (x :: tg) up r →
  ∃ it, becomes m [RIngress it] tg up r.
Proof.
  intros Hclock [Hu Hinf Hw Hl (h&Hi&Hd&Em)].
  destruct (deliverIngress_total (Value x) clusterAvailableDelay (controller m) Hclock) as (t&w&b&_&E).
  set (it := mkItem _ _ _) in E. exists it.
  eexists (mkMachine _ (federated m) (mkDeliverer tg h up r) (clusters m) (configmaps m) _). split.
  - eapply rtc_once. exists (Handle Ingresses). cbn [mstep]. unfold handle. rewrite Em. cbn. unfold perform. cbn. rewrite Hl.
    unfold handle_ingress, reconcileIngress. rewrite (bind_val get _ (controller m) (controller m) (controller m) eq_refl), Hu.
    cbn [negb]. rewrite E, sends_one. reflexivity.
  - split; cbn; [exact Hu|exact Hinf|by rewrite fn_lookup_insert_ne by congruence|by rewrite fn_lookup_insert|by exists h].
Qed.

Lemma reaches_wedged (i : Ingress) (now : Z) (w : W) : clock_total (W := W) → ∃ m, rtc machine_step (Run now w) m ∧ wedged m.
Proof.
  intros Hclock.
  assert (becomes (Run now w) [] [] [] (Selecting now)) as (m1&R1&S1).
  { apply (scene_ticks _ [] [] [] (Delivering now)).
    - split; try done; [split; [apply NewInformer_ok|done]|]. exists empty_heap. split_and!; [apply empty_inv|done|done].
    - intros h Hi Hd. exists h. split_and!; [done|done|]. apply rtc_once. exists 0%Z, TimeAfter. unfold Channels.tick. cbn. by rewrite Hd. }
  destruct (fill_target i targetChannelCapacity m1 [] [] now Hclock) as (tg&t2&Htg&(m2&R2&S2)); [done|done|].
  edestruct (ingress_change i m2 [] tg []) as [it B3]; [done|unfold delayingDelivererUpdateChanCapacity; cbn; lia|exact S2|].
  destruct (becomes_trans _ _ _ _ _ _ _ _ _ B3 (λ m' S', take_update m' [] tg it [] t2 S')) as (m3&R3&S3).
  edestruct (ingress_changes i delayingDelivererUpdateChanCapacity m3 [] tg []) as (up&Hup&(m4&R4&S4)); [done|cbn; lia|exact S3|].
  destruct tg as [|x tg]; [done|].
  edestruct (start_review m4 x tg up) as [r (m5&R5&S5)]; [done|exact S4|].
  edestruct (send_target m5) as (m6&R6&S6); [|exact S5|]; [cbn in Htg; lia|].
  destruct up as [|y up]; [done|].
  edestruct (take_update m6) as (m7&R7&S7); [exact S6|].
  edestruct (ingress_change i m7) as [z (m8&R8&[_ _ _ Hworker (h&_&_&Em)])]; [done| |exact S7|]; [cbn in Hup; lia|].
  exists m8. split; [by do 7 (etransitivity; [eassumption|])|]. split; [|eauto].
  unfold full. rewrite Em. cbn. rewrite !length_app. cbn in *. split_and!; [done|lia|lia].
Qed.
End deadlock.

(** ** Properties *)

(** C7: the machine refines the controller of [Wiring.v]: whatever the goroutines and the
    channels do, the controller goes through states that it reaches with its handlers run
    at any time for any request made; so what holds of every history of events there holds
    here.  Its store of federated ingresses is at any time that of the informer. *)
Theorem machine_refines_system `{K : Kubernetes W, GoMapOrder, Schedule} (now : Z) (w : W) (m : machine W) :
  rtc machine_step (Run now w) m →
  rtc sys_step (NewIngressController w) (controller m) ∧
  ingressInformerStore (controller m) = Typed <$> clientState (federated m).
Proof.
  intros [tr Hr]%rtc_machine_run. destruct (machine_run_ok _ _ _ (Run_ok now w) Hr) as [Hok Href].
  split; [exact Href|apply Hok].
Qed.

(** C11: no request is lost, and none is handled too early: in any run of the machine, after
    a step that makes a request, either an item with its key and no later time is handed to
    the handler, or one is still on its way: to be sent, in a channel, or in the heap.  What
    is handed to a handler was due by the clock of its deliverer. *)
Theorem no_request_lost `{K : Kubernetes W, GoMapOrder, Schedule} (now : Z) (w : W) (m : machine W)
    (before after : list (list request * option (request * Z))) (made : list request) (h : option (request * Z)) (r : request) :
  machine_run (Run now w) (before ++ (made, h) :: after) m → r ∈ made →
  ((∃ e r' t, e ∈ after ∧ e.2 = Some (r', t) ∧ request_serves r' r ∧ (request_time r' ≤ t)%Z) ∨
   ∃ r', pending m r' ∧ request_serves r' r).
Proof.
  intros Hr Hin. apply machine_run_app_inv in Hr as (m1&Hr1&Hr2).
  destruct (machine_run_ok _ _ _ (Run_ok now w) Hr1) as [Hok1 _].
  inversion Hr2 as [|c ? m2 ? ? Hs Hr3 E]; subst. destruct (mstep_ok c m1 m2 Hok1 Hs) as [Hok2 _ Hissued _ _].
  destruct (pending_served m2 after m r Hok2 Hr3 (Hissued r Hin)) as [(e&r'&t&He&Et&Hsv)|?]; [left|by right].
  exists e, r', t. split_and!; [done|done|done|]. clear -Hok2 Hr3 He Et.
  induction Hr3 as [m|c m m1 tr m' Hs _ IH]; [by apply not_elem_of_nil in He|].
  destruct (mstep_ok c m m1 Hok2 Hs) as [Hok1 _ _ _ Hdue]. apply elem_of_cons in He as [->|He]; [by apply Hdue|by apply IH].
Qed.

(** C12: the controller can deadlock: from its start, as soon as federated ingresses change
    some 1100 times while one of them is being reviewed (and already before the clusters are
    known), a state is reached in which the deliverer of ingresses waits for its handler to
    take an item, and the handler waits for the deliverer to take its request.  From there
    on, whatever happens, the handler never gets through with its send and never takes
    another ingress. *)
Theorem ingress_queue_deadlocks `{K : Kubernetes W, GoMapOrder, Schedule} (now : Z) (w : W) :
  clock_total (W := W) →
  ∃ m, rtc machine_step (Run now w) m ∧
    ∀ m', rtc machine_step m m' → sending m' IngressWorker ≠ [] ∧ send IngressWorker m' = None ∧ handle Ingresses m' = None.
Proof.
  intros Hclock. destruct (reaches_wedged WiringExamples.web now w Hclock) as (m&Hr&Hw). exists m. split; [exact Hr|].
  intros m' Hr'. pose proof (wedged_forever m m' Hw Hr') as Hw'. destruct (wedged_blocks m' Hw') as [Hh Hs].
  split_and!; [|exact Hs|exact Hh]. destruct Hw' as (_&it&rest&->). done.
Qed.

Module MachineExamples.
Abbreviation web := WiringExamples.web.
Abbreviation nothing := WiringExamples.nothing.

(** Runs of the machine, with their history. *)
Fixpoint exec (cs : list (choice cloud)) (m : machine cloud) : option (list (list request * option (request * Z)) * machine cloud) :=
  match cs with
  | [] => Some ([], m)
  | c :: cs =>
      m1 ← mstep c m;
      '(tr, m2) ← exec cs m1;
      Some ((issued m m1, handled c m) :: tr, m2)
  end.
Lemma exec_run cs m tr m' : exec cs m = Some (tr, m') → machine_run m tr m'.
Proof.
  revert m tr. induction cs as [|c cs IH]; intros m tr; cbn [exec]; [intros [= <- <-]; constructor|].
  destruct (mstep c m) as [m1|] eqn:E; [|done]. cbn [mbind option_bind]. destruct (exec cs m1) as [[tr1 m2]|] eqn:E2; [|done].
  cbn [mbind option_bind]. intros [= <- <-]. econstructor; [exact E|by apply IH].
Qed.

(** A federated ingress is listed; its request is sent, delivered, and handled, which makes
    another request, as the clusters are not known yet. *)
Definition run_update : list (choice cloud) := [Tick Ingresses 0 TimeAfter; Tick Ingresses 0 UpdateChannel; Tick Ingresses 0 TimeAfter; Tick Ingresses 0 TimeAfter].
Definition first_review : list (choice cloud) :=
  [Federated (Relist [web]); Federated ProcessOne; Send FederatedInformerLoop] ++ run_update ++ [Handle Ingresses].
Definition no_run : list (list request * option (request * Z)) * machine cloud := ([], Run 0 nothing).
Definition reviewed : list (list request * option (request * Z)) * machine cloud :=
  default no_run (exec first_review (Run 0 nothing)).

Lemma reviewed_run : machine_run (Run 0 nothing) reviewed.1 reviewed.2.
Proof.
  assert (match exec first_review (Run 0 nothing) with Some _ => true | None => false end = true) as Hs by (vm_compute; reflexivity).
  apply (exec_run first_review). unfold reviewed. by destruct (exec first_review (Run 0 nothing)) as [[tr m]|].
Qed.

Lemma machine_refines_system_witness :
  rtc sys_step (NewIngressController nothing) (controller reviewed.2) ∧
  ingressInformerStore (controller reviewed.2) = Typed <$> clientState (federated reviewed.2).
Proof.
  apply (machine_refines_system 0 nothing reviewed.2). apply rtc_machine_run. exists reviewed.1. exact reviewed_run.
Defined.

Definition web_request : request := RIngress (mkItem "ns/web" (mkNsName "ns" "web") 0%Z).
Lemma no_request_lost_witness :
  (∃ e r' t, e ∈ drop 2 reviewed.1 ∧ e.2 = Some (r', t) ∧ request_serves r' web_request ∧ (request_time r' ≤ t)%Z) ∨
  ∃ r', pending reviewed.2 r' ∧ request_serves r' web_request.
Proof.
  apply (no_request_lost 0 nothing reviewed.2 (take 1 reviewed.1) (drop 2 reviewed.1) [web_request] None web_request).
  - replace (take 1 reviewed.1 ++ ([web_request], None) :: drop 2 reviewed.1) with reviewed.1; [exact reviewed_run|].
    vm_compute. reflexivity.
  - apply list_elem_of_here.
Defined.

Lemma ingress_queue_deadlocks_witness :
  ∃ m, rtc machine_step (Run 0 nothing) m ∧
    ∀ m', rtc machine_step m m' → sending m' IngressWorker ≠ [] ∧ send IngressWorker m' = None ∧ handle Ingresses m' = None.
Proof. apply (ingress_queue_deadlocks 0 nothing). intros w. exists 0%Z, w. reflexivity. Defined.

Example history_of_first_review :
  reviewed.1 = [([], None); ([web_request], None); ([], None); ([], None); ([], None); ([], None); ([], None);
    ([RIngress (mkItem "ns/web" (mkNsName "ns" "web") (5 * Second)%Z)], Some (web_request, 0%Z))].
Proof. vm_compute. reflexivity. Qed.
End MachineExamples.
