(* ===== verification/Program.v ===== *)
(** The controller with everything between the API servers of the members and its handlers of
    ingresses: the machine of [Machine.v], where the events of the federated informer on
    ingresses come from its informers on the clusters and in them ([Federation.v]).

    An operation of such an informer changes the stores, then the lifecycle functions and the
    handlers of member ingresses are called, which make requests. *)

From S2P Require Import Prelude GoStrings KubeTypes Handlers Informer FedInformer Updater Deletion Backoff Deliverer Channels IngressController Federation ConfigMaps Cloud IngressControllerFacts ConfigMapsFacts Wiring Requests Machine.

Record program (W : Type) := mkProgram { machine_of : machine W; members : federation Ingress }.
Arguments mkProgram {W} _ _.
Arguments machine_of {W} _.
Arguments members {W} _.

(** What happens next: something in the machine, or an operation of an informer, in some
    goroutine. *)
Inductive pchoice (W : Type) := Goes (c : choice W) | Member (n : nat) (o : fed_op Ingress).
Arguments Goes {W} c.
Arguments Member {W} n o.

Section program.
Context `{K : Kubernetes W, GoMapOrder, Schedule}.
Abbreviation IC := (IngressController W).
Implicit Types p : program W.

(** The calls of an operation: the lifecycle functions, and the handler of [NewInformer] for
    the ingresses of a cluster. *)
Definition member_call (c : fed_call Ingress) : M IC unit :=
  match c with
  | Heard _ => mret tt
  | Lifecycle l => ingress_lifecycle l
  | Told _ note => match watch_event_of note with Some e => on_member_ingress e | None => mret tt end
  end.
Definition member_code (f : federatedInformerImpl Ingress) (calls : list (fed_call Ingress)) : M IC unit :=
  modify (set_ingressFederatedInformer f) ≫= λ _, for_each calls member_call.

(** All other events of the machine. *)
Definition elsewhere (e : sys_event (W:=W)) : bool := match e with IngressInformer _ | MemberIngress _ => false | _ => true end.
Definition own (c : choice W) : bool := match c with Observe _ es => forallb elsewhere es | _ => true end.

Definition member_op (n : nat) (o : fed_op Ingress) p : option (program W) :=
  let '(F, calls) := fed_step MetaNamespaceKeyFunc clientFactory o (members p) in
  m ← perform (Watcher n) (member_code (view F) calls) (machine_of p);
  Some (mkProgram m F).
Definition pstep (c : pchoice W) p : option (program W) :=
  match c with
  | Goes c => if own c then m ← mstep c (machine_of p); Some (mkProgram m (members p)) else None
  | Member n o => member_op n o p
  end.

(** What is handed to a handler, with the clock of its deliverer. *)
Definition phandled (c : pchoice W) p : list (request * Z) :=
  match c with Goes c => option_list (handled c (machine_of p)) | Member _ _ => [] end.
Fixpoint prun (cs : list (pchoice W)) p : option (list (request * Z) * program W) :=
  match cs with
  | [] => Some ([], p)
  | c :: cs =>
      p1 ← pstep c p;
      '(hs, p2) ← prun cs p1;
      Some (phandled c p ++ hs, p2)
  end.

(** [NewIngressController] and [Run], at time [now]. *)
Definition Start (now : Z) (w : W) : program W := mkProgram (Run now w) NewFederation.

(** The operations of the informers in a run, and their calls. *)
Definition member_ops (cs : list (pchoice W)) : list (fed_op Ingress) :=
  omap (λ c, match c with Member _ o => Some o | _ => None end) cs.
Abbreviation members_run ops := (fed_run MetaNamespaceKeyFunc clientFactory ops NewFederation).

(** ** The events that the machine sees *)

(** Code that does not look at the federated informer on ingresses. *)
Definition blind {A} (m : M IC A) : Prop :=
  ∀ f ic, m (set_ingressFederatedInformer f ic) = (let '(o, ic') := m ic in (o, set_ingressFederatedInformer f ic')).

Lemma blind_ret {A} (a : A) : blind (mret a).
Proof. done. Qed.
Lemma blind_bind {A B} (m : M IC A) (g : A → M IC B) : blind m → (∀ a, blind (g a)) → blind (m ≫= g).
Proof.
  intros Hm Hg f ic. cbv [mbind M_bind]. rewrite Hm. destruct (m ic) as [[a|msg] ic1]; [apply Hg|done].
Qed.
Lemma blind_for_each {X} (l : list X) (body : X → M IC unit) : (∀ x, blind (body x)) → blind (for_each l body).
Proof. intros Hb. induction l as [|x l IH]; [done|]. cbn [for_each]. apply blind_bind; [done|]. by intros _. Qed.
Lemma blind_call {A} (m : M W A) : blind (call m).
Proof.
  intros f ic. unfold call, zoom. destruct ic as [s fi cf ib cb id cd md w]. cbn. by destruct (m w) as [[a|msg] w'].
Qed.
Lemma blind_lifecycle l : blind (ingress_lifecycle l).
Proof. destruct l; cbn; (apply blind_bind; [apply blind_call|]; intros t f ic; reflexivity). Qed.

Lemma for_each_app {X} (l1 l2 : list X) (body : X → M IC unit) ic ic' :
  for_each (l1 ++ l2) body ic = (Val tt, ic') ↔
  ∃ ic1, for_each l1 body ic = (Val tt, ic1) ∧ for_each l2 body ic1 = (Val tt, ic').
Proof.
  revert ic. induction l1 as [|x l1 IH]; intros ic; cbn [app for_each].
  - split; [intros E; by exists ic|]. intros (ic1&E&?). cbv [mret M_ret] in E. by injection E as <-.
  - split.
    + intros ([]&ic1&E1&(ic2&E2&E3)%IH)%bind_val_inv. exists ic2. split; [|done]. by rewrite (bind_val _ _ _ _ _ E1).
    + intros (ic2&([]&ic1&E1&E2)%bind_val_inv&E3). rewrite (bind_val _ _ _ _ _ E1). apply IH. by exists ic2.
Qed.

(** Changes of the stores with their lifecycle calls are events. *)
Lemma informer_events es f ls ic ic' :
  FedInformer.run clientFactory es (ingressFederatedInformer ic) = (f, ls) →
  for_each ls ingress_lifecycle (set_ingressFederatedInformer f ic) = (Val tt, ic') →
  for_each (IngressInformer <$> es) sys_run ic = (Val tt, ic').
Proof.
  revert f ls ic ic'. induction es as [|e es IH]; intros f ls ic ic'; cbn [FedInformer.run fmap list_fmap for_each].
  { intros [= <- <-] E. cbn [for_each] in *. by destruct ic. }
  destruct (FedInformer.step clientFactory (ingressFederatedInformer ic) e) as [f1 l1] eqn:E1.
  destruct (FedInformer.run clientFactory es f1) as [f2 l2] eqn:E2. intros [= <- <-] (ica&Ha&Hb)%for_each_app.
  set (ic1 := set_ingressFederatedInformer f1 ic).
  pose proof (blind_for_each l1 ingress_lifecycle blind_lifecycle f2 ic1) as Hbl.
  change (set_ingressFederatedInformer f2 ic1) with (set_ingressFederatedInformer f2 ic) in Hbl. rewrite Ha in Hbl.
  destruct (for_each l1 ingress_lifecycle ic1) as [o ic2] eqn:E3. injection Hbl as <- ->.
  assert (sys_run (IngressInformer e) ic = (Val tt, ic2)) as Er.
  { cbn [sys_run]. rewrite (bind_val get _ ic ic ic eq_refl), E1. by rewrite (bind_val (modify (set_ingressFederatedInformer f1)) _ ic tt ic1 eq_refl). }
  rewrite (bind_val _ _ _ _ _ Er). eapply IH; [|exact Hb].
  apply informer_run in Er as (_&_&->). rewrite E1. exact E2.
Qed.

(** So are the calls of a handler of member ingresses. *)
Lemma member_events m notes ic ic' :
  for_each (Told m <$> notes) member_call ic = (Val tt, ic') →
  for_each (MemberIngress <$> omap watch_event_of notes) sys_run ic = (Val tt, ic').
Proof.
  revert ic. induction notes as [|n notes IH]; intros ic; cbn [fmap list_fmap omap list_omap for_each member_call]; [done|].
  destruct (watch_event_of n) as [e|]; cbn [fmap list_fmap for_each].
  - intros ([]&ic1&E1&E2)%bind_val_inv. rewrite (bind_val (sys_run (MemberIngress e)) _ ic tt ic1 E1). by apply IH.
  - rewrite bind_ret_l. apply IH.
Qed.
Lemma lifecycle_calls calls : (∀ m, told m calls = []) → ∀ ic,
  for_each calls member_call ic = for_each (lifecycles calls) ingress_lifecycle ic.
Proof.
  intros Ht. assert (∀ m n, Told m n ∉ calls) as Hno.
  { intros m n Hin. assert (n ∈ told m calls) as Hx; [|rewrite Ht in Hx; by apply not_elem_of_nil in Hx].
    apply list_elem_of_omap. exists (Told m n). split; [done|]. by rewrite decide_True. }
  clear Ht. induction calls as [|c calls IH]; [done|]. intros ic.
  assert (∀ ic, for_each calls member_call ic = for_each (lifecycles calls) ingress_lifecycle ic) as IH'.
  { apply IH. intros m n Hin. apply (Hno m n). by apply list_elem_of_further. }
  destruct c as [n|l|m n]; [| |exfalso; apply (Hno m n), list_elem_of_here].
  - cbn [for_each member_call]. rewrite bind_ret_l. apply IH'.
  - change (lifecycles (Lifecycle l :: calls)) with (l :: lifecycles calls). cbn [for_each member_call].
    cbv [mbind M_bind]. by destruct (ingress_lifecycle l ic) as [[[]|msg] ic1]; [apply IH'|].
Qed.

Lemma events_observable {X} (g : X → sys_event (W:=W)) (l : list X) :
  (∀ x, observable (g x) = true) → forallb observable (g <$> l) = true.
Proof. intros Hg. induction l as [|x l IH]; cbn; [done|]. by rewrite Hg. Qed.

(** An operation of an informer is a sequence of events. *)
Lemma member_observed o (F F' : federation Ingress) calls ic ic' :
  federation_ok MetaNamespaceKeyFunc F → ingressFederatedInformer ic = view F →
  fed_step MetaNamespaceKeyFunc clientFactory o F = (F', calls) →
  member_code (view F') calls ic = (Val tt, ic') →
  ∃ es, forallb observable es = true ∧ for_each es sys_run ic = (Val tt, ic').
Proof.
  intros Hok Hv E ([]&ic1&Em&Er)%bind_val_inv. cbv [modify] in Em. injection Em as <-. destruct o as [o|m o].
  - pose proof (cluster_step MetaNamespaceKeyFunc clientFactory o F Hok) as Hs. rewrite E in Hs.
    destruct (Informer.step cl_name o (clusterInformer F)) as [i notes]. destruct Hs as (_&_&Hes&_&Ht).
    rewrite lifecycle_calls in Er by done. rewrite <-Hv in Hes. eexists. split; [|by eapply informer_events].
    by apply events_observable.
  - pose proof (target_step MetaNamespaceKeyFunc clientFactory m o F Hok) as Hs. rewrite E in Hs.
    destruct Hs as (_&_&(es&Hes&_)&_).
    assert (∃ notes, calls = Told m <$> notes) as [notes ->].
    { revert E. cbn [fed_step]. destruct (targets F !! m); [|intros [= _ <-]; by exists []].
      destruct (Informer.step _ _ _) as [t' notes]. intros [= _ <-]. by exists notes. }
    assert (lifecycles (Told m <$> notes) = []) as El by (clear; unfold lifecycles; by induction notes).
    rewrite El, <-Hv in Hes. apply member_events in Er.
    exists ((IngressInformer <$> es) ++ (MemberIngress <$> omap watch_event_of notes)). split.
    + rewrite forallb_app, !events_observable; done.
    + apply for_each_app. eexists. split; [|exact Er]. by eapply informer_events.
Qed.
End program.

(** ** Steps *)

Section facts.
Context `{K : Kubernetes W, GoMapOrder, Schedule}.
Implicit Types p : program W.

(** The machine is well-formed, so are the informers, and the controller sees their stores. *)
Record program_ok p : Prop := {
  ok_machine : machine_ok (machine_of p);
  ok_members : federation_ok MetaNamespaceKeyFunc (members p);
  ok_same_view : ingressFederatedInformer (controller (machine_of p)) = view (members p)
}.

Lemma Start_ok now w : program_ok (Start now w).
Proof. split; [apply Run_ok|apply NewFederation_ok|done]. Qed.

(** The rest of the machine leaves the federated informer on ingresses alone. *)
Lemma elsewhere_run es (ic ic' : IngressController W) :
  forallb observable es = true → forallb elsewhere es = true → for_each es sys_run ic = (Val tt, ic') →
  ingressFederatedInformer ic' = ingressFederatedInformer ic.
Proof.
  revert ic. induction es as [|e es IH]; intros ic; cbn [forallb for_each].
  - intros _ _ E. cbv [mret M_ret] in E. by injection E as <-.
  - intros [Ho Hos]%andb_true_iff [He Hes]%andb_true_iff ([]&ic1&E1&E2)%bind_val_inv. rewrite (IH ic1) by done.
    apply sys_run_stays in E1 as []; [done|by intros e' ->|by intros e' ->].
Qed.
Lemma federated_events es (ic ic' : IngressController W) :
  for_each es (λ e, sys_run (FederatedIngress e)) ic = (Val tt, ic') → ingressFederatedInformer ic' = ingressFederatedInformer ic.
Proof.
  revert ic. induction es as [|e es IH]; intros ic; cbn [for_each].
  - intros E. cbv [mret M_ret] in E. by injection E as <-.
  - intros ([]&ic1&E1&E2)%bind_val_inv. rewrite (IH ic1) by done. by apply federated_run in E1 as (_&_&?).
Qed.
Lemma own_step c (m m' : machine W) : own c = true → machine_ok m → mstep c m = Some m' →
  ingressFederatedInformer (controller m') = ingressFederatedInformer (controller m).
Proof.
  intros Ho Hok. destruct c as [n es|o|d|g|d time c]; cbn [mstep].
  - destruct (forallb observable es) eqn:Eo; [|done]. intros (_&ic&E&->)%perform_spec. by eapply elsewhere_run.
  - unfold federated_op. destruct (Informer.step _ _ _) as [i ns]. intros (_&ic&E&->)%perform_spec. by apply federated_events in E.
  - unfold handle.
    destruct d; [destruct (Receive (ingresses m)) as [[it d]|]|destruct (Receive (clusters m)) as [[it d]|]
                |destruct (Receive (configmaps m)) as [[it d]|]]; try done; cbn [mbind option_bind];
      intros (_&ic&E&->)%perform_spec; by apply sys_run_stays in E as [].
  - unfold send. destruct (sending m g) as [|r rest]; [done|]. destruct (enqueue r m) as [m1|] eqn:E; [|done].
    cbn [mbind option_bind]. intros [= <-]. cbn. by destruct (enqueue_spec r m m1 Hok E) as [-> _].
  - unfold tick_of. destruct d; destruct (Channels.tick _ _ _) as [d|]; try done; cbn [mbind option_bind]; by intros [= <-].
Qed.

Lemma member_call_stays c : follows (stays (W := W)) (member_call c).
Proof.
  destruct c as [x|[x|x]|x note]; cbn; [by apply follows_ret, _|apply cluster_DeliverAfter_stays..|].
  destruct (watch_event_of note); [|by apply follows_ret, _]. apply trigger_stays. intros obj. apply deliverIngress_stays.
Qed.

(** Every step is one of the machine, which hands over the same. *)
Lemma pstep_ok c p p' : program_ok p → pstep c p = Some p' →
  program_ok p' ∧ ∃ c', mstep c' (machine_of p) = Some (machine_of p') ∧ phandled c p = option_list (handled c' (machine_of p)).
Proof.
  intros [Hm Hf Hv]. destruct c as [c|n o]; cbn [pstep].
  - destruct (own c) eqn:Eo; [|done]. destruct (mstep c (machine_of p)) as [m|] eqn:E; [|done].
    cbn [mbind option_bind]. intros [= <-]. split; [|by exists c]. split; cbn; [by destruct (mstep_ok c _ m Hm E)|done|].
    by rewrite (own_step c _ m Eo Hm E).
  - unfold member_op. pose proof (fed_step_ok MetaNamespaceKeyFunc clientFactory o _ Hf) as Hf'.
    destruct (fed_step MetaNamespaceKeyFunc clientFactory o (members p)) as [F calls] eqn:Es.
    destruct (perform (Watcher n) (member_code (view F) calls) (machine_of p)) as [m|] eqn:E; [|done].
    cbn [mbind option_bind]. intros [= <-]. destruct (perform_spec _ _ _ _ E) as (Hs&ic&Er&Em).
    destruct (member_observed o _ F calls _ ic Hf Hv Es Er) as (es&Ho&Ees).
    assert (mstep (Observe n es) (machine_of p) = Some m) as Estep.
    { cbn [mstep]. rewrite Ho. unfold perform. by rewrite Hs, Ees, Em. }
    split; [|by exists (Observe n es)]. split; cbn; [by destruct (mstep_ok _ _ m Hm Estep)|done|].
    rewrite Em. cbn. revert Er. unfold member_code. intros ([]&ic1&Emod&Ecalls)%bind_val_inv.
    cbv [modify] in Emod. injection Emod as <-.
    apply (follows_for_each stays) in Ecalls as [_ _ ->]; [done|]. intros x _. apply member_call_stays.
Qed.

(** ** Runs *)

Lemma prun_app cs1 cs2 p : prun (cs1 ++ cs2) p = '(h1, p1) ← prun cs1 p; '(h2, p2) ← prun cs2 p1; Some (h1 ++ h2, p2).
Proof.
  revert p. induction cs1 as [|c cs1 IH]; intros p; cbn [app prun].
  - cbn. by destruct (prun cs2 p) as [[h2 p2]|].
  - destruct (pstep c p) as [p0|]; [|done]. cbn [mbind option_bind]. rewrite IH. destruct (prun cs1 p0) as [[h1 p1]|]; [|done].
    cbn. destruct (prun cs2 p1) as [[h2 p2]|]; [|done]. cbn. by rewrite app_assoc.
Qed.

Lemma prun_ok cs p hs p' : program_ok p → prun cs p = Some (hs, p') →
  program_ok p' ∧ rtc machine_step (machine_of p) (machine_of p') ∧
  members p' = (fed_run MetaNamespaceKeyFunc clientFactory (member_ops cs) (members p)).1.
Proof.
  revert p hs. induction cs as [|c cs IH]; intros p hs Hok; cbn [prun].
  - intros [= <- <-]. by split_and!.
  - destruct (pstep c p) as [p1|] eqn:E1; [|done]. cbn [mbind option_bind]. destruct (prun cs p1) as [[h2 p2]|] eqn:E2; [|done].
    cbn [mbind option_bind]. intros [= _ <-]. destruct (pstep_ok c p p1 Hok E1) as (Hok1&c'&Hc'&_).
    destruct (IH p1 h2 Hok1 E2) as (Hok2&Hr&Hmem). split_and!; [done|by eapply rtc_l; [exists c'|]|].
    rewrite Hmem. destruct c as [c|n o]; cbn [pstep] in E1.
    + destruct (own c); [|done]. destruct (mstep c (machine_of p)); [|done]. cbn in E1. by injection E1 as <-.
    + unfold member_op in E1. cbn [member_ops omap list_omap]. cbn [fed_run].
      destruct (fed_step MetaNamespaceKeyFunc clientFactory o (members p)) as [F calls].
      destruct (perform _ _ _); [|done]. cbn in E1. injection E1 as <-. cbn [members]. unfold member_ops.
      by destruct (fed_run MetaNamespaceKeyFunc clientFactory _ F).
Qed.

(** A pending request is handled in the run, when it is due, or something that serves it is
    still pending. *)
Lemma prun_pending cs p hs p' r : program_ok p → prun cs p = Some (hs, p') → pending (machine_of p) r →
  (∃ r' t, (r', t) ∈ hs ∧ request_serves r' r ∧ (request_time r' ≤ t)%Z) ∨ ∃ r', pending (machine_of p') r' ∧ request_serves r' r.
Proof.
  revert p hs r. induction cs as [|c cs IH]; intros p hs r Hok; cbn [prun].
  - intros [= <- <-] Hr. right. exists r. split; [done|apply request_serves_refl].
  - destruct (pstep c p) as [p1|] eqn:E1; [|done]. cbn [mbind option_bind]. destruct (prun cs p1) as [[h2 p2]|] eqn:E2; [|done].
    cbn [mbind option_bind]. intros [= <- <-] Hr. destruct (pstep_ok c p p1 Hok E1) as (Hok1&c'&Hc'&->).
    destruct (mstep_ok c' _ _ (ok_machine _ Hok) Hc') as [_ _ _ Hpend Hdue].
    destruct (Hpend r Hr) as [(r1&Hr1&Hs1)|(r1&t&Hh&Hs1)].
    + destruct (IH p1 h2 r1 Hok1 E2 Hr1) as [(r'&t&Hin&Hs&Ht)|(r'&Hp&Hs)]; [left|right].
      * exists r', t. split_and!; [apply elem_of_app; by right|by eapply request_serves_trans|done].
      * exists r'. split; [done|by eapply request_serves_trans].
    + left. exists r1, t. split_and!; [|done|by apply Hdue]. apply elem_of_app. left. rewrite Hh. apply list_elem_of_here.
Qed.

(** ** Changes of member ingresses *)

(** Code that does nothing to the clusters but read their clock. *)
Definition reads_clock (ic ic' : IngressController W) : Prop := ∃ ts, readings (apis ic) ts (apis ic').
#[local] Instance reads_clock_preorder : PreOrder reads_clock.
Proof.
  split; [by exists []; constructor|]. intros a b c [ts H1] [ts' H2]. exists (ts ++ ts'). by eapply readings_app.
Qed.
Lemma clock_reads_clock : follows reads_clock (call Now).
Proof. intros ic t ic' (w&E&->)%call_inv. exists [t]. cbn. by econstructor; [|constructor]. Qed.
Ltac clock := repeat
  lazymatch goal with
  | |- follows _ (call Now ≫= _) => apply follows_bind; [apply _|exact clock_reads_clock|intros ?]
  | |- follows _ (_ ≫= _) => apply follows_bind; [apply _| |intros ?]
  | |- follows _ (modify _) => apply follows_modify; intros ?; by exists []; constructor
  | |- follows _ (mret _) => apply follows_ret, _
  end.

Lemma deliverIngress_reads ing delay : follows reads_clock (deliverIngress ing delay false).
Proof. unfold deliverIngress, ingress_DeliverAfter. clock. Qed.
Lemma member_call_reads c : follows reads_clock (member_call c).
Proof.
  destruct c as [x|[x|x]|x note]; cbn [member_call ingress_lifecycle]; [by apply follows_ret, _| | |].
  1-2: unfold cluster_DeliverAfter; clock.
  destruct (watch_event_of note) as [e|]; [|by apply follows_ret, _]. intros ic [] ic' E%trigger_run.
  destruct (changed_object value_equal e) as [obj|]; [by eapply deliverIngress_reads|by subst].
Qed.

Lemma deliverIngress_sends ing delay (ic ic' : IngressController W) : deliverIngress ing delay false ic = (Val tt, ic') →
  ∃ t, Now (apis ic) = (Val t, apis ic') ∧ ingressDeliverer ic' = ingressDeliverer ic ++ [mkItem (nn_string ing) ing (t + delay)%Z].
Proof.
  unfold deliverIngress, ingress_DeliverAfter. intros (d&ic1&E1&(t&ic2&E2&E3)%bind_val_inv)%bind_val_inv.
  apply bind_val_inv in E1 as ([]&ic0&E0&E1). cbv [modify] in E0. injection E0 as <-. cbv [mret M_ret] in E1. injection E1 as -> <-.
  apply call_inv in E2 as (w&En&->). cbv [modify] in E3. injection E3 as <-. by exists t.
Qed.

(** The request for a review of an ingress at a time. *)
Definition review_request (ing : Ingress) (t : Z) : request :=
  RIngress (mkItem (ingress_key ing) (nn_of_meta (ing_meta ing)) t).

Lemma told_sends calls m note e ing (ic ic' : IngressController W) :
  for_each calls member_call ic = (Val tt, ic') → Told m note ∈ calls → watch_event_of note = Some e →
  changed_object value_equal e = Some ing →
  ∃ ts t, readings (apis ic) ts (apis ic') ∧ t ∈ ts ∧ review_request ing (t + 10 * Second) ∈ sends ic ic'.
Proof.
  intros Er (l1&l2&->)%list_elem_of_split En He. apply for_each_app in Er as (ic1&E1&E2).
  cbn [for_each member_call] in E2. rewrite En in E2. apply bind_val_inv in E2 as ([]&ic2&E2&E3).
  apply trigger_run in E2. rewrite He in E2. apply deliverIngress_sends in E2 as (t&Enow&Et).
  destruct (follows_for_each reads_clock l1 member_call (λ c _, member_call_reads c) _ _ _ E1) as [ts1 H1].
  destruct (follows_for_each reads_clock l2 member_call (λ c _, member_call_reads c) _ _ _ E3) as [ts3 H3].
  exists (ts1 ++ t :: ts3), t. split; [by eapply readings_app, readings_cons|]. split; [set_solver|].
  apply (follows_for_each stays) in E1 as [[[a Ha] _ _] _ _]; [|intros c _; apply member_call_stays].
  apply (follows_for_each stays) in E3 as [[[b Hb] _ _] _ _]; [|intros c _; apply member_call_stays].
  unfold sends. rewrite !elem_of_app. right. left. apply list_elem_of_fmap. eexists. split; [reflexivity|].
  rewrite Hb, Et, Ha, <-!app_assoc, drop_app_length, !elem_of_app. right. left. apply list_elem_of_here.
Qed.

Lemma member_op_sends n o p p' m note e ing : program_ok p → pstep (Member n o) p = Some p' →
  Told m note ∈ (fed_step MetaNamespaceKeyFunc clientFactory o (members p)).2 → watch_event_of note = Some e →
  changed_object value_equal e = Some ing →
  ∃ ts t, readings (apis (controller (machine_of p))) ts (apis (controller (machine_of p'))) ∧ t ∈ ts ∧
    pending (machine_of p') (review_request ing (t + 10 * Second)).
Proof.
  intros Hok. cbn [pstep]. unfold member_op.
  destruct (fed_step MetaNamespaceKeyFunc clientFactory o (members p)) as [F calls].
  destruct (perform (Watcher n) (member_code (view F) calls) (machine_of p)) as [m'|] eqn:E; [|done].
  cbn [mbind option_bind snd]. intros [= <-] Hin En He. pose proof (λ r, perform_pending _ _ _ _ r E) as Hp.
  destruct (perform_spec _ _ _ _ E) as (_&ic&Er&Em). apply bind_val_inv in Er as ([]&ic1&Emod&Er).
  cbv [modify] in Emod. injection Emod as <-. destruct (told_sends calls m note e ing _ ic Er Hin En He) as (ts&t&Hr&Hts&Ht).
  exists ts, t. cbn. rewrite Em. split; [exact Hr|]. split; [exact Hts|]. rewrite <-Em. apply Hp. left. unfold issued. by rewrite Em.
Qed.
End facts.

(** ** Properties *)

(** C8: the program is the machine of [Machine.v], which is the system of [Wiring.v]: whatever the
    reflectors of the clusters and of their ingresses read, at whatever pace the informers,
    the handlers, the goroutines and the channels go on, the machine goes through steps of
    its own, so that what was shown of it and of the system holds here; and the controller
    sees at any time exactly the stores of the informers. *)
Theorem program_refines_machine `{K : Kubernetes W, GoMapOrder, Schedule} (now : Z) (w : W) (cs : list (pchoice W))
    (hs : list (request * Z)) (p : program W) :
  prun cs (Start now w) = Some (hs, p) →
  rtc machine_step (Run now w) (machine_of p) ∧
  rtc sys_step (NewIngressController w) (controller (machine_of p)) ∧
  members p = (fed_run MetaNamespaceKeyFunc clientFactory (member_ops cs) NewFederation).1 ∧
  ingressFederatedInformer (controller (machine_of p)) = view (members p).
Proof.
  intros Hr. destruct (prun_ok cs _ hs p (Start_ok now w) Hr) as (Hok&Hm&Hmem).
  split_and!; [exact Hm| |exact Hmem|apply Hok].
  apply rtc_machine_run in Hm as [tr Htr]. by destruct (machine_run_ok _ _ _ (Run_ok now w) Htr).
Qed.

(** C10: no review acts on what was not read: at any time in the program, a review of an
    ingress does nothing but ask for it again, unless the clusters listed first have all
    been handled, there are informers for exactly the ready clusters, and each of them has
    been told of every ingress of its first list and goes on from there. *)
Theorem reviews_wait_for_lists `{K : Kubernetes W, GoMapOrder, Schedule} (now : Z) (w : W) (cs : list (pchoice W))
    (hs : list (request * Z)) (p : program W) (ingress : NamespacedName) :
  prun cs (Start now w) = Some (hs, p) →
  all_list_first MetaNamespaceKeyFunc clientFactory (member_ops cs) NewFederation →
  let '(F, calls) := fed_run MetaNamespaceKeyFunc clientFactory (member_ops cs) NewFederation in
  let ic := controller (machine_of p) in
  reconcileIngress ingress ic = deliverIngress ingress clusterAvailableDelay false ic ∨
  all_read MetaNamespaceKeyFunc (member_ops cs) F calls.
Proof.
  intros Hr Hl. destruct (prun_ok cs _ hs p (Start_ok now w) Hr) as (Hok&_&Hmem).
  pose proof (synced_all_read MetaNamespaceKeyFunc clientFactory (member_ops cs) Hl) as Hread. cbn [members Start] in Hmem.
  destruct (fed_run MetaNamespaceKeyFunc clientFactory (member_ops cs) NewFederation) as [F calls]. cbn [fst] in Hmem.
  cbv zeta. destruct (isSynced (controller (machine_of p))) eqn:Es.
  - right. apply Hread. apply andb_true_iff in Es as [Es _]. by rewrite (ok_same_view _ Hok), Hmem in Es.
  - left. unfold reconcileIngress. rewrite (bind_val get _ _ _ _ eq_refl). by rewrite Es.
Qed.

(** C9: no change in a cluster is overlooked: when the informer of a cluster tells its handler
    of an ingress that was added, changed or deleted, then the clock is read, and a review of
    that ingress is asked for at ten seconds from the time that it says; and in any
    continuation of the run, an item for that ingress with no later time is handed to the
    handler of ingresses when it is due, or is still on its way. *)
Theorem member_changes_reviewed `{K : Kubernetes W, GoMapOrder, Schedule} (now : Z) (w : W) (cs1 : list (pchoice W))
    (h1 : list (request * Z)) (p1 p2 : program W) (n : nat) (o : fed_op Ingress)
    (cluster : string) (note : notification Ingress) (e : watch_event Ingress) (ing : Ingress) :
  prun cs1 (Start now w) = Some (h1, p1) → pstep (Member n o) p1 = Some p2 →
  Told cluster note ∈ (fed_step MetaNamespaceKeyFunc clientFactory o (members p1)).2 →
  watch_event_of note = Some e → changed_object value_equal e = Some ing →
  ∃ ts t, readings (apis (controller (machine_of p1))) ts (apis (controller (machine_of p2))) ∧ t ∈ ts ∧
    let r := review_request ing (t + 10 * Second) in
    ∀ cs2 h2 p3, prun cs2 p2 = Some (h2, p3) →
      (∃ r' t', (r', t') ∈ h2 ∧ request_serves r' r ∧ (request_time r' ≤ t')%Z) ∨
      ∃ r', pending (machine_of p3) r' ∧ request_serves r' r.
Proof.
  intros H1 H2 Hin En He. destruct (prun_ok cs1 _ h1 p1 (Start_ok now w) H1) as (Hok1&_&_).
  destruct (member_op_sends n o p1 p2 cluster note e ing Hok1 H2 Hin En He) as (ts&t&Hr&Hts&Ht). exists ts, t.
  split; [exact Hr|]. split; [exact Hts|]. cbv zeta. intros cs2 h2 p3 H3.
  destruct (pstep_ok _ _ _ Hok1 H2) as [Hok2 _]. exact (prun_pending cs2 p2 h2 p3 _ Hok2 H3 Ht).
Qed.

Module ProgramExamples.
Import WiringExamples.

(** A cluster is listed, and then the ingresses in it; the request for a review goes to its
    deliverer, and is handled ten seconds later. *)
Definition joins : list (pchoice cloud) :=
  [Member 0 (ClusterOp (Relist [cluster "True"])); Member 0 (ClusterOp ProcessOne); Goes (Send (Watcher 0));
   Member 1 (TargetOp "a" (Relist [web]))].
Definition told_of_web : fed_op Ingress := TargetOp "a" ProcessOne.
Definition goes_on : list (pchoice cloud) :=
  Goes <$> [Send (Watcher 1); Tick Ingresses 0 TimeAfter; Tick Ingresses 0 UpdateChannel; Tick Ingresses 0 TimeAfter;
    Tick Ingresses ingressReviewDelay TimeAfter; Tick Ingresses ingressReviewDelay TimeAfter;
    Tick Ingresses ingressReviewDelay TimeAfter; Handle Ingresses].

Definition nowhere : list (Requests.request * Z) * program cloud := ([], Start 0 nothing).
Definition joined : list (Requests.request * Z) * program cloud := default nowhere (prun joins (Start 0 nothing)).
Definition changed : program cloud := default (Start 0 nothing) (pstep (Member 1 told_of_web) joined.2).
Definition reviewed : list (Requests.request * Z) * program cloud := default nowhere (prun goes_on changed).

Lemma runs {A} (d : A) (o : option A) : match o with Some _ => true | None => false end = true → o = Some (default d o).
Proof. by destruct o. Qed.
Lemma joins_run : prun joins (Start 0 nothing) = Some joined.
Proof. apply runs. vm_compute. reflexivity. Qed.
Lemma told_run : pstep (Member 1 told_of_web) joined.2 = Some changed.
Proof. apply runs. vm_compute. reflexivity. Qed.

Lemma program_refines_machine_witness :
  rtc machine_step (Run 0 nothing) (machine_of joined.2) ∧
  rtc sys_step (NewIngressController nothing) (controller (machine_of joined.2)) ∧
  members joined.2 = (fed_run MetaNamespaceKeyFunc clientFactory (member_ops joins) NewFederation).1 ∧
  ingressFederatedInformer (controller (machine_of joined.2)) = view (members joined.2).
Proof. apply (program_refines_machine 0 nothing joins joined.1 joined.2). rewrite joins_run. by destruct joined. Defined.

(** What is handled is the request that the change led to. *)
Example web_is_reviewed :
  reviewed.1 = [(review_request web (10 * Second), (10 * Second)%Z)].
Proof. vm_compute. reflexivity. Qed.

Lemma member_changes_reviewed_witness :
  ∃ ts t, readings (apis (controller (machine_of joined.2))) ts (apis (controller (machine_of changed))) ∧ t ∈ ts ∧
    let r := review_request web (t + 10 * Second) in
    ∀ cs2 h2 p3, prun cs2 changed = Some (h2, p3) →
      (∃ r' t', (r', t') ∈ h2 ∧ request_serves r' r ∧ (request_time r' ≤ t')%Z) ∨
      ∃ r', pending (machine_of p3) r' ∧ request_serves r' r.
Proof.
  apply (member_changes_reviewed 0 nothing joins joined.1 joined.2 changed 1 told_of_web "a" (OnAdd web) (Added web) web).
  - rewrite joins_run. by destruct joined.
  - exact told_run.
  - replace (fed_step MetaNamespaceKeyFunc clientFactory told_of_web (members joined.2)).2 with [Told "a" (OnAdd web)];
      [apply list_elem_of_here|vm_compute; reflexivity].
  - reflexivity.
  - reflexivity.
Defined.

(** With the config maps of the cluster read, too, the stores are synced, and a review does
    its work: here there is none, as the federation has no such ingress. *)
Definition syncs : list (pchoice cloud) :=
  joins ++ [Member 1 told_of_web;
    Goes (Observe 2 [ConfigMapInformer (WatchAdd (cluster "True")); ConfigMapInformer ClusterListSynced;
                     ConfigMapInformer (TargetSynced "a")])].
Definition synced : list (Requests.request * Z) * program cloud := default nowhere (prun syncs (Start 0 nothing)).
Lemma syncs_run : prun syncs (Start 0 nothing) = Some synced.
Proof. apply runs. vm_compute. reflexivity. Qed.
Example synced_reviews :
  isSynced (controller (machine_of synced.2)) = true ∧ isSynced (controller (machine_of joined.2)) = false ∧
  reconcileIngress (mkNsName "ns" "web") (controller (machine_of synced.2)) = (Val tt, controller (machine_of synced.2)).
Proof. split_and!; vm_compute; reflexivity. Qed.

Lemma syncs_list_first : all_list_first (Client := string) MetaNamespaceKeyFunc (clientFactory (W := cloud)) (member_ops syncs) NewFederation.
Proof.
  unfold syncs, joins, member_ops, told_of_web. cbn [app omap list_omap all_list_first lists_first].
  split_and!; try exact I.
  - intros _. left. eexists. reflexivity.
  - intros E. vm_compute in E. discriminate E.
  - intros t _ _. left. eexists. reflexivity.
  - intros t _ _. right. left. reflexivity.
Qed.

Lemma reviews_wait_for_lists_witness :
  let '(F, calls) := fed_run MetaNamespaceKeyFunc clientFactory (member_ops syncs) NewFederation in
  let ic := controller (machine_of synced.2) in
  reconcileIngress (mkNsName "ns" "web") ic = deliverIngress (mkNsName "ns" "web") clusterAvailableDelay false ic ∨
  all_read MetaNamespaceKeyFunc (member_ops syncs) F calls.
Proof.
  apply (reviews_wait_for_lists 0 nothing syncs synced.1 synced.2).
  - rewrite syncs_run. by destruct synced.
  - exact syncs_list_first.
Defined.
End ProgramExamples.
