(* ===== verification/DyndnsFacts.v ===== *)
(** The DynDNS provider at work: what its record sets promise ([Dyndns.v]), and what a
    change set and [EnsureDNSRrsets] do to the in-memory API of the tests
    ([DynDNSAPIStub] in [DynStubs.v]).  The theorems about [EnsureDNSRrsets] compose
    the two components through the provider interface of [DnsProvider.v]. *)

From S2P Require Import Prelude GoStrings DnsProvider Dyndns DynStubs DnsUtil.
From Stdlib Require Import Ascii.

(** ** Names *)

(** The name of [n] relative to the zone. *)
Definition rel (zone : Zone) (n : string) : string := rName (newRecord zone n [] 0 "").

(** Neither dotted at the end nor already below the zone. *)
Definition relative (zone : Zone) (n : string) : Prop :=
  HasSuffix n "." = false ∧ HasSuffix n ("." +:+ domain zone) = false.

Lemma newRecord_eq zone n datas ttl ty :
  newRecord zone n datas ttl ty =
  mkRecord "" (domain zone) (rel zone n) (Join datas ",") ty (rel zone n +:+ "." +:+ domain zone)
    (FormatInt ttl).
Proof.
  unfold rel, newRecord, populateRecordWithName. cbn [rZone ID rName Value rType FQDN TTL].
  destruct (HasSuffix (TrimSuffix n ".") _) eqn:E; cbn [rZone ID rName Value rType FQDN TTL]; [|done].
  apply HasSuffix_spec in E as [p ->]. by rewrite TrimSuffix_app.
Qed.

Lemma rel_relative zone n : relative zone n → rel zone n = n.
Proof.
  intros [Hd Hz]. unfold rel, newRecord, populateRecordWithName.
  cbn [rZone ID rName Value rType FQDN TTL]. rewrite (TrimSuffix_id n ".") by done. by rewrite Hz.
Qed.

Lemma HasSuffix_app_dot p : HasSuffix (p +:+ ".") "." = true.
Proof. apply HasSuffix_spec. eauto. Qed.

Lemma rel_dot zone n : HasSuffix n "." = false → rel zone (n +:+ ".") = rel zone n.
Proof.
  intros H. unfold rel, newRecord, populateRecordWithName.
  by rewrite TrimSuffix_app, (TrimSuffix_id n ".").
Qed.

Lemma rel_fqdn zone n :
  HasSuffix (n +:+ "." +:+ domain zone) "." = false → rel zone (n +:+ "." +:+ domain zone) = n.
Proof.
  intros H. unfold rel, newRecord, populateRecordWithName. cbn [rZone ID rName Value rType FQDN TTL].
  rewrite (TrimSuffix_id _ ".") by done. cbn [rZone ID rName Value rType FQDN TTL].
  assert (HasSuffix (n +:+ "." +:+ domain zone) ("." +:+ domain zone) = true) as ->
    by (apply HasSuffix_spec; eauto).
  cbn [rName]. apply TrimSuffix_app.
Qed.

(** ** Data *)

Definition ttl_ok (ttl : Z) : Prop := (0 ≤ ttl ≤ int64_max)%Z.

Lemma record_Ttl_newRecord zone n datas ttl ty :
  ttl_ok ttl → record_Ttl (newRecord zone n datas ttl ty) = ttl.
Proof.
  intros Ht. unfold record_Ttl. rewrite newRecord_eq. cbn [TTL].
  rewrite ParseInt_FormatInt by (unfold ttl_ok, int64_min, int64_max in *; lia).
  rewrite bool_decide_eq_false_2; [done|]. unfold ttl_ok in Ht. lia.
Qed.

Lemma minDNSTTL_ok : ttl_ok minDNSTTL.
Proof. by vm_compute. Qed.
#[local] Hint Resolve minDNSTTL_ok : core.

Definition data_ok (data : string) : Prop := free_of comma data = true.

Lemma record_Rrdatas_newRecord zone n datas ttl ty :
  datas ≠ [] → Forall data_ok datas → record_Rrdatas (newRecord zone n datas ttl ty) = datas.
Proof. intros Hne Hf. unfold record_Rrdatas. rewrite newRecord_eq. by apply Split_Join. Qed.

(** A stored record: one the provider makes for one datum. *)
Definition wf_record (zone : Zone) (r : Record_) : Prop :=
  ∃ data ttl ty, r = newRecord zone (rName r) [data] ttl ty ∧ data_ok data ∧ ttl_ok ttl.

Lemma newRecord_rel zone n datas ttl ty :
  relative zone (rel zone n) → newRecord zone (rel zone n) datas ttl ty = newRecord zone n datas ttl ty.
Proof. intros H. rewrite !newRecord_eq. by rewrite rel_relative. Qed.

Lemma rName_newRecord zone n datas ttl ty : rName (newRecord zone n datas ttl ty) = rel zone n.
Proof. by rewrite newRecord_eq. Qed.

Lemma wf_newRecord zone n data ttl ty :
  relative zone (rel zone n) → data_ok data → ttl_ok ttl → wf_record zone (newRecord zone n [data] ttl ty).
Proof.
  intros Hn Hd Ht. exists data, ttl, ty. split; [|done]. by rewrite rName_newRecord, newRecord_rel.
Qed.

Lemma records_of_wf zone r : wf_record zone r → GetRecordsFromDNSRRS zone (RRVal r) = [r].
Proof.
  intros (data&ttl&ty&Hr&Hd&Ht). unfold GetRecordsFromDNSRRS. cbn [rr_Name rr_Rrdatas rr_Ttl rr_Type dyn_rrset].
  assert (record_Rrdatas r = [data]) as ->
    by (rewrite Hr; apply record_Rrdatas_newRecord; [done|by constructor]).
  assert (record_Ttl r = ttl) as -> by (rewrite Hr; by apply record_Ttl_newRecord).
  assert (rType r = ty) as -> by (rewrite Hr, newRecord_eq; done).
  rewrite <-Hr. assert (Split comma (Value r) = [data]) as ->; [|done].
  rewrite Hr, newRecord_eq. by apply Split_free.
Qed.

Lemma records_of_New zone n datas ttl ty :
  datas ≠ [] → Forall data_ok datas → ttl_ok ttl → relative zone (rel zone n) →
  GetRecordsFromDNSRRS zone (Rrsets_New zone n datas ttl ty) =
  (λ x, newRecord zone n [x] ttl ty) <$> datas.
Proof.
  intros Hne Hf Ht Hn. unfold GetRecordsFromDNSRRS, Rrsets_New.
  cbn [rr_Name rr_Rrdatas rr_Ttl rr_Type dyn_rrset].
  fold (record_Rrdatas (newRecord zone n datas ttl ty)).
  rewrite record_Rrdatas_newRecord by done. case_bool_decide as Hl.
  - destruct datas as [|x [|y l]]; done.
  - apply list_fmap_ext. intros i x _.
    rewrite record_Ttl_newRecord, rName_newRecord by done. rewrite newRecord_rel by done.
    by rewrite !newRecord_eq.
Qed.

(** The names of DynDNS records have one normal form: a name relative to the zone,
    the absolute name and the absolute name with a trailing dot all make the same record,
    whose [Name] is relative and whose [FQDN] is absolute. *)
Theorem newRecord_canonical (zone : Zone) (n : string) (datas : list string) (ttl : Z) (ty : string) :
  relative zone n → HasSuffix (n +:+ "." +:+ domain zone) "." = false →
  let r := newRecord zone n datas ttl ty in
  rName r = n ∧ FQDN r = n +:+ "." +:+ domain zone ∧
  newRecord zone (FQDN r) datas ttl ty = r ∧ newRecord zone (FQDN r +:+ ".") datas ttl ty = r.
Proof.
  intros Hn Hd r. unfold r. rewrite !newRecord_eq. cbn [rName FQDN].
  rewrite !(rel_relative zone n) by done.
  rewrite rel_dot, rel_fqdn by done. done.
Qed.

(** A record set keeps what it was made from: the data, the TTL and the type of
    [New] are read back by [Rrdatas], [Ttl] and [Type], and for the record API it is
    split into exactly one record per datum, each with the same name, type and TTL. *)
Theorem Rrsets_New_roundtrip (zone : Zone) (n : string) (datas : list string) (ttl : Z) (ty : string) :
  datas ≠ [] → Forall data_ok datas → ttl_ok ttl → relative zone (rel zone n) →
  let rrs := Rrsets_New zone n datas ttl ty in
  rr_Rrdatas rrs = datas ∧ rr_Ttl rrs = ttl ∧ rr_Type rrs = ty ∧
  Value <$> GetRecordsFromDNSRRS zone rrs = datas ∧
  Forall (λ r, rName r = rr_Name rrs ∧ rType r = ty ∧ record_Ttl r = ttl ∧ rZone r = domain zone)
    (GetRecordsFromDNSRRS zone rrs).
Proof.
  intros Hne Hf Ht Hn rrs. split; [by apply record_Rrdatas_newRecord|].
  split; [by apply record_Ttl_newRecord|]. split; [by unfold rrs, Rrsets_New; rewrite newRecord_eq|].
  unfold rrs. rewrite records_of_New by done. split.
  - rewrite <-list_fmap_compose. rewrite <-(list_fmap_id datas) at 2.
    apply list_fmap_ext. intros i x _. unfold compose. by rewrite newRecord_eq.
  - apply Forall_fmap, Forall_true. intros x. unfold compose.
    split; [by rewrite !newRecord_eq|]. split; [by rewrite newRecord_eq|].
    split; [by apply record_Ttl_newRecord|by rewrite newRecord_eq].
Qed.

(** ** Change sets on the in-memory API *)

#[local] Existing Instance DynDNSAPIStub.api.

Lemma app_inj_l_string s t u : s +:+ t = s +:+ u → t = u.
Proof. induction s as [|c s IH]; [done|]. rewrite !cons_app_string. intros [= H]. by apply IH. Qed.

Lemma hashKey_inj_data zone n ttl ty d1 d2 :
  hashKey (newRecord zone n [d1] ttl ty) = hashKey (newRecord zone n [d2] ttl ty) → d1 = d2.
Proof.
  rewrite !newRecord_eq. unfold hashKey. cbn [rName TTL rType Value Join]. intros E.
  do 6 apply app_inj_l_string in E. exact E.
Qed.

#[local] Instance hashKey_data_inj zone n ttl ty :
  Inj (=) (=) (λ x, hashKey (newRecord zone n [x] ttl ty)).
Proof. intros x y. apply hashKey_inj_data. Qed.

(** The change set that [EnsureDNSRrsets] builds. *)
Lemma cs_replace_changes {St} `{DynDNSAPI St} (zone : Zone) (old new : list ResourceRecordSet) :
  cs_replace (St := St) zone old new =
  mkChangeset zone ((mkChange DELETION <$> old) ++ (mkChange ADDITION <$> new)).
Proof.
  unfold cs_replace. cbn [cs_Add cs_Remove rrs_StartChangeset dyn_rrsets].
  assert (∀ l c, foldl Changeset_Remove c l = mkChangeset (cs_zone c) (changeset c ++ (mkChange DELETION <$> l)))
    as Hrm.
  { induction l as [|r l IH]; intros [z c]; cbn [foldl]; [by rewrite app_nil_r|].
    rewrite IH, fmap_cons. cbn. by rewrite <-app_assoc. }
  assert (∀ l c, foldl Changeset_Add c l = mkChangeset (cs_zone c) (changeset c ++ (mkChange ADDITION <$> l)))
    as Hadd.
  { induction l as [|r l IH]; intros [z c]; cbn [foldl]; [by rewrite app_nil_r|].
    rewrite IH, fmap_cons. cbn. by rewrite <-app_assoc. }
  rewrite Hrm, Hadd. done.
Qed.

Section stub.
Context `{RangeOrder} (zone : Zone).
Implicit Types s : gmap string Record_.

(** Every record is one of the zone's and stored under its hash key. *)
Definition stub_wf s : Prop :=
  map_Forall (λ k r, k = hashKey r ∧ wf_record zone r) s.

(** The records with a name. *)
Definition held s (n : string) : list Record_ := filter (λ r, rName r = rel zone n) (range_records s).*2.

Lemma elem_of_held s n r :
  stub_wf s → r ∈ held s n ↔ s !! hashKey r = Some r ∧ rName r = rel zone n.
Proof.
  intros Hs. unfold held. rewrite list_elem_of_filter, list_elem_of_fmap.
  setoid_rewrite range_records_perm. split.
  - intros (Hn&[k r']&->&Hm%elem_of_map_to_list). cbn [snd] in *.
    by destruct (Hs _ _ Hm) as [<- _].
  - intros [Hm Hn]. split; [done|]. exists (hashKey r, r). by rewrite elem_of_map_to_list.
Qed.

Lemma held_NoDup s n : stub_wf s → NoDup (hashKey <$> held s n).
Proof.
  intros Hs. unfold held. assert (NoDup (hashKey <$> (range_records s).*2)) as Hnd.
  { rewrite range_records_perm.
    assert (hashKey <$> (map_to_list s).*2 = (map_to_list s).*1) as ->; [|apply NoDup_fst_map_to_list].
    rewrite <-list_fmap_compose. apply list_fmap_ext. intros i [k r] Hi. cbn.
    apply list_elem_of_lookup_2, elem_of_map_to_list in Hi. by destruct (Hs _ _ Hi) as [<- _]. }
  revert Hnd. generalize ((range_records s).*2). intros l. induction l as [|r l IH]; intros Hnd; [done|].
  rewrite fmap_cons in Hnd. apply NoDup_cons in Hnd as [Hr Hnd].
  destruct (decide (rName r = rel zone n)).
  - rewrite filter_cons_True by done. rewrite fmap_cons. apply NoDup_cons. split; [|by apply IH].
    intros (y&Hy&Hin)%list_elem_of_fmap. apply Hr. rewrite Hy. apply list_elem_of_fmap.
    exists y. split; [done|]. by apply list_elem_of_filter in Hin as [_ ?].
  - rewrite filter_cons_False by done. by apply IH.
Qed.

Lemma Rrsets_Get_stub s n : Rrsets_Get zone n s = (Val (Ok (RRVal <$> held s n)), s).
Proof.
  unfold Rrsets_Get. go_unfold. cbn [Dyndns.GetRecordByName DynDNSAPIStub.api].
  unfold DynDNSAPIStub.GetRecordByName. unfold held.
  assert (rName (populateRecordWithName n (mkRecord "" (domain zone) "" "" "" "" "")) = rel zone n) as ->;
    [|done].
  done.
Qed.

(** Deleting stored records. *)
Lemma delete_all s recs :
  NoDup (hashKey <$> recs) → Forall (λ r, is_Some (s !! hashKey r)) recs →
  for_range recs tt delete_record s = (Val (inl tt), foldr (λ r, delete (hashKey r)) s recs).
Proof.
  revert s. induction recs as [|r recs IH]; intros s Hnd Hf; [done|].
  rewrite fmap_cons in Hnd. apply NoDup_cons in Hnd as [Hr Hnd].
  apply Forall_cons in Hf as [[r' Hr'] Hf]. cbn [for_range].
  rewrite (bind_val _ _ _ (inl tt) (delete (hashKey r) s)).
  2:{ unfold delete_record. go_unfold. cbn. unfold DynDNSAPIStub.DeleteRecord. by rewrite Hr'. }
  cbn beta iota. rewrite IH; [|done|].
  - f_equal. clear. cbn [foldr]. induction recs as [|x recs IH]; cbn [foldr]; [done|].
    rewrite IH. by rewrite delete_delete.
  - rewrite Forall_forall in Hf |- *. intros x Hx. rewrite lookup_delete_ne; [by apply Hf|].
    intros E. apply Hr. rewrite E. apply list_elem_of_fmap. eauto.
Qed.

(** Creating records that are not there. *)
Lemma create_all s recs :
  NoDup (hashKey <$> recs) → Forall (λ r, s !! hashKey r = None) recs →
  for_range recs tt add_record s =
  (Val (inl tt), foldl (λ m r, <[hashKey r := r]> m) s recs).
Proof.
  revert s. induction recs as [|r recs IH]; intros s Hnd Hf; [done|].
  rewrite fmap_cons in Hnd. apply NoDup_cons in Hnd as [Hr Hnd].
  apply Forall_cons in Hf as [Hr' Hf]. cbn [for_range foldl].
  rewrite (bind_val _ _ _ (inl tt) (<[hashKey r:=r]> s)).
  2:{ unfold add_record. go_unfold. cbn. unfold DynDNSAPIStub.CreateRecord. by rewrite Hr'. }
  cbn beta iota. rewrite IH; [done|done|].
  rewrite Forall_forall in Hf |- *. intros x Hx. rewrite lookup_insert_ne; [by apply Hf|].
  intros E. apply Hr. rewrite E. apply list_elem_of_fmap. eauto.
Qed.

Lemma lookup_deletes s recs k :
  foldr (λ r, delete (hashKey r)) s recs !! k =
  if decide (k ∈ hashKey <$> recs) then None else s !! k.
Proof.
  induction recs as [|r recs IH]; cbn [foldr]; [done|]. rewrite fmap_cons.
  destruct (decide (hashKey r = k)) as [->|Hk].
  - rewrite lookup_delete_eq. rewrite decide_True; [done|]. apply list_elem_of_here.
  - rewrite lookup_delete_ne by done. rewrite IH.
    destruct (decide (k ∈ hashKey <$> recs)); [rewrite decide_True|rewrite decide_False]; set_solver.
Qed.

Lemma lookup_creates s recs k r :
  NoDup (hashKey <$> recs) → Forall (λ r, s !! hashKey r = None) recs →
  foldl (λ m r, <[hashKey r := r]> m) s recs !! k = Some r ↔
  s !! k = Some r ∨ (r ∈ recs ∧ k = hashKey r).
Proof.
  revert s. induction recs as [|x recs IH]; intros s Hnd Hf; cbn [foldl]; [set_solver|].
  rewrite fmap_cons in Hnd. apply NoDup_cons in Hnd as [Hx Hnd].
  apply Forall_cons in Hf as [Hx' Hf]. rewrite IH; [|done|].
  - rewrite elem_of_cons. destruct (decide (hashKey x = k)) as [<-|Hk].
    + rewrite lookup_insert_eq. rewrite Hx'. split.
      * intros [[= ->]|[? ?]]; auto.
      * intros [?|[[->|Hr] E]]; [done|auto|auto].
    + rewrite lookup_insert_ne by done. naive_solver.
  - rewrite Forall_forall in Hf |- *. intros y Hy. rewrite lookup_insert_ne; [by apply Hf|].
    intros E. apply Hx. rewrite E. apply list_elem_of_fmap. eauto.
Qed.

Lemma apply_removes s recs :
  Forall (wf_record zone) recs → NoDup (hashKey <$> recs) → Forall (λ r, is_Some (s !! hashKey r)) recs →
  for_range (mkChange DELETION <$> (RRVal <$> recs)) tt (apply_change zone) s =
  (Val (inl tt), foldr (λ r, delete (hashKey r)) s recs).
Proof.
  intros Hwf Hnd Hin. rewrite <-delete_all by done. clear Hnd Hin. revert s.
  induction Hwf as [|r recs Hr Hwf IH]; intros s; [done|]. rewrite !fmap_cons.
  cbn [for_range]. cbv [mbind M_bind].
  assert (∀ m, apply_change zone tt (mkChange DELETION (RRVal r)) m = delete_record tt r m) as ->.
  { intros m. unfold apply_change. cbn [cstype cs_rrset]. rewrite records_of_wf by done.
    cbn [for_range]. cbv [mbind M_bind mret M_ret]. by destruct (delete_record tt r m) as [[[[]|]|] ?]. }
  destruct (delete_record tt r s) as [[[[]|e]|e] s1]; [apply IH|done|done].
Qed.

(** What the set that is added is made of. *)
Definition new_sets (n : string) (datas : list string) (ttl : Z) (ty : string) : list ResourceRecordSet :=
  if bool_decide (datas = []) then [] else [Rrsets_New zone n datas ttl ty].

Lemma held_gone s n k r :
  stub_wf s → foldr (λ r, delete (hashKey r)) s (held s n) !! k = Some r ↔
  s !! k = Some r ∧ rName r ≠ rel zone n.
Proof.
  intros Hs. rewrite lookup_deletes. case_decide as Hk.
  - split; [done|]. intros [Hr Hn]. destruct (Hs _ _ Hr) as [-> _].
    apply list_elem_of_fmap in Hk as (r'&E&Hr'). apply elem_of_held in Hr' as [Hm Hn']; [|done].
    rewrite <-E in Hm. simplify_eq.
  - split; [|by intros [? _]]. intros Hr. split; [done|]. intros Hn. apply Hk.
    destruct (Hs _ _ Hr) as [-> _]. apply list_elem_of_fmap. exists r.
    split; [done|]. by apply elem_of_held.
Qed.

(** The hash keys of the new records clash with no record of another name (the key
    joins its parts with dashes, which a part may contain too). *)
Definition keys_free s (n : string) (datas : list string) (ttl : Z) (ty : string) : Prop :=
  Forall (λ x, ∀ r, s !! hashKey (newRecord zone n [x] ttl ty) = Some r → rName r = rel zone n) datas.

Lemma apply_news s n datas ttl ty :
  datas ≠ [] → Forall data_ok datas → ttl_ok ttl → relative zone (rel zone n) →
  for_range (mkChange ADDITION <$> new_sets n datas ttl ty) tt (apply_change zone) s =
  for_range ((λ x, newRecord zone n [x] ttl ty) <$> datas) tt add_record s.
Proof.
  intros Hne Hf Ht Hn. unfold new_sets. rewrite bool_decide_eq_false_2 by done.
  rewrite fmap_cons. cbn [for_range fmap list_fmap]. unfold apply_change. cbn [cstype cs_rrset].
  rewrite records_of_New by done. cbv [mbind M_bind mret M_ret].
  by destruct (for_range _ _ _ s) as [[[[]|]|] ?].
Qed.

Lemma Apply_changes changes s s' :
  changes ≠ [] → for_range changes tt (apply_change zone) s = (Val (inl tt), s') →
  Apply (mkChangeset zone changes) s = (Val None, s').
Proof.
  intros Hne E. unfold Apply, IsEmpty. cbn [changeset cs_zone].
  rewrite bool_decide_eq_false_2 by (by destruct changes).
  by rewrite (bind_val _ _ _ _ _ E).
Qed.

(** A stub that holds, under one name, the records of [news] and is otherwise as before. *)
Definition replaced s s' (n : string) (news : list Record_) : Prop :=
  stub_wf s' ∧ held s' n ≡ₚ news ∧ ∀ k r, rName r ≠ rel zone n → s' !! k = Some r ↔ s !! k = Some r.

Lemma replaced_intro s s1 s2 n news :
  stub_wf s → Forall (wf_record zone) news → NoDup (hashKey <$> news) →
  Forall (λ r, rName r = rel zone n) news →
  (∀ k r, s1 !! k = Some r ↔ s !! k = Some r ∧ rName r ≠ rel zone n) →
  (∀ k r, s2 !! k = Some r ↔ s1 !! k = Some r ∨ (r ∈ news ∧ k = hashKey r)) →
  replaced s s2 n news.
Proof.
  intros Hs Hwf Hnd Hn H1 H2. rewrite !Forall_forall in *.
  assert (stub_wf s2) as Hs2.
  { intros k r. rewrite H2, H1. intros [[Hr _]|[Hr ->]]; [by apply Hs|auto]. }
  split_and!; [done| |].
  - apply NoDup_Permutation.
    + eapply NoDup_fmap_1, held_NoDup, Hs2.
    + by eapply NoDup_fmap_1.
    + intros r. rewrite elem_of_held, H2, H1 by done. split; [|by auto].
      intros [[[_ ?]|[? _]] ?]; done.
  - intros k r Hr. rewrite H2, H1. split; [|by auto]. intros [[? _]|[Hin _]]; [done|].
    by destruct (Hr (Hn _ Hin)).
Qed.

(** Replacing everything under a name by one set. *)
Lemma replace_held s n datas ttl ty :
  stub_wf s → NoDup datas → Forall data_ok datas → ttl_ok ttl → relative zone (rel zone n) →
  keys_free s n datas ttl ty →
  ∃ s', Apply (cs_replace zone (RRVal <$> held s n) (new_sets n datas ttl ty)) s = (Val None, s') ∧
    replaced s s' n ((λ x, newRecord zone n [x] ttl ty) <$> datas).
Proof.
  intros Hs Hnd Hf Ht Hn Hfree.
  set (news := (λ x, newRecord zone n [x] ttl ty) <$> datas).
  set (s1 := foldr (λ r, delete (hashKey r)) s (held s n)).
  set (s2 := foldl (λ m r, <[hashKey r := r]> m) s1 news).
  assert (∀ k r, s1 !! k = Some r ↔ s !! k = Some r ∧ rName r ≠ rel zone n) as H1
    by (intros; by apply held_gone).
  assert (NoDup (hashKey <$> news)) as Hnk.
  { unfold news. rewrite <-list_fmap_compose. by apply (NoDup_fmap_2 _). }
  assert (Forall (λ r, s1 !! hashKey r = None) news) as Hfresh.
  { apply Forall_fmap. eapply Forall_impl; [exact Hfree|]. intros x Hx. cbn.
    apply eq_None_not_Some. intros [r [Hr Hne]%H1]. by apply Hne, Hx. }
  assert (for_range ((mkChange DELETION <$> (RRVal <$> held s n)) ++
                     (mkChange ADDITION <$> new_sets n datas ttl ty)) tt (apply_change zone) s
          = (Val (inl tt), s2)) as Hrun.
  { rewrite for_range_app, apply_removes.
    - destruct (decide (datas = [])) as [->|Hne]; [done|].
      rewrite apply_news by done. by apply create_all.
    - rewrite Forall_forall. intros r [Hm _]%elem_of_held; [|done]. by destruct (Hs _ _ Hm).
    - by apply held_NoDup.
    - rewrite Forall_forall. intros r [Hm _]%elem_of_held; [|done]. by exists r. }
  exists s2. split.
  - rewrite cs_replace_changes.
    destruct (decide ((mkChange DELETION <$> (RRVal <$> held s n)) ++
                      (mkChange ADDITION <$> new_sets n datas ttl ty) = [])) as [E|Hne];
      [|by apply Apply_changes].
    rewrite E in Hrun |- *. cbn in Hrun. injection Hrun as <-. done.
  - apply (replaced_intro s s1); [done| |done| |done|intros; by apply lookup_creates].
    + apply Forall_fmap. eapply Forall_impl; [exact Hf|]. intros x Hx. by apply wf_newRecord.
    + apply Forall_fmap, Forall_true. intros x. apply rName_newRecord.
Qed.
End stub.

(** ** [EnsureDNSRrsets] over DynDNS *)

Section ensure.
Context `{RangeOrder} `{Resolver} (zone : Zone).
Implicit Types s : gmap string Record_.

(** A record set of DynDNS has one datum, so only a wanted set of one datum can be
    found among them. *)
Lemma equiv_single n datas ttl ty r :
  wf_record zone r → rName r = rel zone n → datas ≠ [] → Forall data_ok datas → ttl_ok ttl →
  relative zone (rel zone n) →
  rr_equiv (Rrsets_New zone n datas ttl ty) (RRVal r) ↔
  ∃ x, datas = [x] ∧ r = newRecord zone n [x] ttl ty.
Proof.
  intros (d&t'&ty'&Hr&Hd&Ht') Hn Hne Hf Ht Hrel.
  rewrite Hn, newRecord_rel in Hr by done. subst r. rewrite rr_equiv_spec. unfold Rrsets_New.
  cbn [rr_Name rr_Rrdatas rr_Ttl rr_Type dyn_rrset].
  rewrite !record_Rrdatas_newRecord, !record_Ttl_newRecord, !rName_newRecord by (done || by constructor).
  rewrite !(newRecord_eq zone n). cbn [rType]. split.
  - intros (_&->&->&->). exists d. split; [done|]. by rewrite newRecord_eq.
  - rewrite <-(newRecord_eq zone n). intros (x&->&E). rewrite !newRecord_eq in E.
    injection E as -> -> E. unfold FormatInt in E. by apply (inj pretty) in E as ->.
Qed.

Lemma find_dyn s n datas ttl ty :
  stub_wf zone s → datas ≠ [] → Forall data_ok datas → ttl_ok ttl → relative zone (rel zone n) →
  match findRrset (RRVal <$> held zone s n) (Rrsets_New zone n datas ttl ty) with
  | Some _ => ∃ x, datas = [x] ∧ newRecord zone n [x] ttl ty ∈ held zone s n
  | None => ∀ x, datas = [x] → newRecord zone n [x] ttl ty ∉ held zone s n
  end.
Proof.
  intros Hs Hne Hf Ht Hn.
  assert (∀ r, r ∈ held zone s n → wf_record zone r ∧ rName r = rel zone n) as Hheld.
  { intros r [Hm Hr]%elem_of_held; [|done]. by destruct (Hs _ _ Hm). }
  destruct (findRrset _ _) as [e|] eqn:E.
  - apply findRrset_Some in E as [(r&->&Hr)%list_elem_of_fmap He].
    destruct (Hheld r Hr) as [Hw Hrn]. apply equiv_single in He as (x&->&->); eauto.
  - intros x -> Hin. apply findRrset_None in E. rewrite Forall_forall in E.
    destruct (Hheld _ Hin) as [Hw Hrn]. apply (E (RRVal (newRecord zone n [x] ttl ty))).
    + apply list_elem_of_fmap. eauto.
    + apply equiv_single; eauto.
Qed.

Lemma reconcile_dyn s n datas ttl ty :
  stub_wf zone s → NoDup datas → datas ≠ [] → Forall data_ok datas → ttl_ok ttl →
  relative zone (rel zone n) → keys_free zone s n datas ttl ty →
  let r := Rrsets_New zone n datas ttl ty in
  ∃ s', reconcile_rrsets zone (RRVal <$> held zone s n) (r, [r]) s = (Val None, s') ∧
    ((s' = s ∧ ∃ x, datas = [x] ∧ newRecord zone n [x] ttl ty ∈ held zone s n) ∨
     replaced zone s s' n ((λ x, newRecord zone n [x] ttl ty) <$> datas)).
Proof.
  intros Hs Hnd Hne Hf Ht Hn Hk r. unfold reconcile_rrsets. cbn [fst snd].
  rewrite bool_decide_eq_false_2 by naive_solver.
  pose proof (find_dyn s n datas ttl ty Hs Hne Hf Ht Hn) as Hfind. fold r in Hfind.
  destruct (findRrset _ _) as [e|].
  - exists s. split; [done|]. by left.
  - destruct (replace_held zone s n datas ttl ty) as (s'&Hap&Hrep); [done..|].
    exists s'. split; [|by right]. unfold new_sets in Hap. by rewrite bool_decide_eq_false_2 in Hap.
Qed.

Lemma Ensure_stub s n endpoints up want :
  desired zone n endpoints up = Ok want →
  EnsureDNSRrsets zone n endpoints up s = reconcile_rrsets zone (RRVal <$> held zone s n) want s.
Proof.
  intros Hd. rewrite EnsureDNSRrsets_plan. cbn [rrs_supported rrs_Get dyn_rrsets].
  rewrite (bind_val _ _ _ _ _ (Rrsets_Get_stub zone s n)). cbn beta iota. by rewrite Hd.
Qed.
End ensure.

(** On the stub, with healthy endpoints: when the endpoints resolve,
    [EnsureDNSRrsets] succeeds on any well-formed zone, keeps it well-formed, leaves the
    other names alone, and ends with exactly one A record per address under the name;
    the one exception is a single address whose record is among those held, where
    nothing is changed, whatever else is held. *)
Theorem EnsureDNSRrsets_stub_addresses `{RangeOrder} `{Resolver} (zone : Zone)
    (s : gmap string Record_) (n : string) (endpoints addrs : list string) (up : string) :
  stub_wf zone s → relative zone (rel zone n) →
  endpoints ≠ [] → GetResolvedEndpoints endpoints = (addrs, None) → addrs ≠ [] →
  Forall data_ok addrs → keys_free zone s n addrs minDNSTTL RrsA →
  ∃ s', EnsureDNSRrsets zone n endpoints up s = (Val None, s') ∧
    ((s' = s ∧ ∃ a, addrs = [a] ∧ newRecord zone n [a] minDNSTTL RrsA ∈ held zone s n) ∨
     replaced zone s s' n ((λ a, newRecord zone n [a] minDNSTTL RrsA) <$> addrs)).
Proof.
  intros Hs Hn Hne Hr Ha Hf Hk.
  rewrite (Ensure_stub zone s n endpoints up (let r := Rrsets_New zone n addrs minDNSTTL RrsA in (r, [r]))).
  - apply reconcile_dyn; try done. by eapply resolve_loop_NoDup.
  - unfold desired. destruct endpoints; [done|]. by rewrite Hr.
Qed.

(** The stub, without healthy endpoints: the name ends with the CNAME one
    level up, or at the top level with no record at all; nothing is changed when that
    CNAME is among the records held. *)
Theorem EnsureDNSRrsets_stub_cname `{RangeOrder} `{Resolver} (zone : Zone)
    (s : gmap string Record_) (n up : string) :
  stub_wf zone s → relative zone (rel zone n) →
  data_ok up → keys_free zone s n [up] minDNSTTL RrsCNAME →
  ∃ s', EnsureDNSRrsets zone n [] up s = (Val None, s') ∧
    ((s' = s ∧ newRecord zone n [up] minDNSTTL RrsCNAME ∈ held zone s n) ∨
     replaced zone s s' n (if bool_decide (up = "") then [] else [newRecord zone n [up] minDNSTTL RrsCNAME])).
Proof.
  intros Hs Hn Hup Hk. erewrite Ensure_stub by reflexivity. case_bool_decide as Hu.
  - subst up. unfold reconcile_rrsets. cbn [fst snd].
    pose proof (find_dyn zone s n [""] minDNSTTL RrsCNAME Hs) as Hfind.
    destruct (replace_held zone s n [] minDNSTTL RrsCNAME) as (s'&Hap&Hrep); try done; [by constructor..|].
    case_bool_decide as Hnil.
    { exists s. split; [done|]. right. destruct Hnil as [Hh _]. apply fmap_nil_inv in Hh.
      split_and!; [done|by rewrite Hh|done]. }
    cbn [rrs_New dyn_rrsets]. destruct (findRrset _ _) as [e|].
    + exists s. split; [done|]. left. split; [done|].
      destruct Hfind as (x&[= <-]&Hin); [done|by constructor|done|done|done].
    + exists s'. split; [|by right]. exact Hap.
  - destruct (reconcile_dyn zone s n [up] minDNSTTL RrsCNAME) as (s'&Hr&Hcase); try done.
    + apply NoDup_singleton.
    + by constructor.
    + exists s'. split; [exact Hr|]. destruct Hcase as [[-> (x&[= <-]&Hx)]|?]; auto.
Qed.

(** ** What [Apply] asks of the API *)

(** A call that [Apply] makes, and the log of an API: the calls with whether they
    succeeded. *)
Inductive op := OpCreate (r : Record_) | OpGetID (r : Record_) | OpDelete | OpPublish (zone : string).
Abbreviation oplog := (list (op * bool)).

Section log.
Context {St : Type} `{DynDNSAPI St}.

(** Make a call of the API and note it. *)
Definition noted {A} (o : op) (ok : A → bool) (m : M St A) : M (St * oplog) A := λ '(s, log),
  match m s with
  | (Val a, s') => (Val a, (s', log ++ [(o, ok a)]))
  | (Panic e, s') => (Panic e, (s', log ++ [(o, false)]))
  end.

Definition unnoted {A} (m : M St A) : M (St * oplog) A := zoom fst (λ s st, (s, st.2)) m.

Definition no_error (e : option error) : bool := match e with None => true | Some _ => false end.

#[local] Instance logged : DynDNSAPI (St * oplog) := {|
  Login u p := unnoted (Login u p);
  CreateRecord r := noted (OpCreate r) no_error (CreateRecord r);
  DeleteRecord r := noted OpDelete no_error (DeleteRecord r);
  GetRecordByName r := unnoted (GetRecordByName r);
  GetRecordID r := noted (OpGetID r) (λ p, no_error p.2) (GetRecordID r);
  GetAllRecordList r := unnoted (GetAllRecordList r);
  PublishZone z := noted (OpPublish z) no_error (PublishZone z)
|}.

(** The calls a change set stands for, in order. *)
Definition change_ops (zone : Zone) (c : ChangeSet) : list op :=
  match cstype c with
  | ADDITION => OpCreate <$> GetRecordsFromDNSRRS zone (cs_rrset c)
  | UPSERT => []
  | DELETION => concat ((λ r, [OpGetID r; OpDelete]) <$> GetRecordsFromDNSRRS zone (cs_rrset c))
  end.
Definition planned (c : ResourceRecordChangeset) : list op :=
  if IsEmpty c then []
  else concat (change_ops (cs_zone c) <$> changeset c) ++ [OpPublish (domain (cs_zone c))].

(** The calls made are those of [plan] up to the first that fails; [failed] says
    whether one did. *)
Definition follows (plan : list op) (failed : bool) (log log' : oplog) : Prop :=
  if failed then ∃ n o, plan !! n = Some o ∧ log' = log ++ ((., true) <$> take n plan) ++ [(o, false)]
  else log' = log ++ ((., true) <$> plan).

Lemma follows_app_l p q log log' : follows p true log log' → follows (p ++ q) true log log'.
Proof.
  intros (n&o&Hn&->). exists n, o. split; [by apply lookup_app_l_Some|].
  rewrite take_app_le; [done|]. apply lookup_lt_Some in Hn. lia.
Qed.

Lemma follows_app_r p q b log log1 log' :
  follows p false log log1 → follows q b log1 log' → follows (p ++ q) b log log'.
Proof.
  unfold follows at 1. intros ->. destruct b; cbn [follows].
  - intros (n&o&Hn&->). exists (length p + n)%nat, o. split.
    + rewrite lookup_app_r by lia. by replace (length p + n - length p)%nat with n by lia.
    + rewrite take_app_add. rewrite fmap_app, <-!app_assoc. done.
  - unfold follows. intros ->. by rewrite fmap_app, <-app_assoc.
Qed.

(** A piece of code that makes the calls of [plan], and reports the failure. *)
Definition runs (m : M (St * oplog) (unit + error)) (plan : list op) : Prop :=
  ∀ s log r st', m (s, log) = (Val r, st') →
    follows plan (match r with inl _ => false | inr _ => true end) log st'.2.

Lemma runs_range {X} (l : list X) (body : unit → X → M (St * oplog) (unit + error)) (f : X → list op) :
  (∀ x, runs (body tt x) (f x)) → runs (for_range l tt body) (concat (f <$> l)).
Proof.
  intros Hb. induction l as [|x l IH]; intros s log r st' E.
  - ret_inv E. unfold follows. by rewrite fmap_nil, app_nil_r.
  - cbn [for_range] in E. apply bind_val_inv in E as (r1&[s1 log1]&E1&E2). apply Hb in E1.
    rewrite fmap_cons. cbn [concat]. destruct r1 as [[]|e].
    + eapply follows_app_r; [exact E1|]. by apply IH in E2.
    + ret_inv E2. by apply follows_app_l.
Qed.

Lemma noted_val {A} o ok (m : M St A) s log a st' :
  noted o ok m (s, log) = (Val a, st') → st'.2 = log ++ [(o, ok a)].
Proof. unfold noted. destruct (m s) as [[]]; intros; by simplify_eq/=. Qed.

Lemma runs_add r : runs (add_record tt r) [OpCreate r].
Proof.
  intros s log o st' (err&[s1 log1]&E1&E2)%bind_val_inv. apply noted_val in E1. cbn in E1. subst log1.
  destruct err; ret_inv E2; [by exists 0, (OpCreate r)|done].
Qed.

Lemma runs_delete r : runs (delete_record tt r) [OpGetID r; OpDelete].
Proof.
  intros s log o st' ([r' err]&[s1 log1]&E1&E2)%bind_val_inv. apply noted_val in E1. cbn in E1. subst log1.
  destruct err; cbn beta iota in E2; [ret_inv E2; by exists 0, (OpGetID r)|].
  apply bind_val_inv in E2 as (err&[s2 log2]&E2&E3). apply noted_val in E2. cbn in E2. subst log2.
  destruct err; ret_inv E3; cbn [follows snd]; rewrite <-!app_assoc; [by exists 1, OpDelete|done].
Qed.

Lemma runs_change zone c : runs (apply_change zone tt c) (change_ops zone c).
Proof.
  unfold apply_change, change_ops. destruct (cstype c).
  - assert (OpCreate <$> GetRecordsFromDNSRRS zone (cs_rrset c) =
      concat ((λ r, [OpCreate r]) <$> GetRecordsFromDNSRRS zone (cs_rrset c))) as ->.
    { generalize (GetRecordsFromDNSRRS zone (cs_rrset c)). intros l.
      induction l as [|r l IH]; [done|]. rewrite !fmap_cons. cbn [concat app]. by rewrite IH. }
    apply runs_range, runs_add.
  - apply runs_range, runs_delete.
  - intros s log r st' E. ret_inv E. unfold follows. by rewrite fmap_nil, app_nil_r.
Qed.

(** C38: a change set is applied in order and stops at the first failure: the API sees
    exactly the planned calls (every record of every change, then one publication of the
    zone), all of them when [Apply] returns no error, and otherwise a part of them of
    which only the last has failed.  In particular the zone is published only after every
    record was changed. *)
Theorem Apply_in_order (c : ResourceRecordChangeset) (s : St) (log : oplog) (r : option error)
    (st' : St * oplog) :
  Apply c (s, log) = (Val r, st') →
  follows (planned c) (negb (no_error r)) log st'.2.
Proof.
  unfold Apply, planned. destruct (IsEmpty c).
  { intros E. ret_inv E. unfold follows; cbn [negb no_error]. by rewrite fmap_nil, app_nil_r. }
  intros (o&[s1 log1]&E1&E2)%bind_val_inv. apply (runs_range _ _ _ (runs_change (cs_zone c))) in E1.
  destruct o as [u|e].
  - apply bind_val_inv in E2 as (err&[s2 log2]&E2&E3). apply noted_val in E2. cbn in E2. subst log2.
    eapply follows_app_r; [exact E1|].
    destruct err; ret_inv E3; [by exists 0, (OpPublish (domain (cs_zone c)))|done].
  - ret_inv E2. by apply follows_app_l.
Qed.
End log.

(** ** Starting the provider *)

Lemma make_zones_domains i names : domain <$> make_zones i names = names.
Proof. revert i. induction names as [|n ns IH]; intros i; [done|]. cbn. f_equal. apply IH. Qed.

Lemma make_zones_id i names k z :
  make_zones i names !! k = Some z → id z = FormatInt (i + Z.of_nat k).
Proof.
  revert i k. induction names as [|n ns IH]; intros i [|k]; cbn [make_zones]; try done.
  - intros [= <-]. cbn. f_equal. lia.
  - cbn. intros ->%IH. f_equal. lia.
Qed.

Lemma newProvider_ok {St} `{DynDNSAPI St} config (s s' : St) zones :
  newProvider config s = (Val (Ok zones), s') →
  ∃ cfg, config = Some (Ok cfg) ∧
    (DNSZones cfg ≠ "" ∧ Customer cfg ≠ "" ∧ User cfg ≠ "" ∧ Password cfg ≠ "") ∧
    Login (User cfg) (Password cfg) s = (Val None, s') ∧ zones = make_zones 0 (Split comma (DNSZones cfg)).
Proof.
  unfold newProvider, parseConfig. destruct config as [[cfg|e]|]; cbn beta iota; [|done|done].
  repeat case_bool_decide; try done.
  unfold newInterface. intros (err&s1&E1&E2)%bind_val_inv. cbv [mret M_ret] in E2. destruct err as [e|]; [done|].
  injection E2 as <- <-. by exists cfg.
Qed.

(** The provider starts exactly when the configuration can be read, names zones, a
    customer, a user and a password, and the API accepts the user and password; it then
    serves every zone of the comma-separated list, in that order, each with its position
    as its own ID. *)
Theorem newProvider_starts {St} `{DynDNSAPI St} (config : option (result Config)) (s : St)
    (r : result Zones) (s' : St) :
  newProvider config s = (Val r, s') →
  match r with
  | Ok zones => ∃ cfg, config = Some (Ok cfg) ∧
      (DNSZones cfg ≠ "" ∧ Customer cfg ≠ "" ∧ User cfg ≠ "" ∧ Password cfg ≠ "") ∧
      Login (User cfg) (Password cfg) s = (Val None, s') ∧
      Join (domain <$> zones) "," = DNSZones cfg ∧
      ∀ k z, zones !! k = Some z → id z = FormatInt (Z.of_nat k)
  | Err e => config = None ∨ config = Some (Err e) ∨ ∃ cfg, config = Some (Ok cfg) ∧
      (DNSZones cfg = "" ∨ Customer cfg = "" ∨ User cfg = "" ∨ Password cfg = "" ∨
       Login (User cfg) (Password cfg) s = (Val (Some e), s'))
  end.
Proof.
  destruct r as [zones|e].
  { intros (cfg&->&Hne&Hlogin&->)%newProvider_ok. exists cfg. split_and!; try apply Hne; try done.
    - rewrite make_zones_domains. apply Join_Split.
    - intros k z Hz. by apply make_zones_id in Hz. }
  unfold newProvider, parseConfig. destruct config as [[cfg|e']|]; cbn beta iota.
  - repeat case_bool_decide; try (intros E; ret_inv E; by eauto 10).
    unfold newInterface. intros (err&s1&E1&E2)%bind_val_inv. cbv [mret M_ret] in E2. destruct err as [e'|]; [|done].
    injection E2 as <- <-. eauto 10.
  - intros E. ret_inv E. eauto.
  - cbn. intros E. ret_inv E. eauto.
Qed.

(** Reading a name never fails with DynDNS: when the API cannot be read the answer is
    that nothing is held, so a caller cannot tell an unreachable service from an empty
    zone. *)
Theorem Rrsets_Get_hides_errors {St} `{DynDNSAPI St} (zone : Zone) (n : string) (s s' : St)
    (r : result (list ResourceRecordSet)) :
  Rrsets_Get zone n s = (Val r, s') →
  ∃ sets, r = Ok sets ∧
    let record := mkRecord "" (domain zone) (rel zone n) "" ""
                    (rel zone n +:+ "." +:+ domain zone) "" in
    match GetRecordByName record s with
    | (Val (Ok records), s1) => sets = RRVal <$> records ∧ s1 = s'
    | (Val (Err _), s1) => sets = [] ∧ s1 = s'
    | (Panic _, _) => False
    end.
Proof.
  unfold Rrsets_Get.
  assert (populateRecordWithName n (mkRecord "" (domain zone) "" "" "" "" "") =
    mkRecord "" (domain zone) (rel zone n) "" "" (rel zone n +:+ "." +:+ domain zone) "") as ->.
  { pose proof (newRecord_eq zone n [] 0 "") as E. unfold newRecord in E. cbn [Join] in E.
    unfold rel, newRecord. cbn [rName].
    unfold populateRecordWithName in *. cbn [rZone ID rName Value rType FQDN TTL] in *.
    destruct (HasSuffix _ _); cbn [rZone ID rName Value rType FQDN TTL] in *; congruence. }
  cbn zeta. intros (o&s1&E1&E2)%bind_val_inv. rewrite E1.
  destruct o; ret_inv E2; eauto.
Qed.

(** ** The theorems at work *)

Module DyndnsExamples.
#[local] Instance resolver : Resolver := {| LookupHost h := Err (Errorf "no such host") |}.
Definition zone : Zone := mkZone "x.io" "0".
Definition rec (n data ty : string) : Record_ := newRecord zone n [data] 180 ty.
Definition stub (rs : list Record_) : gmap string Record_ := list_to_map ((λ r, (hashKey r, r)) <$> rs).
Definition stale : gmap string Record_ := stub [rec "w" "1.1.1.1" "A"; rec "w" "2.2.2.2" "A"].

Lemma stub_wf_rec l : Forall (λ r, wf_record zone r) l → stub_wf zone (stub l).
Proof.
  intros Hl k r E. unfold stub in E. apply elem_of_list_to_map_2, list_elem_of_fmap in E as (r'&[= -> ->]&Hr).
  rewrite Forall_forall in Hl. auto.
Qed.

Lemma stale_wf : stub_wf zone stale.
Proof.
  apply stub_wf_rec. repeat (apply Forall_cons; split); [..|apply Forall_nil; exact I];
    (apply wf_newRecord; [split; vm_compute; reflexivity|vm_compute; reflexivity|split; vm_compute; discriminate]).
Qed.

Lemma newRecord_canonical_witness :
  let r := newRecord zone "w" ["1.1.1.1"] 180 "A" in
  rName r = "w" ∧ FQDN r = "w.x.io" ∧ newRecord zone "w.x.io" ["1.1.1.1"] 180 "A" = r ∧
  newRecord zone "w.x.io." ["1.1.1.1"] 180 "A" = r.
Proof. apply (newRecord_canonical zone "w"); [split; vm_compute; reflexivity|vm_compute; reflexivity]. Defined.

Lemma Rrsets_New_roundtrip_witness :
  let rrs := Rrsets_New zone "w.x.io" ["1.1.1.1"; "2.2.2.2"] 180 "A" in
  rr_Rrdatas rrs = ["1.1.1.1"; "2.2.2.2"] ∧ rr_Ttl rrs = 180%Z ∧ rr_Type rrs = "A" ∧
  Value <$> GetRecordsFromDNSRRS zone rrs = ["1.1.1.1"; "2.2.2.2"] ∧
  Forall (λ r, rName r = rr_Name rrs ∧ rType r = "A" ∧ record_Ttl r = 180%Z ∧ rZone r = domain zone)
    (GetRecordsFromDNSRRS zone rrs).
Proof.
  apply (Rrsets_New_roundtrip zone "w.x.io").
  - discriminate.
  - repeat (apply Forall_cons; split); [vm_compute; reflexivity..|apply Forall_nil; exact I].
  - split; vm_compute; discriminate.
  - split; vm_compute; reflexivity.
Defined.

Lemma keys_free_nil n datas ttl ty : keys_free zone ∅ n datas ttl ty.
Proof. apply Forall_true. intros x r E. by rewrite lookup_empty in E. Qed.

Lemma EnsureDNSRrsets_stub_addresses_witness :
  ∃ s', EnsureDNSRrsets zone "w" ["1.1.1.1"; "2.2.2.2"] "" ∅ = (Val None, s') ∧
    ((s' = ∅ ∧ ∃ a, ["1.1.1.1"; "2.2.2.2"] = [a] ∧ newRecord zone "w" [a] minDNSTTL RrsA ∈ held zone ∅ "w") ∨
     replaced zone ∅ s' "w" ((λ a, newRecord zone "w" [a] minDNSTTL RrsA) <$> ["1.1.1.1"; "2.2.2.2"])).
Proof.
  apply (EnsureDNSRrsets_stub_addresses zone ∅ "w" ["1.1.1.1"; "2.2.2.2"] ["1.1.1.1"; "2.2.2.2"] "").
  - intros k r E. rewrite lookup_empty in E. discriminate E.
  - split; vm_compute; reflexivity.
  - discriminate.
  - vm_compute. reflexivity.
  - discriminate.
  - repeat (apply Forall_cons; split); [vm_compute; reflexivity..|apply Forall_nil; exact I].
  - apply keys_free_nil.
Defined.

Lemma EnsureDNSRrsets_stub_cname_witness :
  ∃ s', EnsureDNSRrsets zone "w" [] "up.x.io" ∅ = (Val None, s') ∧
    ((s' = ∅ ∧ newRecord zone "w" ["up.x.io"] minDNSTTL RrsCNAME ∈ held zone ∅ "w") ∨
     replaced zone ∅ s' "w" (if bool_decide ("up.x.io" = "") then [] else [newRecord zone "w" ["up.x.io"] minDNSTTL RrsCNAME])).
Proof.
  apply (EnsureDNSRrsets_stub_cname zone ∅ "w" "up.x.io").
  - intros k r E. rewrite lookup_empty in E. discriminate E.
  - split; vm_compute; reflexivity.
  - vm_compute. reflexivity.
  - apply keys_free_nil.
Defined.

(** Found among the records held, one wanted address keeps the stale one beside it. *)
Lemma stale_address_kept : ∃ s',
  EnsureDNSRrsets zone "w" ["1.1.1.1"] "" stale = (Val None, s') ∧
  s' = stale ∧ Value <$> held zone s' "w" ≡ₚ ["1.1.1.1"; "2.2.2.2"].
Proof.
  exists stale. split; [vm_compute; reflexivity|]. split; [reflexivity|].
  assert (Value <$> held zone stale "w" = ["1.1.1.1"; "2.2.2.2"] ∨
          Value <$> held zone stale "w" = ["2.2.2.2"; "1.1.1.1"]) as [E|E];
    [vm_compute; auto|rewrite E; reflexivity|rewrite E; apply Permutation_swap].
Qed.

(** Two wanted addresses that are held already are deleted and created again. *)
Example held_addresses_rewritten :
  let cs := cs_replace zone (RRVal <$> held zone stale "w") [Rrsets_New zone "w" ["1.1.1.1"; "2.2.2.2"] 180 "A"] in
  findRrset (RRVal <$> held zone stale "w") (Rrsets_New zone "w" ["1.1.1.1"; "2.2.2.2"] 180 "A") = None ∧
  length (planned cs) = 7.
Proof. vm_compute. split; reflexivity. Qed.

(** Adding a record that is held already: the first call fails and nothing is published. *)
Definition again : ResourceRecordChangeset :=
  Changeset_Add (StartChangeset zone) (RRPtr (rec "w" "1.1.1.1" "A")).

Lemma Apply_in_order_witness : ∃ r st',
  @Apply _ logged again (stale, []) = (Val r, st') ∧ follows (planned again) (negb (no_error r)) [] st'.2.
Proof.
  assert (∃ r st', @Apply _ logged again (stale, []) = (Val r, st')) as (r&st'&E)
    by (eexists _, _; vm_compute; reflexivity).
  exists r, st'. split; [exact E|exact (Apply_in_order again stale [] r st' E)].
Defined.

Lemma newProvider_starts_witness :
  ∃ cfg zones, newProvider (Some (Ok (mkConfig "x.io,y.io" "c" "foo" "bar"))) (∅ : DynDNSAPIStub.St) = (Val (Ok zones), ∅) ∧
    Some (Ok (mkConfig "x.io,y.io" "c" "foo" "bar")) = Some (Ok cfg) ∧ Join (domain <$> zones) "," = DNSZones cfg.
Proof.
  destruct (newProvider_starts (Some (Ok (mkConfig "x.io,y.io" "c" "foo" "bar"))) (∅ : DynDNSAPIStub.St)
    (Ok [mkZone "x.io" "0"; mkZone "y.io" "1"]) ∅) as (cfg&Hc&_&_&Hj&_); [vm_compute; reflexivity|].
  exists cfg, [mkZone "x.io" "0"; mkZone "y.io" "1"]. split; [vm_compute; reflexivity|]. exact (conj Hc Hj).
Defined.

Lemma Rrsets_Get_hides_errors_witness : ∃ sets,
  Rrsets_Get zone "w" (∅ : DynDNSAPIStub.St) = (Val (Ok sets), ∅) ∧ sets = [].
Proof.
  destruct (Rrsets_Get_hides_errors zone "w" (∅ : DynDNSAPIStub.St) ∅ (Ok [])) as (sets&E&H);
    [vm_compute; reflexivity|].
  exists sets. injection E as <-. split; vm_compute; reflexivity.
Defined.
End DyndnsExamples.
