(* ===== verification/DyndnsService.v ===== *)
(** [EnsureDNSRrsets] over any DynDNS service that does what its calls say, where reads may
    fail: [Rrsets_Get] answers a failed read with the empty list. *)

From S2P Require Import Prelude GoStrings DnsProvider Dyndns DynStubs DnsUtil DyndnsFacts.
From Stdlib Require Import Ascii.

(** A record is found by its zone and name, its type and its value. *)
Definition record_key (r : Record_) : string * string * string * string := (rZone r, rName r, rType r, Value r).

Abbreviation zone_contents := (gmap (string * string * string * string) string).

(** What a DynDNS service does: it has the zones with the changes made so far, with the TTL of
    every record, and the zones as published.  A read answers with the records of the name
    or fails; the ID looked up for a record is that of the record; calls that succeed have
    done what they say.  A call that fails may have done anything. *)
Class DynLaws (St : Type) `{DynDNSAPI St} := {
  contents : St → zone_contents;
  published : St → zone_contents;
  dyn_read : ∀ r o s s', GetRecordByName r s = (Val o, s') →
    contents s' = contents s ∧
    match o with
    | Ok records => ∀ k t, (∃ x, x ∈ records ∧ record_key x = k ∧ TTL x = t) ↔ contents s !! k = Some t ∧ k.1.1 = (rZone r, rName r)
    | Err _ => True
    end;
  dyn_create : ∀ r s s', CreateRecord r s = (Val None, s') → contents s' = <[record_key r := TTL r]> (contents s);
  dyn_delete : ∀ r r' s s1 s2, GetRecordID r s = (Val (r', None), s1) → DeleteRecord r' s1 = (Val None, s2) →
    contents s2 = delete (record_key r) (contents s);
  dyn_publish : ∀ z s s', PublishZone z s = (Val None, s') →
    contents s' = contents s ∧ ∀ k, k.1.1.1 = z → published s' !! k = contents s !! k
}.

Section service.
Context {St : Type} `{D : DynDNSAPI St} `{L : !DynLaws St} (zone : Zone).
Implicit Types (s : St) (r : Record_) (c : zone_contents).

(** What is asked for when a name is read. *)
Definition query (n : string) : Record_ := mkRecord "" (domain zone) (rel zone n) "" "" (rel zone n +:+ "." +:+ domain zone) "".
Lemma query_eq n : populateRecordWithName n (mkRecord "" (domain zone) "" "" "" "" "") = query n.
Proof.
  pose proof (newRecord_eq zone n [] 0 "") as E. unfold newRecord in E. cbn [Join] in E.
  unfold query, rel, newRecord. cbn [rName].
  unfold populateRecordWithName in *. cbn [rZone ID rName Value rType FQDN TTL] in *.
  destruct (HasSuffix _ _); cbn [rZone ID rName Value rType FQDN TTL] in *; congruence.
Qed.

(** What a loop over records that succeeds has done. *)
Lemma range_contents {X} (l : list X) (body : unit → X → M St (unit + error)) (f : X → zone_contents → zone_contents) s s' :
  (∀ x s s', x ∈ l → body tt x s = (Val (inl tt), s') → contents s' = f x (contents s)) →
  for_range l tt body s = (Val (inl tt), s') → contents s' = foldl (λ c x, f x c) (contents s) l.
Proof.
  revert s. induction l as [|x l IH]; intros s Hb; cbn [for_range foldl].
  - intros E. cbv [mret M_ret] in E. by injection E as <-.
  - intros ([[]|e]&s1&E1&E2)%bind_val_inv; [|done]. rewrite <-(Hb x s s1) by (done || set_solver).
    apply IH; [|done]. intros y t t' Hy. apply Hb. set_solver.
Qed.
Lemma add_contents r s s' : add_record tt r s = (Val (inl tt), s') → contents s' = <[record_key r := TTL r]> (contents s).
Proof. intros ([e|]&s1&E1&E2)%bind_val_inv; [done|]. cbv [mret M_ret] in E2. injection E2 as <-. by apply dyn_create. Qed.
Lemma delete_contents r s s' : delete_record tt r s = (Val (inl tt), s') → contents s' = delete (record_key r) (contents s).
Proof.
  intros ([r' [e|]]&s1&E1&E2)%bind_val_inv; [done|]. apply bind_val_inv in E2 as ([e|]&s2&E2&E3); [done|].
  cbv [mret M_ret] in E3. injection E3 as <-. by eapply dyn_delete.
Qed.

Lemma foldl_inserts (c : zone_contents) n datas ttl ty k :
  foldl (λ c r, <[record_key r := TTL r]> c) c ((λ v, newRecord zone n [v] ttl ty) <$> datas) !! k =
  if decide (k.1 = (domain zone, rel zone n, ty) ∧ k.2 ∈ datas) then Some (FormatInt ttl) else c !! k.
Proof.
  revert c. induction datas as [|v datas IH]; intros c; cbn [fmap list_fmap foldl].
  - rewrite decide_False; [done|]. intros [_ H]. by apply not_elem_of_nil in H.
  - rewrite IH. unfold record_key. rewrite newRecord_eq. cbn [rZone rName rType Value TTL Join].
    destruct (decide (k.1 = (domain zone, rel zone n, ty) ∧ k.2 ∈ datas)) as [[H1 H2]|Hn].
    + rewrite decide_True; [done|]. split; [done|set_solver].
    + destruct (decide ((domain zone, rel zone n, ty, v) = k)) as [<-|Hk].
      * rewrite lookup_insert_eq, decide_True; [done|]. split; [done|apply list_elem_of_here].
      * rewrite lookup_insert_ne by done. rewrite decide_False; [done|]. intros [H1 [H2|H2]%elem_of_cons]; [|tauto].
        apply Hk. destruct k as [k v']. cbn in *. by subst.
Qed.
Lemma foldl_deletes c (l : list Record_) k :
  foldl (λ c r, delete (record_key r) c) c l !! k = if decide (k ∈ record_key <$> l) then None else c !! k.
Proof.
  revert c. induction l as [|r l IH]; intros c; [done|]. cbn [foldl]. rewrite IH, fmap_cons.
  destruct (decide (record_key r = k)) as [<-|Hk].
  - rewrite lookup_delete_eq. rewrite (decide_True (P := _ ∈ _ :: _)) by apply list_elem_of_here. by destruct (decide _).
  - rewrite lookup_delete_ne by done. destruct (decide (k ∈ record_key <$> l)); [rewrite decide_True|rewrite decide_False]; set_solver.
Qed.
End service.


Section replace.
Context {St : Type} `{D : DynDNSAPI St} `{L : !DynLaws St} (zone : Zone).
Implicit Types (s : St) (r : Record_) (c : zone_contents).

(** The record that is deleted for a record set that was read. *)
Lemma records_of_read r : relative zone (rName r) → rZone r = domain zone → data_ok (Value r) →
  ∃ r', GetRecordsFromDNSRRS zone (RRVal r) = [r'] ∧ record_key r' = record_key r.
Proof.
  intros Hn Hz Hd. unfold GetRecordsFromDNSRRS. cbn [rr_Name rr_Rrdatas rr_Ttl rr_Type dyn_rrset].
  assert (Value (newRecord zone (rName r) (record_Rrdatas r) (record_Ttl r) (rType r)) = Value r) as EV.
  { rewrite newRecord_eq. apply Join_Split. }
  rewrite EV, Split_free by done. cbn. eexists. split; [reflexivity|]. unfold record_key. rewrite EV.
  rewrite !newRecord_eq. cbn [rZone rName rType]. by rewrite Hz, rel_relative.
Qed.


Lemma deletes_contents (old : list Record_) n s s' :
  Forall (λ r, rName r = rel zone n ∧ rZone r = domain zone ∧ data_ok (Value r)) old → relative zone (rel zone n) →
  for_range (mkChange DELETION <$> (RRVal <$> old)) tt (apply_change zone) s = (Val (inl tt), s') →
  contents s' = foldl (λ c r, delete (record_key r) c) (contents s) old.
Proof.
  intros Hold Hn. revert s. induction Hold as [|r old (Hr&Hz&Hd) _ IH]; intros s; cbn [fmap list_fmap for_range foldl].
  - intros E. cbv [mret M_ret] in E. by injection E as <-.
  - intros ([[]|e]&s1&E1&E2)%bind_val_inv; [|done]. apply IH in E2 as ->. f_equal.
    unfold apply_change in E1. cbn [cstype cs_rrset] in E1. destruct (records_of_read r) as (r'&Er&Ek); [by rewrite Hr|done..|].
    rewrite Er in E1. apply (range_contents [r'] delete_record (λ r, delete (record_key r))) in E1 as ->.
    + cbn. by rewrite Ek.
    + intros x t t' _. apply delete_contents.
Qed.

(** What the changes leave in the zone. *)
Lemma replace_contents (old : list Record_) n datas ttl ty s s' :
  Forall (λ r, rName r = rel zone n ∧ rZone r = domain zone ∧ data_ok (Value r)) old →
  datas ≠ [] → Forall data_ok datas → ttl_ok ttl → relative zone (rel zone n) →
  Apply (cs_replace zone (RRVal <$> old) [Rrsets_New zone n datas ttl ty]) s = (Val None, s') →
  (∀ k, contents s' !! k =
    if decide (k.1 = (domain zone, rel zone n, ty) ∧ k.2 ∈ datas) then Some (FormatInt ttl)
    else if decide (k ∈ record_key <$> old) then None else contents s !! k) ∧
  ∀ k, k.1.1.1 = domain zone → published s' !! k = contents s' !! k.
Proof.
  intros Hold Hne Hd Ht Hn. rewrite cs_replace_changes. unfold Apply.
  replace (IsEmpty _) with false.
  2:{ unfold IsEmpty. symmetry. apply bool_decide_eq_false_2. cbn [changeset]. rewrite length_app. cbn. lia. }
  cbn [changeset cs_zone]. intros ([[]|e]&s1&E1&E2)%bind_val_inv; [|done].
  apply bind_val_inv in E2 as ([e|]&s2&E2&E3); [done|]. cbv [mret M_ret] in E3. injection E3 as <-.
  destruct (dyn_publish _ _ _ E2) as [Hc Hp]. split; [|intros k Hk; rewrite Hc; by apply Hp]. intros k. rewrite Hc.
  rewrite for_range_app in E1. destruct (for_range (mkChange DELETION <$> _) _ _ _) as [[[[]|e]|e] s0] eqn:E0; [|done|done].
  apply (deletes_contents _ n) in E0; [|done|done]. cbn [fmap list_fmap for_range] in E1.
  apply bind_val_inv in E1 as ([[]|e]&s3&E1&E4); [|done]. cbv [mret M_ret] in E4. injection E4 as <-.
  unfold apply_change in E1. cbn [cstype cs_rrset] in E1. rewrite records_of_New in E1 by done.
  apply (range_contents _ add_record (λ r, <[record_key r := TTL r]>)) in E1; [|intros x t t' _; apply add_contents].
  rewrite E1, foldl_inserts, E0, foldl_deletes. done.
Qed.

(** What was found among the records that were read. *)
Lemma found_read records n datas ty e :
  relative zone (rel zone n) → Forall data_ok datas → datas ≠ [] → Forall (λ r, data_ok (Value r)) records →
  findRrset (RRVal <$> records) (Rrsets_New zone n datas minDNSTTL ty) = Some e →
  ∃ r a, r ∈ records ∧ datas = [a] ∧ Value r = a ∧ rType r = ty ∧ ParseInt (TTL r) = Some minDNSTTL.
Proof.
  intros Hn Hd Hne Hrec [(r&->&Hr)%list_elem_of_fmap Heq%rr_equiv_spec]%findRrset_Some. rewrite Forall_forall in Hrec.
  specialize (Hrec r Hr). destruct Heq as (_&Hdata&Httl&Hty). unfold Rrsets_New in *.
  cbn [rr_Name rr_Rrdatas rr_Ttl rr_Type dyn_rrset] in *.
  rewrite record_Rrdatas_newRecord in Hdata by done. rewrite record_Ttl_newRecord in Httl by apply minDNSTTL_ok.
  rewrite newRecord_eq in Hty. cbn in Hty. unfold record_Rrdatas in Hdata. rewrite Split_free in Hdata by done.
  exists r, (Value r). split_and!; try done. unfold record_Ttl in Httl. destruct (ParseInt (TTL r)) as [t|]; [|done].
  revert Httl. case_bool_decide; [done|]. by intros ->.
Qed.

Lemma Rrsets_Get_service n s (r : result (list ResourceRecordSet)) s' : Rrsets_Get zone n s = (Val r, s') →
  ∃ o, GetRecordByName (query zone n) s = (Val o, s') ∧ r = Ok match o with Ok records => RRVal <$> records | Err _ => [] end.
Proof.
  unfold Rrsets_Get. rewrite query_eq. cbv zeta. intros (o&s1&E1&E2)%bind_val_inv.
  exists o. destruct o; cbv [mret M_ret] in E2; by injection E2 as <- <-.
Qed.
End replace.

(** The zone is published as it is, and its name has the wanted entries, and of the others
    those of [keep]. *)
Definition settled {St} `{DynLaws St} (zone : Zone) (n ty : string) (datas : list string) (keep : zone_contents) (s s' : St) : Prop :=
  (∀ k, k.1.1.1 = domain zone → published s' !! k = contents s' !! k) ∧
  ∀ ty' v, contents s' !! (domain zone, rel zone n, ty', v) =
    if decide (ty' = ty ∧ v ∈ datas) then Some (FormatInt minDNSTTL) else keep !! (domain zone, rel zone n, ty', v).

Section ensure.
Context {St : Type} `{D : DynDNSAPI St} `{L : !DynLaws St} `{Resolver} (zone : Zone).
Implicit Types (s : St).

Lemma Ensure_service n endpoints up datas ty s s' :
  let r := Rrsets_New zone n datas minDNSTTL ty in
  desired (St := St) zone n endpoints up = Ok (r, [r]) →
  relative zone (rel zone n) → datas ≠ [] → Forall data_ok datas →
  (∀ ty' v t, contents s !! (domain zone, rel zone n, ty', v) = Some t → data_ok v) →
  EnsureDNSRrsets zone n endpoints up s = (Val None, s') →
  (∀ k, k.1.1 ≠ (domain zone, rel zone n) → contents s' !! k = contents s !! k) ∧
  match (GetRecordByName (query zone n) s).1 with
  | Val (Ok _) =>
      (contents s' = contents s ∧ ∃ a t, datas = [a] ∧
        contents s !! (domain zone, rel zone n, ty, a) = Some t ∧ ParseInt t = Some minDNSTTL) ∨
      settled zone n ty datas ∅ s s'
  | Val (Err _) => settled zone n ty datas (contents s) s s'
  | Panic _ => False
  end.
Proof.
  intros r Hdes Hn Hne Hd Hheld. rewrite EnsureDNSRrsets_plan. cbn [rrs_supported dyn_rrsets].
  intros (o&s1&(o'&Eq&->)%Rrsets_Get_service&E)%bind_val_inv. rewrite Hdes in E. rewrite Eq. cbn [fst].
  destruct (dyn_read _ _ _ _ Eq) as [Hc1 Hread].
  set (old := match o' with Ok records => records | Err _ => [] end).
  assert (match o' with Ok records => RRVal <$> records | Err _ => [] end = RRVal <$> old) as Eold by (by destruct o').
  rewrite Eold in E.
  assert (Forall (λ r, rName r = rel zone n ∧ rZone r = domain zone ∧ data_ok (Value r)) old) as Hold.
  { subst old. destruct o' as [records|]; [|constructor]. apply Forall_forall. intros x Hx.
    destruct (proj1 (Hread (record_key x) (TTL x)) (ex_intro _ x (conj Hx (conj eq_refl eq_refl)))) as [Hin Hk].
    cbn in Hk. injection Hk as Hz Hnm. split_and!; [done|done|]. unfold record_key in Hin. rewrite Hz, Hnm in Hin. by eapply Hheld. }
  unfold reconcile_rrsets in E. cbn [fst snd] in E. rewrite bool_decide_eq_false_2 in E by naive_solver.
  destruct (findRrset _ r) as [e|] eqn:Ef.
  - cbv [mret M_ret] in E. injection E as <-. rewrite Hc1. split; [done|].
    apply found_read in Ef as (x&a&Hx&->&<-&<-&Httl); [|done..|eapply Forall_impl; [exact Hold|by intros ? (_&_&?)]].
    destruct o' as [records|e']; [|by apply not_elem_of_nil in Hx]. left. split; [done|]. exists (Value x), (TTL x).
    split_and!; [done| |done]. rewrite Forall_forall in Hold. destruct (Hold x Hx) as (Hnm&Hz&_).
    rewrite <-Hnm, <-Hz. by apply (proj1 (Hread (record_key x) (TTL x)) (ex_intro _ x (conj Hx (conj eq_refl eq_refl)))).
  - apply replace_contents in E as [Hset Hpub]; [|done..|apply minDNSTTL_ok|done]. split.
    + intros k Hk. rewrite Hset, Hc1. rewrite decide_False, decide_False; [done| |].
      * intros (x&->&Hx)%list_elem_of_fmap. rewrite Forall_forall in Hold. destruct (Hold x Hx) as (Hnm&Hz&_).
        apply Hk. cbn. by rewrite Hnm, Hz.
      * intros [Hk1 _]. apply Hk. by rewrite Hk1.
    + assert (∀ keep : zone_contents, (∀ ty' v, (if decide ((domain zone, rel zone n, ty', v) ∈ record_key <$> old) then None
          else contents s !! (domain zone, rel zone n, ty', v)) = keep !! (domain zone, rel zone n, ty', v)) →
        settled zone n ty datas keep s s') as Hgo.
      { intros keep Hkeep. split; [exact Hpub|]. intros ty' v. rewrite Hset, Hc1, Hkeep. cbn [fst snd].
        destruct (decide (ty' = ty ∧ v ∈ datas)) as [[-> ?]|Hno]; [by rewrite decide_True|].
        rewrite decide_False; [done|]. intros [[= ->] ?]. by apply Hno. }
      destruct o' as [records|e]; subst old; [right|]; apply Hgo; intros ty' v.
      * rewrite lookup_empty. case_decide as Hin; [done|]. destruct (contents s !! _) as [t|] eqn:Et; [|done].
        destruct Hin. destruct (proj2 (Hread (domain zone, rel zone n, ty', v) t) (conj Et eq_refl)) as (x&Hx&Hk&_).
        apply list_elem_of_fmap. by exists x.
      * rewrite decide_False; [done|]. apply not_elem_of_nil.
Qed.
End ensure.

(** ** Properties *)

(** C35: DynDNS, with healthy endpoints, whatever service answers and whether or not its
    reads fail: when the endpoints resolve and [EnsureDNSRrsets] reports no error, all other
    names of all zones are as before.  If the name could be read, it has now exactly one A
    record per address, and the zone is published so; the one exception is a single address
    whose record was among those held, where nothing was changed, whatever else is held.
    But if the read failed, which [Rrsets_Get] answers like an empty name, then the records
    of the addresses were added and published, and everything else that the name had stays
    beside them.  (The name is not below the zone twice, and the values have no commas, as
    addresses and host names have none.) *)
Theorem EnsureDNSRrsets_dyndns_addresses {St : Type} `{D : DynDNSAPI St} `{L : !DynLaws St} `{Resolver} (zone : Zone)
    (s s' : St) (n : string) (endpoints addrs : list string) (up : string) :
  relative zone (rel zone n) →
  endpoints ≠ [] → GetResolvedEndpoints endpoints = (addrs, None) → addrs ≠ [] → Forall data_ok addrs →
  (∀ ty v t, contents s !! (domain zone, rel zone n, ty, v) = Some t → data_ok v) →
  EnsureDNSRrsets zone n endpoints up s = (Val None, s') →
  (∀ k, k.1.1 ≠ (domain zone, rel zone n) → contents s' !! k = contents s !! k) ∧
  match (GetRecordByName (query zone n) s).1 with
  | Val (Ok _) =>
      (contents s' = contents s ∧ ∃ a t, addrs = [a] ∧
        contents s !! (domain zone, rel zone n, RrsA, a) = Some t ∧ ParseInt t = Some minDNSTTL) ∨
      settled zone n RrsA addrs ∅ s s'
  | Val (Err _) => settled zone n RrsA addrs (contents s) s s'
  | Panic _ => False
  end.
Proof.
  intros Hn Hne Hr Ha Hd Hheld. apply (Ensure_service zone n endpoints up addrs RrsA s s'); [|done..].
  unfold desired. destruct endpoints; [done|]. by rewrite Hr.
Qed.

(** The same without healthy endpoints, below the top level: the CNAME one level up. *)
Theorem EnsureDNSRrsets_dyndns_cname {St : Type} `{D : DynDNSAPI St} `{L : !DynLaws St} `{Resolver} (zone : Zone)
    (s s' : St) (n up : string) :
  relative zone (rel zone n) → up ≠ "" → data_ok up →
  (∀ ty v t, contents s !! (domain zone, rel zone n, ty, v) = Some t → data_ok v) →
  EnsureDNSRrsets zone n [] up s = (Val None, s') →
  (∀ k, k.1.1 ≠ (domain zone, rel zone n) → contents s' !! k = contents s !! k) ∧
  match (GetRecordByName (query zone n) s).1 with
  | Val (Ok _) =>
      (contents s' = contents s ∧ ∃ a t, [up] = [a] ∧
        contents s !! (domain zone, rel zone n, RrsCNAME, a) = Some t ∧ ParseInt t = Some minDNSTTL) ∨
      settled zone n RrsCNAME [up] ∅ s s'
  | Val (Err _) => settled zone n RrsCNAME [up] (contents s) s s'
  | Panic _ => False
  end.
Proof.
  intros Hn Hup Hd Hheld. apply (Ensure_service zone n [] up [up] RrsCNAME s s'); [|done|done|by constructor|done].
  unfold desired. by rewrite bool_decide_eq_false_2.
Qed.

Module DyndnsServiceExamples.
#[local] Instance resolver : Resolver := {| LookupHost h := Err (Errorf "no such host") |}.

(** A service in memory, whose reads may fail. *)
Record service := mkService { cells : zone_contents; out : zone_contents; readable : bool }.
Definition record_at (k : string * string * string * string) (t : string) : Record_ :=
  mkRecord "" k.1.1.1 k.1.1.2 k.2 k.1.2 "" t.
Definition with_id (i : string) (r : Record_) : Record_ := mkRecord i (rZone r) (rName r) (Value r) (rType r) (FQDN r) (TTL r).
Definition read (r : Record_) : M service (result (list Record_)) := λ s,
  (Val (if readable s
        then Ok ((λ kt, record_at kt.1 kt.2) <$> filter (λ kt, kt.1.1.1 = (rZone r, rName r)) (map_to_list (cells s)))
        else Err (Errorf "timeout")), s).
#[export] Instance service_api : DynDNSAPI service := {|
  Login _ _ := mret None;
  CreateRecord r := λ s,
    match cells s !! record_key r with
    | Some _ => (Val (Some (Errorf "TARGET_EXISTS")), s)
    | None => (Val None, mkService (<[record_key r := TTL r]> (cells s)) (out s) (readable s))
    end;
  DeleteRecord r := λ s,
    if bool_decide (ID r = "") then (Val (Some (Errorf "no ID")), s)
    else (Val None, mkService (delete (record_key r) (cells s)) (out s) (readable s));
  GetRecordByName := read;
  GetRecordID r := λ s,
    (Val (match cells s !! record_key r with
          | Some _ => (with_id "1" r, None)
          | None => (r, Some (Errorf "Failed to find Dyn record id"))
          end), s);
  GetAllRecordList := read;
  PublishZone z := λ s,
    (Val None, mkService (cells s) (filter (λ kt, kt.1.1.1.1 = z) (cells s) ∪ filter (λ kt, kt.1.1.1.1 ≠ z) (out s)) (readable s))
|}.

Lemma read_records (c : zone_contents) (p : string * string) k t :
  (∃ x, x ∈ ((λ kt, record_at kt.1 kt.2) <$> filter (λ kt, kt.1.1.1 = p) (map_to_list c)) ∧ record_key x = k ∧ TTL x = t) ↔
  c !! k = Some t ∧ k.1.1 = p.
Proof.
  split.
  - intros (x&([k' t']&->&[Hp Hm]%list_elem_of_filter)%list_elem_of_fmap&<-&<-). apply elem_of_map_to_list in Hm.
    destruct k' as [[[z n] ty] v]. done.
  - intros [Hm Hp]. exists (record_at k t). destruct k as [[[z n] ty] v]. split_and!; [|done|done].
    apply list_elem_of_fmap. exists ((z, n, ty, v), t). split; [done|]. apply list_elem_of_filter.
    split; [done|]. by apply elem_of_map_to_list.
Qed.
#[export, refine] Instance service_laws : DynLaws service := {| contents := cells; published := out |}.
Proof.
  - intros r o s s' E. cbn in E. unfold read in E. injection E as <- <-. split; [reflexivity|].
    destruct (readable s); [|exact I]. intros k t. apply read_records.
  - intros r s s' E. cbn in E. destruct (cells s !! record_key r); [discriminate E|]. by injection E as <-.
  - intros r r' s s1 s2 E1 E2. cbn in E1, E2. destruct (cells s !! record_key r); [|discriminate E1].
    injection E1 as <- <-. cbn in E2. by injection E2 as <-.
  - intros z s s' E. cbn in E. injection E as <-. split; [reflexivity|]. intros k Hk. cbn.
    destruct (cells s !! k) as [t|] eqn:Et.
    + apply lookup_union_Some_l, map_lookup_filter_Some. done.
    + apply lookup_union_None. rewrite !map_lookup_filter_None. split; [by left|]. right. intros x _ Hx. by apply Hx.
Defined.

Definition zone : Zone := mkZone "x.io" "0".
Definition has (addresses : list string) : zone_contents := list_to_map ((λ a, (("x.io", "w", "A", a), "180")) <$> addresses).
Definition unreadable : service := mkService (has ["1.1.1.1"]) (has ["1.1.1.1"]) false.
Definition ensured (s : service) : service := (EnsureDNSRrsets zone "w" ["2.2.2.2"; "3.3.3.3"] "" s).2.

(** The same service with and without failing reads: the stale address is removed, or stays. *)
Definition published_at (s : service) : list (option string) :=
  (λ a, published s !! ("x.io", "w", "A", a)) <$> ["1.1.1.1"; "2.2.2.2"; "3.3.3.3"].
Example stale_address :
  published_at (ensured (mkService (has ["1.1.1.1"]) (has ["1.1.1.1"]) true)) = [None; Some "180"; Some "180"] ∧
  published_at (ensured unreadable) = [Some "180"; Some "180"; Some "180"].
Proof. split; vm_compute; reflexivity. Qed.

Lemma EnsureDNSRrsets_dyndns_addresses_witness :
  (∀ k, k.1.1 ≠ ("x.io", rel zone "w") → contents (ensured unreadable) !! k = contents unreadable !! k) ∧
  settled zone "w" RrsA ["2.2.2.2"; "3.3.3.3"] (contents unreadable) unreadable (ensured unreadable).
Proof.
  destruct (EnsureDNSRrsets_dyndns_addresses zone unreadable (ensured unreadable) "w" ["2.2.2.2"; "3.3.3.3"] ["2.2.2.2"; "3.3.3.3"] "")
    as [Hother Hname]; [..|split; [exact Hother|]; cbn -[settled] in Hname; exact Hname].
  - split; vm_compute; reflexivity.
  - discriminate.
  - vm_compute. reflexivity.
  - discriminate.
  - repeat (apply Forall_cons; split); [vm_compute; reflexivity..|apply Forall_nil; exact I].
  - intros ty v t E. apply elem_of_list_to_map_2 in E. apply list_elem_of_singleton in E. injection E as _ -> _. vm_compute. reflexivity.
  - vm_compute. reflexivity.
Defined.
End DyndnsServiceExamples.
