(* ===== verification/DynectFacts.v ===== *)
(** The REST client of [Dynect.v] over the in-memory [GoDynectAPI] of the tests
    ([GoDynectAPIStub] in [DynStubs.v]): record URLs and records, and the three look-ups
    of a record by its URL. *)

From S2P Require Import Prelude GoStrings DnsProvider Dyndns DynStubs Dynect.
From Stdlib Require Import Ascii.

#[local] Existing Instance GoDynectAPIStub.go_api.

(** ** Record URLs *)

(** No part of the record's URL has a slash of its own. *)
Definition url_safe (r : Record_) : Prop :=
  free_of slash (rType r) = true ∧ free_of slash (rZone r) = true ∧ free_of slash (FQDN r) = true ∧
  free_of slash (hashKey r) = true.

Lemma free_of_app c s t : free_of c (s +:+ t) = free_of c s && free_of c t.
Proof.
  unfold free_of. induction s as [|a s IH]; [done|]. rewrite cons_app_string. cbn [string_forall].
  by rewrite IH, andb_assoc.
Qed.

(** The URL of a type, a zone, a name and an ID. *)
Definition url_of (ty zone fqdn id : string) : string :=
  "/REST/" +:+ ty +:+ "Record/" +:+ zone +:+ "/" +:+ fqdn +:+ "/" +:+ id.

Lemma Split_url ty zone fqdn id :
  free_of slash ty = true → free_of slash zone = true → free_of slash fqdn = true →
  Split slash (url_of ty zone fqdn id) = "" :: "REST" :: (ty +:+ "Record") :: zone :: fqdn :: Split slash id.
Proof.
  intros Ht Hz Hf. unfold url_of.
  change ("/REST/" +:+ ?t) with ("" +:+ String slash ("REST" +:+ String slash t)).
  rewrite !Split_app_sep by done.
  assert (ty +:+ "Record/" +:+ zone +:+ "/" +:+ fqdn +:+ "/" +:+ id =
    (ty +:+ "Record") +:+ String slash (zone +:+ String slash (fqdn +:+ String slash id))) as ->
    by (rewrite app_assoc_string; done).
  rewrite Split_app_sep by (rewrite free_of_app, Ht; done).
  by rewrite !Split_app_sep.
Qed.

(** What [RecordFromURL] makes of the URL of a stored record. *)
Definition url_record (r : Record_) : Record_ :=
  mkRecord (hashKey r) (rZone r) "" "" (rType r) (FQDN r) "".

Lemma RecordFromURL_url r :
  url_safe r → RecordFromURL (GoDynectAPIStub.record_url r) = Some (url_record r).
Proof.
  intros (Ht&Hz&Hf&Hk). unfold RecordFromURL, GoDynectAPIStub.record_url.
  fold (url_of (rType r) (rZone r) (FQDN r) (hashKey r)).
  rewrite Split_url, Split_free by done. unfold url_record. by rewrite TrimSuffix_app.
Qed.

(** A slash-free ID is found in a URL exactly below the URL's own type, zone and name. *)
Lemma url_id_match (r r0 : Record_) :
  url_safe r0 → free_of slash (rType r) = true → free_of slash (rZone r) = true →
  free_of slash (FQDN r) = true →
  if bool_decide (rType r = rType r0 ∧ rZone r = rZone r0 ∧ FQDN r = FQDN r0)
  then url_id r (GoDynectAPIStub.record_url r0) = hashKey r0
  else Contains (url_id r (GoDynectAPIStub.record_url r0)) "/" = true.
Proof.
  intros (Ht0&Hz0&Hf0&Hk0) Ht Hz Hf. unfold url_id, TrimPrefix.
  set (pre := "/REST/" +:+ rType r +:+ "Record/" +:+ rZone r +:+ "/" +:+ FQDN r +:+ "/").
  assert (∀ rest, pre +:+ rest = url_of (rType r) (rZone r) (FQDN r) rest) as Hpre
    by (intros; unfold pre, url_of; by rewrite !app_assoc_string).
  fold (url_of (rType r0) (rZone r0) (FQDN r0) (hashKey r0)).
  change (GoDynectAPIStub.record_url r0) with (url_of (rType r0) (rZone r0) (FQDN r0) (hashKey r0)).
  case_bool_decide as Hm.
  - destruct Hm as (Et&Ez&Ef). rewrite <-Et, <-Ez, <-Ef, <-Hpre. by rewrite strip_prefix_app.
  - destruct (strip_prefix pre _) as [rest|] eqn:E.
    + apply strip_prefix_spec in E. rewrite Hpre in E. apply (f_equal (Split slash)) in E.
      rewrite !Split_url in E by done. injection E as Et Ez Ef _. destruct Hm. split_and!; [|done..].
      apply (f_equal (λ t, TrimSuffix t "Record")) in Et. by rewrite !TrimSuffix_app in Et.
    + cbn [default]. apply Contains_spec. exists "", ("REST/" +:+ rType r0 +:+ "Record/" +:+ rZone r0 +:+ "/" +:+
        FQDN r0 +:+ "/" +:+ hashKey r0). done.
Qed.

(** ** Look-ups over the stub *)

Section stub.
Context `{RangeOrder}.
Implicit Types s : gmap string Record_.

(** Every record is stored under its hash key and has a proper URL. *)
Definition go_wf s : Prop := map_Forall (λ k r, k = hashKey r ∧ k ≠ "" ∧ url_safe r) s.

Lemma go_wf_range s r :
  go_wf s → r ∈ (range_records s).*2 ↔ s !! hashKey r = Some r.
Proof.
  intros Hs. rewrite list_elem_of_fmap. setoid_rewrite range_records_perm. split.
  - intros ([k r']&->&Hm%elem_of_map_to_list). cbn [snd].
    destruct (Hs _ _ Hm) as [<- _]. exact Hm.
  - intros Hm. exists (hashKey r, r). by rewrite elem_of_map_to_list.
Qed.

(** The record as [GetRecord] fills it in from its URL. *)
Definition fetched (r : Record_) : Record_ :=
  mkRecord (hashKey r) (rZone r) (rName r) (Value r) (rType r) (FQDN r) (TTL r).

Lemma GetRecord_url s r :
  go_wf s → s !! hashKey r = Some r →
  GoGetRecord (RecordFromURL (GoDynectAPIStub.record_url r)) s = (Val (fetched r, None), s).
Proof.
  intros Hs Hr. destruct (Hs _ _ Hr) as (_&Hk&Hu). rewrite RecordFromURL_url by done.
  cbn [GoGetRecord GoDynectAPIStub.go_api]. unfold GoDynectAPIStub.GetRecord, url_record. cbn [ID].
  rewrite bool_decide_eq_false_2 by exact Hk. rewrite Hr. reflexivity.
Qed.

Lemma fetch_record_url keep s acc r :
  go_wf s → s !! hashKey r = Some r →
  fetch_record keep acc (GoDynectAPIStub.record_url r) s =
  (Val (inl (if keep (fetched r) then acc ++ [fetched r] else acc)), s).
Proof.
  intros Hs Hr. unfold fetch_record. by rewrite (bind_val _ _ _ _ _ (GetRecord_url s r Hs Hr)).
Qed.

Lemma fetch_urls keep s acc rs :
  go_wf s → Forall (λ r, s !! hashKey r = Some r) rs →
  for_range (GoDynectAPIStub.record_url <$> rs) acc (fetch_record keep) s =
  (Val (inl (acc ++ filter (λ r, keep r = true) (fetched <$> rs))), s).
Proof.
  intros Hs Hrs. revert acc. induction Hrs as [|r rs Hr Hrs IH]; intros acc.
  - cbn. by rewrite app_nil_r.
  - rewrite !fmap_cons. cbn [for_range].
    rewrite (bind_val _ _ _ _ _ (fetch_record_url keep s acc r Hs Hr)).
    cbn beta iota. rewrite IH. destruct (keep (fetched r)) eqn:E.
    + rewrite filter_cons_True by done. by rewrite <-app_assoc.
    + by rewrite filter_cons_False by (by rewrite E).
Qed.

Lemma fetch_all_stub keep s record :
  go_wf s → fetch_all keep record s =
  (Val (Ok (filter (λ r, keep r = true) (fetched <$> (range_records s).*2))), s).
Proof.
  intros Hs. unfold fetch_all, GetAllRecords. cbn [DoAllRecords GoDynectAPIStub.go_api].
  erewrite bind_val by reflexivity. cbn beta iota.
  erewrite bind_val; [|apply fetch_urls; [done|]].
  - done.
  - apply Forall_forall. intros r Hr. by apply go_wf_range.
Qed.

(** The record that [record] names: same place, same value. *)
Definition same_record (record r : Record_) : Prop :=
  rType record = rType r ∧ rZone record = rZone r ∧ FQDN record = FQDN r ∧ Value record = Value r.

#[local] Instance same_record_dec record r : Decision (same_record record r).
Proof. unfold same_record. apply _. Defined.

Lemma find_id_stub s record r :
  go_wf s → s !! hashKey r = Some r →
  free_of slash (rType record) = true → free_of slash (rZone record) = true →
  free_of slash (FQDN record) = true →
  find_id record tt (GoDynectAPIStub.record_url r) s =
  (Val (if decide (same_record record r) then inr (inr (hashKey r)) else inl tt), s).
Proof.
  intros Hs Hr Ht Hz Hf. destruct (Hs _ _ Hr) as (_&Hk&Hu). unfold find_id.
  rewrite (bind_val _ _ _ _ _ (GetRecord_url s r Hs Hr)). cbn beta iota zeta. cbn [Value fetched].
  pose proof (url_id_match record r Hu Ht Hz Hf) as Hid.
  destruct Hu as (_&_&_&Hsafe). unfold same_record. case_bool_decide as Hm.
  - rewrite Hid. assert (Contains (hashKey r) "/" = false) as ->.
    { apply not_true_iff_false. intros (l&q&E)%Contains_spec. rewrite E, !free_of_app in Hsafe.
      cbn in Hsafe. rewrite andb_false_r in Hsafe. done. }
    rewrite (bool_decide_eq_true_2 (hashKey r ≠ "")) by done. cbn [negb andb].
    case_bool_decide; (rewrite decide_True by naive_solver) || (rewrite decide_False by naive_solver); done.
  - rewrite Hid. cbn [negb andb]. rewrite decide_False by naive_solver. done.
Qed.

Lemma find_id_urls s record rs :
  go_wf s → Forall (λ r, s !! hashKey r = Some r) rs →
  free_of slash (rType record) = true → free_of slash (rZone record) = true →
  free_of slash (FQDN record) = true →
  for_range (GoDynectAPIStub.record_url <$> rs) tt (find_id record) s =
  (Val match list_find (same_record record) rs with
       | Some (_, r) => inr (inr (hashKey r))
       | None => inl tt
       end, s).
Proof.
  intros Hs Hrs Ht Hz Hf. induction Hrs as [|r rs Hr Hrs IH]; [done|].
  rewrite fmap_cons. cbn [for_range list_find].
  rewrite (bind_val _ _ _ _ _ (find_id_stub s record r Hs Hr Ht Hz Hf)).
  destruct (decide (same_record record r)); [done|].
  rewrite IH. by destruct (list_find (same_record record) rs) as [[]|].
Qed.
End stub.

Lemma filter_const_true {A} (l : list A) : filter (λ _, true = true) l = l.
Proof. induction l as [|x l IH]; [done|]. rewrite filter_cons_True by done. by rewrite IH. Qed.

(** ** Properties *)

(** A record's URL says which record it is: [RecordFromURL] reads back the type, the
    zone, the absolute name and the ID that the URL was made of. *)
Theorem RecordFromURL_roundtrip (ty zone fqdn id : string) :
  free_of slash ty = true → free_of slash zone = true → free_of slash fqdn = true →
  free_of slash id = true →
  RecordFromURL ("/REST/" +:+ ty +:+ "Record/" +:+ zone +:+ "/" +:+ fqdn +:+ "/" +:+ id) =
  Some (mkRecord id zone "" "" ty fqdn "").
Proof.
  intros Ht Hz Hf Hi. unfold RecordFromURL. fold (url_of ty zone fqdn id).
  rewrite Split_url, Split_free by done. by rewrite TrimSuffix_app.
Qed.

(** [GetRecordID] finds the ID of a record by its type, zone, name and value: it
    returns the ID of a stored record that agrees in these with the one asked for, and
    reports an error exactly when none is stored. *)
Theorem GetRecordID_finds `{RangeOrder} (s : gmap string Record_) (record : Record_) :
  go_wf s → free_of slash (rType record) = true → free_of slash (rZone record) = true →
  free_of slash (FQDN record) = true →
  ∃ record' err, Dynect.GetRecordID record s = (Val (record', err), s) ∧
    match err with
    | None => ∃ r, s !! ID record' = Some r ∧ same_record record r ∧
        record' = mkRecord (hashKey r) (rZone record) (rName record) (Value record) (rType record)
                    (FQDN record) (TTL record)
    | Some _ => record' = record ∧ ∀ k r, s !! k = Some r → ¬ same_record record r
    end.
Proof.
  intros Hs Ht Hz Hf. unfold Dynect.GetRecordID, GetAllRecords. cbn [DoAllRecords GoDynectAPIStub.go_api].
  erewrite bind_val by reflexivity. cbn beta iota.
  erewrite bind_val; [|apply find_id_urls; try done; apply Forall_forall; intros r Hr; by apply go_wf_range].
  destruct (list_find _ _) as [[i r]|] eqn:E; eexists _, _; (split; [reflexivity|]); cbn beta iota.
  - apply list_find_Some in E as (Hi&Hsame&_). exists r. cbn [ID]. split_and!; [|done..].
    apply list_elem_of_lookup_2 in Hi. by apply go_wf_range in Hi.
  - split; [done|]. intros k r Hr Hsame. apply list_find_None in E. rewrite Forall_forall in E.
    destruct (Hs _ _ Hr) as (->&_). apply (E r); [|done]. by apply go_wf_range.
Qed.

(** The client reads a zone by one request per record URL and loses none: by name it
    returns exactly the records with that name, and without one all of them, each as
    it is stored and with its ID filled in. *)
Theorem GetRecordByName_fetches `{RangeOrder} (s : gmap string Record_) (record : Record_) :
  go_wf s →
  (∃ recs, Dynect.GetRecordByName record s = (Val (Ok recs), s) ∧
     ∀ r, r ∈ recs ↔ rName r = rName record ∧ ∃ k r0, s !! k = Some r0 ∧ r = fetched r0) ∧
  (∃ recs, Dynect.GetAllRecordList record s = (Val (Ok recs), s) ∧ length recs = size s ∧
     ∀ r, r ∈ recs ↔ ∃ k r0, s !! k = Some r0 ∧ r = fetched r0).
Proof.
  intros Hs.
  assert (∀ r, r ∈ fetched <$> (range_records s).*2 ↔ ∃ k r0, s !! k = Some r0 ∧ r = fetched r0) as Hin.
  { intros r. rewrite list_elem_of_fmap. split.
    - intros (r0&->&Hr). apply go_wf_range in Hr; eauto.
    - intros (k&r0&Hr&->). exists r0. split; [done|]. apply go_wf_range; [done|].
      by destruct (Hs _ _ Hr) as (->&_). }
  split; eexists; (split; [apply fetch_all_stub, Hs|]).
  - intros r. rewrite list_elem_of_filter, bool_decide_eq_true, Hin. done.
  - split.
    + rewrite filter_const_true, length_fmap, length_fmap, range_records_perm.
      apply length_map_to_list.
    + intros r. rewrite list_elem_of_filter, Hin. naive_solver.
Qed.

(** ** The theorems at work *)

Module DynectExamples.
Definition rec (n data : string) : Record_ := newRecord (mkZone "x.io" "0") n [data] 180 "A".
Definition stored : gmap string Record_ :=
  list_to_map ((λ r, (hashKey r, r)) <$> [rec "w" "1.1.1.1"; rec "w" "2.2.2.2"; rec "v" "1.1.1.1"]).

Lemma stored_wf : go_wf stored.
Proof.
  intros k r E. apply elem_of_list_to_map_2 in E.
  assert (Forall (λ kr, kr.1 = hashKey kr.2 ∧ kr.1 ≠ "" ∧ url_safe kr.2)
    ((λ r, (hashKey r, r)) <$> [rec "w" "1.1.1.1"; rec "w" "2.2.2.2"; rec "v" "1.1.1.1"])) as Hall.
  { repeat (apply Forall_cons; split); [..|apply Forall_nil; exact I];
      (split; [reflexivity|split; [discriminate|repeat split; vm_compute; reflexivity]]). }
  rewrite Forall_forall in Hall. exact (Hall _ E).
Qed.

Lemma RecordFromURL_roundtrip_witness :
  RecordFromURL ("/REST/" +:+ "CNAME" +:+ "Record/" +:+ "x.io" +:+ "/" +:+ "w.x.io" +:+ "/" +:+ "17") =
  Some (mkRecord "17" "x.io" "" "" "CNAME" "w.x.io" "").
Proof. apply (RecordFromURL_roundtrip "CNAME" "x.io" "w.x.io" "17"); vm_compute; reflexivity. Defined.

Lemma GetRecordID_finds_witness :
  ∃ record' err, Dynect.GetRecordID (rec "w" "2.2.2.2") stored = (Val (record', err), stored) ∧
    match err with
    | None => ∃ r, stored !! ID record' = Some r ∧ same_record (rec "w" "2.2.2.2") r ∧
        record' = mkRecord (hashKey r) (rZone (rec "w" "2.2.2.2")) (rName (rec "w" "2.2.2.2"))
          (Value (rec "w" "2.2.2.2")) (rType (rec "w" "2.2.2.2")) (FQDN (rec "w" "2.2.2.2")) (TTL (rec "w" "2.2.2.2"))
    | Some _ => record' = rec "w" "2.2.2.2" ∧ ∀ k r, stored !! k = Some r → ¬ same_record (rec "w" "2.2.2.2") r
    end.
Proof. apply (GetRecordID_finds stored (rec "w" "2.2.2.2") stored_wf); vm_compute; reflexivity. Defined.

Lemma GetRecordByName_fetches_witness : ∃ recs,
  Dynect.GetAllRecordList (rec "w" "") stored = (Val (Ok recs), stored) ∧ length recs = size stored.
Proof.
  destruct (GetRecordByName_fetches stored (rec "w" "") stored_wf) as (_&recs&E&Hl&_).
  exists recs. exact (conj E Hl).
Defined.

(** A name with a slash, as delegated reverse zones have, makes a URL that is no record's:
    the nil record is passed on, and reading the zone panics. *)
Example slash_panics :
  let r := mkRecord "" "0/25.2.0.192.in-addr.arpa" "7" "host.x.io" "PTR" "7.0/25.2.0.192.in-addr.arpa" "60" in
  (Dynect.GetAllRecordList r (<[hashKey r := r]> ∅ : gmap string Record_)).1 = Panic "nil pointer dereference".
Proof. vm_compute. reflexivity. Qed.
End DynectExamples.
