(* ===== verification/CommandLine.v ===== *)
(** The command line, as [InitFlags] of [vendor/k8s.io/apiserver/pkg/util/flag/flags.go] reads
    it: [vendor/github.com/spf13/pflag/flag.go] takes the arguments apart, and the flags are
    those of the program and those that the libraries it links have registered with Go's
    [flag] package or with [pflag], an argument here; [glog_flags] has those of
    [vendor/github.com/golang/glog]. *)

From S2P Require Import Prelude GoStrings.
From Stdlib Require Import Ascii.

(** A [pflag.Flag]: the value it has when it is given without one, if it can be, and the
    values that it accepts. *)
Record Flag := mkFlag { NoOptDefVal : string; accepts : string → bool }.

(** [strconv.ParseBool]. *)
Definition ParseBool (s : string) : option bool :=
  if bool_decide (s ∈ ["1"; "t"; "T"; "true"; "TRUE"; "True"]) then Some true
  else if bool_decide (s ∈ ["0"; "f"; "F"; "false"; "FALSE"; "False"]) then Some false
  else None.
Definition is_some {A} (o : option A) : bool := match o with Some _ => true | None => false end.

(** The flags that [StringVar] makes, and what [PFlagFromGoFlag] makes of a boolean one of
    Go and of one with a number. *)
Definition string_flag : Flag := mkFlag "" (λ _, true).
Definition bool_flag : Flag := mkFlag "true" (λ s, is_some (ParseBool s)).
Definition int_flag : Flag := mkFlag "" (λ s, is_some (ParseInt s)).

(** [WordSepNormalizeFunc]. *)
Fixpoint WordSepNormalizeFunc (name : string) : string :=
  match name with
  | "" => ""
  | String c name => String (if bool_decide (c = "_"%char) then "-"%char else c) (WordSepNormalizeFunc name)
  end.

(** [strings.SplitN(s, "=", 2)]: what is before the first equals sign, and what is behind it, if
    there is one. *)
Fixpoint cut_equals (s : string) : string * option string :=
  match s with
  | "" => ("", None)
  | String c s =>
      if bool_decide (c = "="%char) then ("", Some s)
      else let '(before, after) := cut_equals s in (String c before, after)
  end.

Section flags.
Context (flags : list (string * Flag)).

(** [f.formal] and [f.shorthands]: flags by their normalised name, where the one added first
    counts, and flags of one letter by that letter. *)
Definition formal : gmap string Flag := list_to_map (prod_map WordSepNormalizeFunc id <$> flags).
Definition shorthands : gmap string Flag := list_to_map (filter (λ nf, String.length nf.1 = 1) flags).

(** What an argument does: it is wrong, it sets flags, it sets flags and then one to the next
    argument, or it sets flags and everything behind it is dropped. *)
Inductive effect :=
  | Fails
  | Sets (given : list (string * string))
  | SetsNext (given : list (string * string)) (name : string) (flag : Flag)
  | Drops (given : list (string * string)).

(** [setFlag]. *)
Definition setFlag (name value : string) (flag : Flag) : option (string * string) :=
  if accepts flag value then Some (name, value) else None.
Definition sets (given : list (string * string)) (o : option (string * string)) : effect :=
  match o with Some nv => Sets (given ++ [nv]) | None => Fails end.

(** [parseLongArg] without the two dashes; help that is asked for ends the program like an
    unknown flag. *)
Definition parseLongArg (name : string) : effect :=
  if bool_decide (name = "") || HasPrefix name "-" || HasPrefix name "=" then Fails
  else
    let '(name, value) := cut_equals name in
    let name := WordSepNormalizeFunc name in
    match formal !! name with
    | None => Fails
    | Some flag =>
        match value with
        | Some value => sets [] (setFlag name value flag)
        | None =>
            if bool_decide (NoOptDefVal flag ≠ "") then sets [] (setFlag name (NoOptDefVal flag) flag)
            else SetsNext [] name flag
        end
    end.

(** [parseShortArg] without the dash, with [parseSingleShortArg]; one letter after the other,
    until one takes the rest or the next argument. *)
Fixpoint parseShortArg (given : list (string * string)) (letters : string) : effect :=
  match letters with
  | "" => Sets given
  | String c rest =>
      if HasPrefix letters "test." then Drops given
      else
        let name := WordSepNormalizeFunc (String c "") in
        match shorthands !! String c "" with
        | None => Fails
        | Some flag =>
            match rest with
            | String "=" (String _ _ as value) =>
                sets given (setFlag name value flag)
            | _ =>
                if bool_decide (NoOptDefVal flag ≠ "") then
                  match setFlag name (NoOptDefVal flag) flag with
                  | Some nv => parseShortArg (given ++ [nv]) rest
                  | None => Fails
                  end
                else if bool_decide (rest ≠ "") then sets given (setFlag name rest flag)
                else SetsNext given name flag
            end
        end
  end.

(** One argument of [parseArgs]; what is no flag is set aside. *)
Definition parseArg (s : string) : effect :=
  match s with
  | String "-" (String "-" "") => Drops []
  | String "-" (String "-" name) => parseLongArg name
  | String "-" (String _ _ as letters) => parseShortArg [] letters
  | _ => Sets []
  end.

(** [parseArgs]: the flags that are set, in order; an error ends the program. *)
Fixpoint parseArgs (args : list string) : option (list (string * string)) :=
  match args with
  | [] => Some []
  | s :: args =>
      match parseArg s with
      | Fails => None
      | Sets given => (given ++.) <$> parseArgs args
      | Drops given => Some given
      | SetsNext given name flag =>
          match args with
          | [] => None
          | value :: args => nv ← setFlag name value flag; ((given ++ [nv]) ++.) <$> parseArgs args
          end
      end
  end.
End flags.

(** ** The flags of glog *)

Fixpoint ToUpper (s : string) : string :=
  match s with
  | "" => ""
  | String c s =>
      let n := nat_of_ascii c in
      String (if bool_decide (97 ≤ n ≤ 122) then ascii_of_nat (n - 32) else c) (ToUpper s)
  end.

(** The [Set] methods of [severity], [moduleSpec] and [traceLocation], as far as they fail; the
    names of severities are in ASCII. *)
Definition severity_ok (s : string) : bool :=
  bool_decide (ToUpper s ∈ ["INFO"; "WARNING"; "ERROR"; "FATAL"]) || is_some (ParseInt s).
Definition vmodule_ok (s : string) : bool :=
  forallb (λ pat,
    bool_decide (pat = "") ||
    match Split "="%char pat with
    | [pattern; level] =>
        bool_decide (pattern ≠ "") && bool_decide (level ≠ "") &&
        match ParseInt level with Some v => bool_decide (0 ≤ v)%Z | None => false end
    | _ => false
    end) (Split ","%char s).
Definition backtrace_ok (s : string) : bool :=
  match Split ":"%char s with
  | [file; line] => Contains file "." && match ParseInt line with Some v => bool_decide (0 < v)%Z | None => false end
  | _ => false
  end.

Definition glog_flags : list (string * Flag) := [
  ("alsologtostderr", bool_flag); ("log_backtrace_at", mkFlag "" backtrace_ok); ("log_dir", string_flag);
  ("logtostderr", bool_flag); ("stderrthreshold", mkFlag "" severity_ok); ("v", int_flag); ("vmodule", mkFlag "" vmodule_ok)
].

(** ** Facts *)

(** The value of a flag: the last one given, or else the default. *)
Fixpoint flag_value (name : string) (given : list (string * string)) (default : string) : string :=
  match given with
  | [] => default
  | (n, v) :: given => flag_value name given (if decide (n = name) then v else default)
  end.

Lemma cut_equals_app n v : free_of "="%char n = true → cut_equals (n +:+ "=" +:+ v) = (n, Some v).
Proof.
  unfold free_of. induction n as [|c n IH]; [done|]. cbn [String.list_ascii_of_string forallb].
  intros [Hc Hn]%andb_true_iff. change (String c n +:+ "=" +:+ v) with (String c (n +:+ "=" +:+ v)). cbn [cut_equals].
  rewrite bool_decide_eq_false_2 by (by apply bool_decide_eq_true in Hc || intros ->; done). by rewrite IH.
Qed.

(** Arguments of the form [--name=value] set these flags to these values, when the values are
    accepted. *)
Lemma parseArgs_long flags (given : list (string * string)) :
  Forall (λ nv, nv.1 ≠ "" ∧ HasPrefix nv.1 "-" = false ∧ free_of "="%char nv.1 = true ∧
    ∃ flag, formal flags !! WordSepNormalizeFunc nv.1 = Some flag ∧ accepts flag nv.2 = true) given →
  parseArgs flags ((λ nv, "--" +:+ nv.1 +:+ "=" +:+ nv.2) <$> given) = Some (prod_map WordSepNormalizeFunc id <$> given).
Proof.
  induction 1 as [|[n v] given (Hn&Hd&He&flag&Hf&Ha) _ IH]; [done|]. cbn [fst snd] in *. rewrite !fmap_cons. cbn [parseArgs fst snd].
  assert (parseArg flags ("--" +:+ n +:+ "=" +:+ v) = Sets [(WordSepNormalizeFunc n, v)]) as ->; [|by rewrite IH].
  destruct n as [|c n]; [done|].
  change (parseLongArg flags (String c n +:+ "=" +:+ v) = Sets [(WordSepNormalizeFunc (String c n), v)]).
  unfold parseLongArg. rewrite bool_decide_eq_false_2 by done.
  assert (∀ d x y, HasPrefix (String c x) (String d "") = HasPrefix (String c y) (String d "")) as Hfirst.
  { intros d x y. unfold HasPrefix. cbn. by case_bool_decide. }
  change (String c n +:+ "=" +:+ v) with (String c (n +:+ "=" +:+ v)). rewrite (Hfirst "-"%char _ n), (Hfirst "="%char _ n), Hd.
  change (String c (n +:+ "=" +:+ v)) with (String c n +:+ "=" +:+ v).
  assert (HasPrefix (String c n) "=" = false) as ->.
  { unfold free_of in He. cbn in He. apply andb_true_iff in He as [Hc%bool_decide_eq_true _].
    unfold HasPrefix. cbn. by rewrite bool_decide_eq_false_2. }
  rewrite cut_equals_app by done. cbn [orb]. rewrite Hf. unfold setFlag. by rewrite Ha.
Qed.

Module CommandLineExamples.
Definition flags : list (string * Flag) := ("domain", string_flag) :: ("version", bool_flag) :: glog_flags.

(** The forms of a flag: with its value behind an equals sign or as the next argument, a
    boolean one without a value, one letter with one dash; the last value counts, what is no
    flag is left aside, and nothing behind two dashes is read. *)
Example forms :
  parseArgs flags ["--v=4"; "--domain"; "a.io"; "-v5"; "-v=6"; "-v"; "7"; "x"; "--version"; "--log_dir=/tmp"; "--"; "--no"] =
    Some [("v", "4"); ("domain", "a.io"); ("v", "5"); ("v", "6"); ("v", "7"); ("version", "true"); ("log-dir", "/tmp")] ∧
  parseArgs flags ["--version=0"; "--stderrthreshold=error"; "--vmodule=a=1,b=2"] =
    Some [("version", "0"); ("stderrthreshold", "error"); ("vmodule", "a=1,b=2")] ∧
  parseArgs flags ["-domain"; "a.io"] = None ∧ parseArgs flags ["--domain"] = None ∧ parseArgs flags ["--v=many"] = None ∧
  parseArgs flags ["--help"] = None ∧ parseArgs flags ["--=x"] = None ∧
  (* An argument of the form [-test.…] hides all that follow. *)
  parseArgs flags ["--v=4"; "-test.v"; "--domain=a.io"; "--no"] = Some [("v", "4")].
Proof. vm_compute. repeat split; reflexivity. Qed.
End CommandLineExamples.
