(* ===== verification/Startup.v ===== *)
(** From the command line to the running controllers: [cmd/ingresscontroller/main.go], the
    options of [pkg/controller/ingress/options/options.go], the registry of DNS providers
    [federation/pkg/dnsprovider/plugins.go], and [StartFederatedIngressController] and
    [NewIngressDNSController] of [pkg/controller/ingress/dns/dns.go].

    Opening a file, [gcfg.ReadInto] and [clientcmd.BuildConfigFromFlags] are arguments, and so
    are the flags that the libraries register ([CommandLine.v] reads the command line); the
    client configuration is the API servers it leads to. *)

From S2P Require Import Prelude GoStrings CommandLine KubeTypes Updater IngressController Cloud Wiring DnsProvider Dyndns DynStubs DnsUtil IngressDns IngressDnsFacts DyndnsFacts.
From Stdlib Require Import Ascii.

(** ** Options *)

Record FederatedIngressControllerOptions := mkFICO {
  FkubeApiServer : string;
  FkubeName : string;
  DnsProvider : string;
  DnsProviderConfig : string;
  Domain : string;
  IngressDnsSuffix : string
}.

(** [NewFICO]. *)
Definition NewFICO : FederatedIngressControllerOptions :=
  mkFICO "https://mkube-apiserver" "akube" "aws-route53" "" "d1.example.com" "ing".

(** A flag made by [StringVar]: where its value goes. *)
Record StringVar := mkStringVar {
  flag_get : FederatedIngressControllerOptions → string;
  flag_set : string → FederatedIngressControllerOptions → FederatedIngressControllerOptions
}.

(** [AddFlags]. *)
Definition AddFlags : list (string * StringVar) := [
  ("dnsProvider", mkStringVar DnsProvider (λ v o, mkFICO (FkubeApiServer o) (FkubeName o) v (DnsProviderConfig o) (Domain o) (IngressDnsSuffix o)));
  ("dnsProviderConfig", mkStringVar DnsProviderConfig (λ v o, mkFICO (FkubeApiServer o) (FkubeName o) (DnsProvider o) v (Domain o) (IngressDnsSuffix o)));
  ("domain", mkStringVar Domain (λ v o, mkFICO (FkubeApiServer o) (FkubeName o) (DnsProvider o) (DnsProviderConfig o) v (IngressDnsSuffix o)));
  ("fkubeApiServer", mkStringVar FkubeApiServer (λ v o, mkFICO v (FkubeName o) (DnsProvider o) (DnsProviderConfig o) (Domain o) (IngressDnsSuffix o)));
  ("fkubeName", mkStringVar FkubeName (λ v o, mkFICO (FkubeApiServer o) v (DnsProvider o) (DnsProviderConfig o) (Domain o) (IngressDnsSuffix o)));
  ("ingressDnsSuffix", mkStringVar IngressDnsSuffix (λ v o, mkFICO (FkubeApiServer o) (FkubeName o) (DnsProvider o) (DnsProviderConfig o) (Domain o) v))
].

(** What the flags that were set do to the options: those of the libraries and [--version]
    nothing. *)
Fixpoint set_options (given : list (string * string)) (o : FederatedIngressControllerOptions) : FederatedIngressControllerOptions :=
  match given with
  | [] => o
  | (name, value) :: given =>
      set_options given
        match (list_to_map AddFlags : gmap string StringVar) !! name with
        | Some flag => flag_set flag value o
        | None => o
        end
  end.

(** ** The registry of providers *)

Section registry.
Context {St Interface : Type}.

(** [Factory]: it is given the configuration file, if there is one. *)
Definition Factory : Type := option string → M St (result (option Interface)).

(** [RegisterDnsProvider]; registering a name twice ends the program. *)
Definition RegisterDnsProvider (name : string) (cloud : Factory) (providers : gmap string Factory) :
    option (gmap string Factory) :=
  match providers !! name with
  | Some _ => None
  | None => Some (<[name := cloud]> providers)
  end.

(** [GetDnsProvider]: nil without an error when the name is not known. *)
Definition GetDnsProvider (name : string) (config : option string) (providers : gmap string Factory) :
    M St (result (option Interface)) :=
  match providers !! name with
  | None => mret (Ok None)
  | Some f => f config
  end.

(** [InitDnsProvider]. *)
Definition InitDnsProvider (os_Open : string → result string) (name configFilePath : string)
    (providers : gmap string Factory) : M St (result (option Interface)) :=
  let checked (m : M St (result (option Interface))) : M St (result (option Interface)) :=
    r ← m;
    mret (match r with
          | Err err => Err (Errorf ("could not init DNS provider " +:+ name +:+ ": " +:+ error_string err))
          | Ok None => Err (Errorf ("unknown DNS provider " +:+ name))
          | Ok (Some dns) => Ok (Some dns)
          end) in
  if bool_decide (name = "") then mret (Ok None)
  else if bool_decide (configFilePath ≠ "") then
    match os_Open configFilePath with
    | Err err => mret (Err (Errorf ("Couldn't open DNS provider configuration " +:+ configFilePath +:+ ": " +:+ error_string err)))
    | Ok config => checked (GetDnsProvider name (Some config) providers)
    end
  else checked (GetDnsProvider name None providers).
End registry.
Arguments Factory St Interface : clear implicits.

(** ** Starting the DNS controller *)

Section start.
Context {St Zones Zone : Type} `{ProviderZones St Zones Zone} `{SliceSort}.
Context (os_Open : string → result string) (providers : gmap string (Factory St (option Zones))).

(** [NewIngressDNSController]. *)
Definition NewIngressDNSController (dnsProvider dnsProviderConfig federationName ingressDNSSuffix domain : string) :
    M St (result (IngressDNSController Zone)) :=
  r ← InitDnsProvider os_Open dnsProvider dnsProviderConfig providers;
  match r with
  | Err err => mret (Err err)
  | Ok dns => newIngressDNSController dns federationName ingressDNSSuffix domain
  end.

(** [StartFederatedIngressController], up to running the controller it made; an error ends
    the program. *)
Definition StartFederatedIngressController (options : FederatedIngressControllerOptions) :
    M St (result (IngressDNSController Zone)) :=
  NewIngressDNSController (DnsProvider options) (DnsProviderConfig options) (FkubeName options)
    (IngressDnsSuffix options) (Domain options).
End start.

(** [ProviderName] and the factory that [init] of [dyndns.go] registers under it. *)
Definition ProviderName : string := "dyndns".
Definition dyndns_factory {St} `{DynDNSAPI St} (gcfg : string → result Config) : Factory St (option Dyndns.Zones) :=
  λ config,
    r ← newProvider (gcfg <$> config);
    mret (match r with Err e => Err e | Ok zones => Ok (Some (Some zones)) end).

(** ** The program *)

(** How [main] ends: with an exit status, by [glog.Fatalf], or not at all, with the two
    controllers it runs. *)
Inductive program (W Zone : Type) :=
  | Exits (status : Z)
  | Fatal (err : error)
  | Runs (ic : IngressController W) (idc : IngressDNSController Zone).
Arguments Exits {W Zone} status.
Arguments Fatal {W Zone} err.
Arguments Runs {W Zone} ic idc.

Section main.
Context {W : Type} `{K : Kubernetes W, GoMapOrder, Schedule}.
Context {St Zones Zone : Type} `{ProviderZones St Zones Zone} `{SliceSort}.
Context (os_Open : string → result string) (providers : gmap string (Factory St (option Zones))).
Context (BuildConfigFromFlags : string → string → option W * option error).

(** [startController]: the ingress controller is started first and goes on by itself. *)
Definition startController (restClientCfg : W) (options : FederatedIngressControllerOptions) : M St (program W Zone) :=
  let ic := NewIngressController restClientCfg in
  r ← StartFederatedIngressController os_Open providers options;
  match r with
  | Err err => mret (Fatal err)
  | Ok idc => mret (Runs ic idc)
  end.

(** [run]: it returns only when there is no client configuration, with the error if there is
    one. *)
Definition kubeconfig : string := "/etc/federation/controller-manager/kubeconfig".
Definition run (options : FederatedIngressControllerOptions) : M St (option error + program W Zone) :=
  match BuildConfigFromFlags (FkubeApiServer options) kubeconfig with
  | (Some restClientCfg, None) => p ← startController restClientCfg options; mret (inr p)
  | (_, err) => mret (inl err)
  end.

(** The flags of the command line: those of [AddFlags], and those of Go's [flag] package, where
    [main] adds [version] to those of the libraries; a name that [AddFlags] has is not added
    again. *)
Context (library_flags : list (string * CommandLine.Flag)).
Definition main_flags : list (string * CommandLine.Flag) :=
  ((λ nf, (nf.1, string_flag)) <$> AddFlags) ++ ("version", bool_flag) :: library_flags.

(** [main], with the arguments behind the name of the program; [pflag] ends it with status 2
    when it cannot read them, or when it is asked for help. *)
Definition main (args : list string) : M St (program W Zone) :=
  match parseArgs main_flags args with
  | None => mret (Exits 2)
  | Some given =>
      let options := set_options given NewFICO in
      let version := default false (ParseBool (flag_value "version" given "false")) in
      if version then mret (Exits 0)
      else
        r ← run options;
        match r with
        | inl (Some err) => mret (Exits 1)
        | inl None => mret (Exits 0)
        | inr p => mret p
        end
  end.

Lemma main_runs args ic idc (s s' : St) :
  main args s = (Val (Runs ic idc), s') →
  ∃ given w, parseArgs main_flags args = Some given ∧ ParseBool (flag_value "version" given "false") ≠ Some true ∧
    let o := set_options given NewFICO in
    BuildConfigFromFlags (FkubeApiServer o) kubeconfig = (Some w, None) ∧ ic = NewIngressController w ∧
    StartFederatedIngressController os_Open providers o s = (Val (Ok idc), s').
Proof.
  unfold main. destruct (parseArgs main_flags args) as [given|]; [|done]. cbv zeta.
  destruct (default false _) eqn:Ev; [done|].
  intros (r&s1&Hr&Hp)%bind_val_inv. exists given. unfold run in Hr.
  destruct (BuildConfigFromFlags _ _) as [[w|] [e|]] eqn:Eb;
    try (cbv [mret M_ret] in Hr; injection Hr as <- <-; done).
  exists w. split; [done|]. split; [by intros E; rewrite E in Ev|]. split; [done|].
  apply bind_val_inv in Hr as (p&s2&Hs&Hr). cbv [mret M_ret] in Hr, Hp. injection Hr as <- <-. injection Hp as -> <-.
  unfold startController in Hs. apply bind_val_inv in Hs as (r&s3&Hs&Hr). destruct r; [|done].
  cbv [mret M_ret] in Hr. by injection Hr as <- <- <-.
Qed.
End main.

(** ** Facts *)

Lemma set_options_get given o name flag :
  (name, flag) ∈ AddFlags → flag_get flag (set_options given o) = flag_value name given (flag_get flag o).
Proof.
  intros Hin. revert o. induction given as [|[n v] given IH]; intros o; [done|]. cbn [set_options flag_value].
  rewrite IH. f_equal. destruct ((list_to_map AddFlags : gmap string StringVar) !! n) as [g|] eqn:Hg.
  - assert ((n, g) ∈ AddFlags) as Hgin by (by apply elem_of_list_to_map_2 in Hg).
    clear -Hin Hgin. unfold AddFlags in *.
    repeat (apply elem_of_cons in Hin as [[= -> ->]|Hin]); try (by apply not_elem_of_nil in Hin);
      repeat (apply elem_of_cons in Hgin as [[= -> ->]|Hgin]); try (by apply not_elem_of_nil in Hgin); reflexivity.
  - rewrite decide_False; [done|]. intros ->. apply not_elem_of_list_to_map in Hg. apply Hg.
    apply list_elem_of_fmap. by exists (name, flag).
Qed.

Lemma InitDnsProvider_ok {St Interface} os_Open name path (providers : gmap string (Factory St Interface)) s dns s' :
  InitDnsProvider os_Open name path providers s = (Val (Ok dns), s') →
  (name = "" ∧ dns = None ∧ s' = s) ∨
  ∃ f d, name ≠ "" ∧ providers !! name = Some f ∧ dns = Some d ∧
    ((path = "" ∧ f None s = (Val (Ok (Some d)), s')) ∨
     ∃ config, path ≠ "" ∧ os_Open path = Ok config ∧ f (Some config) s = (Val (Ok (Some d)), s')).
Proof.
  unfold InitDnsProvider, GetDnsProvider. cbv zeta. case_bool_decide as Hn.
  { intros E. ret_inv E. by left. }
  assert (∀ c, (r ← match providers !! name with Some f => f c | None => mret (Ok None) end;
      mret (match r with
            | Err err => Err (Errorf ("could not init DNS provider " +:+ name +:+ ": " +:+ error_string err))
            | Ok None => Err (Errorf ("unknown DNS provider " +:+ name))
            | Ok (Some dns) => Ok (Some dns) end)) s = (Val (Ok dns), s') →
    ∃ f d, providers !! name = Some f ∧ dns = Some d ∧ f c s = (Val (Ok (Some d)), s')) as Hchk.
  { intros c (r&s1&Hf&E)%bind_val_inv. cbv [mret M_ret] in E. destruct r as [[d|]|e]; [|done|done].
    injection E as <- <-. destruct (providers !! name) as [f|]; [by exists f, d|done]. }
  case_bool_decide as Hp.
  - destruct (os_Open path) as [config|e]; [|done]. intros (f&d&?&?&?)%Hchk. right. exists f, d.
    split_and!; try done. right. by exists config.
  - intros (f&d&?&?&?)%Hchk. right. exists f, d. split_and!; try done. left. split; [|done]. by destruct (decide (path = "")).
Qed.

(** The name of a zone occurs in the domain, up to a dot at the end. *)
Definition name_occurs (domain name : string) : Prop := Contains (TrimSuffix domain ".") (TrimSuffix name ".") = true.

(** ** Properties *)

(** C22: from the command line to the running controllers: when the program runs, whatever
    flags the libraries have and in whatever forms the arguments are given, and the provider
    asked for is DynDNS, then the program was not asked for its version, the client
    configuration for the API server asked for could be built and a new ingress controller
    runs on it; the DynDNS configuration file could be read and names zones, a customer, a
    user and a password that DynDNS accepts; the DNS controller's federation, domain and
    suffix are the last ones given on the command line, or the defaults; and its zone is one
    of the configured zones, the longest one that occurs in the domain. *)
Theorem startup_dyndns {W} `{K : Kubernetes W, GoMapOrder, Schedule} {St} `{DynDNSAPI St, SliceSort}
    (os_Open : string → result string) (gcfg : string → result Config)
    (providers : gmap string (Factory St (option Dyndns.Zones))) (build : string → string → option W * option error)
    (library_flags : list (string * CommandLine.Flag)) (args : list string) (given : list (string * string))
    (s s' : St) (ic : IngressController W) (c : IngressDNSController Dyndns.Zone) :
  providers !! ProviderName = Some (dyndns_factory gcfg) →
  parseArgs (main_flags library_flags) args = Some given → flag_value "dnsProvider" given "aws-route53" = ProviderName →
  main os_Open providers build library_flags args s = (Val (Runs ic c), s') →
  ParseBool (flag_value "version" given "false") ≠ Some true ∧
  (∃ w, build (flag_value "fkubeApiServer" given "https://mkube-apiserver") kubeconfig = (Some w, None) ∧
     ic = NewIngressController w) ∧
  federationName c = flag_value "fkubeName" given "akube" ∧
  IngressDns.domain c = flag_value "domain" given "d1.example.com" ∧
  (let suffix := flag_value "ingressDnsSuffix" given "ing" in
   ingressDNSSuffix c = if bool_decide (suffix = "") then "ing" else suffix) ∧
  ∃ file cfg, os_Open (flag_value "dnsProviderConfig" given "") = Ok file ∧ gcfg file = Ok cfg ∧
    (DNSZones cfg ≠ "" ∧ Customer cfg ≠ "" ∧ User cfg ≠ "" ∧ Password cfg ≠ "") ∧
    Login (User cfg) (Password cfg) s = (Val None, s') ∧
    let names := Split comma (DNSZones cfg) in
    Dyndns.domain (dnsZone c) ∈ names ∧ name_occurs (IngressDns.domain c) (Dyndns.domain (dnsZone c)) ∧
    ∀ n, n ∈ names → name_occurs (IngressDns.domain c) n → String.length n ≤ String.length (Dyndns.domain (dnsZone c)).
Proof.
  intros Hreg Hargs Hprov (given'&w&Hargs'&Hver&Hbuild&Hic&Hstart)%main_runs.
  rewrite Hargs in Hargs'. injection Hargs' as <-. set (o := set_options given NewFICO) in *.
  assert (∀ i name flag, AddFlags !! i = Some (name, flag) → flag_get flag o = flag_value name given (flag_get flag NewFICO)) as Hflag
    by (intros i name flag Hi%list_elem_of_lookup_2; by apply set_options_get).
  pose proof (Hflag 0 _ _ eq_refl) as F0.
  pose proof (Hflag 1 _ _ eq_refl) as F1.
  pose proof (Hflag 2 _ _ eq_refl) as F2.
  pose proof (Hflag 3 _ _ eq_refl) as F3.
  pose proof (Hflag 4 _ _ eq_refl) as F4.
  pose proof (Hflag 5 _ _ eq_refl) as F5.
  cbn [flag_get NewFICO DnsProvider DnsProviderConfig Domain FkubeName FkubeApiServer IngressDnsSuffix] in *.
  rewrite <-F1, <-F2, <-F3, <-F4, <-F5. rewrite <-F0 in Hprov. clear Hflag F0 F1 F2 F3 F4 F5.
  clearbody o. split; [done|]. split; [by exists w|].
  unfold StartFederatedIngressController, NewIngressDNSController in Hstart.
  apply bind_val_inv in Hstart as (r&s1&Hinit&Hnew). destruct r as [dns|e]; [|done].
  apply InitDnsProvider_ok in Hinit as [(Hnone&_)|(f&d&_&Hf&->&Hcfg)]; [rewrite Hprov in Hnone; discriminate|].
  assert (Some f = Some (dyndns_factory gcfg)) as [= ->] by (rewrite <-Hf, Hprov; exact Hreg). clear Hf.
  assert (∀ config, dyndns_factory gcfg config s = (Val (Ok (Some d)), s1) →
    ∃ zones, d = Some zones ∧ newProvider (gcfg <$> config) s = (Val (Ok zones), s1)) as Hfac.
  { intros config (r&s2&Hp&E)%bind_val_inv. cbv [mret M_ret] in E. destruct r as [zones|e]; [|done].
    injection E as <- <-. by exists zones. }
  apply newIngressDNSController_starts in Hnew as (_&_&Hfed&Hdom&Hsuf&zs&zones&s2&[= ->]&Hlist&Hzone).
  split; [done|]. split; [done|]. split; [done|].
  destruct Hcfg as [[_ Hfile]|(file&_&Hopen&Hfile)]; apply Hfac in Hfile as (zones'&[= ->]&Hp);
    apply newProvider_ok in Hp as (cfg&Hcfg&Hne&Hlogin&Hzones); [done|]. cbn in Hcfg. injection Hcfg as Hcfg.
  exists file, cfg. cbn in Hlist. cbv [mret M_ret Zones_List] in Hlist. injection Hlist as <- <-.
  destruct Hzone as [(<-&Hin&Hocc&Hmax)|(_&Hz)]; [|done].
  split; [done|]. split; [done|]. split; [done|]. split; [done|]. cbv zeta.
  assert (Split comma (DNSZones cfg) = Dyndns.domain <$> zones') as Hnames by (by rewrite Hzones, make_zones_domains).
  rewrite Hnames. rewrite Hdom. split; [by apply list_elem_of_fmap_2|]. split; [exact Hocc|].
  intros n (z&->&Hz)%list_elem_of_fmap Hn. by apply Hmax.
Qed.

Module StartupExamples.
#[local] Existing Instance DynStubs.DynDNSAPIStub.api.
#[local] Existing Instance DnsUtilExamples.merge.
Abbreviation St := DynStubs.DynDNSAPIStub.St.

(** A file system with one file, whose text stands for its settings. *)
Definition os_Open (path : string) : result string :=
  if bool_decide (path = "/etc/federation/dns-provider-config/dyn.conf") then Ok "settings" else Err (Errorf "no such file").
Definition gcfg (file : string) : result Config := Ok (mkConfig "io,x.io,y.io" "c" "foo" "bar").
Definition providers : gmap string (Factory St (option Dyndns.Zones)) := {[ ProviderName := dyndns_factory (St := St) gcfg ]}.

(** The arguments of [deploy/helm/federated-ingress-controller/templates/deployment.yaml]. *)
Definition args : list string :=
  ["--v=4"; "--dnsProvider=dyndns"; "--dnsProviderConfig=/etc/federation/dns-provider-config/dyn.conf";
   "--fkubeApiServer=https://fed"; "--fkubeName=federation"; "--domain=a.x.io"].
Definition given : list (string * string) :=
  [("v", "4"); ("dnsProvider", "dyndns"); ("dnsProviderConfig", "/etc/federation/dns-provider-config/dyn.conf");
   ("fkubeApiServer", "https://fed"); ("fkubeName", "federation"); ("domain", "a.x.io")].
Definition started : IngressDNSController Dyndns.Zone := mkController "federation" "ing" "a.x.io" (mkZone "x.io" "1").

(** API servers that can be reached under one address only. *)
Definition servers : cloud := mkCloud ∅ ∅ ∅ ∅ false.
Definition build (master path : string) : option cloud * option error :=
  if bool_decide (master = "https://fed") then (Some servers, None) else (None, Some (Errorf "invalid configuration")).

Lemma startup_dyndns_witness :
  ParseBool (flag_value "version" given "false") ≠ Some true ∧
  (∃ w, build (flag_value "fkubeApiServer" given "https://mkube-apiserver") kubeconfig = (Some w, None) ∧
     NewIngressController servers = NewIngressController w) ∧
  federationName started = flag_value "fkubeName" given "akube" ∧
  IngressDns.domain started = flag_value "domain" given "d1.example.com" ∧
  (let suffix := flag_value "ingressDnsSuffix" given "ing" in
   ingressDNSSuffix started = if bool_decide (suffix = "") then "ing" else suffix) ∧
  ∃ file cfg, os_Open (flag_value "dnsProviderConfig" given "") = Ok file ∧ gcfg file = Ok cfg ∧
    (DNSZones cfg ≠ "" ∧ Customer cfg ≠ "" ∧ User cfg ≠ "" ∧ Password cfg ≠ "") ∧
    Login (User cfg) (Password cfg) (∅ : St) = (Val None, ∅) ∧
    let names := Split comma (DNSZones cfg) in
    Dyndns.domain (dnsZone started) ∈ names ∧ name_occurs (IngressDns.domain started) (Dyndns.domain (dnsZone started)) ∧
    ∀ n, n ∈ names → name_occurs (IngressDns.domain started) n → String.length n ≤ String.length (Dyndns.domain (dnsZone started)).
Proof.
  apply (startup_dyndns os_Open gcfg providers build glog_flags args given ∅ ∅ (NewIngressController servers) started).
  - vm_compute. reflexivity.
  - vm_compute. reflexivity.
  - vm_compute. reflexivity.
  - vm_compute. reflexivity.
Defined.

(** Without arguments the provider is one that is not in this registry; a name that is not
    given at all is found out later. *)
Example defaults :
  StartFederatedIngressController os_Open providers NewFICO (∅ : St) =
    (Val (Err (Errorf "unknown DNS provider aws-route53")), ∅) ∧
  StartFederatedIngressController os_Open providers (mkFICO "" "f" "" "" "d" "") (∅ : St) =
    (Val (Err (Errorf "DNSController should not be run without a dnsprovider")), ∅).
Proof. vm_compute. repeat split; reflexivity. Qed.

(** How the program ends: asked for its version, with an unknown flag or a wrong value, without
    API servers, without a provider. *)
Definition ends (args : list string) : outcome (program cloud Dyndns.Zone) := (main os_Open providers build glog_flags args (∅ : St)).1.
Example endings :
  ends ["--version"; "--v=4"] = Val (Exits 0) ∧ ends ["--dnsProvder=dyndns"] = Val (Exits 2) ∧
  ends ["--v=x"] = Val (Exits 2) ∧ ends ["--fkubeApiServer"; "x"] = Val (Exits 1) ∧
  ends ["-v"; "4"; "--fkubeApiServer=https://fed"] = Val (Fatal (Errorf "unknown DNS provider aws-route53")).
Proof. vm_compute. repeat split; reflexivity. Qed.
End StartupExamples.
