(* ===== verification/EndToEnd.v ===== *)
(** From load balancers to DNS records: the two controllers together.  The ingress
    controller ([IngressController.v]) collects the load balancer status of every cluster
    and writes it into an annotation of the federated ingress; the DNS controller
    ([IngressDns.v]) reads the annotation and writes the DNS records.  They meet only in the
    API server of the federation, in that annotation and in the clusters' zones and
    regions. *)

From S2P Require Import Prelude GoStrings Json KubeTypes LbStatus ClusterSelector FedInformer Updater Deletion Backoff Deliverer IngressController Cloud IngressControllerFacts DnsProvider DnsUtil IngressDns IngressDnsFacts IngressDnsProcess.

Section pipeline.
Context `{K : Kubernetes W, GoMapOrder, Schedule}.
Context {St Zone RRset CS : Type} `{Z : ZoneRrsets St Zone RRset CS} `{!ZoneLaws St Zone RRset CS}
  `{Resolver} `{StableClusters St} `{O : MapOrder}.
Context (ic : IngressController W) (ingress : NamespacedName) (base : Ingress) (cs : list Cluster).

(** A ready cluster that holds the ingress with a load balancer. *)
Definition reports (c : Cluster) (ci : Ingress) : Prop :=
  c ∈ cs ∧ sent base c = Ok true ∧ held ic ingress c = Some (Typed ci) ∧ LBIngress (ing_status ci) ≠ [].

(** The addresses of the ingress in the clusters with [P]. *)
Definition shard (P : Cluster → Prop) (a : string) : Prop :=
  ∃ c ci lb, reports c ci ∧ P c ∧ lb ∈ LBIngress (ing_status ci) ∧ a = lb_address lb.

(** The DNS controller reads the clusters that the informer has, each in one zone; their
    load balancers have addresses that can be used. *)
Record dns_view : Prop := {
  dv_registry : ∀ c, c ∈ cs → registry (cl_name c) = Ok c;
  dv_zone : ∀ c, c ∈ cs → ∃ zone, Zones c = Some [zone] ∧ dotless zone ∧ dotless (Region c);
  dv_name : ∀ c, c ∈ cs → ascii_string (cl_name c) = true;
  dv_plain : ∀ c ci, reports c ci → plain_lbs (ing_status ci) = true;
  dv_address : ∀ c ci lb, reports c ci → lb ∈ LBIngress (ing_status ci) →
    lb_address lb ≠ "" ∧ resolvable (lb_address lb)
}.

(** The statuses that are collected. *)
Definition collected (lb : gmap string (list LoadBalancerStatus)) : Prop :=
  ∀ n l, lb !! n = Some l ↔ ∃ c ci, reports c ci ∧ cl_name c = n ∧ l = [ing_status ci].

Context (D : dns_view) (lb : gmap string (list LoadBalancerStatus)) (L : collected lb).

Lemma collected_plain : plain_lb_map lb.
Proof.
  intros n l (c&ci&Hrep&<-&->)%L. split; [apply (dv_name D), Hrep|].
  cbn [forallb]. by rewrite (dv_plain D c ci Hrep).
Qed.

Lemma lb_in_collected n b :
  lb_in (map_to_list lb) n b ↔ ∃ c ci, reports c ci ∧ cl_name c = n ∧ b ∈ LBIngress (ing_status ci).
Proof.
  unfold lb_in. split.
  - intros (l&st&(c&ci&Hrep&<-&->)%elem_of_map_to_list%L&Hst&Hb). apply list_elem_of_singleton in Hst as ->. eauto.
  - intros (c&ci&Hrep&<-&Hb). exists [ing_status ci], (ing_status ci).
    split_and!; [apply elem_of_map_to_list, L; eauto|by apply list_elem_of_singleton|done].
Qed.

Lemma addresses_collected P a : addresses (map_to_list lb) P a ↔ shard P a.
Proof.
  unfold addresses. split.
  - intros (n&b&cl&(c&ci&Hrep&<-&Hb)%lb_in_collected&Hr&HP&->). exists c, ci, b.
    rewrite (dv_registry D c) in Hr by apply Hrep. by injection Hr as <-.
  - intros (c&ci&b&Hrep&HP&Hb&->). exists (cl_name c), b, c.
    split_and!; [apply lb_in_collected; eauto|apply (dv_registry D), Hrep|done..].
Qed.

Lemma reports_dom c ci : reports c ci → cl_name c ∈ dom lb.
Proof. intros Hrep. apply elem_of_dom. eexists. apply L. eauto. Qed.

Lemma published_publishable published :
  DeletionTimestamp (ing_meta published) = None → wantsDNSRecords published = true →
  parseGlobalLbStatusAnnotation published = Ok (Some lb) → publishable (St := St) published lb.
Proof.
  intros Hd Hw Hp. split; [done..| | |].
  - intros n b (c&ci&Hrep&_&Hb)%lb_in_collected. by apply (dv_address D c ci b).
  - intros a (c&ci&b&Hrep&_&Hb&->)%addresses_collected. by apply (dv_address D c ci b).
  - intros n [l (c&ci&Hrep&<-&_)%L]%elem_of_dom. destruct (dv_zone D c) as (zone&Hz); [apply Hrep|].
    exists c, zone. split; [apply (dv_registry D), Hrep|done].
Qed.

(** The names of a cluster lead to the addresses in its zone, in its region and in all
    clusters. *)
Definition served (idc : IngressDNSController Zone) (s : St) (c : Cluster) : Prop :=
  ∃ zone z r g, Zones c = Some [zone] ∧
    (∀ a, (a ∈ z ↔ shard (λ c', zone ∈ default [] (Zones c')) a) ∧
          (a ∈ r ↔ shard (λ c', Region c' = Region c) a) ∧ (a ∈ g ↔ shard (λ _, True) a)) ∧
    ensured s (dnsZone idc) (zone_dns idc base zone (Region c)) z (region_dns idc base (Region c)) ∧
    ensured s (dnsZone idc) (region_dns idc base (Region c)) r (global_dns idc base) ∧
    ensured s (dnsZone idc) (global_dns idc base) g "".

Lemma shard_iff (P Q : Cluster → Prop) a : (∀ c, P c ↔ Q c) → shard P a ↔ shard Q a.
Proof. intros HPQ. unfold shard. by setoid_rewrite HPQ. Qed.

Lemma placed_served idc published s c :
  nn_of_meta (ing_meta published) = nn_of_meta (ing_meta base) → c ∈ cs →
  placed idc published lb s (cl_name c) → served idc s c.
Proof.
  intros [= Hns Hn] Hc (cl&zone&[[z r] g]&(Hr&Hz&_)&He&P1&P2&P3).
  rewrite (dv_registry D c Hc) in Hr. injection Hr as <-.
  unfold zone_dns, region_dns, global_dns, commonPrefix in P1, P2, P3. rewrite Hns, Hn in P1, P2, P3.
  exists zone, z, r, g. split; [done|]. split; [|done].
  intros a. destruct (He a) as (->&->&->). rewrite !addresses_collected. split; [|done].
  apply shard_iff. intros c'. unfold shares_zone. set_solver.
Qed.
End pipeline.

(** A status on a cluster goes to the federated ingress before the loop goes on. *)
Lemma continues_status `{K : Kubernetes W, GoMapOrder, Schedule} (ic : IngressController W) ingress base cs c ci :
  continues ic ingress base c → reports ic ingress base cs c ci → wantsDNSRecords base = true.
Proof.
  intros (op&st&E) (_&Hs&Hh&Hlb). unfold classify in E. rewrite Hs, Hh in E.
  destruct (decide _); [done|]. unfold wantsDNSRecords. rewrite lb_exists_length.
  destruct (lb_exists base); [done|]. unfold lb_exists in E. by rewrite bool_decide_eq_true_2 in E.
Qed.

Lemma annotate_keeps ingress key value :
  nn_of_meta (ing_meta (annotate ingress key value)) = nn_of_meta (ing_meta ingress) ∧
  DeletionTimestamp (ing_meta (annotate ingress key value)) = DeletionTimestamp (ing_meta ingress) ∧
  wantsDNSRecords (annotate ingress key value) = wantsDNSRecords ingress.
Proof. done. Qed.

(** ** Properties *)

(** C2: the addresses of the load balancers reach the DNS: when a review gets through its
    loop, the federated ingress either says already what the clusters report, or the review
    ends by writing it; and once a worker of the DNS controller has processed that ingress,
    the zone, region and global name of every cluster that reports a load balancer hold
    exactly the addresses that the clusters of the zone, of the region and of the federation
    report. *)
Theorem status_reaches_dns `{K : Kubernetes W, GoMapOrder, Schedule}
    {St Zone RRset CS : Type} `{Z : ZoneRrsets St Zone RRset CS} `{!ZoneLaws St Zone RRset CS}
    `{Resolver} `{StableClusters St} `{O : MapOrder}
    (ic : IngressController W) (ingress : NamespacedName) (base : Ingress) (cs : list Cluster)
    (idc : IngressDNSController Zone) (I : St → Prop) :
  clusters_wf (clusterStore (ingressFederatedInformer ic)) →
  GetReadyClusters (ingressFederatedInformer ic) = Ok cs → (∀ c, c ∈ cs → continues ic ingress base c) →
  DeletionTimestamp (ing_meta base) = None →
  dns_view (St := St) ic ingress base cs → provider_up I (dnsZone idc) →
  ∃ published,
    (published = base ∨
     ∃ value, published = annotate base globalIngressLBStatus value ∧
       sync_clusters ingress base ic = updateAnnotationOnIngress base globalIngressLBStatus value ic) ∧
    ∀ s, I s → ∃ s', process idc published s = (Val tt, s') ∧ I s' ∧
      ∀ c ci, reports ic ingress base cs c ci → served ic ingress base cs idc s' c.
Proof.
  intros Hw Hr Hc Hd D up. pose proof (sync_clusters_plan ic ingress base cs Hr Hc) as Hsync.
  assert (collected ic ingress base cs (foldl (absorb ic ingress base) ([], ∅) cs).2) as L.
  { intros n l. rewrite collected_status; [|eapply GetReadyClusters_NoDup; [exact clientFactory|exact Hw|exact Hr]|exact Hc].
    unfold reports. naive_solver. }
  destruct (foldl _ _ cs) as [ops lb]. cbn [snd] in L.
  assert (∃ published, parseGlobalLbStatusAnnotation published = Ok (Some lb) ∧
    (published = base ∨ ∃ value, published = annotate base globalIngressLBStatus value ∧
       sync_clusters ingress base ic = updateAnnotationOnIngress base globalIngressLBStatus value ic)) as (published&Hp&Hpub).
  { rewrite Hsync.
    destruct (propagate_publishes ingress base ops lb ic (collected_plain ic ingress base cs D lb L)) as [Hp|(v&Hv&Hp)];
      [by exists base; auto|]. exists (annotate base globalIngressLBStatus v). split; [exact Hp|]. right. by exists v. }
  assert (nn_of_meta (ing_meta published) = nn_of_meta (ing_meta base) ∧
    DeletionTimestamp (ing_meta published) = None ∧ wantsDNSRecords published = wantsDNSRecords base) as (Hn&Hd'&Hw').
  { by destruct Hpub as [->|(v&->&_)]. }
  exists published. split; [exact Hpub|]. intros s HI. destruct (wantsDNSRecords base) eqn:Hwants.
  - destruct (process_places idc published lb (published_publishable ic ingress base cs D lb L published Hd' Hw' Hp) I up s HI)
      as (s'&E&HI'&Hplaced&_).
    exists s'. split; [exact E|]. split; [done|]. intros c ci Hrep.
    eapply placed_served; [exact D|exact L|exact Hn|apply Hrep|]. apply Hplaced. by eapply reports_dom.
  - exists s. split; [unfold process; by rewrite Hw'|]. split; [done|]. intros c ci Hrep.
    rewrite (continues_status ic ingress base cs c ci) in Hwants; [done|apply Hc, Hrep|exact Hrep].
Qed.

(** ** The theorem at work *)

Module EndToEndExamples.
Import IngressControllerExamples.
#[local] Existing Instances MemZone.ops MemZone.rrsets MemZone.laws.
#[local] Existing Instances IngressDnsExamples.resolver IngressDnsExamples.key_order.

(** Two ready clusters in one region, each with a load balancer. *)
Definition located (n zone : string) : Cluster :=
  mkCluster (mkObjectMeta n "" "" "" None None None [] "") "" [mkCondition "Ready" "True"] (Some [zone]) "r1".
Definition both_clusters : Store Cluster := {[ "a" := Typed (located "a" "z1"); "b" := Typed (located "b" "z2") ]}.
Definition shown (lbi : LoadBalancerIngress) : Ingress :=
  mkIngress (ing_meta (web {[ firstClusterAnnotation := "a" ]})) (ing_spec (web ∅)) (mkLBS [lbi]).
Definition fed_web : Ingress := shown (mkLBI "10.0.0.1" "").
Definition caches : IngressController cloud :=
  mkIC {[ "ns/web" := Typed fed_web ]}
    (mkFedInformer both_clusters true
       {[ "a" := mkInformer {[ "ns/web" := Typed fed_web ]} true;
          "b" := mkInformer {[ "ns/web" := Typed (shown (mkLBI "" "lb.x")) ]} true ]})
    (mkFedInformer both_clusters true {[ "a" := mkInformer ∅ true; "b" := mkInformer ∅ true ]})
    (NewBackOff (5 * Second) (60 * Second)) (NewBackOff (5 * Second) (60 * Second)) [] [] [] empty_cloud.
Definition two : list Cluster := [located "a" "z1"; located "b" "z2"].

#[local] Instance fed_api : FedClusters MemZone.St := {|
  Clusters_Get n := mret (if bool_decide (n = "a") then Ok (located "a" "z1")
                          else if bool_decide (n = "b") then Ok (located "b" "z2")
                          else Err (StatusError "NotFound" "no such cluster")) |}.
#[local] Instance fed_stable : StableClusters MemZone.St := {|
  registry n := if bool_decide (n = "a") then Ok (located "a" "z1")
                else if bool_decide (n = "b") then Ok (located "b" "z2")
                else Err (StatusError "NotFound" "no such cluster");
  Get_registry n s := eq_refl |}.

Lemma caches_wf : clusters_wf both_clusters.
Proof.
  intros n i E. unfold both_clusters in E.
  apply lookup_insert_Some in E as [[<- <-]|[_ E]]; [eexists; split; reflexivity|].
  apply lookup_singleton_Some in E as [<- <-]. eexists; split; reflexivity.
Qed.

Lemma two_continue c : c ∈ two → continues caches name fed_web c.
Proof. revert c. apply Forall_forall. repeat constructor; eexists _, _; vm_compute; reflexivity. Qed.

Lemma two_report c ci : reports caches name fed_web two c ci →
  (c = located "a" "z1" ∧ ci = fed_web) ∨ (c = located "b" "z2" ∧ ci = shown (mkLBI "" "lb.x")).
Proof.
  intros ([-> |[-> |[]%elem_of_nil]%elem_of_cons]%elem_of_cons&_&E&_); [left|right]; split; try reflexivity;
    vm_compute in E; injection E as <-; reflexivity.
Qed.

Lemma two_view : dns_view (St := MemZone.St) caches name fed_web two.
Proof.
  split.
  - apply Forall_forall. repeat constructor.
  - apply Forall_forall. repeat constructor; eexists; split_and!; vm_compute; reflexivity.
  - apply Forall_forall. repeat constructor.
  - intros c ci [[-> ->]|[-> ->]]%two_report; vm_compute; reflexivity.
  - intros c ci b [[-> ->]|[-> ->]]%two_report Hb; apply list_elem_of_singleton in Hb as ->;
      (split; [vm_compute; discriminate|eexists; vm_compute; reflexivity]).
Qed.

Definition dns : IngressDNSController unit := mkController "fed" "ing" "x.io" tt.
Lemma status_reaches_dns_witness :
  ∃ published,
    (published = fed_web ∨
     ∃ value, published = annotate fed_web globalIngressLBStatus value ∧
       sync_clusters name fed_web caches = updateAnnotationOnIngress fed_web globalIngressLBStatus value caches) ∧
    ∀ s, MemZone.reachable s = true → ∃ s', process dns published s = (Val tt, s') ∧ MemZone.reachable s' = true ∧
      ∀ c ci, reports caches name fed_web two c ci → served caches name fed_web two dns s' c.
Proof.
  apply (status_reaches_dns caches name fed_web two dns (λ s, MemZone.reachable s = true)).
  - exact caches_wf.
  - vm_compute. reflexivity.
  - exact two_continue.
  - reflexivity.
  - exact two_view.
  - exact IngressDnsProcessExamples.reachable_up.
Defined.

(** The whole way, computed: the review writes the annotation, the DNS controller reads it
    back from the API server. *)
Example from_review_to_records :
  let w := apis (reconcileIngress name caches).2 in
  (λ i, (λ r, (MemZone.name r, MemZone.rrdatas r)) <$>
        MemZone.records (process dns i (MemZone.mkSt [] true)).2) <$> (fed_ingresses w !! "ns/web") =
  Some [("web.ns.fed.ing.z1.r1.x.io", ["10.0.0.1"]); ("web.ns.fed.ing.r1.x.io", ["10.0.0.1"; "9.9.9.9"]);
        ("web.ns.fed.ing.x.io", ["10.0.0.1"; "9.9.9.9"]); ("web.ns.fed.ing.z2.r1.x.io", ["9.9.9.9"])].
Proof. vm_compute. reflexivity. Qed.
End EndToEndExamples.
